(** * Epoch preparation, registry updates and indexed-attestation checks

    A shallow embedding of the beacon-chain epoch engine:
    - [ValidateIndexedAttestationIndicesSet] and
      [ValidateIndexedAttestationNoSignature] (eth2/beacon/indexed.go),
    - [PrepareEpochProcess] with [GetChurnLimit] (the epoch statistics
      collector),
    - [ProcessEpochRegistryUpdates] (eth2/beacon/registry.go),
    - [InitiateValidatorExit] (the voluntary-exit file).

    Unsigned 64-bit scalars are integers of [Z]; an addition that can
    leave the range of [uint64] is written with its wrap-around
    ([wrap64]).  Fallible code returns a [result]; a Go run-time panic
    (index out of range, division by zero) is an error of its own. *)

From Stdlib Require Import ZArith List Bool Lia Permutation Sorted.
Import ListNotations.
Local Open Scope Z_scope.

(** ** Scalars *)

Definition Epoch := Z.
Definition Slot := Z.
Definition ValidatorIndex := Z.
Definition CommitteeIndex := Z.
Definition Gwei := Z.
Definition Root := Z.

Definition uint64_modulus : Z := 2 ^ 64.

(** Reduction of an integer into the range of [uint64]. *)
Definition wrap64 (z : Z) : Z := z mod uint64_modulus.

(** [const FAR_FUTURE_EPOCH = Epoch(^uint64(0))] *)
Definition FAR_FUTURE_EPOCH : Epoch := uint64_modulus - 1.

(** ** Errors and results *)

Inductive error : Type :=
| TransitionCancelErr
| ErrIndicesCount (count : Z)
| ErrEmptyAttestation
| ErrIndicesNotSorted
| ErrIndicesDuplicate (i j : Z) (index : ValidatorIndex)
| ErrIndexOutOfRange
| ErrStateAccess (code : Z)
| PanicIndexOutOfRange
| PanicDivideByZero.

Inductive result (A : Type) : Type :=
| Ok (a : A)
| Err (e : error).
Arguments Ok {A} a.
Arguments Err {A} e.

Definition bind {A B : Type} (r : result A) (k : A -> result B) : result B :=
  match r with
  | Ok a => k a
  | Err e => Err e
  end.

Notation "'do' x <- r ;; k" := (bind r (fun x => k))
  (at level 10, x name, r at level 100, k at level 200).

(** A Go function returning [error] alone: [None] is [nil]. *)
Definition error_of {A : Type} (r : result A) : option error :=
  match r with
  | Ok _ => None
  | Err e => Some e
  end.

(** A Go function returning a pointer and an [error]: the pointer is [nil]
    exactly when the error is not. *)
Definition returned {A : Type} (r : result A) : option A * option error :=
  match r with
  | Ok a => (Some a, None)
  | Err e => (None, Some e)
  end.

(** ** Slices *)

Section Slices.
Context {A : Type}.

(** [s[i]] for a [uint64] or [int] index: a panic out of range. *)
Definition index_at (s : list A) (i : Z) : result A :=
  if i <? 0 then Err PanicIndexOutOfRange
  else match nth_error s (Z.to_nat i) with
       | Some a => Ok a
       | None => Err PanicIndexOutOfRange
       end.

Fixpoint modify_nat (n : nat) (f : A -> A) (s : list A) : option (list A) :=
  match s, n with
  | [], _ => None
  | a :: s', O => Some (f a :: s')
  | a :: s', S n' =>
      match modify_nat n' f s' with
      | Some t => Some (a :: t)
      | None => None
      end
  end.

(** [p := &s[i]] followed by writes through [p]: an in-place update of
    one element of the slice, a panic out of range. *)
Definition modify_at (s : list A) (i : Z) (f : A -> A) : result (list A) :=
  if i <? 0 then Err PanicIndexOutOfRange
  else match modify_nat (Z.to_nat i) f s with
       | Some t => Ok t
       | None => Err PanicIndexOutOfRange
       end.

(** [len(s)] *)
Definition len (s : list A) : Z := Z.of_nat (length s).
End Slices.

(** ** Protocol configuration

    The [Spec] value carries the protocol constants the code reads, and the
    two helpers it calls whose bodies are declared elsewhere. *)

Record Spec : Type := {
  MAX_VALIDATORS_PER_COMMITTEE : Z;
  EPOCHS_PER_SLASHINGS_VECTOR : Z;
  MIN_PER_EPOCH_CHURN_LIMIT : Z;
  CHURN_LIMIT_QUOTIENT : Z;
  MAX_EFFECTIVE_BALANCE : Gwei;
  EJECTION_BALANCE : Gwei;
  EFFECTIVE_BALANCE_INCREMENT : Gwei;
  MIN_VALIDATOR_WITHDRAWABILITY_DELAY : Epoch;
  (** [spec.ComputeActivationExitEpoch(epoch)] *)
  ComputeActivationExitEpoch : Epoch -> Epoch;
  (** [spec.EpochStartSlot(epoch)] *)
  EpochStartSlot : Epoch -> result Slot
}.

(** ** Validators *)

Record FlatValidator : Type := {
  EffectiveBalance : Gwei;
  Slashed : bool;
  ActivationEligibilityEpoch : Epoch;
  ActivationEpoch : Epoch;
  ExitEpoch : Epoch;
  WithdrawableEpoch : Epoch
}.

(** Modelled from the spec: [FlatValidator.IsActive] is declared outside
    the sources at hand; the data model gives
    [activation_epoch <= epoch < exit_epoch]. *)
Definition IsActive (v : FlatValidator) (epoch : Epoch) : bool :=
  (ActivationEpoch v <=? epoch) && (epoch <? ExitEpoch v).

Definition SetExitEpoch (e : Epoch) (v : FlatValidator) : FlatValidator :=
  {| EffectiveBalance := EffectiveBalance v; Slashed := Slashed v;
     ActivationEligibilityEpoch := ActivationEligibilityEpoch v;
     ActivationEpoch := ActivationEpoch v;
     ExitEpoch := e; WithdrawableEpoch := WithdrawableEpoch v |}.

Definition SetWithdrawableEpoch (e : Epoch) (v : FlatValidator) : FlatValidator :=
  {| EffectiveBalance := EffectiveBalance v; Slashed := Slashed v;
     ActivationEligibilityEpoch := ActivationEligibilityEpoch v;
     ActivationEpoch := ActivationEpoch v;
     ExitEpoch := ExitEpoch v; WithdrawableEpoch := e |}.

Definition SetActivationEligibilityEpoch (e : Epoch) (v : FlatValidator) : FlatValidator :=
  {| EffectiveBalance := EffectiveBalance v; Slashed := Slashed v;
     ActivationEligibilityEpoch := e;
     ActivationEpoch := ActivationEpoch v;
     ExitEpoch := ExitEpoch v; WithdrawableEpoch := WithdrawableEpoch v |}.

Definition SetActivationEpoch (e : Epoch) (v : FlatValidator) : FlatValidator :=
  {| EffectiveBalance := EffectiveBalance v; Slashed := Slashed v;
     ActivationEligibilityEpoch := ActivationEligibilityEpoch v;
     ActivationEpoch := e;
     ExitEpoch := ExitEpoch v; WithdrawableEpoch := WithdrawableEpoch v |}.

(** The validator registry behind [state.Validators()]: a list indexed by
    validator index.  A read or write of a validator that is not there is a
    state-access error. *)
Definition ValidatorsRegistryView := list FlatValidator.

Definition registry_get (vals : ValidatorsRegistryView) (index : ValidatorIndex)
  : result FlatValidator :=
  if index <? 0 then Err (ErrStateAccess index)
  else match nth_error vals (Z.to_nat index) with
       | Some v => Ok v
       | None => Err (ErrStateAccess index)
       end.

Definition registry_set (vals : ValidatorsRegistryView) (index : ValidatorIndex)
    (f : FlatValidator -> FlatValidator) : result ValidatorsRegistryView :=
  if index <? 0 then Err (ErrStateAccess index)
  else match modify_nat (Z.to_nat index) f vals with
       | Some t => Ok t
       | None => Err (ErrStateAccess index)
       end.

(** ** Attestations *)

Record Checkpoint : Type := {
  cp_Epoch : Epoch;
  cp_Root : Root
}.

Record AttestationData : Type := {
  att_Slot : Slot;
  att_Index : CommitteeIndex;
  BeaconBlockRoot : Root;
  Source : Checkpoint;
  Target : Checkpoint
}.

(** The aggregation bitfield of a pending attestation, seen through the one
    method the collector calls on it: [FilterParticipants] keeps the
    committee members the bitfield marks. *)
Record CommitteeBits : Type := {
  FilterParticipants : list ValidatorIndex -> list ValidatorIndex
}.

Record PendingAttestation : Type := {
  AggregationBits : CommitteeBits;
  Data : AttestationData;
  att_InclusionDelay : Slot;
  ProposerIndex : ValidatorIndex
}.

Definition CommitteeIndices := list ValidatorIndex.
Definition ValidatorSet := list ValidatorIndex.

Record IndexedAttestation : Type := {
  AttestingIndices : CommitteeIndices;
  ia_Data : AttestationData;
  ia_Signature : Z
}.

(** ** State and context *)

(** The beacon state, as far as the code under study reads it.  The view is
    taken over a well-formed backing tree: reading a field that exists does
    not fail; a validator index that is out of range does. *)
Record BeaconStateView : Type := {
  Validators : ValidatorsRegistryView;
  PreviousEpochAttestations : list PendingAttestation;
  CurrentEpochAttestations : list PendingAttestation;
  (** [spec.GetBlockRootAtSlot(state, slot)] *)
  GetBlockRootAtSlot : Slot -> result Root;
  FinalizedCheckpoint : Checkpoint
}.

(** Modelled from the spec: [state.IsValidIndex] is declared outside the
    sources at hand; the validator's design has it require the index to be
    within registry bounds. *)
Definition IsValidIndex (state : BeaconStateView) (index : ValidatorIndex) : bool :=
  (0 <=? index) && (index <? len (Validators state)).

Record EpochsContext : Type := {
  (** [epc.PreviousEpoch.Epoch] *)
  PreviousEpoch : Epoch;
  (** [epc.CurrentEpoch.Epoch] *)
  CurrentEpoch : Epoch;
  (** [epc.CurrentEpoch.ActiveIndices] *)
  CurrentActiveIndices : list ValidatorIndex;
  (** [epc.GetBeaconCommittee(slot, index)] *)
  GetBeaconCommittee : Slot -> CommitteeIndex -> result (list ValidatorIndex)
}.

(** *** Cancellation

    The code never blocks on [ctx.Done()]: it asks, at fixed places, whether
    the channel is closed.  A [Context] answers that question for every
    place where it can be asked. *)
Inductive AttestationPass : Type :=
| PreviousPass
| CurrentPass.

Inductive PollSite : Type :=
| PollValidator (i : ValidatorIndex)
| PollAttestation (pass : AttestationPass) (i : Z)
| PollRegistryUpdates.

Definition Context := PollSite -> bool.

(** [select { case <-ctx.Done(): return TransitionCancelErr; default: }] *)
Definition poll (ctx : Context) (site : PollSite) : result unit :=
  if ctx site then Err TransitionCancelErr else Ok tt.

(** ** Attester statuses *)

Definition AttesterFlag := Z.

(** Modelled from the spec: the declaration of [AttesterFlag], of its
    constants and of [HasMarkers] is outside the sources at hand.  The data
    model gives a flag bitset with these eight members; each is a bit of its
    own in a [uint8], and [HasMarkers] holds when all the asked bits are
    set. *)
Definition PrevSourceAttester : AttesterFlag := 1.
Definition PrevTargetAttester : AttesterFlag := 2.
Definition PrevHeadAttester : AttesterFlag := 4.
Definition CurrSourceAttester : AttesterFlag := 8.
Definition CurrTargetAttester : AttesterFlag := 16.
Definition CurrHeadAttester : AttesterFlag := 32.
Definition UnslashedAttester : AttesterFlag := 64.
Definition EligibleAttester : AttesterFlag := 128.

Definition HasMarkers (flags markers : AttesterFlag) : bool :=
  Z.land flags markers =? markers.

(** Modelled from the spec: [ValidatorIndexMarker] is declared outside the
    sources at hand; it is the sentinel the proposer index holds until it is
    set. *)
Definition ValidatorIndexMarker : ValidatorIndex := uint64_modulus - 1.

Record AttesterStatus : Type := {
  Validator : FlatValidator;
  Flags : AttesterFlag;
  Active : bool;
  InclusionDelay : Slot;
  AttestedProposer : ValidatorIndex
}.

Definition set_Validator (x : FlatValidator) (status : AttesterStatus) : AttesterStatus :=
  {| Validator := x; Flags := Flags status; Active := Active status; InclusionDelay := InclusionDelay status; AttestedProposer := AttestedProposer status |}.

Definition set_Flags (x : AttesterFlag) (status : AttesterStatus) : AttesterStatus :=
  {| Validator := Validator status; Flags := x; Active := Active status; InclusionDelay := InclusionDelay status; AttestedProposer := AttestedProposer status |}.

Definition set_Active (x : bool) (status : AttesterStatus) : AttesterStatus :=
  {| Validator := Validator status; Flags := Flags status; Active := x; InclusionDelay := InclusionDelay status; AttestedProposer := AttestedProposer status |}.

Definition set_InclusionDelay (x : Slot) (status : AttesterStatus) : AttesterStatus :=
  {| Validator := Validator status; Flags := Flags status; Active := Active status; InclusionDelay := x; AttestedProposer := AttestedProposer status |}.

Definition set_AttestedProposer (x : ValidatorIndex) (status : AttesterStatus) : AttesterStatus :=
  {| Validator := Validator status; Flags := Flags status; Active := Active status; InclusionDelay := InclusionDelay status; AttestedProposer := x |}.
(** [status.Flags |= flag] *)
Definition or_Flags (flag : AttesterFlag) (status : AttesterStatus) : AttesterStatus :=
  set_Flags (Z.lor (Flags status) flag) status.

(** The zero value [make] fills a slice of statuses with. *)
Definition zero_validator : FlatValidator :=
  {| EffectiveBalance := 0; Slashed := false; ActivationEligibilityEpoch := 0;
     ActivationEpoch := 0; ExitEpoch := 0; WithdrawableEpoch := 0 |}.

Definition zero_status : AttesterStatus :=
  {| Validator := zero_validator; Flags := 0; Active := false;
     InclusionDelay := 0; AttestedProposer := 0 |}.

(** ** The epoch process *)

Record EpochStakeSummary : Type := {
  SourceStake : Gwei;
  TargetStake : Gwei;
  HeadStake : Gwei
}.

Record EpochProcess : Type := {
  PrevEpoch : Epoch;
  CurrEpoch : Epoch;
  Statuses : list AttesterStatus;
  TotalActiveStake : Gwei;
  PrevEpochUnslashedStake : EpochStakeSummary;
  CurrEpochUnslashedTargetStake : Gwei;
  ActiveValidators : Z;
  IndicesToSlash : list ValidatorIndex;
  IndicesToSetActivationEligibility : list ValidatorIndex;
  IndicesToMaybeActivate : list ValidatorIndex;
  IndicesToEject : list ValidatorIndex;
  ExitQueueEnd : Epoch;
  ExitQueueEndChurn : Z;
  ChurnLimit : Z
}.

(** [out.Field = x], one definition per field the code writes. *)
Definition set_Statuses (x : list AttesterStatus) (out : EpochProcess) : EpochProcess :=
  {| PrevEpoch := PrevEpoch out;
     CurrEpoch := CurrEpoch out;
     Statuses := x;
     TotalActiveStake := TotalActiveStake out;
     PrevEpochUnslashedStake := PrevEpochUnslashedStake out;
     CurrEpochUnslashedTargetStake := CurrEpochUnslashedTargetStake out;
     ActiveValidators := ActiveValidators out;
     IndicesToSlash := IndicesToSlash out;
     IndicesToSetActivationEligibility := IndicesToSetActivationEligibility out;
     IndicesToMaybeActivate := IndicesToMaybeActivate out;
     IndicesToEject := IndicesToEject out;
     ExitQueueEnd := ExitQueueEnd out;
     ExitQueueEndChurn := ExitQueueEndChurn out;
     ChurnLimit := ChurnLimit out |}.

Definition set_TotalActiveStake (x : Gwei) (out : EpochProcess) : EpochProcess :=
  {| PrevEpoch := PrevEpoch out;
     CurrEpoch := CurrEpoch out;
     Statuses := Statuses out;
     TotalActiveStake := x;
     PrevEpochUnslashedStake := PrevEpochUnslashedStake out;
     CurrEpochUnslashedTargetStake := CurrEpochUnslashedTargetStake out;
     ActiveValidators := ActiveValidators out;
     IndicesToSlash := IndicesToSlash out;
     IndicesToSetActivationEligibility := IndicesToSetActivationEligibility out;
     IndicesToMaybeActivate := IndicesToMaybeActivate out;
     IndicesToEject := IndicesToEject out;
     ExitQueueEnd := ExitQueueEnd out;
     ExitQueueEndChurn := ExitQueueEndChurn out;
     ChurnLimit := ChurnLimit out |}.

Definition set_PrevEpochUnslashedStake (x : EpochStakeSummary) (out : EpochProcess) : EpochProcess :=
  {| PrevEpoch := PrevEpoch out;
     CurrEpoch := CurrEpoch out;
     Statuses := Statuses out;
     TotalActiveStake := TotalActiveStake out;
     PrevEpochUnslashedStake := x;
     CurrEpochUnslashedTargetStake := CurrEpochUnslashedTargetStake out;
     ActiveValidators := ActiveValidators out;
     IndicesToSlash := IndicesToSlash out;
     IndicesToSetActivationEligibility := IndicesToSetActivationEligibility out;
     IndicesToMaybeActivate := IndicesToMaybeActivate out;
     IndicesToEject := IndicesToEject out;
     ExitQueueEnd := ExitQueueEnd out;
     ExitQueueEndChurn := ExitQueueEndChurn out;
     ChurnLimit := ChurnLimit out |}.

Definition set_CurrEpochUnslashedTargetStake (x : Gwei) (out : EpochProcess) : EpochProcess :=
  {| PrevEpoch := PrevEpoch out;
     CurrEpoch := CurrEpoch out;
     Statuses := Statuses out;
     TotalActiveStake := TotalActiveStake out;
     PrevEpochUnslashedStake := PrevEpochUnslashedStake out;
     CurrEpochUnslashedTargetStake := x;
     ActiveValidators := ActiveValidators out;
     IndicesToSlash := IndicesToSlash out;
     IndicesToSetActivationEligibility := IndicesToSetActivationEligibility out;
     IndicesToMaybeActivate := IndicesToMaybeActivate out;
     IndicesToEject := IndicesToEject out;
     ExitQueueEnd := ExitQueueEnd out;
     ExitQueueEndChurn := ExitQueueEndChurn out;
     ChurnLimit := ChurnLimit out |}.

Definition set_IndicesToSlash (x : list ValidatorIndex) (out : EpochProcess) : EpochProcess :=
  {| PrevEpoch := PrevEpoch out;
     CurrEpoch := CurrEpoch out;
     Statuses := Statuses out;
     TotalActiveStake := TotalActiveStake out;
     PrevEpochUnslashedStake := PrevEpochUnslashedStake out;
     CurrEpochUnslashedTargetStake := CurrEpochUnslashedTargetStake out;
     ActiveValidators := ActiveValidators out;
     IndicesToSlash := x;
     IndicesToSetActivationEligibility := IndicesToSetActivationEligibility out;
     IndicesToMaybeActivate := IndicesToMaybeActivate out;
     IndicesToEject := IndicesToEject out;
     ExitQueueEnd := ExitQueueEnd out;
     ExitQueueEndChurn := ExitQueueEndChurn out;
     ChurnLimit := ChurnLimit out |}.

Definition set_IndicesToSetActivationEligibility (x : list ValidatorIndex) (out : EpochProcess) : EpochProcess :=
  {| PrevEpoch := PrevEpoch out;
     CurrEpoch := CurrEpoch out;
     Statuses := Statuses out;
     TotalActiveStake := TotalActiveStake out;
     PrevEpochUnslashedStake := PrevEpochUnslashedStake out;
     CurrEpochUnslashedTargetStake := CurrEpochUnslashedTargetStake out;
     ActiveValidators := ActiveValidators out;
     IndicesToSlash := IndicesToSlash out;
     IndicesToSetActivationEligibility := x;
     IndicesToMaybeActivate := IndicesToMaybeActivate out;
     IndicesToEject := IndicesToEject out;
     ExitQueueEnd := ExitQueueEnd out;
     ExitQueueEndChurn := ExitQueueEndChurn out;
     ChurnLimit := ChurnLimit out |}.

Definition set_IndicesToMaybeActivate (x : list ValidatorIndex) (out : EpochProcess) : EpochProcess :=
  {| PrevEpoch := PrevEpoch out;
     CurrEpoch := CurrEpoch out;
     Statuses := Statuses out;
     TotalActiveStake := TotalActiveStake out;
     PrevEpochUnslashedStake := PrevEpochUnslashedStake out;
     CurrEpochUnslashedTargetStake := CurrEpochUnslashedTargetStake out;
     ActiveValidators := ActiveValidators out;
     IndicesToSlash := IndicesToSlash out;
     IndicesToSetActivationEligibility := IndicesToSetActivationEligibility out;
     IndicesToMaybeActivate := x;
     IndicesToEject := IndicesToEject out;
     ExitQueueEnd := ExitQueueEnd out;
     ExitQueueEndChurn := ExitQueueEndChurn out;
     ChurnLimit := ChurnLimit out |}.

Definition set_IndicesToEject (x : list ValidatorIndex) (out : EpochProcess) : EpochProcess :=
  {| PrevEpoch := PrevEpoch out;
     CurrEpoch := CurrEpoch out;
     Statuses := Statuses out;
     TotalActiveStake := TotalActiveStake out;
     PrevEpochUnslashedStake := PrevEpochUnslashedStake out;
     CurrEpochUnslashedTargetStake := CurrEpochUnslashedTargetStake out;
     ActiveValidators := ActiveValidators out;
     IndicesToSlash := IndicesToSlash out;
     IndicesToSetActivationEligibility := IndicesToSetActivationEligibility out;
     IndicesToMaybeActivate := IndicesToMaybeActivate out;
     IndicesToEject := x;
     ExitQueueEnd := ExitQueueEnd out;
     ExitQueueEndChurn := ExitQueueEndChurn out;
     ChurnLimit := ChurnLimit out |}.

Definition set_ExitQueueEnd (x : Epoch) (out : EpochProcess) : EpochProcess :=
  {| PrevEpoch := PrevEpoch out;
     CurrEpoch := CurrEpoch out;
     Statuses := Statuses out;
     TotalActiveStake := TotalActiveStake out;
     PrevEpochUnslashedStake := PrevEpochUnslashedStake out;
     CurrEpochUnslashedTargetStake := CurrEpochUnslashedTargetStake out;
     ActiveValidators := ActiveValidators out;
     IndicesToSlash := IndicesToSlash out;
     IndicesToSetActivationEligibility := IndicesToSetActivationEligibility out;
     IndicesToMaybeActivate := IndicesToMaybeActivate out;
     IndicesToEject := IndicesToEject out;
     ExitQueueEnd := x;
     ExitQueueEndChurn := ExitQueueEndChurn out;
     ChurnLimit := ChurnLimit out |}.

Definition set_ExitQueueEndChurn (x : Z) (out : EpochProcess) : EpochProcess :=
  {| PrevEpoch := PrevEpoch out;
     CurrEpoch := CurrEpoch out;
     Statuses := Statuses out;
     TotalActiveStake := TotalActiveStake out;
     PrevEpochUnslashedStake := PrevEpochUnslashedStake out;
     CurrEpochUnslashedTargetStake := CurrEpochUnslashedTargetStake out;
     ActiveValidators := ActiveValidators out;
     IndicesToSlash := IndicesToSlash out;
     IndicesToSetActivationEligibility := IndicesToSetActivationEligibility out;
     IndicesToMaybeActivate := IndicesToMaybeActivate out;
     IndicesToEject := IndicesToEject out;
     ExitQueueEnd := ExitQueueEnd out;
     ExitQueueEndChurn := x;
     ChurnLimit := ChurnLimit out |}.

Definition set_ChurnLimit (x : Z) (out : EpochProcess) : EpochProcess :=
  {| PrevEpoch := PrevEpoch out;
     CurrEpoch := CurrEpoch out;
     Statuses := Statuses out;
     TotalActiveStake := TotalActiveStake out;
     PrevEpochUnslashedStake := PrevEpochUnslashedStake out;
     CurrEpochUnslashedTargetStake := CurrEpochUnslashedTargetStake out;
     ActiveValidators := ActiveValidators out;
     IndicesToSlash := IndicesToSlash out;
     IndicesToSetActivationEligibility := IndicesToSetActivationEligibility out;
     IndicesToMaybeActivate := IndicesToMaybeActivate out;
     IndicesToEject := IndicesToEject out;
     ExitQueueEnd := ExitQueueEnd out;
     ExitQueueEndChurn := ExitQueueEndChurn out;
     ChurnLimit := x |}.

(** ** Indexed attestations (eth2/beacon/indexed.go) *)

(** Modelled from the spec: the ordering methods of [ValidatorSet] are
    declared outside the sources at hand; the set is kept in ascending
    order of index, so [Less] compares two entries with [<]. *)
Definition ValidatorSet_Less (a b : ValidatorIndex) : bool := a <? b.

(** [sort.IsSorted(indices)]: no entry is [Less] than the entry before it. *)
Fixpoint IsSorted (indices : ValidatorSet) : bool :=
  match indices with
  | a :: (b :: _) as rest => negb (ValidatorSet_Less b a) && IsSorted rest
  | _ => true
  end.

(** The scan [for i := 1; i < len(indices); i++] for two equal neighbours;
    [indices] here is the slice from position [i-1] on. *)
Fixpoint find_duplicate (i : Z) (indices : ValidatorSet) : option error :=
  match indices with
  | a :: (b :: _) as rest =>
      if a =? b then Some (ErrIndicesDuplicate (i - 1) i b)
      else find_duplicate (i + 1) rest
  | _ => None
  end.

Definition ValidateIndexedAttestationIndicesSet (spec : Spec)
    (indexedAttestation : IndexedAttestation) : result ValidatorSet :=
  let indices : ValidatorSet := AttestingIndices indexedAttestation in
  let count := len indices in
  if MAX_VALIDATORS_PER_COMMITTEE spec <? count then Err (ErrIndicesCount count)
  else if len indices <=? 0 then Err ErrEmptyAttestation
  else if negb (IsSorted indices) then Err ErrIndicesNotSorted
  else match find_duplicate 1 indices with
       | Some e => Err e
       | None => Ok indices
       end.

Definition ValidateIndexedAttestationNoSignature (spec : Spec)
    (state : BeaconStateView) (indexedAttestation : IndexedAttestation)
  : option error :=
  error_of (
    do indices <- ValidateIndexedAttestationIndicesSet spec indexedAttestation ;;
    do last_index <- index_at indices (len indices - 1) ;;
    if IsValidIndex state last_index then Ok tt else Err ErrIndexOutOfRange).

(** ** The epoch statistics collector *)

(** [math.MaxU64] *)
Definition MaxU64 (a b : Z) : Z := Z.max a b.

(** [spec.GetChurnLimit]; the integer division panics on a zero quotient. *)
Definition GetChurnLimit (spec : Spec) (activeValidatorCount : Z) : result Z :=
  if CHURN_LIMIT_QUOTIENT spec =? 0 then Err PanicDivideByZero
  else Ok (MaxU64 (MIN_PER_EPOCH_CHURN_LIMIT spec)
                  (activeValidatorCount / CHURN_LIMIT_QUOTIENT spec)).

(** *** Pass 1: one iteration per validator *)

(** The writes through [status := &out.Statuses[i]] of one iteration. *)
Definition collect_status (prevEpoch currentEpoch : Epoch) (flat : FlatValidator)
    (status : AttesterStatus) : AttesterStatus :=
  let status := set_Validator flat status in
  let status := set_AttestedProposer ValidatorIndexMarker status in
  let status :=
    if Slashed flat then status else or_Flags UnslashedAttester status in
  let status :=
    if IsActive flat prevEpoch
       || (Slashed flat && (wrap64 (prevEpoch + 1) <? WithdrawableEpoch flat))
    then or_Flags EligibleAttester status else status in
  set_Active (IsActive flat currentEpoch) status.

(** The writes to the queues and totals of [out], and to [activeCount], of
    one iteration. *)
Definition collect_queues (spec : Spec) (currentEpoch slashingsEpoch : Epoch)
    (i : ValidatorIndex) (flat : FlatValidator)
    (acc : EpochProcess * Z) : EpochProcess * Z :=
  let (out, activeCount) := acc in
  let out :=
    if Slashed flat then
      if slashingsEpoch =? WithdrawableEpoch flat
      then set_IndicesToSlash (IndicesToSlash out ++ [i]) out else out
    else out in
  let active := IsActive flat currentEpoch in
  let activeCount := if active then activeCount + 1 else activeCount in
  let out :=
    if active
    then set_TotalActiveStake
           (wrap64 (TotalActiveStake out + EffectiveBalance flat)) out
    else out in
  let out :=
    if (ActivationEligibilityEpoch flat =? FAR_FUTURE_EPOCH)
       && (EffectiveBalance flat =? MAX_EFFECTIVE_BALANCE spec)
    then set_IndicesToSetActivationEligibility
           (IndicesToSetActivationEligibility out ++ [i]) out
    else out in
  let out :=
    if (ActivationEpoch flat =? FAR_FUTURE_EPOCH)
       && (ActivationEligibilityEpoch flat <=? currentEpoch)
    then set_IndicesToMaybeActivate (IndicesToMaybeActivate out ++ [i]) out
    else out in
  let out :=
    if active && (EffectiveBalance flat <=? EJECTION_BALANCE spec)
       && (ExitEpoch flat =? FAR_FUTURE_EPOCH)
    then set_IndicesToEject (IndicesToEject out ++ [i]) out
    else out in
  (out, activeCount).

(** The loop [for i := ValidatorIndex(0); true; i++] over the registry
    iterator; [vals] is what the iterator has left to yield.  The counters
    [i] and [activeCount] never exceed the registry length, a [uint64], so
    their increments are written without reduction. *)
Fixpoint collect_validators (ctx : Context) (spec : Spec)
    (prevEpoch currentEpoch slashingsEpoch : Epoch)
    (i : ValidatorIndex) (vals : list FlatValidator)
    (acc : EpochProcess * Z) : result (EpochProcess * Z) :=
  do cancelled <- (if Z.land i (Z.shiftl 1 10 - 1) =? 0
                then poll ctx (PollValidator i) else Ok tt) ;;
  match vals with
  | [] => Ok acc
  | flat :: rest =>
      do statuses <- modify_at (Statuses (fst acc)) i
                    (collect_status prevEpoch currentEpoch flat) ;;
      let acc := (set_Statuses statuses (fst acc), snd acc) in
      collect_validators ctx spec prevEpoch currentEpoch slashingsEpoch
        (i + 1) rest
        (collect_queues spec currentEpoch slashingsEpoch i flat acc)
  end.

(** *** The maybe-activate ordering *)

(** [out.Statuses[valIndex].Validator.ActivationEligibilityEpoch], read by
    the comparison of the sort.  Every queued index was written by pass 1,
    so the read is in range; outside the range the model reads zero. *)
Definition eligibility_of (statuses : list AttesterStatus)
    (valIndex : ValidatorIndex) : Epoch :=
  match index_at statuses valIndex with
  | Ok status => ActivationEligibilityEpoch (Validator status)
  | Err _ => 0
  end.

(** The [less] closure handed to [sort.Slice]. *)
Definition maybe_activate_less (statuses : list AttesterStatus)
    (valIndexA valIndexB : ValidatorIndex) : bool :=
  let a := eligibility_of statuses valIndexA in
  let b := eligibility_of statuses valIndexB in
  if a =? b then valIndexA <? valIndexB else a <? b.

(** [sort.Slice] of the Go library, by its contract: the slice is
    rearranged into an order in which no element is [less] than an earlier
    one.  The model sorts by insertion. *)
Fixpoint sort_insert {A : Type} (less : A -> A -> bool) (x : A) (s : list A)
  : list A :=
  match s with
  | [] => [x]
  | y :: s' => if less x y then x :: s else y :: sort_insert less x s'
  end.

Definition sort_Slice {A : Type} (less : A -> A -> bool) (s : list A) : list A :=
  fold_right (sort_insert less) [] s.

(** *** The exit-queue cursor *)

(** The loop [for i := ValidatorIndex(0); i < ValidatorIndex(count); i++]
    that counts the statuses whose validator exits at [exitQueueEnd]. *)
Fixpoint count_exit_queue_end (exitQueueEnd : Epoch)
    (statuses : list AttesterStatus) (exitQueueEndChurn : Z) : Z :=
  match statuses with
  | [] => exitQueueEndChurn
  | status :: rest =>
      count_exit_queue_end exitQueueEnd rest
        (if ExitEpoch (Validator status) =? exitQueueEnd
         then exitQueueEndChurn + 1 else exitQueueEndChurn)
  end.

(** *** Pass 2: one run of [processEpoch] per pending-attestation list *)

(** [for _, p := range participants { status := &out.Statuses[p]; ... }] *)
Fixpoint for_participants (f : AttesterStatus -> AttesterStatus)
    (participants : list ValidatorIndex) (statuses : list AttesterStatus)
  : result (list AttesterStatus) :=
  match participants with
  | [] => Ok statuses
  | p :: rest =>
      do statuses <- modify_at statuses p f ;;
      for_participants f rest statuses
  end.

(** The earliest-inclusion update of the previous-epoch run. *)
Definition note_inclusion (att : PendingAttestation) (status : AttesterStatus)
  : AttesterStatus :=
  if (AttestedProposer status =? ValidatorIndexMarker)
     || (att_InclusionDelay att <? InclusionDelay status)
  then set_AttestedProposer (ProposerIndex att)
         (set_InclusionDelay (att_InclusionDelay att) status)
  else status.

(** The flag writes for one participant of one attestation. *)
Definition mark_flags (sourceFlag targetFlag headFlag : AttesterFlag)
    (att : PendingAttestation) (actualTargetBlockRoot attBlockRoot : Root)
    (status : AttesterStatus) : AttesterStatus :=
  let status := or_Flags sourceFlag status in
  if cp_Root (Target (Data att)) =? actualTargetBlockRoot then
    let status := or_Flags targetFlag status in
    if BeaconBlockRoot (Data att) =? attBlockRoot
    then or_Flags headFlag status
    else status
  else status.

Section ProcessEpoch.
Variables (ctx : Context) (epc : EpochsContext) (state : BeaconStateView).
Variables (prevEpoch : Epoch) (pass : AttestationPass) (epoch : Epoch).
Variables (sourceFlag targetFlag headFlag : AttesterFlag).
Variable actualTargetBlockRoot : Root.

(** The body of the attestation loop after the iterator yielded [att]. *)
Definition process_attestation (att : PendingAttestation)
    (statuses : list AttesterStatus) : result (list AttesterStatus) :=
  do attBlockRoot <- GetBlockRootAtSlot state (att_Slot (Data att)) ;;
  do committee <- GetBeaconCommittee epc (att_Slot (Data att))
                 (att_Index (Data att)) ;;
  let participants := FilterParticipants (AggregationBits att) committee in
  do statuses <- (if epoch =? prevEpoch
               then for_participants (note_inclusion att) participants statuses
               else Ok statuses) ;;
  for_participants
    (mark_flags sourceFlag targetFlag headFlag att
       actualTargetBlockRoot attBlockRoot)
    participants statuses.

(** The loop [for { ... i += 1 }] over the attestation iterator; [atts]
    is what the iterator has left to yield. *)
Fixpoint process_attestations (i : Z) (atts : list PendingAttestation)
    (statuses : list AttesterStatus) : result (list AttesterStatus) :=
  do cancelled <- (if Z.land i (Z.shiftl 1 5 - 1) =? 0
                then poll ctx (PollAttestation pass i) else Ok tt) ;;
  match atts with
  | [] => Ok statuses
  | att :: rest =>
      do statuses <- process_attestation att statuses ;;
      process_attestations (i + 1) rest statuses
  end.
End ProcessEpoch.

(** The closure [processEpoch] of [PrepareEpochProcess]. *)
Definition processEpoch (ctx : Context) (spec : Spec) (epc : EpochsContext)
    (state : BeaconStateView) (prevEpoch : Epoch) (pass : AttestationPass)
    (attestations : list PendingAttestation) (epoch : Epoch)
    (sourceFlag targetFlag headFlag : AttesterFlag)
    (statuses : list AttesterStatus) : result (list AttesterStatus) :=
  do startSlot <- EpochStartSlot spec epoch ;;
  do actualTargetBlockRoot <- GetBlockRootAtSlot state startSlot ;;
  process_attestations ctx epc state prevEpoch pass epoch
    sourceFlag targetFlag headFlag actualTargetBlockRoot 0 attestations statuses.

(** *** Stake totals *)

Definition add_SourceStake (x : Gwei) (s : EpochStakeSummary) : EpochStakeSummary :=
  {| SourceStake := wrap64 (SourceStake s + x);
     TargetStake := TargetStake s; HeadStake := HeadStake s |}.

Definition add_TargetStake (x : Gwei) (s : EpochStakeSummary) : EpochStakeSummary :=
  {| SourceStake := SourceStake s;
     TargetStake := wrap64 (TargetStake s + x); HeadStake := HeadStake s |}.

Definition add_HeadStake (x : Gwei) (s : EpochStakeSummary) : EpochStakeSummary :=
  {| SourceStake := SourceStake s;
     TargetStake := TargetStake s; HeadStake := wrap64 (HeadStake s + x) |}.

(** One iteration of [for i := 0; i < len(out.Statuses); i++]. *)
Definition add_stake (out : EpochProcess) (status : AttesterStatus) : EpochProcess :=
  let balance := EffectiveBalance (Validator status) in
  let prev := PrevEpochUnslashedStake out in
  let prev :=
    if HasMarkers (Flags status) (Z.lor PrevSourceAttester UnslashedAttester) then
      let prev := add_SourceStake balance prev in
      if HasMarkers (Flags status) PrevTargetAttester then
        let prev := add_TargetStake balance prev in
        if HasMarkers (Flags status) PrevHeadAttester
        then add_HeadStake balance prev
        else prev
      else prev
    else prev in
  let out := set_PrevEpochUnslashedStake prev out in
  if HasMarkers (Flags status) (Z.lor CurrTargetAttester UnslashedAttester)
  then set_CurrEpochUnslashedTargetStake
         (wrap64 (CurrEpochUnslashedTargetStake out + balance)) out
  else out.

(** The five clamps to [EFFECTIVE_BALANCE_INCREMENT] that end the function. *)
Definition clamp_stakes (spec : Spec) (out : EpochProcess) : EpochProcess :=
  let floor := EFFECTIVE_BALANCE_INCREMENT spec in
  let out :=
    if TotalActiveStake out <? floor then set_TotalActiveStake floor out else out in
  let out :=
    if SourceStake (PrevEpochUnslashedStake out) <? floor
    then set_PrevEpochUnslashedStake
           {| SourceStake := floor;
              TargetStake := TargetStake (PrevEpochUnslashedStake out);
              HeadStake := HeadStake (PrevEpochUnslashedStake out) |} out
    else out in
  let out :=
    if TargetStake (PrevEpochUnslashedStake out) <? floor
    then set_PrevEpochUnslashedStake
           {| SourceStake := SourceStake (PrevEpochUnslashedStake out);
              TargetStake := floor;
              HeadStake := HeadStake (PrevEpochUnslashedStake out) |} out
    else out in
  let out :=
    if HeadStake (PrevEpochUnslashedStake out) <? floor
    then set_PrevEpochUnslashedStake
           {| SourceStake := SourceStake (PrevEpochUnslashedStake out);
              TargetStake := TargetStake (PrevEpochUnslashedStake out);
              HeadStake := floor |} out
    else out in
  if CurrEpochUnslashedTargetStake out <? floor
  then set_CurrEpochUnslashedTargetStake floor out
  else out.

(** *** [PrepareEpochProcess] *)

(** [&EpochProcess{Statuses: make([]AttesterStatus, count, count), ...}] *)
Definition new_EpochProcess (count : nat) (prevEpoch currentEpoch : Epoch)
  : EpochProcess :=
  {| PrevEpoch := prevEpoch;
     CurrEpoch := currentEpoch;
     Statuses := repeat zero_status count;
     TotalActiveStake := 0;
     PrevEpochUnslashedStake :=
       {| SourceStake := 0; TargetStake := 0; HeadStake := 0 |};
     CurrEpochUnslashedTargetStake := 0;
     ActiveValidators := 0;
     IndicesToSlash := [];
     IndicesToSetActivationEligibility := [];
     IndicesToMaybeActivate := [];
     IndicesToEject := [];
     ExitQueueEnd := 0;
     ExitQueueEndChurn := 0;
     ChurnLimit := 0 |}.

(** The function up to its return, as a [result]. *)
Definition prepare_epoch_process (ctx : Context) (spec : Spec)
    (epc : EpochsContext) (state : BeaconStateView) : result EpochProcess :=
  let validators := Validators state in
  let count := length validators in
  let prevEpoch := PreviousEpoch epc in
  let currentEpoch := CurrentEpoch epc in
  let out := new_EpochProcess count prevEpoch currentEpoch in
  let slashingsEpoch :=
    wrap64 (currentEpoch + EPOCHS_PER_SLASHINGS_VECTOR spec / 2) in
  let exitQueueEnd := ComputeActivationExitEpoch spec currentEpoch in
  do acc <- collect_validators ctx spec prevEpoch currentEpoch slashingsEpoch
           0 validators (out, 0) ;;
  let (out, activeCount) := (acc : EpochProcess * Z) in
  let out :=
    set_IndicesToMaybeActivate
      (sort_Slice (maybe_activate_less (Statuses out))
         (IndicesToMaybeActivate out)) out in
  let exitQueueEndChurn := count_exit_queue_end exitQueueEnd (Statuses out) 0 in
  do churnLimit <- GetChurnLimit spec activeCount ;;
  let (exitQueueEnd, exitQueueEndChurn) :=
    (if exitQueueEndChurn >=? churnLimit
     then (wrap64 (exitQueueEnd + 1), 0)
     else (exitQueueEnd, exitQueueEndChurn)) : Epoch * Z in
  let out := set_ExitQueueEndChurn exitQueueEndChurn out in
  let out := set_ExitQueueEnd exitQueueEnd out in
  let out := set_ChurnLimit churnLimit out in
  do statuses <- processEpoch ctx spec epc state prevEpoch PreviousPass
                (PreviousEpochAttestations state) prevEpoch
                PrevSourceAttester PrevTargetAttester PrevHeadAttester
                (Statuses out) ;;
  let out := set_Statuses statuses out in
  do statuses <- processEpoch ctx spec epc state prevEpoch CurrentPass
                (CurrentEpochAttestations state) currentEpoch
                CurrSourceAttester CurrTargetAttester CurrHeadAttester
                (Statuses out) ;;
  let out := set_Statuses statuses out in
  let out := fold_left add_stake (Statuses out) out in
  Ok (clamp_stakes spec out).

(** [PrepareEpochProcess]: the process and the error it returns. *)
Definition PrepareEpochProcess (ctx : Context) (spec : Spec)
    (epc : EpochsContext) (state : BeaconStateView)
  : option EpochProcess * option error :=
  returned (prepare_epoch_process ctx spec epc state).

(** ** Registry updates (eth2/beacon/registry.go)

    The passes write to the registry and stop at the first error; what was
    written before stands.  A pass is a function from the registry to the
    registry it leaves and the outcome. *)

Definition Update (A : Type) : Type :=
  ValidatorsRegistryView -> ValidatorsRegistryView * result A.

Definition done {A : Type} (a : A) : Update A := fun vals => (vals, Ok a).

Definition fail {A : Type} (e : error) : Update A := fun vals => (vals, Err e).

Definition and_then {A B : Type} (m : Update A) (k : A -> Update B) : Update B :=
  fun vals =>
    match m vals with
    | (vals', Ok a) => k a vals'
    | (vals', Err e) => (vals', Err e)
    end.

Notation "'do' x <~ m ;; k" := (and_then m (fun x => k))
  (at level 10, x name, m at level 100, k at level 200).

(** [vals.Validator(index)] *)
Definition get_validator (index : ValidatorIndex) : Update FlatValidator :=
  fun vals => (vals, registry_get vals index).

(** A setter of the validator view obtained for [index]. *)
Definition set_validator (index : ValidatorIndex)
    (f : FlatValidator -> FlatValidator) : Update unit :=
  fun vals =>
    match registry_set vals index f with
    | Ok vals' => (vals', Ok tt)
    | Err e => (vals, Err e)
    end.

(** The ejection loop; [exitEnd] and [endChurn] are the running cursor. *)
Fixpoint process_ejections (spec : Spec) (churnLimit : Z)
    (indices : list ValidatorIndex) (exitEnd : Epoch) (endChurn : Z)
  : Update unit :=
  match indices with
  | [] => done tt
  | index :: rest =>
      do val <~ get_validator index ;;
      do set_exit <~ set_validator index (SetExitEpoch exitEnd) ;;
      do set_withdrawable <~
        set_validator index
          (SetWithdrawableEpoch
             (wrap64 (exitEnd + MIN_VALIDATOR_WITHDRAWABILITY_DELAY spec))) ;;
      let endChurn := wrap64 (endChurn + 1) in
      if endChurn >=? churnLimit
      then process_ejections spec churnLimit rest (wrap64 (exitEnd + 1)) 0
      else process_ejections spec churnLimit rest exitEnd endChurn
  end.

(** The eligibility loop. *)
Fixpoint process_eligibility (eligibilityEpoch : Epoch)
    (indices : list ValidatorIndex) : Update unit :=
  match indices with
  | [] => done tt
  | index :: rest =>
      do val <~ get_validator index ;;
      do set_eligibility <~
        set_validator index (SetActivationEligibilityEpoch eligibilityEpoch) ;;
      process_eligibility eligibilityEpoch rest
  end.

(** [dequeued = dequeued[:process.ChurnLimit]] when the queue is longer. *)
Definition churn_prefix (process : EpochProcess) : list ValidatorIndex :=
  let dequeued := IndicesToMaybeActivate process in
  if ChurnLimit process <? len dequeued
  then firstn (Z.to_nat (ChurnLimit process)) dequeued
  else dequeued.

(** The activation loop over [dequeued]. *)
Fixpoint process_activations (process : EpochProcess)
    (finalizedEpoch activationEpoch : Epoch) (dequeued : list ValidatorIndex)
  : Update unit :=
  match dequeued with
  | [] => done tt
  | index :: rest =>
      match index_at (Statuses process) index with
      | Err e => fail e
      | Ok status =>
          if finalizedEpoch <? ActivationEligibilityEpoch (Validator status)
          then done tt
          else
            do val <~ get_validator index ;;
            do set_activation <~
              set_validator index (SetActivationEpoch activationEpoch) ;;
            process_activations process finalizedEpoch activationEpoch rest
      end
  end.

(** [ProcessEpochRegistryUpdates]: the registry it leaves and the error it
    returns, from the registry of [state]. *)
Definition ProcessEpochRegistryUpdates (ctx : Context) (spec : Spec)
    (epc : EpochsContext) (process : EpochProcess) (state : BeaconStateView)
  : ValidatorsRegistryView * result unit :=
  match poll ctx PollRegistryUpdates with
  | Err e => (Validators state, Err e)
  | Ok _ =>
      (do ejected <~ process_ejections spec (ChurnLimit process)
                    (IndicesToEject process)
                    (ExitQueueEnd process) (ExitQueueEndChurn process) ;;
       do eligible <~ process_eligibility (wrap64 (CurrentEpoch epc + 1))
                     (IndicesToSetActivationEligibility process) ;;
       process_activations process
         (cp_Epoch (FinalizedCheckpoint state))
         (ComputeActivationExitEpoch spec (CurrentEpoch epc))
         (churn_prefix process))
        (Validators state)
  end.

(** ** Initiating an exit *)

(** The scan of [InitiateValidatorExit] for the end of the exit queue. *)
Fixpoint scan_exit_queue (vals : list FlatValidator)
    (exitQueueEnd : Epoch) (exitQueueEndChurn : Z) : Epoch * Z :=
  match vals with
  | [] => (exitQueueEnd, exitQueueEndChurn)
  | val :: rest =>
      let valExit := ExitEpoch val in
      if valExit =? FAR_FUTURE_EPOCH
      then scan_exit_queue rest exitQueueEnd exitQueueEndChurn
      else if valExit =? exitQueueEnd
      then scan_exit_queue rest exitQueueEnd (exitQueueEndChurn + 1)
      else if exitQueueEnd <? valExit
      then scan_exit_queue rest valExit 1
      else scan_exit_queue rest exitQueueEnd exitQueueEndChurn
  end.

Definition InitiateValidatorExit (spec : Spec) (epc : EpochsContext)
    (index : ValidatorIndex) : Update unit :=
  do v <~ get_validator index ;;
  if negb (ExitEpoch v =? FAR_FUTURE_EPOCH) then done tt
  else
    fun validators =>
      let currentEpoch := CurrentEpoch epc in
      let (exitQueueEnd, exitQueueEndChurn) :=
        scan_exit_queue validators
          (ComputeActivationExitEpoch spec currentEpoch) 0 in
      match GetChurnLimit spec (len (CurrentActiveIndices epc)) with
      | Err e => (validators, Err e)
      | Ok churnLimit =>
          let exitQueueEnd :=
            if exitQueueEndChurn >=? churnLimit
            then wrap64 (exitQueueEnd + 1) else exitQueueEnd in
          (do set_exit <~ set_validator index (SetExitEpoch exitQueueEnd) ;;
           set_validator index
             (SetWithdrawableEpoch
                (wrap64 (exitQueueEnd
                         + MIN_VALIDATOR_WITHDRAWABILITY_DELAY spec))))
            validators
      end.

(** ** Vocabulary of the properties *)

(** Two equal entries stand next to each other in [indices]. *)
Definition adjacent_equal (indices : list ValidatorIndex) : Prop :=
  exists l1 a l2, indices = l1 ++ a :: a :: l2.

(** The indices, counted from [i], of the validators of [vals] that
    satisfy [c], in registry order. *)
Fixpoint select_indices (c : FlatValidator -> bool) (i : ValidatorIndex)
    (vals : list FlatValidator) : list ValidatorIndex :=
  match vals with
  | [] => []
  | v :: rest =>
      if c v then i :: select_indices c (i + 1) rest
      else select_indices c (i + 1) rest
  end.

(** The conditions under which pass 1 queues a validator. *)
Definition queued_to_slash (slashingsEpoch : Epoch) (v : FlatValidator) : bool :=
  Slashed v && (slashingsEpoch =? WithdrawableEpoch v).

Definition queued_to_set_eligibility (spec : Spec) (v : FlatValidator) : bool :=
  (ActivationEligibilityEpoch v =? FAR_FUTURE_EPOCH)
  && (EffectiveBalance v =? MAX_EFFECTIVE_BALANCE spec).

Definition queued_to_maybe_activate (currentEpoch : Epoch) (v : FlatValidator) : bool :=
  (ActivationEpoch v =? FAR_FUTURE_EPOCH)
  && (ActivationEligibilityEpoch v <=? currentEpoch).

Definition queued_to_eject (spec : Spec) (currentEpoch : Epoch) (v : FlatValidator) : bool :=
  IsActive v currentEpoch && (EffectiveBalance v <=? EJECTION_BALANCE spec)
  && (ExitEpoch v =? FAR_FUTURE_EPOCH).

(** Two epoch processes that differ in their stake totals at most. *)
Definition same_but_stakes (a b : EpochProcess) : Prop :=
  PrevEpoch a = PrevEpoch b /\ CurrEpoch a = CurrEpoch b
  /\ Statuses a = Statuses b
  /\ IndicesToSlash a = IndicesToSlash b
  /\ IndicesToSetActivationEligibility a = IndicesToSetActivationEligibility b
  /\ IndicesToMaybeActivate a = IndicesToMaybeActivate b
  /\ IndicesToEject a = IndicesToEject b
  /\ ExitQueueEnd a = ExitQueueEnd b
  /\ ExitQueueEndChurn a = ExitQueueEndChurn b
  /\ ChurnLimit a = ChurnLimit b.

(** ** Example inputs *)

(** A configuration with the main-network constants; activation and exit
    take effect [1 + 4] epochs ahead, an epoch has 32 slots. *)
Definition mainnet : Spec :=
  {| MAX_VALIDATORS_PER_COMMITTEE := 2048;
     EPOCHS_PER_SLASHINGS_VECTOR := 8192;
     MIN_PER_EPOCH_CHURN_LIMIT := 4;
     CHURN_LIMIT_QUOTIENT := 65536;
     MAX_EFFECTIVE_BALANCE := 32000000000;
     EJECTION_BALANCE := 16000000000;
     EFFECTIVE_BALANCE_INCREMENT := 1000000000;
     MIN_VALIDATOR_WITHDRAWABILITY_DELAY := 256;
     ComputeActivationExitEpoch := fun epoch => wrap64 (epoch + 1 + 4);
     EpochStartSlot := fun epoch => Ok (epoch * 32) |}.

Definition never_cancelled : Context := fun _ => false.

Definition validator (balance : Gwei) (slashed : bool)
    (eligibility activation exit withdrawable : Epoch) : FlatValidator :=
  {| EffectiveBalance := balance; Slashed := slashed;
     ActivationEligibilityEpoch := eligibility; ActivationEpoch := activation;
     ExitEpoch := exit; WithdrawableEpoch := withdrawable |}.

(** A state without pending attestations over the registry [vals]. *)
Definition quiet_state (vals : list FlatValidator) (finalized : Epoch)
  : BeaconStateView :=
  {| Validators := vals;
     PreviousEpochAttestations := [];
     CurrentEpochAttestations := [];
     GetBlockRootAtSlot := fun slot => Ok slot;
     FinalizedCheckpoint := {| cp_Epoch := finalized; cp_Root := 0 |} |}.

(** The context of epoch 10, every committee being [committee]. *)
Definition epoch_ten (committee : list ValidatorIndex) : EpochsContext :=
  {| PreviousEpoch := 9; CurrentEpoch := 10;
     CurrentActiveIndices := committee;
     GetBeaconCommittee := fun _ _ => Ok committee |}.

(** A slashed validator whose withdrawable epoch, 5000, is not the
    slashings epoch [10 + 8192 / 2] of epoch 10. *)
Definition slashed_elsewhere : FlatValidator :=
  validator 32000000000 true 0 0 20 5000.

(** The unslashed flag of a status says that its validator is not slashed. *)
Definition unslashed_flag_ok (status : AttesterStatus) : Prop :=
  HasMarkers (Flags status) UnslashedAttester = negb (Slashed (Validator status)).

(** A status whose head flags are set only together with the target flag
    of the same epoch. *)
Definition head_implies_target (status : AttesterStatus) : Prop :=
  (HasMarkers (Flags status) PrevHeadAttester = true ->
   HasMarkers (Flags status) PrevTargetAttester = true)
  /\ (HasMarkers (Flags status) CurrHeadAttester = true ->
      HasMarkers (Flags status) CurrTargetAttester = true).

(** A previous-epoch attestation of the whole committee of slot 290, with
    the target root and the head root that [quiet_state] holds. *)
Definition head_vote : PendingAttestation :=
  {| AggregationBits := {| FilterParticipants := fun committee => committee |};
     Data := {| att_Slot := 290; att_Index := 0; BeaconBlockRoot := 290;
                Source := {| cp_Epoch := 8; cp_Root := 256 |};
                Target := {| cp_Epoch := 9; cp_Root := 288 |} |};
     att_InclusionDelay := 1;
     ProposerIndex := 0 |}.

(** [quiet_state] with [head_vote] pending for the previous epoch. *)
Definition attested_state (vals : list FlatValidator) (finalized : Epoch)
  : BeaconStateView :=
  {| Validators := vals;
     PreviousEpochAttestations := [head_vote];
     CurrentEpochAttestations := [];
     GetBlockRootAtSlot := fun slot => Ok slot;
     FinalizedCheckpoint := {| cp_Epoch := finalized; cp_Root := 0 |} |}.

Definition active_validator : FlatValidator :=
  validator 32000000000 false 0 0 FAR_FUTURE_EPOCH FAR_FUTURE_EPOCH.

(** The exit epochs the ejection loop hands out to a queue of [n] indices,
    in queue order, from the cursor [(exitEnd, endChurn)]. *)
Fixpoint exit_schedule (churnLimit : Z) (n : nat) (exitEnd : Epoch) (endChurn : Z)
  : list Epoch :=
  match n with
  | O => []
  | S n' =>
      exitEnd ::
      (if wrap64 (endChurn + 1) >=? churnLimit
       then exit_schedule churnLimit n' (wrap64 (exitEnd + 1)) 0
       else exit_schedule churnLimit n' exitEnd (wrap64 (endChurn + 1)))
  end.

(** The exit epoch of the validator [index] of a registry; the unset epoch
    where there is no such validator. *)
Definition exit_epoch_of (vals : ValidatorsRegistryView) (index : ValidatorIndex)
  : Epoch :=
  match registry_get vals index with
  | Ok v => ExitEpoch v
  | Err _ => FAR_FUTURE_EPOCH
  end.

(** How many of the validators [indices] have the exit epoch [e] in [vals]. *)
Definition exiting_at (vals : ValidatorsRegistryView) (e : Epoch)
    (indices : list ValidatorIndex) : Z :=
  len (filter (fun index => exit_epoch_of vals index =? e) indices).

(** The main-network configuration without a floor under the churn limit. *)
Definition no_churn_floor : Spec :=
  {| MAX_VALIDATORS_PER_COMMITTEE := 2048;
     EPOCHS_PER_SLASHINGS_VECTOR := 8192;
     MIN_PER_EPOCH_CHURN_LIMIT := 0;
     CHURN_LIMIT_QUOTIENT := 65536;
     MAX_EFFECTIVE_BALANCE := 32000000000;
     EJECTION_BALANCE := 16000000000;
     EFFECTIVE_BALANCE_INCREMENT := 1000000000;
     MIN_VALIDATOR_WITHDRAWABILITY_DELAY := 256;
     ComputeActivationExitEpoch := fun epoch => wrap64 (epoch + 1 + 4);
     EpochStartSlot := fun epoch => Ok (epoch * 32) |}.

(** An active validator at the ejection balance, its exit unset. *)
Definition ejectable_validator : FlatValidator :=
  validator 16000000000 false 0 0 FAR_FUTURE_EPOCH FAR_FUTURE_EPOCH.

(** The two epochs that an exit sets. *)
Definition exit_fields (v : FlatValidator) : Epoch * Epoch :=
  (ExitEpoch v, WithdrawableEpoch v).

(** A registry update that leaves the view [g] of every validator as it
    was, whether it succeeds or fails. *)
Definition keeps {A B : Type} (g : FlatValidator -> B) (m : Update A) : Prop :=
  forall vals, map g (fst (m vals)) = map g vals.

(** The activation-eligibility epoch of the validator [index] of a
    registry; zero where there is no such validator. *)
Definition eligibility_epoch_of (vals : ValidatorsRegistryView)
    (index : ValidatorIndex) : Epoch :=
  match registry_get vals index with
  | Ok v => ActivationEligibilityEpoch v
  | Err _ => 0
  end.

(** [a] comes before [b] in the order of the maybe-activate queue: by
    eligibility epoch first, by validator index among equal epochs. *)
Definition key_before (vals : ValidatorsRegistryView) (a b : ValidatorIndex) : Prop :=
  eligibility_epoch_of vals a < eligibility_epoch_of vals b
  \/ (eligibility_epoch_of vals a = eligibility_epoch_of vals b /\ a < b).

(** Every earlier entry of [queue] comes before every later one. *)
Definition ordered_by_key (vals : ValidatorsRegistryView)
    (queue : list ValidatorIndex) : Prop :=
  forall (i j : nat) (a b : ValidatorIndex),
    (i < j)%nat ->
    nth_error queue i = Some a -> nth_error queue j = Some b ->
    key_before vals a b.

(** The candidates the activation loop accepts: the entries of [dequeued]
    before the first one whose eligibility epoch, as the collector saw it
    in [vals], is after [finalizedEpoch]. *)
Fixpoint accepted_candidates (vals : ValidatorsRegistryView)
    (finalizedEpoch : Epoch) (dequeued : list ValidatorIndex)
  : list ValidatorIndex :=
  match dequeued with
  | [] => []
  | index :: rest =>
      if finalizedEpoch <? eligibility_epoch_of vals index then []
      else index :: accepted_candidates vals finalizedEpoch rest
  end.

(** Six validators waiting for activation, eligible since the epochs 1, 2,
    6, 7, 1 and 1. *)
Definition waiting (eligibility : Epoch) : FlatValidator :=
  validator 32000000000 false eligibility FAR_FUTURE_EPOCH FAR_FUTURE_EPOCH
    FAR_FUTURE_EPOCH.

Definition activation_candidates : list FlatValidator :=
  [waiting 1; waiting 2; waiting 6; waiting 7; waiting 1; waiting 1].

(** The shape the two polled loops of [PrepareEpochProcess] share: at the
    head of every iteration whose counter has its low [bits] bits clear the
    context is asked at [site i]; then the iterator yields an item for
    [body], or the loop ends. *)
Fixpoint polled_loop {A S : Type} (ctx : Context) (bits : Z) (site : Z -> PollSite)
    (body : Z -> A -> S -> result S) (i : Z) (items : list A) (s : S) : result S :=
  do cancelled <- (if Z.land i (Z.shiftl 1 bits - 1) =? 0
                   then poll ctx (site i) else Ok tt) ;;
  match items with
  | [] => Ok s
  | item :: rest =>
      do s' <- body i item s ;;
      polled_loop ctx bits site body (i + 1) rest s'
  end.

(** The places at which a run of [PrepareEpochProcess] on [state] can ask
    the context: the validator counts divisible by 1024 up to the registry
    length, and in either run of pass 2 the attestation counts divisible by
    32 up to the number of pending attestations. *)
Definition polled (state : BeaconStateView) (site : PollSite) : Prop :=
  match site with
  | PollValidator i =>
      0 <= i <= len (Validators state) /\ i mod 1024 = 0
  | PollAttestation PreviousPass i =>
      0 <= i <= len (PreviousEpochAttestations state) /\ i mod 32 = 0
  | PollAttestation CurrentPass i =>
      0 <= i <= len (CurrentEpochAttestations state) /\ i mod 32 = 0
  | PollRegistryUpdates => False
  end.

(** A registry in which the exit queue is full beyond the activation-exit
    epoch of epoch 10: four active validators exit at epoch 15, four at
    epoch 16, and a ninth is at the ejection balance. *)
Definition exiting (exit : Epoch) : FlatValidator :=
  validator 32000000000 false 0 0 exit (exit + 256).

Definition full_exit_queue : list FlatValidator :=
  repeat (exiting 15) 4 ++ repeat (exiting 16) 4 ++ [ejectable_validator].

(** * Further vocabulary *)

(** ** Pass 2 of the collector *)

(** Validator [i] is among the participants of [att]: the committee of the
    attestation's slot and index resolves, and the aggregation bits keep
    [i]. *)
Definition participates (epc : EpochsContext) (att : PendingAttestation)
    (i : ValidatorIndex) : Prop :=
  exists committee,
    GetBeaconCommittee epc (att_Slot (Data att)) (att_Index (Data att)) = Ok committee
    /\ In i (FilterParticipants (AggregationBits att) committee).

(** The target root of [att] is the block root at the first slot of
    [epoch]. *)
Definition votes_target (spec : Spec) (state : BeaconStateView) (epoch : Epoch)
    (att : PendingAttestation) : Prop :=
  exists startSlot,
    EpochStartSlot spec epoch = Ok startSlot
    /\ GetBlockRootAtSlot state startSlot = Ok (cp_Root (Target (Data att))).

(** The head root of [att] is the block root at the attestation's slot. *)
Definition votes_head (state : BeaconStateView) (att : PendingAttestation) : Prop :=
  GetBlockRootAtSlot state (att_Slot (Data att)) = Ok (BeaconBlockRoot (Data att)).

(** What one attestation contributes to bit [n] of a participant's flags. *)
Definition flag_raised (sf tf hf : AttesterFlag) (att : PendingAttestation)
    (actualTargetBlockRoot attBlockRoot : Root) (n : Z) : bool :=
  Z.testbit sf n
  || ((cp_Root (Target (Data att)) =? actualTargetBlockRoot)
      && (Z.testbit tf n
          || ((BeaconBlockRoot (Data att) =? attBlockRoot) && Z.testbit hf n))).

(** The attestations that pass 2 reads inclusion delays from: those of the
    previous epoch, and those of the current epoch too when the two epochs
    are the same. *)
Definition inclusion_attestations (epc : EpochsContext) (state : BeaconStateView)
  : list PendingAttestation :=
  PreviousEpochAttestations state
  ++ (if CurrentEpoch epc =? PreviousEpoch epc
      then CurrentEpochAttestations state else []).

(** The test of the earliest-inclusion update: [att] replaces what [status]
    holds. *)
Definition is_earlier (att : PendingAttestation) (status : AttesterStatus) : Prop :=
  AttestedProposer status = ValidatorIndexMarker
  \/ att_InclusionDelay att < InclusionDelay status.

(** [att] is the first attestation of [atts] with the least inclusion delay
    among those validator [i] takes part in. *)
Definition earliest_inclusion_of (epc : EpochsContext) (i : ValidatorIndex)
    (atts : list PendingAttestation) (att : PendingAttestation) : Prop :=
  exists pre post,
    atts = pre ++ att :: post
    /\ participates epc att i
    /\ (forall att', In att' pre -> participates epc att' i ->
          att_InclusionDelay att < att_InclusionDelay att')
    /\ (forall att', In att' post -> participates epc att' i ->
          att_InclusionDelay att <= att_InclusionDelay att').

(** What a run over [atts] makes of the inclusion fields of a status of
    validator [i] that held [a]: they stand, or they are those of the
    earliest attestation. *)
Definition inclusion_after (epc : EpochsContext) (i : ValidatorIndex)
    (a : AttesterStatus) (atts : list PendingAttestation) (b : AttesterStatus) : Prop :=
  (AttestedProposer b = AttestedProposer a /\ InclusionDelay b = InclusionDelay a
   /\ forall att, In att atts -> participates epc att i -> ~ is_earlier att a)
  \/ exists att,
       earliest_inclusion_of epc i atts att
       /\ is_earlier att a
       /\ AttestedProposer b = ProposerIndex att
       /\ InclusionDelay b = att_InclusionDelay att.

(** ** Stake totals *)

(** The sum of the effective balances of [vs]. *)
Definition balance_sum (vs : list FlatValidator) : Gwei :=
  fold_right (fun v acc => EffectiveBalance v + acc) 0 vs.

(** The validators of the statuses that [c] selects. *)
Definition validators_with (c : AttesterStatus -> bool) (statuses : list AttesterStatus)
  : list FlatValidator :=
  map Validator (filter c statuses).

(** The conditions under which the last loop of the collector counts a
    status into a total. *)
Definition counts_as_source (status : AttesterStatus) : bool :=
  HasMarkers (Flags status) (Z.lor PrevSourceAttester UnslashedAttester).

Definition counts_as_target (status : AttesterStatus) : bool :=
  counts_as_source status && HasMarkers (Flags status) PrevTargetAttester.

Definition counts_as_head (status : AttesterStatus) : bool :=
  counts_as_target status && HasMarkers (Flags status) PrevHeadAttester.

Definition counts_as_current_target (status : AttesterStatus) : bool :=
  HasMarkers (Flags status) (Z.lor CurrTargetAttester UnslashedAttester).

(** [if x < floor { x = floor }] *)
Definition at_least (floor x : Gwei) : Gwei := if x <? floor then floor else x.

(** ** What a run of the collector needs *)



(** ** Exits *)

(** How many validators of [vals] have the exit epoch [e]. *)
Definition exits_at (e : Epoch) (vals : list FlatValidator) : Z :=
  len (filter (fun v => ExitEpoch v =? e) vals).

(** How many validators of [vals] are scheduled to exit at [e]: the
    far-future epoch is no schedule. *)
Definition scheduled_exits_at (e : Epoch) (vals : list FlatValidator) : Z :=
  len (filter (fun v => (ExitEpoch v =? e) && negb (ExitEpoch v =? FAR_FUTURE_EPOCH)) vals).

(** [q] is the end of the exit queue of [vals] seen from the epoch [E]: the
    latest exit epoch that a validator has, or [E] when that is later. *)
Definition exit_queue_end (E : Epoch) (vals : list FlatValidator) (q : Epoch) : Prop :=
  E <= q
  /\ (forall w, In w vals -> ExitEpoch w <> FAR_FUTURE_EPOCH -> ExitEpoch w <= q)
  /\ (q = E \/ exists w, In w vals /\ ExitEpoch w = q /\ q <> FAR_FUTURE_EPOCH).

(** ** Voluntary exits (the exits file of eth2/beacon) *)

Definition BLSPubkey := Z.
Definition BLSSignature := Z.
Definition BLSDomain := Z.
Definition BLSDomainType := Z.

Record VoluntaryExit : Type := {
  (** Earliest epoch when voluntary exit can be processed *)
  ve_Epoch : Epoch;
  ve_ValidatorIndex : ValidatorIndex
}.

Record SignedVoluntaryExit : Type := {
  sve_Message : VoluntaryExit;
  sve_Signature : BLSSignature
}.

(** What the validation of an exit reads that is declared outside the
    sources at hand: a constant and a domain type of the configuration, the
    public-key cache of the epochs context, the domain lookup of the state,
    the signing root of an exit message under a domain, and the BLS
    verification. *)
Record ExitEnv : Type := {
  SHARD_COMMITTEE_PERIOD : Z;
  DOMAIN_VOLUNTARY_EXIT : BLSDomainType;
  (** [epc.PubkeyCache.Pubkey(index)] *)
  Pubkey : ValidatorIndex -> option BLSPubkey;
  (** [state.GetDomain(domainType, epoch)] *)
  GetDomain : BLSDomainType -> Epoch -> result BLSDomain;
  (** [ComputeSigningRoot(message.HashTreeRoot(tree.GetHashFn()), domain)] *)
  ExitSigningRoot : VoluntaryExit -> BLSDomain -> Root;
  (** [bls.Verify(pubkey, root, signature)] *)
  Verify : BLSPubkey -> Root -> BLSSignature -> bool
}.

(** The errors of the exits file: the seven made with [errors.New], and
    those handed on from the state and from [InitiateValidatorExit]. *)
Inductive exit_error : Type :=
| ErrInvalidExitValidatorIndex
| ErrValidatorNotActive
| ErrValidatorAlreadyExited
| ErrInvalidExitEpoch
| ErrExitTooSoon
| ErrExitPubkeyNotFound
| ErrExitSignature
| ErrHandedOn (e : error).

(** The state with another registry: what a write through the validators
    view leaves. *)
Definition set_Validators (vals : ValidatorsRegistryView) (state : BeaconStateView)
  : BeaconStateView :=
  {| Validators := vals;
     PreviousEpochAttestations := PreviousEpochAttestations state;
     CurrentEpochAttestations := CurrentEpochAttestations state;
     GetBlockRootAtSlot := GetBlockRootAtSlot state;
     FinalizedCheckpoint := FinalizedCheckpoint state |}.

(** [spec.ValidateVoluntaryExit]: [None] is [nil]. *)
Definition ValidateVoluntaryExit (spec : Spec) (env : ExitEnv) (epc : EpochsContext)
    (state : BeaconStateView) (signedExit : SignedVoluntaryExit) : option exit_error :=
  let exit := sve_Message signedExit in
  let currentEpoch := CurrentEpoch epc in
  if negb (IsValidIndex state (ve_ValidatorIndex exit))
  then Some ErrInvalidExitValidatorIndex
  else
    match registry_get (Validators state) (ve_ValidatorIndex exit) with
    | Err e => Some (ErrHandedOn e)
    | Ok validator =>
        (* Verify that the validator is active *)
        if negb (IsActive validator currentEpoch) then Some ErrValidatorNotActive
        else
          let scheduledExitEpoch := ExitEpoch validator in
          (* Verify exit has not been initiated *)
          if negb (scheduledExitEpoch =? FAR_FUTURE_EPOCH)
          then Some ErrValidatorAlreadyExited
          (* Exits must specify an epoch when they become valid *)
          else if currentEpoch <? ve_Epoch exit then Some ErrInvalidExitEpoch
          else
            let registeredActivationEpoch := ActivationEpoch validator in
            (* Verify the validator has been active long enough *)
            if currentEpoch
               <? wrap64 (registeredActivationEpoch + SHARD_COMMITTEE_PERIOD env)
            then Some ErrExitTooSoon
            else
              match Pubkey env (ve_ValidatorIndex exit) with
              | None => Some ErrExitPubkeyNotFound
              | Some pubkey =>
                  match GetDomain env (DOMAIN_VOLUNTARY_EXIT env) (ve_Epoch exit) with
                  | Err e => Some (ErrHandedOn e)
                  | Ok domain =>
                      (* Verify signature *)
                      if negb (Verify env pubkey
                                 (ExitSigningRoot env (sve_Message signedExit) domain)
                                 (sve_Signature signedExit))
                      then Some ErrExitSignature
                      else None
                  end
              end
    end.

(** [spec.ProcessVoluntaryExit]: the state it leaves and the error it
    returns. *)
Definition ProcessVoluntaryExit (spec : Spec) (env : ExitEnv) (epc : EpochsContext)
    (state : BeaconStateView) (signedExit : SignedVoluntaryExit)
  : BeaconStateView * option exit_error :=
  match ValidateVoluntaryExit spec env epc state signedExit with
  | Some err => (state, Some err)
  | None =>
      match InitiateValidatorExit spec epc
              (ve_ValidatorIndex (sve_Message signedExit)) (Validators state) with
      | (vals, Ok _) => (set_Validators vals state, None)
      | (vals, Err e) => (set_Validators vals state, Some (ErrHandedOn e))
      end
  end.

(** The context of [ProcessVoluntaryExits], as what its [Done] channel
    says at the poll before the operation [i]. *)
Definition ExitsContext := Z -> bool.

(** The loop [for i := range ops] of [spec.ProcessVoluntaryExits], from the
    position [i] on. *)
Fixpoint process_voluntary_exits (ctx : ExitsContext) (spec : Spec) (env : ExitEnv)
    (epc : EpochsContext) (i : Z) (ops : list SignedVoluntaryExit)
    (state : BeaconStateView) : BeaconStateView * option exit_error :=
  match ops with
  | [] => (state, None)
  | op :: rest =>
      if ctx i then (state, Some (ErrHandedOn TransitionCancelErr))
      else
        match ProcessVoluntaryExit spec env epc state op with
        | (state, Some err) => (state, Some err)
        | (state, None) => process_voluntary_exits ctx spec env epc (i + 1) rest state
        end
  end.

Definition ProcessVoluntaryExits (ctx : ExitsContext) (spec : Spec) (env : ExitEnv)
    (epc : EpochsContext) (state : BeaconStateView) (ops : list SignedVoluntaryExit)
  : BeaconStateView * option exit_error :=
  process_voluntary_exits ctx spec env epc 0 ops state.

(** The validator indices that the operations name. *)
Definition exiting_indices (ops : list SignedVoluntaryExit) : list ValidatorIndex :=
  map (fun op => ve_ValidatorIndex (sve_Message op)) ops.

(** A registry, an exit environment and a signed exit for the examples:
    every key is cached, every signature verifies. *)
Definition trusting_env : ExitEnv :=
  {| SHARD_COMMITTEE_PERIOD := 256;
     DOMAIN_VOLUNTARY_EXIT := 4;
     Pubkey := fun index => Some index;
     GetDomain := fun _ _ => Ok 0;
     ExitSigningRoot := fun _ _ => 0;
     Verify := fun _ _ _ => true |}.

Definition exit_of (index : ValidatorIndex) : SignedVoluntaryExit :=
  {| sve_Message := {| ve_Epoch := 300; ve_ValidatorIndex := index |};
     sve_Signature := 0 |}.

(** The context of epoch 300 with two active indices. *)
Definition epoch_300 : EpochsContext :=
  {| PreviousEpoch := 299; CurrentEpoch := 300;
     CurrentActiveIndices := [0; 1];
     GetBeaconCommittee := fun _ _ => Ok [0; 1] |}.

(** ** The signature of an indexed attestation (eth2/beacon/indexed.go) *)

Definition CachedPubkey := Z.

(** What the signature check reads that is declared outside the sources
    at hand: the domain type of attestations, the public-key cache, the
    domain lookup of the state, the signing root of attestation data under
    a domain, and the aggregate BLS verification. *)
Record AttestationEnv : Type := {
  DOMAIN_BEACON_ATTESTER : BLSDomainType;
  (** [pubCache.Pubkey(i)] *)
  CachePubkey : ValidatorIndex -> option CachedPubkey;
  (** [state.GetDomain(domainType, epoch)] *)
  AttestationDomain : BLSDomainType -> Epoch -> result BLSDomain;
  (** [ComputeSigningRoot(data.HashTreeRoot(tree.GetHashFn()), dom)] *)
  AttestationSigningRoot : AttestationData -> BLSDomain -> Root;
  (** [bls.FastAggregateVerify(pubkeys, root, signature)] *)
  FastAggregateVerify : list CachedPubkey -> Root -> Z -> bool
}.

(** The errors of [ValidateIndexedAttestation]: the three that the
    signature check makes, and those handed on. *)
Inductive attestation_error : Type :=
| ErrPubkeyNotFound (i : ValidatorIndex)
| ErrEmptyAttestationSignature
| ErrAttestationSignature
| ErrAttestationHandedOn (e : error).

(** The loop [for _, i := range indexedAttestation.AttestingIndices] that
    gathers the public keys; [pubkeys] is the slice appended to. *)
Fixpoint gather_pubkeys (env : AttestationEnv) (indices : list ValidatorIndex)
    (pubkeys : list CachedPubkey) : attestation_error + list CachedPubkey :=
  match indices with
  | [] => inr pubkeys
  | i :: rest =>
      match CachePubkey env i with
      | None => inl (ErrPubkeyNotFound i)
      | Some pub => gather_pubkeys env rest (pubkeys ++ [pub])
      end
  end.

(** [spec.ValidateIndexedAttestationSignature]: [None] is [nil]. *)
Definition ValidateIndexedAttestationSignature (env : AttestationEnv) (dom : BLSDomain)
    (indexedAttestation : IndexedAttestation) : option attestation_error :=
  match gather_pubkeys env (AttestingIndices indexedAttestation) [] with
  | inl err => Some err
  | inr pubkeys =>
      (* empty attestation *)
      if len pubkeys <=? 0 then Some ErrEmptyAttestationSignature
      else if negb (FastAggregateVerify env pubkeys
                      (AttestationSigningRoot env (ia_Data indexedAttestation) dom)
                      (ia_Signature indexedAttestation))
      then Some ErrAttestationSignature
      else None
  end.

(** [spec.ValidateIndexedAttestation]: [None] is [nil]. *)
Definition ValidateIndexedAttestation (spec : Spec) (env : AttestationEnv)
    (state : BeaconStateView) (indexedAttestation : IndexedAttestation)
  : option attestation_error :=
  match ValidateIndexedAttestationNoSignature spec state indexedAttestation with
  | Some err => Some (ErrAttestationHandedOn err)
  | None =>
      match AttestationDomain env (DOMAIN_BEACON_ATTESTER env)
              (cp_Epoch (Target (ia_Data indexedAttestation))) with
      | Err err => Some (ErrAttestationHandedOn err)
      | Ok dom => ValidateIndexedAttestationSignature env dom indexedAttestation
      end
  end.

(** An environment for the examples: the key of validator [i] is [i + 100],
    and a signature verifies when it is the sum of the keys. *)
Definition summing_env : AttestationEnv :=
  {| DOMAIN_BEACON_ATTESTER := 1;
     CachePubkey := fun i => if i <? 4 then Some (i + 100) else None;
     AttestationDomain := fun _ _ => Ok 0;
     AttestationSigningRoot := fun _ _ => 0;
     FastAggregateVerify := fun pubkeys _ signature =>
       fold_right Z.add 0 pubkeys =? signature |}.

Definition vote_of (indices : list ValidatorIndex) (signature : Z) : IndexedAttestation :=
  {| AttestingIndices := indices;
     ia_Data := {| att_Slot := 290; att_Index := 0; BeaconBlockRoot := 290;
                   Source := {| cp_Epoch := 8; cp_Root := 256 |};
                   Target := {| cp_Epoch := 9; cp_Root := 288 |} |};
     ia_Signature := signature |}.

(** ** Attestations in another order *)

(** What an attestation of the run for [epoch] with the flags [sf], [tf]
    and [hf] contributes to bit [n] of the flags of its participants. *)
Definition raises (spec : Spec) (state : BeaconStateView) (epoch : Epoch)
    (sf tf hf : AttesterFlag) (n : Z) (att : PendingAttestation) : Prop :=
  Z.testbit sf n = true
  \/ (votes_target spec state epoch att
      /\ (Z.testbit tf n = true
          \/ (votes_head state att /\ Z.testbit hf n = true))).

(** [attested_state] with a second vote of validator 0, included later by
    another proposer. *)
Definition late_vote : PendingAttestation :=
  {| AggregationBits := {| FilterParticipants := fun committee => committee |};
     Data := {| att_Slot := 291; att_Index := 0; BeaconBlockRoot := 290;
                Source := {| cp_Epoch := 8; cp_Root := 256 |};
                Target := {| cp_Epoch := 9; cp_Root := 288 |} |};
     att_InclusionDelay := 5;
     ProposerIndex := 1 |}.

Definition twice_attested (atts : list PendingAttestation) : BeaconStateView :=
  {| Validators := [active_validator; active_validator];
     PreviousEpochAttestations := atts;
     CurrentEpochAttestations := [];
     GetBlockRootAtSlot := fun slot => Ok slot;
     FinalizedCheckpoint := {| cp_Epoch := 0; cp_Root := 0 |} |}.

(** * Shared lemmas *)

(** ** Results *)

Lemma bind_Ok {A B : Type} (r : result A) (k : A -> result B) (b : B) :
  bind r k = Ok b -> exists a, r = Ok a /\ k a = Ok b.
Proof.
  destruct r as [a|e]; simpl; intros H; [eauto | discriminate].
Qed.

Lemma returned_Some {A : Type} (r : result A) (a : A) (e : option error) :
  returned r = (Some a, e) -> r = Ok a.
Proof.
  destruct r; simpl; intros H; inversion H; reflexivity.
Qed.

Tactic Notation "bind_inv" hyp(H) "as" ident(a) ident(Ha) :=
  apply bind_Ok in H; destruct H as (a & Ha & H).

(** ** Slices *)

Lemma len_app {A : Type} (l1 l2 : list A) : len (l1 ++ l2) = len l1 + len l2.
Proof. unfold len. rewrite length_app. lia. Qed.

Lemma len_nonneg {A : Type} (l : list A) : 0 <= len l.
Proof. unfold len. lia. Qed.

Lemma modify_nat_app {A : Type} (f : A -> A) (pre : list A) (a : A) (rest : list A) :
  modify_nat (length pre) f (pre ++ a :: rest) = Some (pre ++ f a :: rest).
Proof.
  induction pre as [|b pre IH]; simpl; [reflexivity|]. rewrite IH. reflexivity.
Qed.

Lemma modify_at_app {A : Type} (f : A -> A) (pre : list A) (a : A) (rest : list A) (i : Z) :
  len pre = i -> modify_at (pre ++ a :: rest) i f = Ok (pre ++ f a :: rest).
Proof.
  intros <-. unfold modify_at, len.
  destruct (Z.ltb_spec (Z.of_nat (length pre)) 0) as [H|H]; [lia|].
  rewrite Nat2Z.id, modify_nat_app. reflexivity.
Qed.

Lemma modify_nat_split {A : Type} (f : A -> A) (n : nat) (s t : list A) :
  modify_nat n f s = Some t ->
  exists pre a rest, s = pre ++ a :: rest /\ t = pre ++ f a :: rest /\ length pre = n.
Proof.
  revert s t. induction n as [|n IH]; intros [|b s] t H; simpl in H; try discriminate.
  - inversion H; subst. exists [], b, s. auto.
  - destruct (modify_nat n f s) as [u|] eqn:E; [|discriminate].
    inversion H; subst. destruct (IH _ _ E) as (pre & a & rest & -> & -> & Hl).
    exists (b :: pre), a, rest. simpl. auto.
Qed.

Lemma modify_at_split {A : Type} (f : A -> A) (i : Z) (s t : list A) :
  modify_at s i f = Ok t ->
  exists pre a rest, s = pre ++ a :: rest /\ t = pre ++ f a :: rest /\ len pre = i.
Proof.
  unfold modify_at. destruct (Z.ltb_spec i 0) as [H|H]; [discriminate|].
  destruct (modify_nat (Z.to_nat i) f s) as [u|] eqn:E; [|discriminate].
  intros Hu; inversion Hu; subst.
  destruct (modify_nat_split _ _ _ _ E) as (pre & a & rest & -> & -> & Hl).
  exists pre, a, rest. unfold len. repeat split; lia.
Qed.

Lemma modify_at_Forall {A : Type} (P : A -> Prop) (f : A -> A) (i : Z) (s t : list A) :
  (forall a, P a -> P (f a)) -> Forall P s -> modify_at s i f = Ok t -> Forall P t.
Proof.
  intros Hf Hs H. destruct (modify_at_split _ _ _ _ H) as (pre & a & rest & -> & -> & _).
  apply Forall_app in Hs. destruct Hs as [Hp Hr]. inversion Hr; subst.
  apply Forall_app. split; [assumption|]. constructor; auto.
Qed.

Lemma modify_at_map {A B : Type} (g : A -> B) (f : A -> A) (i : Z) (s t : list A) :
  (forall a, g (f a) = g a) -> modify_at s i f = Ok t -> map g t = map g s.
Proof.
  intros Hf H. destruct (modify_at_split _ _ _ _ H) as (pre & a & rest & -> & -> & _).
  rewrite !map_app. simpl. rewrite Hf. reflexivity.
Qed.


Lemma index_at_app {A : Type} (pre : list A) (a : A) (rest : list A) (i : Z) :
  len pre = i -> index_at (pre ++ a :: rest) i = Ok a.
Proof.
  intros <-. unfold index_at, len.
  destruct (Z.ltb_spec (Z.of_nat (length pre)) 0) as [H|H]; [lia|].
  rewrite Nat2Z.id, nth_error_app2 by lia. rewrite Nat.sub_diag. reflexivity.
Qed.

Lemma index_at_map {A B : Type} (g : A -> B) (s : list A) (i : Z) (a : A) :
  index_at s i = Ok a -> index_at (map g s) i = Ok (g a).
Proof.
  unfold index_at. destruct (i <? 0); [discriminate|].
  rewrite nth_error_map. destruct (nth_error s (Z.to_nat i)); [|discriminate].
  intros H; inversion H; reflexivity.
Qed.

(** ** Pass 1 *)

Lemma select_indices_bounds (c : FlatValidator -> bool) (vals : list FlatValidator) :
  forall i x, In x (select_indices c i vals) -> i <= x < i + len vals.
Proof.
  induction vals as [|v vals IH]; intros i x H; simpl in H; [contradiction|].
  assert (Hl : len (v :: vals) = 1 + len vals) by (unfold len; simpl length; lia).
  rewrite Hl.
  destruct (c v).
  - destruct H as [<-|H]; [pose proof (len_nonneg vals); lia|].
    apply IH in H. lia.
  - apply IH in H. lia.
Qed.

Lemma select_indices_NoDup (c : FlatValidator -> bool) (vals : list FlatValidator) :
  forall i, NoDup (select_indices c i vals).
Proof.
  induction vals as [|v vals IH]; intros i; simpl; [constructor|].
  destruct (c v); [|apply IH].
  constructor; [|apply IH].
  intros H. apply select_indices_bounds in H. lia.
Qed.

Lemma select_indices_In (c : FlatValidator -> bool) (vals : list FlatValidator) :
  forall i x, In x (select_indices c i vals) <->
              exists v, registry_get vals (x - i) = Ok v /\ i <= x /\ c v = true.
Proof.
  induction vals as [|v vals IH]; intros i x; simpl.
  - split; [contradiction|]. intros (v & H & _). unfold registry_get in H.
    destruct (x - i <? 0); [discriminate|]. destruct (Z.to_nat (x - i)); discriminate.
  - assert (Hstep : forall w, i + 1 <= x ->
              (registry_get (v :: vals) (x - i) = Ok w <->
               registry_get vals (x - (i + 1)) = Ok w)).
    { intros w Hx. unfold registry_get.
      destruct (Z.ltb_spec (x - i) 0); [lia|]. destruct (Z.ltb_spec (x - (i + 1)) 0); [lia|].
      replace (Z.to_nat (x - i)) with (S (Z.to_nat (x - (i + 1)))) by lia.
      simpl. destruct (nth_error vals (Z.to_nat (x - (i + 1))));
        split; intros E; inversion E; reflexivity. }
    assert (Hhere : registry_get (v :: vals) (i - i) = Ok v).
    { rewrite Z.sub_diag. reflexivity. }
    destruct (c v) eqn:Hc.
    + split.
      * intros [<-|H]; [exists v; repeat split; auto; lia|].
        apply IH in H. destruct H as (w & Hw & Hx & Hcw). exists w.
        rewrite Hstep by lia. repeat split; auto; lia.
      * intros (w & Hw & Hx & Hcw). destruct (Z.eq_dec x i) as [->|Hne]; [left; reflexivity|].
        right. apply IH. exists w. rewrite <- Hstep by lia. repeat split; auto; lia.
    + rewrite IH. split.
      * intros (w & Hw & Hx & Hcw). exists w. rewrite Hstep by lia. repeat split; auto; lia.
      * intros (w & Hw & Hx & Hcw). destruct (Z.eq_dec x i) as [->|Hne].
        { rewrite Hhere in Hw. inversion Hw; subst. congruence. }
        exists w. rewrite <- Hstep by lia. repeat split; auto; lia.
Qed.

Section CollectQueues.
Variables (spec : Spec) (currentEpoch slashingsEpoch : Epoch).
Variables (i : ValidatorIndex) (flat : FlatValidator).
Variables (out : EpochProcess) (activeCount : Z).

Let acc' := collect_queues spec currentEpoch slashingsEpoch i flat (out, activeCount).

Ltac queues_cases :=
  subst acc'; unfold collect_queues, queued_to_slash, queued_to_set_eligibility,
    queued_to_maybe_activate, queued_to_eject;
  destruct (Slashed flat); destruct (slashingsEpoch =? WithdrawableEpoch flat);
  destruct (IsActive flat currentEpoch);
  destruct (ActivationEligibilityEpoch flat =? FAR_FUTURE_EPOCH);
  destruct (EffectiveBalance flat =? MAX_EFFECTIVE_BALANCE spec);
  destruct (ActivationEpoch flat =? FAR_FUTURE_EPOCH);
  destruct (ActivationEligibilityEpoch flat <=? currentEpoch);
  destruct (EffectiveBalance flat <=? EJECTION_BALANCE spec);
  destruct (ExitEpoch flat =? FAR_FUTURE_EPOCH);
  simpl; rewrite ?app_nil_r; try reflexivity; try lia.

Lemma collect_queues_Statuses : Statuses (fst acc') = Statuses out.
Proof. queues_cases. Qed.

Lemma collect_queues_IndicesToSlash :
  IndicesToSlash (fst acc')
  = IndicesToSlash out ++ (if queued_to_slash slashingsEpoch flat then [i] else []).
Proof. queues_cases. Qed.

Lemma collect_queues_IndicesToSetActivationEligibility :
  IndicesToSetActivationEligibility (fst acc')
  = IndicesToSetActivationEligibility out
    ++ (if queued_to_set_eligibility spec flat then [i] else []).
Proof. queues_cases. Qed.

Lemma collect_queues_IndicesToMaybeActivate :
  IndicesToMaybeActivate (fst acc')
  = IndicesToMaybeActivate out
    ++ (if queued_to_maybe_activate currentEpoch flat then [i] else []).
Proof. queues_cases. Qed.

Lemma collect_queues_IndicesToEject :
  IndicesToEject (fst acc')
  = IndicesToEject out ++ (if queued_to_eject spec currentEpoch flat then [i] else []).
Proof. queues_cases. Qed.

Lemma collect_queues_activeCount :
  snd acc' = activeCount + (if IsActive flat currentEpoch then 1 else 0).
Proof. queues_cases. Qed.

End CollectQueues.

Lemma set_Statuses_fields (x : list AttesterStatus) (out : EpochProcess) :
  Statuses (set_Statuses x out) = x
  /\ IndicesToSlash (set_Statuses x out) = IndicesToSlash out
  /\ IndicesToSetActivationEligibility (set_Statuses x out)
     = IndicesToSetActivationEligibility out
  /\ IndicesToMaybeActivate (set_Statuses x out) = IndicesToMaybeActivate out
  /\ IndicesToEject (set_Statuses x out) = IndicesToEject out.
Proof. repeat split. Qed.

Lemma select_indices_cons (c : FlatValidator -> bool) (i : ValidatorIndex)
    (v : FlatValidator) (rest : list FlatValidator) :
  select_indices c i (v :: rest)
  = (if c v then [i] else []) ++ select_indices c (i + 1) rest.
Proof. simpl. destruct (c v); reflexivity. Qed.

Section Pass1.
Variables (ctx : Context) (spec : Spec).
Variables (prevEpoch currentEpoch slashingsEpoch : Epoch).

Lemma collect_validators_cons (i : ValidatorIndex) (flat : FlatValidator)
    (rest : list FlatValidator) (acc : EpochProcess * Z) :
  collect_validators ctx spec prevEpoch currentEpoch slashingsEpoch i (flat :: rest) acc
  = (do cancelled <- (if Z.land i (Z.shiftl 1 10 - 1) =? 0
                      then poll ctx (PollValidator i) else Ok tt) ;;
     do statuses <- modify_at (Statuses (fst acc)) i
                      (collect_status prevEpoch currentEpoch flat) ;;
     collect_validators ctx spec prevEpoch currentEpoch slashingsEpoch (i + 1) rest
       (collect_queues spec currentEpoch slashingsEpoch i flat
          (set_Statuses statuses (fst acc), snd acc))).
Proof. reflexivity. Qed.

Lemma collect_validators_Ok (vals : list FlatValidator) :
  forall i out activeCount pre out' activeCount',
    collect_validators ctx spec prevEpoch currentEpoch slashingsEpoch i vals
      (out, activeCount) = Ok (out', activeCount') ->
    Statuses out = pre ++ repeat zero_status (length vals) ->
    len pre = i ->
    Statuses out'
    = pre ++ map (fun v => collect_status prevEpoch currentEpoch v zero_status) vals
    /\ IndicesToSlash out'
       = IndicesToSlash out ++ select_indices (queued_to_slash slashingsEpoch) i vals
    /\ IndicesToSetActivationEligibility out'
       = IndicesToSetActivationEligibility out
         ++ select_indices (queued_to_set_eligibility spec) i vals
    /\ IndicesToMaybeActivate out'
       = IndicesToMaybeActivate out
         ++ select_indices (queued_to_maybe_activate currentEpoch) i vals
    /\ IndicesToEject out'
       = IndicesToEject out ++ select_indices (queued_to_eject spec currentEpoch) i vals
    /\ activeCount'
       = activeCount + len (filter (fun v => IsActive v currentEpoch) vals).
Proof.
  induction vals as [|flat rest IH]; intros i out activeCount pre out' activeCount' H Hs Hi.
  - simpl in H. bind_inv H as u Hu. inversion H; subst.
    simpl in Hs. rewrite Hs. simpl. rewrite !app_nil_r. unfold len. simpl.
    repeat split; lia.
  - rewrite collect_validators_cons in H. bind_inv H as u Hu. clear Hu.
    bind_inv H as statuses Hm.
    simpl fst in *. simpl snd in *.
    rewrite Hs in Hm. simpl repeat in Hm.
    rewrite (modify_at_app _ _ _ _ _ Hi) in Hm. inversion Hm; subst statuses; clear Hm.
    remember (collect_queues spec currentEpoch slashingsEpoch i flat
                (set_Statuses
                   (pre ++ collect_status prevEpoch currentEpoch flat zero_status
                        :: repeat zero_status (length rest)) out, activeCount)) as acc eqn:Hacc.
    destruct acc as [out1 ac1].
    assert (Hf : out1 = fst (collect_queues spec currentEpoch slashingsEpoch i flat
                (set_Statuses
                   (pre ++ collect_status prevEpoch currentEpoch flat zero_status
                        :: repeat zero_status (length rest)) out, activeCount)))
      by (rewrite <- Hacc; reflexivity).
    assert (Hc : ac1 = snd (collect_queues spec currentEpoch slashingsEpoch i flat
                (set_Statuses
                   (pre ++ collect_status prevEpoch currentEpoch flat zero_status
                        :: repeat zero_status (length rest)) out, activeCount)))
      by (rewrite <- Hacc; reflexivity).
    clear Hacc.
    specialize (IH (i + 1) out1 ac1
                  (pre ++ [collect_status prevEpoch currentEpoch flat zero_status])
                  out' activeCount' H).
    destruct IH as (E1 & E2 & E3 & E4 & E5 & E6).
    + rewrite Hf, collect_queues_Statuses. simpl. rewrite <- app_assoc. reflexivity.
    + rewrite len_app. unfold len at 2. simpl. lia.
    + rewrite E1, E2, E3, E4, E5, E6, Hf, Hc.
      rewrite collect_queues_IndicesToSlash, collect_queues_IndicesToSetActivationEligibility,
        collect_queues_IndicesToMaybeActivate, collect_queues_IndicesToEject,
        collect_queues_activeCount.
      rewrite !select_indices_cons. simpl map. simpl filter. rewrite <- !app_assoc.
      simpl. repeat split.
      destruct (IsActive flat currentEpoch); unfold len; simpl length; lia.
Qed.

End Pass1.

(** ** Pass 2 *)

Section Pass2Preservation.
Variables (ctx : Context) (spec : Spec) (epc : EpochsContext) (state : BeaconStateView).
Variables (prevEpoch : Epoch) (pass : AttestationPass) (epoch : Epoch).
Variables (sourceFlag targetFlag headFlag : AttesterFlag).

(** A property of the statuses that each single write of pass 2 keeps. *)
Variable Q : list AttesterStatus -> Prop.
Hypothesis Q_note : forall att s p t,
  Q s -> modify_at s p (note_inclusion att) = Ok t -> Q t.
Hypothesis Q_mark : forall att r1 r2 s p t,
  Q s -> modify_at s p (mark_flags sourceFlag targetFlag headFlag att r1 r2) = Ok t -> Q t.

Lemma for_participants_keeps (f : AttesterStatus -> AttesterStatus) :
  (forall s p t, Q s -> modify_at s p f = Ok t -> Q t) ->
  forall participants s t,
    Q s -> for_participants f participants s = Ok t -> Q t.
Proof.
  intros Hf. induction participants as [|p rest IH]; intros s t Hs H; simpl in H.
  - inversion H; subst; assumption.
  - bind_inv H as u Hu. eapply IH; [|exact H]. eapply Hf; eassumption.
Qed.

Lemma process_attestation_keeps (root : Root) (att : PendingAttestation) s t :
  Q s ->
  process_attestation epc state prevEpoch epoch sourceFlag targetFlag headFlag root att s
  = Ok t -> Q t.
Proof.
  intros Hs H. unfold process_attestation in H.
  bind_inv H as attBlockRoot H1. bind_inv H as committee H2. bind_inv H as s' H3.
  assert (Hs' : Q s').
  { destruct (epoch =? prevEpoch).
    - eapply for_participants_keeps; [|exact Hs|exact H3]. intros; eapply Q_note; eassumption.
    - inversion H3; subst; assumption. }
  eapply for_participants_keeps; [|exact Hs'|exact H]. intros; eapply Q_mark; eassumption.
Qed.

Lemma process_attestations_keeps (root : Root) (atts : list PendingAttestation) :
  forall i s t,
    Q s ->
    process_attestations ctx epc state prevEpoch pass epoch sourceFlag targetFlag headFlag
      root i atts s = Ok t -> Q t.
Proof.
  induction atts as [|att rest IH]; intros i s t Hs H; simpl in H.
  - bind_inv H as u Hu. inversion H; subst; assumption.
  - bind_inv H as u Hu. bind_inv H as s' H1.
    eapply IH; [|exact H]. eapply process_attestation_keeps; eassumption.
Qed.

Lemma processEpoch_keeps (atts : list PendingAttestation) s t :
  Q s ->
  processEpoch ctx spec epc state prevEpoch pass atts epoch sourceFlag targetFlag headFlag s
  = Ok t -> Q t.
Proof.
  intros Hs H. unfold processEpoch in H.
  bind_inv H as startSlot H1. bind_inv H as root H2.
  eapply process_attestations_keeps; eassumption.
Qed.

End Pass2Preservation.

Lemma note_inclusion_Validator att status :
  Validator (note_inclusion att status) = Validator status.
Proof. unfold note_inclusion. destruct (_ || _); reflexivity. Qed.

Lemma mark_flags_Validator sf tf hf att r1 r2 status :
  Validator (mark_flags sf tf hf att r1 r2 status) = Validator status.
Proof.
  unfold mark_flags. destruct (_ =? _); [destruct (_ =? _)|]; reflexivity.
Qed.

Lemma processEpoch_Validators ctx spec epc state prevEpoch pass atts epoch sf tf hf s t :
  processEpoch ctx spec epc state prevEpoch pass atts epoch sf tf hf s = Ok t ->
  map Validator t = map Validator s.
Proof.
  intros H.
  apply (processEpoch_keeps ctx spec epc state prevEpoch pass epoch sf tf hf
           (fun u => map Validator u = map Validator s)) with (s := s) (atts := atts);
    [| |reflexivity|exact H].
  - intros att u p v Hu Hm. rewrite <- Hu. eapply modify_at_map; [|exact Hm].
    apply note_inclusion_Validator.
  - intros att r1 r2 u p v Hu Hm. rewrite <- Hu. eapply modify_at_map; [|exact Hm].
    apply mark_flags_Validator.
Qed.

(** ** Stake totals *)

Lemma same_but_stakes_refl out : same_but_stakes out out.
Proof. unfold same_but_stakes. repeat split. Qed.

Lemma same_but_stakes_trans a b c :
  same_but_stakes a b -> same_but_stakes b c -> same_but_stakes a c.
Proof.
  unfold same_but_stakes. intros H1 H2.
  repeat match goal with H : _ /\ _ |- _ => destruct H end.
  repeat split; congruence.
Qed.

Lemma add_stake_same out status : same_but_stakes (add_stake out status) out.
Proof.
  unfold add_stake.
  destruct (HasMarkers (Flags status) (Z.lor CurrTargetAttester UnslashedAttester));
    unfold same_but_stakes; simpl; repeat split.
Qed.

Lemma fold_add_stake_same statuses :
  forall out, same_but_stakes (fold_left add_stake statuses out) out.
Proof.
  induction statuses as [|s rest IH]; intros out; simpl.
  - apply same_but_stakes_refl.
  - eapply same_but_stakes_trans; [apply IH | apply add_stake_same].
Qed.

Lemma clamp_stakes_same spec out : same_but_stakes (clamp_stakes spec out) out.
Proof.
  unfold clamp_stakes.
  repeat match goal with
         | |- context [if ?b then _ else _] => destruct b
         end; unfold same_but_stakes; simpl; repeat split.
Qed.

(** ** The shape of a successful [PrepareEpochProcess] *)

Lemma prepare_epoch_process_Ok ctx spec epc state p :
  prepare_epoch_process ctx spec epc state = Ok p ->
  let vals := Validators state in
  let cur := CurrentEpoch epc in
  let prev := PreviousEpoch epc in
  let statuses1 := map (fun v => collect_status prev cur v zero_status) vals in
  let E := ComputeActivationExitEpoch spec cur in
  let churn := count_exit_queue_end E statuses1 0 in
  exists limit statuses2 statuses3 out3,
    GetChurnLimit spec (len (filter (fun v => IsActive v cur) vals)) = Ok limit
    /\ processEpoch ctx spec epc state prev PreviousPass
         (PreviousEpochAttestations state) prev
         PrevSourceAttester PrevTargetAttester PrevHeadAttester statuses1 = Ok statuses2
    /\ processEpoch ctx spec epc state prev CurrentPass
         (CurrentEpochAttestations state) cur
         CurrSourceAttester CurrTargetAttester CurrHeadAttester statuses2 = Ok statuses3
    /\ p = clamp_stakes spec (fold_left add_stake statuses3 out3)
    /\ Statuses p = statuses3
    /\ IndicesToSlash p
       = select_indices
           (queued_to_slash (wrap64 (cur + EPOCHS_PER_SLASHINGS_VECTOR spec / 2))) 0 vals
    /\ IndicesToSetActivationEligibility p
       = select_indices (queued_to_set_eligibility spec) 0 vals
    /\ IndicesToMaybeActivate p
       = sort_Slice (maybe_activate_less statuses1)
           (select_indices (queued_to_maybe_activate cur) 0 vals)
    /\ IndicesToEject p = select_indices (queued_to_eject spec cur) 0 vals
    /\ ChurnLimit p = limit
    /\ ExitQueueEnd p = (if churn >=? limit then wrap64 (E + 1) else E)
    /\ ExitQueueEndChurn p = (if churn >=? limit then 0 else churn).
Proof.
  intros H vals cur prev statuses1 E churn.
  unfold prepare_epoch_process in H.
  bind_inv H as acc H1. destruct acc as [out1 activeCount].
  apply (collect_validators_Ok _ _ _ _ _ _ _ _ _ []) in H1; [|reflexivity|reflexivity].
  simpl app in H1. destruct H1 as (S1 & Q1 & Q2 & Q3 & Q4 & A1).
  simpl in Q1, Q2, Q3, Q4, A1.
  bind_inv H as limit HL.
  fold vals cur prev in S1, Q1, Q2, Q3, Q4, A1, H, HL. fold statuses1 in S1.
  rewrite A1 in HL.
  cbn [Statuses set_IndicesToMaybeActivate] in H. rewrite S1 in H. fold E churn in H.
  assert (Hgoal : forall exitQueueEnd exitQueueEndChurn,
    (do statuses <-
       processEpoch ctx spec epc state prev PreviousPass
         (PreviousEpochAttestations state) prev PrevSourceAttester
         PrevTargetAttester PrevHeadAttester
         (Statuses
            (set_ChurnLimit limit
               (set_ExitQueueEnd exitQueueEnd
                  (set_ExitQueueEndChurn exitQueueEndChurn
                     (set_IndicesToMaybeActivate
                        (sort_Slice (maybe_activate_less statuses1)
                           (IndicesToMaybeActivate out1)) out1))))) ;;
     do statuses0 <-
       processEpoch ctx spec epc state prev CurrentPass
         (CurrentEpochAttestations state) cur CurrSourceAttester
         CurrTargetAttester CurrHeadAttester
         (Statuses
            (set_Statuses statuses
               (set_ChurnLimit limit
                  (set_ExitQueueEnd exitQueueEnd
                     (set_ExitQueueEndChurn exitQueueEndChurn
                        (set_IndicesToMaybeActivate
                           (sort_Slice (maybe_activate_less statuses1)
                              (IndicesToMaybeActivate out1)) out1)))))) ;;
     Ok (clamp_stakes spec
           (fold_left add_stake
              (Statuses
                 (set_Statuses statuses0
                    (set_Statuses statuses
                       (set_ChurnLimit limit
                          (set_ExitQueueEnd exitQueueEnd
                             (set_ExitQueueEndChurn exitQueueEndChurn
                                (set_IndicesToMaybeActivate
                                   (sort_Slice (maybe_activate_less statuses1)
                                      (IndicesToMaybeActivate out1)) out1)))))))
              (set_Statuses statuses0
                 (set_Statuses statuses
                    (set_ChurnLimit limit
                       (set_ExitQueueEnd exitQueueEnd
                          (set_ExitQueueEndChurn exitQueueEndChurn
                             (set_IndicesToMaybeActivate
                                (sort_Slice (maybe_activate_less statuses1)
                                   (IndicesToMaybeActivate out1)) out1))))))))) = Ok p ->
    exists statuses2 statuses3 out3,
      processEpoch ctx spec epc state prev PreviousPass
         (PreviousEpochAttestations state) prev
         PrevSourceAttester PrevTargetAttester PrevHeadAttester statuses1 = Ok statuses2
      /\ processEpoch ctx spec epc state prev CurrentPass
         (CurrentEpochAttestations state) cur
         CurrSourceAttester CurrTargetAttester CurrHeadAttester statuses2 = Ok statuses3
      /\ p = clamp_stakes spec (fold_left add_stake statuses3 out3)
      /\ Statuses p = statuses3
      /\ IndicesToSlash p = IndicesToSlash out1
      /\ IndicesToSetActivationEligibility p = IndicesToSetActivationEligibility out1
      /\ IndicesToMaybeActivate p
         = sort_Slice (maybe_activate_less statuses1) (IndicesToMaybeActivate out1)
      /\ IndicesToEject p = IndicesToEject out1
      /\ ChurnLimit p = limit
      /\ ExitQueueEnd p = exitQueueEnd
      /\ ExitQueueEndChurn p = exitQueueEndChurn).
  { clear H. intros exitQueueEnd exitQueueEndChurn H.
    bind_inv H as statuses2 H2. cbn [Statuses set_ChurnLimit set_ExitQueueEnd
      set_ExitQueueEndChurn set_IndicesToMaybeActivate] in H2. rewrite S1 in H2.
    bind_inv H as statuses3 H3. cbn [Statuses set_Statuses] in H3.
    cbn [Statuses set_Statuses] in H. inversion H as [Hp]. clear H.
    exists statuses2, statuses3. eexists.
    split; [exact H2|]. split; [exact H3|]. split; [reflexivity|].
    match goal with
    | |- context [clamp_stakes spec (fold_left add_stake statuses3 ?o)] =>
        pose proof (same_but_stakes_trans _ _ _ (clamp_stakes_same spec _)
                      (fold_add_stake_same statuses3 o)) as Hsame
    end.
    destruct Hsame as (_ & _ & F1 & F2 & F3 & F4 & F5 & F6 & F7 & F8).
    rewrite F1, F2, F3, F4, F5, F6, F7, F8. repeat split. }
  remember (churn >=? limit) as b eqn:Hb in *.
  destruct b;
    destruct (Hgoal _ _ H) as (statuses2 & statuses3 & out3 & G);
    exists limit, statuses2, statuses3, out3;
    rewrite <- Hb, <- Q1, <- Q2, <- Q3, <- Q4; tauto.
Qed.

(** ** Flags *)

Lemma land_pow2 (f k : Z) :
  0 <= k -> Z.land f (2 ^ k) = if Z.testbit f k then 2 ^ k else 0.
Proof.
  intros Hk. apply Z.bits_inj'. intros n Hn.
  rewrite Z.land_spec, Z.pow2_bits_eqb by assumption.
  destruct (Z.eqb_spec k n) as [->|Hne].
  - destruct (Z.testbit f n) eqn:E; simpl.
    + rewrite Z.pow2_bits_true by assumption. reflexivity.
    + rewrite Z.bits_0. reflexivity.
  - rewrite andb_false_r. destruct (Z.testbit f k).
    + rewrite Z.pow2_bits_false by congruence. reflexivity.
    + rewrite Z.bits_0. reflexivity.
Qed.

Lemma HasMarkers_bit (f k : Z) : 0 <= k -> HasMarkers f (2 ^ k) = Z.testbit f k.
Proof.
  intros Hk. unfold HasMarkers. rewrite land_pow2 by assumption.
  assert (0 < 2 ^ k) by (apply Z.pow_pos_nonneg; lia).
  destruct (Z.testbit f k).
  - apply Z.eqb_refl.
  - apply Z.eqb_neq. lia.
Qed.

Lemma mark_flags_testbit sf tf hf att r1 r2 status (n : Z) :
  Z.testbit (Flags (mark_flags sf tf hf att r1 r2 status)) n
  = Z.testbit (Flags status) n || Z.testbit sf n
    || ((cp_Root (Target (Data att)) =? r1)
        && (Z.testbit tf n || ((BeaconBlockRoot (Data att) =? r2) && Z.testbit hf n))).
Proof.
  unfold mark_flags. destruct (_ =? r1); [destruct (_ =? r2)|]; simpl;
    rewrite ?Z.lor_spec, ?andb_false_r, ?orb_false_r, ?andb_true_r, ?orb_assoc; reflexivity.
Qed.

Lemma note_inclusion_Flags att status :
  Flags (note_inclusion att status) = Flags status.
Proof. unfold note_inclusion. destruct (_ || _); reflexivity. Qed.

(** A per-status property kept by pass 2 when each of its two writes keeps it. *)
Lemma processEpoch_Forall (P : AttesterStatus -> Prop)
    ctx spec epc state prevEpoch pass atts epoch sf tf hf s t :
  (forall att a, P a -> P (note_inclusion att a)) ->
  (forall att r1 r2 a, P a -> P (mark_flags sf tf hf att r1 r2 a)) ->
  Forall P s ->
  processEpoch ctx spec epc state prevEpoch pass atts epoch sf tf hf s = Ok t ->
  Forall P t.
Proof.
  intros Hn Hm Hs H.
  apply (processEpoch_keeps ctx spec epc state prevEpoch pass epoch sf tf hf (Forall P))
    with (s := s) (atts := atts); [| |exact Hs|exact H].
  - intros att u p v Hu Hmod. eapply modify_at_Forall; [|exact Hu|exact Hmod]. apply Hn.
  - intros att r1 r2 u p v Hu Hmod. eapply modify_at_Forall; [|exact Hu|exact Hmod]. apply Hm.
Qed.

(** What both runs of pass 2 keep of every status. *)
Lemma prepare_statuses_Forall (P : AttesterStatus -> Prop) ctx spec epc state p :
  (forall att a, P a -> P (note_inclusion att a)) ->
  (forall att r1 r2 a, P a ->
     P (mark_flags PrevSourceAttester PrevTargetAttester PrevHeadAttester att r1 r2 a)) ->
  (forall att r1 r2 a, P a ->
     P (mark_flags CurrSourceAttester CurrTargetAttester CurrHeadAttester att r1 r2 a)) ->
  (forall v, P (collect_status (PreviousEpoch epc) (CurrentEpoch epc) v zero_status)) ->
  prepare_epoch_process ctx spec epc state = Ok p ->
  Forall P (Statuses p).
Proof.
  intros Hn Hp Hc H1 H.
  destruct (prepare_epoch_process_Ok _ _ _ _ _ H)
    as (limit & s2 & s3 & out3 & _ & E2 & E3 & _ & -> & _).
  eapply processEpoch_Forall; [exact Hn|exact Hc| |exact E3].
  eapply processEpoch_Forall; [exact Hn|exact Hp| |exact E2].
  apply Forall_map. apply Forall_forall. intros v _. apply H1.
Qed.

Lemma collect_status_Validator prevEpoch currentEpoch v status :
  Validator (collect_status prevEpoch currentEpoch v status) = v.
Proof.
  unfold collect_status. destruct (Slashed v); destruct (_ || _); reflexivity.
Qed.

Lemma prepare_Validators ctx spec epc state p :
  prepare_epoch_process ctx spec epc state = Ok p ->
  map Validator (Statuses p) = Validators state.
Proof.
  intros H.
  destruct (prepare_epoch_process_Ok _ _ _ _ _ H)
    as (limit & s2 & s3 & out3 & _ & E2 & E3 & _ & -> & _).
  rewrite (processEpoch_Validators _ _ _ _ _ _ _ _ _ _ _ _ _ E3).
  rewrite (processEpoch_Validators _ _ _ _ _ _ _ _ _ _ _ _ _ E2).
  rewrite map_map. rewrite <- (map_id (Validators state)) at 2.
  apply map_ext. intros v. apply collect_status_Validator.
Qed.

Lemma registry_get_index_at (vals : list FlatValidator) (i : Z) (v : FlatValidator)
    (statuses : list AttesterStatus) :
  map Validator statuses = vals ->
  registry_get vals i = Ok v ->
  exists status, index_at statuses i = Ok status /\ Validator status = v.
Proof.
  intros <- H. unfold registry_get in H. unfold index_at.
  destruct (i <? 0); [discriminate|].
  rewrite nth_error_map in H.
  destruct (nth_error statuses (Z.to_nat i)) as [s|]; [|discriminate].
  inversion H; subst. exists s. auto.
Qed.

(** ** Registry writes *)

Lemma registry_set_split (vals vals' : ValidatorsRegistryView) (index : ValidatorIndex)
    (f : FlatValidator -> FlatValidator) :
  registry_set vals index f = Ok vals' ->
  exists pre v rest,
    vals = pre ++ v :: rest /\ vals' = pre ++ f v :: rest /\ len pre = index.
Proof.
  unfold registry_set. destruct (Z.ltb_spec index 0) as [H|H]; [discriminate|].
  destruct (modify_nat (Z.to_nat index) f vals) as [u|] eqn:E; [|discriminate].
  intros Hu; inversion Hu; subst.
  destruct (modify_nat_split _ _ _ _ E) as (pre & a & rest & -> & -> & Hl).
  exists pre, a, rest. unfold len. repeat split; lia.
Qed.

Lemma registry_get_app (pre : list FlatValidator) (v : FlatValidator)
    (rest : list FlatValidator) :
  registry_get (pre ++ v :: rest) (len pre) = Ok v.
Proof.
  unfold registry_get, len.
  destruct (Z.ltb_spec (Z.of_nat (length pre)) 0); [lia|].
  rewrite Nat2Z.id, nth_error_app2 by lia. rewrite Nat.sub_diag. reflexivity.
Qed.

Lemma registry_get_app_other (pre : list FlatValidator) (v w : FlatValidator)
    (rest : list FlatValidator) (i : ValidatorIndex) :
  i <> len pre ->
  registry_get (pre ++ w :: rest) i = registry_get (pre ++ v :: rest) i.
Proof.
  intros Hne. unfold registry_get, len in *.
  destruct (Z.ltb_spec i 0); [reflexivity|].
  destruct (Nat.lt_ge_cases (Z.to_nat i) (length pre)) as [Hlt|Hge].
  - rewrite !nth_error_app1 by assumption. reflexivity.
  - rewrite !nth_error_app2 by assumption.
    destruct (Z.to_nat i - length pre)%nat eqn:E; [lia|]. reflexivity.
Qed.

Lemma registry_get_Ok_range (vals : ValidatorsRegistryView) (i : ValidatorIndex)
    (v : FlatValidator) :
  registry_get vals i = Ok v -> 0 <= i < len vals.
Proof.
  unfold registry_get, len. destruct (Z.ltb_spec i 0); [discriminate|].
  destruct (nth_error vals (Z.to_nat i)) eqn:E; [|discriminate].
  intros _. assert (nth_error vals (Z.to_nat i) <> None) by congruence.
  apply nth_error_Some in H0. lia.
Qed.

Lemma registry_get_in_range (vals : ValidatorsRegistryView) (i : ValidatorIndex) :
  0 <= i < len vals -> exists v, registry_get vals i = Ok v.
Proof.
  unfold registry_get, len. intros Hi. destruct (Z.ltb_spec i 0); [lia|].
  destruct (nth_error vals (Z.to_nat i)) eqn:E; [eauto|].
  apply nth_error_None in E. lia.
Qed.

Lemma registry_set_in_range (vals : ValidatorsRegistryView) (i : ValidatorIndex)
    (f : FlatValidator -> FlatValidator) (v : FlatValidator) :
  registry_get vals i = Ok v ->
  exists pre rest,
    vals = pre ++ v :: rest /\ len pre = i
    /\ registry_set vals i f = Ok (pre ++ f v :: rest).
Proof.
  unfold registry_get, registry_set. destruct (Z.ltb_spec i 0); [discriminate|].
  destruct (nth_error vals (Z.to_nat i)) as [w|] eqn:E; [|discriminate].
  intros Hw; inversion Hw; subst w.
  apply nth_error_split in E. destruct E as (pre & rest & -> & Hl).
  exists pre, rest. rewrite <- Hl, modify_nat_app. unfold len. repeat split; lia.
Qed.

(** One setter call on the view of [index], seen from any index [i]. *)
Lemma set_validator_spec (index : ValidatorIndex) (f : FlatValidator -> FlatValidator)
    (vals : ValidatorsRegistryView) :
  (exists v pre rest,
      vals = pre ++ v :: rest /\ len pre = index
      /\ set_validator index f vals = (pre ++ f v :: rest, Ok tt))
  \/ ((forall v, registry_get vals index <> Ok v)
      /\ exists e, set_validator index f vals = (vals, Err e)).
Proof.
  unfold set_validator.
  destruct (registry_set vals index f) as [vals'|e] eqn:E.
  - left. destruct (registry_set_split _ _ _ _ E) as (pre & v & rest & -> & -> & Hl).
    exists v, pre, rest. auto.
  - right. split; [|eauto]. intros v Hv.
    destruct (registry_set_in_range _ _ f _ Hv) as (pre & rest & _ & _ & Hs). congruence.
Qed.

Lemma len_set (pre : list FlatValidator) (v w : FlatValidator) (rest : list FlatValidator) :
  len (pre ++ w :: rest) = len (pre ++ v :: rest).
Proof. unfold len. rewrite !length_app. reflexivity. Qed.

(** ** The ejection loop *)

Lemma process_ejections_cons spec churnLimit index rest exitEnd endChurn vals :
  process_ejections spec churnLimit (index :: rest) exitEnd endChurn vals
  = match registry_get vals index with
    | Err e => (vals, Err e)
    | Ok v =>
        match registry_set vals index (SetExitEpoch exitEnd) with
        | Err e => (vals, Err e)
        | Ok vals1 =>
            match registry_set vals1 index
                    (SetWithdrawableEpoch
                       (wrap64 (exitEnd + MIN_VALIDATOR_WITHDRAWABILITY_DELAY spec))) with
            | Err e => (vals1, Err e)
            | Ok vals2 =>
                if wrap64 (endChurn + 1) >=? churnLimit
                then process_ejections spec churnLimit rest (wrap64 (exitEnd + 1)) 0 vals2
                else process_ejections spec churnLimit rest exitEnd
                       (wrap64 (endChurn + 1)) vals2
            end
        end
    end.
Proof.
  cbn [process_ejections]. unfold and_then at 1. unfold get_validator at 1.
  destruct (registry_get vals index) as [v|e]; [|reflexivity].
  unfold and_then at 1. unfold set_validator at 1.
  destruct (registry_set vals index (SetExitEpoch exitEnd)) as [vals1|e]; [|reflexivity].
  unfold and_then at 1. unfold set_validator at 1.
  destruct (registry_set vals1 index _) as [vals2|e]; [|reflexivity].
  destruct (wrap64 (endChurn + 1) >=? churnLimit); reflexivity.
Qed.

(** The two writes of one ejection. *)
Lemma eject_writes spec exitEnd (vals : ValidatorsRegistryView) index v :
  registry_get vals index = Ok v ->
  exists pre rest,
    vals = pre ++ v :: rest /\ len pre = index
    /\ registry_set vals index (SetExitEpoch exitEnd)
       = Ok (pre ++ SetExitEpoch exitEnd v :: rest)
    /\ registry_set (pre ++ SetExitEpoch exitEnd v :: rest) index
         (SetWithdrawableEpoch
            (wrap64 (exitEnd + MIN_VALIDATOR_WITHDRAWABILITY_DELAY spec)))
       = Ok (pre ++ SetWithdrawableEpoch
                      (wrap64 (exitEnd + MIN_VALIDATOR_WITHDRAWABILITY_DELAY spec))
                      (SetExitEpoch exitEnd v) :: rest).
Proof.
  intros Hv.
  destruct (registry_set_in_range _ _ (SetExitEpoch exitEnd) _ Hv)
    as (pre & rest & -> & Hl & Hs).
  exists pre, rest. repeat split; try assumption.
  unfold registry_set. destruct (Z.ltb_spec index 0); [unfold len in Hl; lia|].
  replace (Z.to_nat index) with (length pre) by (unfold len in Hl; lia).
  rewrite modify_nat_app. reflexivity.
Qed.

(** Ejections leave every validator outside the queue as it was, whether
    or not the loop runs to its end. *)
Lemma process_ejections_frame spec churnLimit (indices : list ValidatorIndex) :
  forall exitEnd endChurn vals i,
    ~ In i indices ->
    registry_get (fst (process_ejections spec churnLimit indices exitEnd endChurn vals)) i
    = registry_get vals i.
Proof.
  induction indices as [|index rest IH]; intros exitEnd endChurn vals i Hi.
  - reflexivity.
  - rewrite process_ejections_cons.
    destruct (registry_get vals index) as [v|e] eqn:Hv; [|reflexivity].
    destruct (eject_writes spec exitEnd _ _ _ Hv) as (pre & rest0 & -> & Hl & -> & ->).
    assert (Hne : i <> len pre) by (rewrite Hl; intros ->; apply Hi; left; reflexivity).
    assert (Hrest : ~ In i rest) by (intros H; apply Hi; right; exact H).
    destruct (wrap64 (endChurn + 1) >=? churnLimit); rewrite IH by assumption;
      apply registry_get_app_other; assumption.
Qed.

Lemma exit_epoch_of_frame (vals vals' : ValidatorsRegistryView) (i : ValidatorIndex) :
  registry_get vals' i = registry_get vals i -> exit_epoch_of vals' i = exit_epoch_of vals i.
Proof. unfold exit_epoch_of. intros ->. reflexivity. Qed.

(** A run of the ejection loop to its end over distinct indices: the
    validators of the queue hold the scheduled exit epochs, each with the
    withdrawable epoch that goes with it. *)
Lemma process_ejections_Ok spec churnLimit (indices : list ValidatorIndex) :
  forall exitEnd endChurn vals vals',
    process_ejections spec churnLimit indices exitEnd endChurn vals = (vals', Ok tt) ->
    NoDup indices ->
    map (exit_epoch_of vals') indices
    = exit_schedule churnLimit (length indices) exitEnd endChurn
    /\ Forall (fun index =>
                 exists v v',
                   registry_get vals index = Ok v
                   /\ registry_get vals' index = Ok v'
                   /\ WithdrawableEpoch v'
                      = wrap64 (ExitEpoch v' + MIN_VALIDATOR_WITHDRAWABILITY_DELAY spec))
         indices.
Proof.
  induction indices as [|index rest IH]; intros exitEnd endChurn vals vals' H Hnd.
  - simpl. auto.
  - inversion Hnd as [|x l Hnotin Hnd']; subst.
    rewrite process_ejections_cons in H.
    destruct (registry_get vals index) as [v|e] eqn:Hv; [|discriminate].
    destruct (eject_writes spec exitEnd _ _ _ Hv) as (pre & rest0 & -> & Hl & E1 & E2).
    rewrite E1, E2 in H.
    set (v2 := SetWithdrawableEpoch
                 (wrap64 (exitEnd + MIN_VALIDATOR_WITHDRAWABILITY_DELAY spec))
                 (SetExitEpoch exitEnd v)) in *.
    assert (Hhead : registry_get vals' index = Ok v2).
    { pose proof (process_ejections_frame spec churnLimit rest
                    (if wrap64 (endChurn + 1) >=? churnLimit
                     then wrap64 (exitEnd + 1) else exitEnd)
                    (if wrap64 (endChurn + 1) >=? churnLimit
                     then 0 else wrap64 (endChurn + 1))
                    (pre ++ v2 :: rest0) index Hnotin) as Hf.
      destruct (wrap64 (endChurn + 1) >=? churnLimit); rewrite H in Hf; simpl in Hf;
        rewrite Hf, <- Hl; apply registry_get_app. }
    assert (Htail :
      map (exit_epoch_of vals') rest
      = (if wrap64 (endChurn + 1) >=? churnLimit
         then exit_schedule churnLimit (length rest) (wrap64 (exitEnd + 1)) 0
         else exit_schedule churnLimit (length rest) exitEnd (wrap64 (endChurn + 1)))
      /\ Forall (fun index =>
                   exists v v',
                     registry_get (pre ++ v2 :: rest0) index = Ok v
                     /\ registry_get vals' index = Ok v'
                     /\ WithdrawableEpoch v'
                        = wrap64 (ExitEpoch v' + MIN_VALIDATOR_WITHDRAWABILITY_DELAY spec))
           rest).
    { destruct (wrap64 (endChurn + 1) >=? churnLimit); eapply IH; eassumption. }
    destruct Htail as [Hmap Hall]. split.
    + cbn [map length exit_schedule]. rewrite Hmap. f_equal.
      unfold exit_epoch_of. rewrite Hhead. reflexivity.
    + constructor.
      * exists v, v2. repeat split; assumption.
      * rewrite Forall_forall in *. intros i Hi.
        destruct (Hall i Hi) as (w & w' & Hw & Hw' & HW).
        assert (Hne : i <> len pre) by (rewrite Hl; intros ->; contradiction).
        rewrite (registry_get_app_other pre v v2 rest0 i Hne) in Hw.
        exists w, w'. auto.
Qed.

(** ** The cursor count *)

Lemma count_exit_queue_end_filter (exitQueueEnd : Epoch) prevEpoch currentEpoch
    (vals : list FlatValidator) :
  forall churn,
    count_exit_queue_end exitQueueEnd
      (map (fun v => collect_status prevEpoch currentEpoch v zero_status) vals) churn
    = churn + len (filter (fun v => ExitEpoch v =? exitQueueEnd) vals).
Proof.
  induction vals as [|v vals IH]; intros churn; cbn [map count_exit_queue_end filter].
  - unfold len. simpl. lia.
  - rewrite IH, collect_status_Validator.
    destruct (ExitEpoch v =? exitQueueEnd); unfold len; simpl length; lia.
Qed.

(** ** Updates that keep a view of the registry *)

Section Keeps.
Context {B : Type} (g : FlatValidator -> B).

Lemma keeps_done {A : Type} (a : A) : keeps g (done a).
Proof. intros vals. reflexivity. Qed.

Lemma keeps_fail {A : Type} (e : error) : keeps g (@fail A e).
Proof. intros vals. reflexivity. Qed.

Lemma keeps_get_validator (index : ValidatorIndex) : keeps g (get_validator index).
Proof. intros vals. reflexivity. Qed.

Lemma keeps_set_validator (index : ValidatorIndex) (f : FlatValidator -> FlatValidator) :
  (forall v, g (f v) = g v) -> keeps g (set_validator index f).
Proof.
  intros Hf vals.
  destruct (set_validator_spec index f vals)
    as [(v & pre & rest & -> & _ & ->)|(_ & e & ->)]; [|reflexivity].
  simpl. rewrite !map_app. simpl. rewrite Hf. reflexivity.
Qed.

Lemma keeps_and_then {A C : Type} (m : Update A) (k : A -> Update C) :
  keeps g m -> (forall a, keeps g (k a)) -> keeps g (and_then m k).
Proof.
  intros Hm Hk vals. unfold and_then. specialize (Hm vals).
  destruct (m vals) as [vals1 [a|e]]; simpl in *.
  - rewrite Hk. exact Hm.
  - exact Hm.
Qed.

Lemma keeps_process_eligibility (eligibilityEpoch : Epoch) (indices : list ValidatorIndex) :
  (forall e v, g (SetActivationEligibilityEpoch e v) = g v) ->
  keeps g (process_eligibility eligibilityEpoch indices).
Proof.
  intros Hf. induction indices as [|index rest IH]; cbn [process_eligibility].
  - apply keeps_done.
  - apply keeps_and_then; [apply keeps_get_validator|]. intros v.
    apply keeps_and_then; [apply keeps_set_validator; apply Hf|]. intros u. exact IH.
Qed.

Lemma keeps_process_activations process finalizedEpoch activationEpoch
    (dequeued : list ValidatorIndex) :
  (forall e v, g (SetActivationEpoch e v) = g v) ->
  keeps g (process_activations process finalizedEpoch activationEpoch dequeued).
Proof.
  intros Hf. induction dequeued as [|index rest IH]; cbn [process_activations].
  - apply keeps_done.
  - destruct (index_at (Statuses process) index) as [status|e]; [|apply keeps_fail].
    destruct (finalizedEpoch <? _); [apply keeps_done|].
    apply keeps_and_then; [apply keeps_get_validator|]. intros v.
    apply keeps_and_then; [apply keeps_set_validator; apply Hf|]. intros u. exact IH.
Qed.

Lemma registry_get_keeps (vals vals' : ValidatorsRegistryView) (i : ValidatorIndex)
    (w : FlatValidator) :
  map g vals' = map g vals ->
  registry_get vals i = Ok w ->
  exists w', registry_get vals' i = Ok w' /\ g w' = g w.
Proof.
  intros Hmap. unfold registry_get. destruct (i <? 0); [discriminate|].
  destruct (nth_error vals (Z.to_nat i)) as [x|] eqn:E; [|discriminate].
  intros Hx; inversion Hx; subst x.
  pose proof (map_nth_error g _ _ E) as Hg. rewrite <- Hmap in Hg.
  rewrite nth_error_map in Hg.
  destruct (nth_error vals' (Z.to_nat i)) as [w'|]; [|discriminate].
  exists w'. split; [reflexivity|]. simpl in Hg. congruence.
Qed.

End Keeps.

(** ** Sorting *)

(** Insertion into a slice sorted by a comparison that is transitive and
    decides between any two distinct elements. *)
Section Sorting.
Context {A : Type} (less : A -> A -> bool).
Hypothesis less_trans : forall a b c, less a b = true -> less b c = true -> less a c = true.
Hypothesis less_total : forall a b, a <> b -> less a b = true \/ less b a = true.

Lemma sort_insert_perm (x : A) (s : list A) : Permutation (sort_insert less x s) (x :: s).
Proof.
  induction s as [|y s IH]; simpl; [reflexivity|].
  destruct (less x y); [reflexivity|].
  rewrite IH. apply perm_swap.
Qed.

Lemma sort_Slice_perm (s : list A) : Permutation (sort_Slice less s) s.
Proof.
  induction s as [|x s IH]; simpl; [reflexivity|].
  rewrite sort_insert_perm. constructor. exact IH.
Qed.

Lemma sort_insert_sorted (x : A) (s : list A) :
  ~ In x s ->
  StronglySorted (fun a b => less a b = true) s ->
  StronglySorted (fun a b => less a b = true) (sort_insert less x s).
Proof.
  induction s as [|y s IH]; intros Hx Hs; simpl.
  - constructor; constructor.
  - inversion Hs as [|y' s' Hs' Hy]; subst.
    destruct (less x y) eqn:Hxy.
    + constructor; [exact Hs|]. constructor; [exact Hxy|].
      rewrite Forall_forall in *. intros z Hz. eapply less_trans; [exact Hxy|auto].
    + assert (Hyx : less y x = true).
      { destruct (less_total x y) as [H|H]; [|congruence|exact H].
        intros ->. apply Hx. left. reflexivity. }
      constructor.
      * apply IH; [|exact Hs']. intros H. apply Hx. right. exact H.
      * rewrite Forall_forall in *. intros z Hz.
        apply (Permutation_in _ (sort_insert_perm x s)) in Hz.
        destruct Hz as [<-|Hz]; auto.
Qed.

Lemma sort_Slice_sorted (s : list A) :
  NoDup s -> StronglySorted (fun a b => less a b = true) (sort_Slice less s).
Proof.
  induction 1 as [|x s Hx Hnd IH]; simpl; [constructor|].
  apply sort_insert_sorted; [|exact IH].
  intros H. apply Hx. eapply Permutation_in; [apply sort_Slice_perm|exact H].
Qed.

End Sorting.

(** Two arrangements of the same elements, both sorted by a strict order,
    are the same arrangement. *)
Lemma sorted_perm_unique {A : Type} (R : A -> A -> Prop) :
  (forall a, ~ R a a) -> (forall a b c, R a b -> R b c -> R a c) ->
  forall l1 l2,
    StronglySorted R l1 -> StronglySorted R l2 -> Permutation l1 l2 -> l1 = l2.
Proof.
  intros Hirr Htr. induction l1 as [|a l1 IH]; intros l2 H1 H2 HP.
  - apply Permutation_nil in HP. congruence.
  - destruct l2 as [|b l2]; [apply Permutation_sym, Permutation_nil in HP; discriminate|].
    inversion H1 as [|a' l1' Hs1 Ha]; subst. inversion H2 as [|b' l2' Hs2 Hb]; subst.
    assert (Hab : a = b).
    { assert (Hin1 : In a (b :: l2)) by (eapply Permutation_in; [exact HP|left; reflexivity]).
      assert (Hin2 : In b (a :: l1))
        by (eapply Permutation_in; [apply Permutation_sym; exact HP|left; reflexivity]).
      destruct Hin1 as [->|Hin1]; [reflexivity|].
      destruct Hin2 as [->|Hin2]; [reflexivity|].
      rewrite Forall_forall in Ha, Hb. exfalso.
      apply (Hirr a). eapply Htr; [apply Ha; exact Hin2|apply Hb; exact Hin1]. }
    subst b. f_equal. apply IH; try assumption.
    eapply Permutation_cons_inv. exact HP.
Qed.

Lemma StronglySorted_nth {A : Type} (R : A -> A -> Prop) (l : list A) :
  StronglySorted R l <->
  (forall (i j : nat) a b, (i < j)%nat ->
     nth_error l i = Some a -> nth_error l j = Some b -> R a b).
Proof.
  split.
  - induction 1 as [|x l Hs IH Hx]; intros i j a b Hij Ha Hb.
    + destruct i; discriminate.
    + destruct j as [|j]; [lia|]. simpl in Hb. destruct i as [|i].
      * simpl in Ha. inversion Ha; subst. rewrite Forall_forall in Hx.
        apply Hx. eapply nth_error_In. exact Hb.
      * simpl in Ha. apply (IH i j); [lia|assumption|assumption].
  - induction l as [|x l IH]; intros H; constructor.
    + apply IH. intros i j a b Hij Ha Hb. apply (H (S i) (S j)); [lia|assumption|assumption].
    + rewrite Forall_forall. intros y Hy.
      apply In_nth_error in Hy. destruct Hy as [n Hn].
      apply (H 0%nat (S n)); [lia|reflexivity|exact Hn].
Qed.

(** * Indexed-attestation validation *)

Lemma IsSorted_Sorted (l : ValidatorSet) : IsSorted l = true <-> Sorted Z.le l.
Proof.
  induction l as [|a [|b l] IH].
  - simpl. split; auto.
  - simpl. split; auto.
  - change (IsSorted (a :: b :: l)) with (negb (ValidatorSet_Less b a) && IsSorted (b :: l)).
    unfold ValidatorSet_Less. rewrite andb_true_iff, negb_true_iff, Z.ltb_ge, IH.
    split.
    + intros [Hab Hs]. constructor; [exact Hs | constructor; exact Hab].
    + intros H. inversion H as [|x y Hs Hd]; subst. inversion Hd; subst. split; assumption.
Qed.

Lemma find_duplicate_spec (l : ValidatorSet) :
  forall i, match find_duplicate i l with
            | Some _ => adjacent_equal l
            | None => ~ adjacent_equal l
            end.
Proof.
  induction l as [|a [|b l] IH]; intros i.
  - simpl. intros (l1 & x & l2 & H). destruct l1; discriminate.
  - simpl. intros (l1 & x & l2 & H).
    destruct l1 as [|y [|z l1]]; discriminate.
  - change (find_duplicate i (a :: b :: l))
      with (if a =? b then Some (ErrIndicesDuplicate (i - 1) i b)
            else find_duplicate (i + 1) (b :: l)).
    destruct (Z.eqb_spec a b) as [->|Hne].
    + exists [], b, l. reflexivity.
    + specialize (IH (i + 1)). destruct (find_duplicate (i + 1) (b :: l)).
      * destruct IH as (l1 & x & l2 & H). exists (a :: l1), x, l2.
        simpl. rewrite H. reflexivity.
      * intros (l1 & x & l2 & H). destruct l1 as [|y l1].
        -- simpl in H. injection H as -> -> _. congruence.
        -- simpl in H. injection H as -> H. apply IH. exists l1, x, l2. exact H.
Qed.

Lemma index_at_last {A} (l : list A) (d : A) :
  l <> [] -> index_at l (len l - 1) = Ok (last l d).
Proof.
  intros Hne. unfold index_at, len.
  destruct l as [|a l]; [congruence|].
  destruct (Z.ltb_spec (Z.of_nat (length (a :: l)) - 1) 0) as [H|H].
  - simpl length in H. lia.
  - replace (Z.to_nat (Z.of_nat (length (a :: l)) - 1)) with (length l)
      by (simpl length; lia).
    clear H Hne. revert a. induction l as [|b l IH]; intros a.
    + reflexivity.
    + simpl length. change (nth_error (a :: b :: l) (S (length l))) with (nth_error (b :: l) (length l)).
      change (last (a :: b :: l) d) with (last (b :: l) d). apply IH.
Qed.

Lemma len_nil_iff {A} (l : list A) : (len l <=? 0) = true <-> l = [].
Proof.
  unfold len. rewrite Z.leb_le. destruct l; simpl; split; intros; try congruence; try lia.
Qed.

(** C1: [ValidateIndexedAttestationNoSignature] returns an error exactly
    when the attesting indices are more than [MAX_VALIDATORS_PER_COMMITTEE],
    or none, or not sorted ascending, or hold two equal neighbours, or end
    in an index outside the registry; on success
    [ValidateIndexedAttestationIndicesSet] returns the indices unchanged.
    The sets [[]], [[5;3]] and [[3;3]] are rejected, and so is [[1;3;5]]
    against a registry of four validators. *)
Theorem indexed_attestation_validation :
  forall (spec : Spec) (state : BeaconStateView) (ia : IndexedAttestation),
    (ValidateIndexedAttestationNoSignature spec state ia <> None <->
       (MAX_VALIDATORS_PER_COMMITTEE spec < len (AttestingIndices ia)
        \/ AttestingIndices ia = []
        \/ ~ Sorted Z.le (AttestingIndices ia)
        \/ adjacent_equal (AttestingIndices ia)
        \/ ~ (0 <= last (AttestingIndices ia) 0 < len (Validators state))))
    /\ (forall s, ValidateIndexedAttestationIndicesSet spec ia = Ok s ->
                  s = AttestingIndices ia)
    /\ (forall d g,
          ValidateIndexedAttestationNoSignature spec state
            {| AttestingIndices := []; ia_Data := d; ia_Signature := g |} <> None
          /\ ValidateIndexedAttestationNoSignature spec state
               {| AttestingIndices := [5; 3]; ia_Data := d; ia_Signature := g |} <> None
          /\ ValidateIndexedAttestationNoSignature spec state
               {| AttestingIndices := [3; 3]; ia_Data := d; ia_Signature := g |} <> None
          /\ (len (Validators state) = 4 ->
              ValidateIndexedAttestationNoSignature spec state
                {| AttestingIndices := [1; 3; 5]; ia_Data := d; ia_Signature := g |} <> None)).
Proof.
  intros spec state ia.
  assert (Hiff : forall ia,
    ValidateIndexedAttestationNoSignature spec state ia <> None <->
       (MAX_VALIDATORS_PER_COMMITTEE spec < len (AttestingIndices ia)
        \/ AttestingIndices ia = []
        \/ ~ Sorted Z.le (AttestingIndices ia)
        \/ adjacent_equal (AttestingIndices ia)
        \/ ~ (0 <= last (AttestingIndices ia) 0 < len (Validators state)))).
  { clear ia. intros ia.
    unfold ValidateIndexedAttestationNoSignature, ValidateIndexedAttestationIndicesSet.
    set (l := AttestingIndices ia).
    destruct (Z.ltb_spec (MAX_VALIDATORS_PER_COMMITTEE spec) (len l)) as [Hc|Hc].
    { simpl. split; [intros _; left; exact Hc | discriminate]. }
    destruct (len l <=? 0) eqn:He.
    { apply len_nil_iff in He. simpl. split; [intros _; right; left; exact He | discriminate]. }
    assert (Hne : l <> []).
    { intros E. apply len_nil_iff in E. congruence. }
    destruct (IsSorted l) eqn:Hs.
    2:{ simpl. split; [|discriminate]. intros _. right; right; left.
        rewrite <- IsSorted_Sorted. congruence. }
    apply IsSorted_Sorted in Hs.
    pose proof (find_duplicate_spec l 1) as Hd.
    destruct (find_duplicate 1 l).
    { simpl. split; [|discriminate]. intros _. right; right; right; left. exact Hd. }
    simpl. rewrite (index_at_last l 0 Hne). simpl.
    unfold IsValidIndex.
    destruct (Z.leb_spec 0 (last l 0)) as [H0|H0];
      destruct (Z.ltb_spec (last l 0) (len (Validators state))) as [H1|H1]; simpl.
    - split; [congruence|]. intros [H|[H|[H|[H|H]]]]; try contradiction; try lia.
    - split; [|discriminate]. intros _. right; right; right; right. lia.
    - split; [|discriminate]. intros _. right; right; right; right. lia.
    - split; [|discriminate]. intros _. right; right; right; right. lia. }
  split; [apply Hiff|]. split.
  - intros s. unfold ValidateIndexedAttestationIndicesSet.
    destruct (_ <? _); [discriminate|].
    destruct (_ <=? _); [discriminate|].
    destruct (negb _); [discriminate|].
    destruct (find_duplicate _ _); [discriminate|]. congruence.
  - intros d g. repeat split.
    + apply Hiff. simpl. right; left; reflexivity.
    + apply Hiff. simpl. right; right; left. intros H.
      inversion H as [|x y Hs Hd]; subst. inversion Hd; subst. lia.
    + apply Hiff. simpl. right; right; right; left. exists [], 3, []. reflexivity.
    + intros H4. apply Hiff. simpl. right; right; right; right. rewrite H4. lia.
Qed.

(** The accepted row of the table, as far as the index set and the registry
    bound go: [[1; 2]] against a registry of three validators. *)
Example indices_1_2_accepted :
  ValidateIndexedAttestationNoSignature mainnet
    (quiet_state [active_validator; active_validator; active_validator] 0)
    {| AttestingIndices := [1; 2]; ia_Data := Data head_vote; ia_Signature := 0 |}
  = None.
Proof. reflexivity. Qed.

(** * Pass 1: the to-slash queue and the unslashed flag *)

Lemma unslashed_bit_collect prevEpoch currentEpoch v :
  Z.testbit (Flags (collect_status prevEpoch currentEpoch v zero_status)) 6
  = negb (Slashed v).
Proof.
  unfold collect_status. destruct (Slashed v); destruct (_ || _); reflexivity.
Qed.

Lemma prepare_unslashed_flag ctx spec epc state p :
  prepare_epoch_process ctx spec epc state = Ok p ->
  Forall unslashed_flag_ok (Statuses p).
Proof.
  unfold unslashed_flag_ok.
  change UnslashedAttester with (2 ^ 6).
  apply prepare_statuses_Forall.
  - intros att a Ha. rewrite note_inclusion_Flags, note_inclusion_Validator. exact Ha.
  - intros att r1 r2 a Ha. rewrite HasMarkers_bit in * by lia.
    rewrite mark_flags_testbit, mark_flags_Validator, Ha.
    change (Z.testbit PrevSourceAttester 6) with false.
    change (Z.testbit PrevTargetAttester 6) with false.
    change (Z.testbit PrevHeadAttester 6) with false.
    rewrite !andb_false_r, !orb_false_r. reflexivity.
  - intros att r1 r2 a Ha. rewrite HasMarkers_bit in * by lia.
    rewrite mark_flags_testbit, mark_flags_Validator, Ha.
    change (Z.testbit CurrSourceAttester 6) with false.
    change (Z.testbit CurrTargetAttester 6) with false.
    change (Z.testbit CurrHeadAttester 6) with false.
    rewrite !andb_false_r, !orb_false_r. reflexivity.
  - intros v. rewrite HasMarkers_bit by lia.
    rewrite unslashed_bit_collect, collect_status_Validator. reflexivity.
Qed.

(** C2, as amended: after [PrepareEpochProcess], a validator is in the
    to-slash queue exactly when it is slashed and its withdrawable epoch is
    [current_epoch + EPOCHS_PER_SLASHINGS_VECTOR / 2], and its status carries
    [UnslashedAttester] exactly when it is not slashed. *)
Theorem slash_queue_and_unslashed_flag :
  forall ctx spec epc state p i v,
    PrepareEpochProcess ctx spec epc state = (Some p, None) ->
    registry_get (Validators state) i = Ok v ->
    (In i (IndicesToSlash p) <->
       Slashed v = true
       /\ WithdrawableEpoch v
          = wrap64 (CurrentEpoch epc + EPOCHS_PER_SLASHINGS_VECTOR spec / 2))
    /\ exists status,
         index_at (Statuses p) i = Ok status
         /\ Validator status = v
         /\ HasMarkers (Flags status) UnslashedAttester = negb (Slashed v).
Proof.
  intros ctx spec epc state p i v H Hv.
  apply returned_Some in H.
  pose proof (prepare_unslashed_flag _ _ _ _ _ H) as Hflag.
  pose proof (prepare_Validators _ _ _ _ _ H) as Hvals.
  destruct (prepare_epoch_process_Ok _ _ _ _ _ H)
    as (limit & s2 & s3 & out3 & _ & _ & _ & _ & _ & Hq & _).
  split.
  - rewrite Hq, select_indices_In. rewrite Z.sub_0_r. unfold queued_to_slash. split.
    + intros (w & Hw & _ & Hc). rewrite Hv in Hw. inversion Hw; subst w.
      apply andb_prop in Hc. destruct Hc as [Hs He]. apply Z.eqb_eq in He. auto.
    + intros [Hs He]. exists v. split; [exact Hv|]. split.
      * unfold registry_get in Hv. destruct (Z.ltb_spec i 0); [discriminate|lia].
      * rewrite Hs, He, Z.eqb_refl. reflexivity.
  - destruct (registry_get_index_at _ _ _ _ Hvals Hv) as (status & Hi & Hval).
    exists status. split; [exact Hi|]. split; [exact Hval|].
    rewrite Forall_forall in Hflag. rewrite <- Hval. apply Hflag.
    unfold index_at in Hi. destruct (i <? 0); [discriminate|].
    destruct (nth_error (Statuses p) (Z.to_nat i)) eqn:E; [|discriminate].
    inversion Hi; subst. eapply nth_error_In; exact E.
Qed.

(** The amended statement at the registry of one slashed validator. *)
Lemma slash_queue_and_unslashed_flag_witness :
  exists p,
    PrepareEpochProcess never_cancelled mainnet (epoch_ten [])
      (quiet_state [slashed_elsewhere] 0) = (Some p, None)
    /\ registry_get (Validators (quiet_state [slashed_elsewhere] 0)) 0
       = Ok slashed_elsewhere
    /\ (In 0 (IndicesToSlash p) <->
          Slashed slashed_elsewhere = true
          /\ WithdrawableEpoch slashed_elsewhere
             = wrap64 (CurrentEpoch (epoch_ten [])
                       + EPOCHS_PER_SLASHINGS_VECTOR mainnet / 2))
    /\ exists status,
         index_at (Statuses p) 0 = Ok status
         /\ Validator status = slashed_elsewhere
         /\ HasMarkers (Flags status) UnslashedAttester
            = negb (Slashed slashed_elsewhere).
Proof.
  eexists. split; [vm_compute; reflexivity|]. split; [reflexivity|].
  apply (slash_queue_and_unslashed_flag never_cancelled mainnet (epoch_ten [])
           (quiet_state [slashed_elsewhere] 0)).
  - vm_compute. reflexivity.
  - reflexivity.
Defined.

(** C2, as stated, fails: a validator that is slashed but whose
    withdrawable epoch is not the slashings epoch is neither queued for
    slashing nor marked [UnslashedAttester]. *)
Lemma slashed_elsewhere_is_not_marked_unslashed :
  exists p status,
    PrepareEpochProcess never_cancelled mainnet (epoch_ten [])
      (quiet_state [slashed_elsewhere] 0) = (Some p, None)
    /\ registry_get (Validators (quiet_state [slashed_elsewhere] 0)) 0
       = Ok slashed_elsewhere
    /\ Slashed slashed_elsewhere
       && (WithdrawableEpoch slashed_elsewhere
           =? wrap64 (CurrentEpoch (epoch_ten [])
                      + EPOCHS_PER_SLASHINGS_VECTOR mainnet / 2)) = false
    /\ IndicesToSlash p = []
    /\ index_at (Statuses p) 0 = Ok status
    /\ HasMarkers (Flags status) UnslashedAttester = false.
Proof.
  eexists. eexists. split; [vm_compute; reflexivity|].
  repeat split.
Qed.

(** * The stake floor *)

Lemma clamp_stakes_floor (spec : Spec) (out : EpochProcess) :
  let p := clamp_stakes spec out in
  EFFECTIVE_BALANCE_INCREMENT spec <= TotalActiveStake p
  /\ EFFECTIVE_BALANCE_INCREMENT spec <= SourceStake (PrevEpochUnslashedStake p)
  /\ EFFECTIVE_BALANCE_INCREMENT spec <= TargetStake (PrevEpochUnslashedStake p)
  /\ EFFECTIVE_BALANCE_INCREMENT spec <= HeadStake (PrevEpochUnslashedStake p)
  /\ EFFECTIVE_BALANCE_INCREMENT spec <= CurrEpochUnslashedTargetStake p.
Proof.
  unfold clamp_stakes.
  destruct (Z.ltb_spec (TotalActiveStake out) (EFFECTIVE_BALANCE_INCREMENT spec));
    cbn [PrevEpochUnslashedStake set_TotalActiveStake SourceStake];
  destruct (Z.ltb_spec (SourceStake (PrevEpochUnslashedStake out))
              (EFFECTIVE_BALANCE_INCREMENT spec));
    cbn [PrevEpochUnslashedStake set_TotalActiveStake set_PrevEpochUnslashedStake
           SourceStake TargetStake HeadStake];
  destruct (Z.ltb_spec (TargetStake (PrevEpochUnslashedStake out))
              (EFFECTIVE_BALANCE_INCREMENT spec));
    cbn [PrevEpochUnslashedStake set_TotalActiveStake set_PrevEpochUnslashedStake
           SourceStake TargetStake HeadStake];
  destruct (Z.ltb_spec (HeadStake (PrevEpochUnslashedStake out))
              (EFFECTIVE_BALANCE_INCREMENT spec));
    cbn [PrevEpochUnslashedStake set_TotalActiveStake set_PrevEpochUnslashedStake
           CurrEpochUnslashedTargetStake SourceStake TargetStake HeadStake];
  destruct (Z.ltb_spec (CurrEpochUnslashedTargetStake out)
              (EFFECTIVE_BALANCE_INCREMENT spec));
    simpl; repeat split; lia.
Qed.

(** C3: every stake total of the process that [PrepareEpochProcess]
    returns -- the total active stake, the three previous-epoch unslashed
    stakes and the current-epoch unslashed target stake -- is at least
    [EFFECTIVE_BALANCE_INCREMENT], whatever the state and whoever attested. *)
Theorem stake_totals_floor :
  forall ctx spec epc state p,
    PrepareEpochProcess ctx spec epc state = (Some p, None) ->
    EFFECTIVE_BALANCE_INCREMENT spec <= TotalActiveStake p
    /\ EFFECTIVE_BALANCE_INCREMENT spec <= SourceStake (PrevEpochUnslashedStake p)
    /\ EFFECTIVE_BALANCE_INCREMENT spec <= TargetStake (PrevEpochUnslashedStake p)
    /\ EFFECTIVE_BALANCE_INCREMENT spec <= HeadStake (PrevEpochUnslashedStake p)
    /\ EFFECTIVE_BALANCE_INCREMENT spec <= CurrEpochUnslashedTargetStake p.
Proof.
  intros ctx spec epc state p H. apply returned_Some in H.
  destruct (prepare_epoch_process_Ok _ _ _ _ _ H)
    as (limit & s2 & s3 & out3 & _ & _ & _ & -> & _).
  apply clamp_stakes_floor.
Qed.

(** The floor at a state in which nobody attested: the three attester
    stakes are raised from zero to the increment. *)
Lemma stake_totals_floor_witness :
  exists p,
    PrepareEpochProcess never_cancelled mainnet (epoch_ten [])
      (quiet_state [validator 32000000000 false 0 0 FAR_FUTURE_EPOCH FAR_FUTURE_EPOCH] 0)
    = (Some p, None)
    /\ SourceStake (PrevEpochUnslashedStake p) = 1000000000
    /\ (EFFECTIVE_BALANCE_INCREMENT mainnet <= TotalActiveStake p
        /\ EFFECTIVE_BALANCE_INCREMENT mainnet <= SourceStake (PrevEpochUnslashedStake p)
        /\ EFFECTIVE_BALANCE_INCREMENT mainnet <= TargetStake (PrevEpochUnslashedStake p)
        /\ EFFECTIVE_BALANCE_INCREMENT mainnet <= HeadStake (PrevEpochUnslashedStake p)
        /\ EFFECTIVE_BALANCE_INCREMENT mainnet <= CurrEpochUnslashedTargetStake p).
Proof.
  eexists. split; [vm_compute; reflexivity|]. split; [reflexivity|].
  apply (stake_totals_floor never_cancelled mainnet (epoch_ten [])
           (quiet_state
              [validator 32000000000 false 0 0 FAR_FUTURE_EPOCH FAR_FUTURE_EPOCH] 0)).
  vm_compute. reflexivity.
Defined.

(** * Churn of the ejection pass *)

Lemma wrap64_shift_ne (E d : Z) : 1 <= d < uint64_modulus -> wrap64 (E + d) <> E.
Proof.
  unfold wrap64, uint64_modulus. intros Hd Heq.
  pose proof (Z.mod_pos_bound (E + d) (2 ^ 64) ltac:(lia)) as Hb.
  pose proof (Z.div_mod (E + d) (2 ^ 64) ltac:(lia)) as Hdm.
  rewrite Heq in Hdm, Hb. nia.
Qed.

Lemma wrap64_add_l (a b : Z) : wrap64 (wrap64 a + b) = wrap64 (a + b).
Proof. unfold wrap64. apply Zplus_mod_idemp_l. Qed.

Lemma wrap64_small (a : Z) : 0 <= a < uint64_modulus -> wrap64 a = a.
Proof. unfold wrap64. apply Z.mod_small. Qed.

Lemma exit_schedule_length churnLimit (n : nat) :
  forall exitEnd endChurn, length (exit_schedule churnLimit n exitEnd endChurn) = n.
Proof.
  induction n as [|n IH]; intros exitEnd endChurn; simpl; [reflexivity|].
  destruct (_ >=? _); rewrite IH; reflexivity.
Qed.

Lemma count_occ_le_length (l : list Z) (x : Z) :
  (count_occ Z.eq_dec l x <= length l)%nat.
Proof.
  induction l as [|a l IH]; simpl; [lia|]. destruct (Z.eq_dec a x); lia.
Qed.

(** From a cursor whose count is below a positive churn limit, no epoch is
    scheduled more than [churnLimit] times, and the cursor's own epoch no
    more often than its count leaves room for. *)
Lemma exit_schedule_counts (churnLimit : Z) :
  1 <= churnLimit < uint64_modulus ->
  forall (n : nat) exitEnd endChurn,
    0 <= endChurn < churnLimit ->
    Z.of_nat n < uint64_modulus ->
    (forall x, In x (exit_schedule churnLimit n exitEnd endChurn) ->
               x = exitEnd
               \/ exists d, 1 <= d < Z.of_nat n /\ x = wrap64 (exitEnd + d))
    /\ (forall x,
          Z.of_nat (count_occ Z.eq_dec (exit_schedule churnLimit n exitEnd endChurn) x)
          <= churnLimit - (if x =? exitEnd then endChurn else 0)).
Proof.
  intros HL. induction n as [|n IH]; intros exitEnd endChurn Hc Hn.
  - simpl. split; [contradiction|]. intros x. destruct (x =? exitEnd); lia.
  - cbn [exit_schedule].
    rewrite (wrap64_small (endChurn + 1)) by lia.
    destruct (Z.geb_spec (endChurn + 1) churnLimit) as [Hge|Hlt].
    + destruct (IH (wrap64 (exitEnd + 1)) 0 ltac:(lia) ltac:(lia)) as [Hw Hcount].
      assert (Hwin : forall x, In x (exit_schedule churnLimit n (wrap64 (exitEnd + 1)) 0) ->
                exists d, 1 <= d < Z.of_nat (S n) /\ x = wrap64 (exitEnd + d)).
      { intros x Hx. destruct n as [|n']; [contradiction|].
        destruct (Hw x Hx) as [->|(d & Hd & ->)].
        - exists 1. split; [lia|reflexivity].
        - exists (d + 1). split; [lia|]. rewrite wrap64_add_l. f_equal. lia. }
      split.
      * intros x [<-|Hx]; [left; reflexivity|right; apply Hwin; exact Hx].
      * intros x. cbn [count_occ]. destruct (Z.eq_dec exitEnd x) as [<-|Hne].
        -- rewrite Z.eqb_refl.
           assert (Hzero : count_occ Z.eq_dec
                             (exit_schedule churnLimit n (wrap64 (exitEnd + 1)) 0) exitEnd
                           = 0%nat).
           { apply count_occ_not_In. intros Hin.
             destruct (Hwin _ Hin) as (d & Hd & Heq).
             symmetry in Heq. revert Heq. apply wrap64_shift_ne. lia. }
           rewrite Hzero. lia.
        -- specialize (Hcount x). destruct (Z.eqb_spec x exitEnd); [congruence|].
           destruct (x =? wrap64 (exitEnd + 1)); lia.
    + destruct (IH exitEnd (endChurn + 1) ltac:(lia) ltac:(lia)) as [Hw Hcount].
      split.
      * intros x [<-|Hx]; [left; reflexivity|].
        destruct (Hw x Hx) as [->|(d & Hd & ->)]; [left; reflexivity|].
        right. exists d. split; [lia|reflexivity].
      * intros x. cbn [count_occ]. specialize (Hcount x).
        destruct (Z.eq_dec exitEnd x) as [<-|Hne].
        -- rewrite Z.eqb_refl in *. lia.
        -- destruct (Z.eqb_spec x exitEnd); [congruence|]. lia.
Qed.

Lemma filter_eqb_count_occ {A : Type} (f : A -> Z) (e : Z) (l : list A) :
  length (filter (fun a => f a =? e) l) = count_occ Z.eq_dec (map f l) e.
Proof.
  induction l as [|a l IH]; simpl; [reflexivity|].
  destruct (Z.eqb_spec (f a) e); destruct (Z.eq_dec (f a) e); try contradiction;
    simpl; rewrite IH; reflexivity.
Qed.

Lemma select_indices_length (c : FlatValidator -> bool) (vals : list FlatValidator) :
  forall i, (length (select_indices c i vals) <= length vals)%nat.
Proof.
  induction vals as [|v vals IH]; intros i; simpl; [lia|].
  destruct (c v); simpl; specialize (IH (i + 1)); lia.
Qed.

(** C4, as amended: when the churn limit is at least one, a run of the
    ejection pass from the cursor that [PrepareEpochProcess] computed gives
    no exit epoch to more than [ChurnLimit] of the validators it ejects; at
    the cursor's own epoch the ejected validators and the ones the cursor
    counted stay within the limit together.
    The epochs are handed out in queue order as [exit_schedule] says -- the
    queue-end epoch, the counter incremented, and at the limit the counter
    reset and the epoch advanced by one -- and every ejected validator gets
    its exit epoch plus [MIN_VALIDATOR_WITHDRAWABILITY_DELAY] as
    withdrawable epoch. *)
Theorem ejection_churn_bound :
  forall ctx spec epc state p vals vals',
    PrepareEpochProcess ctx spec epc state = (Some p, None) ->
    len (Validators state) < uint64_modulus ->
    1 <= ChurnLimit p ->
    process_ejections spec (ChurnLimit p) (IndicesToEject p)
      (ExitQueueEnd p) (ExitQueueEndChurn p) vals = (vals', Ok tt) ->
    (forall e, exiting_at vals' e (IndicesToEject p) <= ChurnLimit p)
    /\ (ChurnLimit p < uint64_modulus ->
        exiting_at vals' (ExitQueueEnd p) (IndicesToEject p) + ExitQueueEndChurn p
        <= ChurnLimit p)
    /\ map (exit_epoch_of vals') (IndicesToEject p)
       = exit_schedule (ChurnLimit p) (length (IndicesToEject p))
           (ExitQueueEnd p) (ExitQueueEndChurn p)
    /\ Forall (fun index =>
                 exists v',
                   registry_get vals' index = Ok v'
                   /\ WithdrawableEpoch v'
                      = wrap64 (ExitEpoch v' + MIN_VALIDATOR_WITHDRAWABILITY_DELAY spec))
         (IndicesToEject p).
Proof.
  intros ctx spec epc state p vals vals' H Hlen Hpos Hrun.
  apply returned_Some in H.
  destruct (prepare_epoch_process_Ok _ _ _ _ _ H)
    as (limit & s2 & s3 & out3 & HL & _ & _ & _ & _ & _ & _ & _ & Hq & Hl & He & Hc).
  rewrite count_exit_queue_end_filter in Hc. simpl in Hc.
  assert (Hnd : NoDup (IndicesToEject p)) by (rewrite Hq; apply select_indices_NoDup).
  assert (Hn : Z.of_nat (length (IndicesToEject p)) < uint64_modulus).
  { rewrite Hq. pose proof (select_indices_length
                              (queued_to_eject spec (CurrentEpoch epc)) (Validators state) 0).
    unfold len in Hlen. lia. }
  destruct (process_ejections_Ok _ _ _ _ _ _ _ Hrun Hnd) as [Hmap Hall].
  assert (Hcur : 0 <= ExitQueueEndChurn p < ChurnLimit p).
  { rewrite Hc, Hl.
    match goal with |- context [len ?l] => pose proof (len_nonneg l) end.
    destruct (Z.geb_spec (len (filter (fun v : FlatValidator =>
                ExitEpoch v =? ComputeActivationExitEpoch spec (CurrentEpoch epc))
                (Validators state))) limit); lia. }
  assert (Hcounts : forall e,
    exiting_at vals' e (IndicesToEject p)
    = Z.of_nat (count_occ Z.eq_dec
                  (exit_schedule (ChurnLimit p) (length (IndicesToEject p))
                     (ExitQueueEnd p) (ExitQueueEndChurn p)) e)).
  { intros e. unfold exiting_at, len.
    rewrite (filter_eqb_count_occ (exit_epoch_of vals')).
    assert (Heq : forall l1 l2 : list Z,
               l1 = l2 -> Z.of_nat (count_occ Z.eq_dec l1 e)
                          = Z.of_nat (count_occ Z.eq_dec l2 e)) by (intros; subst; reflexivity).
    apply Heq. exact Hmap. }
  split; [|split; [|split]].
  - intros e. rewrite Hcounts.
    destruct (Z.lt_ge_cases (ChurnLimit p) uint64_modulus) as [Hsmall|Hbig].
    + destruct (exit_schedule_counts (ChurnLimit p) ltac:(lia)
                  (length (IndicesToEject p)) (ExitQueueEnd p) (ExitQueueEndChurn p)
                  Hcur Hn) as [_ Hcount].
      specialize (Hcount e). destruct (e =? ExitQueueEnd p); lia.
    + pose proof (count_occ_le_length
                    (exit_schedule (ChurnLimit p) (length (IndicesToEject p))
                       (ExitQueueEnd p) (ExitQueueEndChurn p)) e) as Hle.
      rewrite exit_schedule_length in Hle. lia.
  - intros Hsmall. rewrite Hcounts.
    destruct (exit_schedule_counts (ChurnLimit p) ltac:(lia)
                (length (IndicesToEject p)) (ExitQueueEnd p) (ExitQueueEndChurn p)
                Hcur Hn) as [_ Hcount].
    specialize (Hcount (ExitQueueEnd p)). rewrite Z.eqb_refl in Hcount. lia.
  - exact Hmap.
  - rewrite Forall_forall in *. intros i Hi.
    destruct (Hall i Hi) as (v & v' & _ & Hv' & HW). exists v'. auto.
Qed.

(** The bound at five ejections under the main-network limit of four: four
    validators exit at epoch 15 and the fifth at epoch 16. *)
Lemma ejection_churn_bound_witness :
  exists p vals',
    PrepareEpochProcess never_cancelled mainnet (epoch_ten [])
      (quiet_state (repeat ejectable_validator 5) 0) = (Some p, None)
    /\ len (Validators (quiet_state (repeat ejectable_validator 5) 0)) < uint64_modulus
    /\ 1 <= ChurnLimit p
    /\ process_ejections mainnet (ChurnLimit p) (IndicesToEject p)
         (ExitQueueEnd p) (ExitQueueEndChurn p) (repeat ejectable_validator 5)
       = (vals', Ok tt)
    /\ map (exit_epoch_of vals') (IndicesToEject p) = [15; 15; 15; 15; 16]
    /\ ((forall e, exiting_at vals' e (IndicesToEject p) <= ChurnLimit p)
        /\ (ChurnLimit p < uint64_modulus ->
            exiting_at vals' (ExitQueueEnd p) (IndicesToEject p) + ExitQueueEndChurn p
            <= ChurnLimit p)
        /\ map (exit_epoch_of vals') (IndicesToEject p)
           = exit_schedule (ChurnLimit p) (length (IndicesToEject p))
               (ExitQueueEnd p) (ExitQueueEndChurn p)
        /\ Forall (fun index =>
                     exists v',
                       registry_get vals' index = Ok v'
                       /\ WithdrawableEpoch v'
                          = wrap64 (ExitEpoch v'
                                    + MIN_VALIDATOR_WITHDRAWABILITY_DELAY mainnet))
             (IndicesToEject p)).
Proof.
  eexists. eexists.
  split; [vm_compute; reflexivity|].
  split; [vm_compute; reflexivity|].
  split; [vm_compute; discriminate|].
  split; [vm_compute; reflexivity|].
  split; [vm_compute; reflexivity|].
  eapply (ejection_churn_bound never_cancelled mainnet (epoch_ten [])
            (quiet_state (repeat ejectable_validator 5) 0) _
            (repeat ejectable_validator 5)).
  - vm_compute. reflexivity.
  - vm_compute. reflexivity.
  - vm_compute. discriminate.
  - vm_compute. reflexivity.
Defined.

(** C4, as stated, fails when the churn limit is zero: with no floor under
    the limit and a single active validator the limit is [max(0, 1 / 65536)
    = 0], yet the ejection pass gives that validator the exit epoch 16 --
    one validator at an epoch, which is more than the limit. *)
Lemma zero_churn_limit_still_ejects :
  exists p vals',
    PrepareEpochProcess never_cancelled no_churn_floor (epoch_ten [])
      (quiet_state [ejectable_validator] 0) = (Some p, None)
    /\ process_ejections no_churn_floor (ChurnLimit p) (IndicesToEject p)
         (ExitQueueEnd p) (ExitQueueEndChurn p) [ejectable_validator]
       = (vals', Ok tt)
    /\ IndicesToEject p = [0]
    /\ ChurnLimit p = 0
    /\ exit_epoch_of vals' 0 = 16
    /\ exiting_at vals' 16 (IndicesToEject p) = 1.
Proof.
  eexists. eexists.
  split; [vm_compute; reflexivity|].
  split; [vm_compute; reflexivity|].
  repeat split.
Qed.

(** * The order of the maybe-activate queue *)

(** The comparison of the sort reads the eligibility epochs of the registry. *)
Lemma eligibility_of_collect prevEpoch currentEpoch (vals : list FlatValidator)
    (index : ValidatorIndex) :
  eligibility_of (map (fun v => collect_status prevEpoch currentEpoch v zero_status) vals)
    index
  = eligibility_epoch_of vals index.
Proof.
  unfold eligibility_of, eligibility_epoch_of, index_at, registry_get.
  destruct (index <? 0); [reflexivity|].
  rewrite nth_error_map. destruct (nth_error vals (Z.to_nat index)); [|reflexivity].
  cbn [option_map]. rewrite collect_status_Validator. reflexivity.
Qed.

Lemma maybe_activate_less_key prevEpoch currentEpoch (vals : list FlatValidator) a b :
  maybe_activate_less
    (map (fun v => collect_status prevEpoch currentEpoch v zero_status) vals) a b = true
  <-> key_before vals a b.
Proof.
  unfold maybe_activate_less, key_before. rewrite !eligibility_of_collect.
  destruct (Z.eqb_spec (eligibility_epoch_of vals a) (eligibility_epoch_of vals b)).
  - rewrite Z.ltb_lt. split; [intros H; right; auto|intros [H|[_ H]]; [lia|exact H]].
  - rewrite Z.ltb_lt. split; [intros H; left; exact H|intros [H|[H _]]; [exact H|contradiction]].
Qed.

Lemma key_before_irrefl vals a : ~ key_before vals a a.
Proof. unfold key_before. lia. Qed.

Lemma key_before_trans vals a b c :
  key_before vals a b -> key_before vals b c -> key_before vals a c.
Proof. unfold key_before. lia. Qed.

Lemma key_before_total vals a b : a <> b -> key_before vals a b \/ key_before vals b a.
Proof. unfold key_before. lia. Qed.

Lemma ordered_by_key_sorted vals queue :
  ordered_by_key vals queue <-> StronglySorted (key_before vals) queue.
Proof. unfold ordered_by_key. rewrite StronglySorted_nth. reflexivity. Qed.

(** C5: the maybe-activate queue that [PrepareEpochProcess] returns is in
    ascending order of the pair (activation-eligibility epoch, validator
    index): of two queue positions, the earlier holds the smaller epoch, or
    the same epoch and the smaller index.  Every queued index is a
    validator of the registry, and the order is fixed by the two keys: any
    arrangement of the same indices in that order is the queue itself. *)
Theorem maybe_activate_queue_order :
  forall ctx spec epc state p,
    PrepareEpochProcess ctx spec epc state = (Some p, None) ->
    ordered_by_key (Validators state) (IndicesToMaybeActivate p)
    /\ Forall (fun a => exists v, registry_get (Validators state) a = Ok v)
         (IndicesToMaybeActivate p)
    /\ (forall queue,
          Permutation queue (IndicesToMaybeActivate p) ->
          ordered_by_key (Validators state) queue ->
          queue = IndicesToMaybeActivate p).
Proof.
  intros ctx spec epc state p H. apply returned_Some in H.
  destruct (prepare_epoch_process_Ok _ _ _ _ _ H)
    as (limit & s2 & s3 & out3 & _ & _ & _ & _ & _ & _ & _ & Hq & _).
  set (vals := Validators state) in *.
  set (less := maybe_activate_less
                 (map (fun v => collect_status (PreviousEpoch epc) (CurrentEpoch epc) v
                                  zero_status) vals)) in *.
  set (candidates := select_indices (queued_to_maybe_activate (CurrentEpoch epc)) 0 vals) in *.
  assert (Hperm : Permutation (IndicesToMaybeActivate p) candidates).
  { rewrite Hq. apply sort_Slice_perm. }
  assert (Hsorted : StronglySorted (key_before vals) (IndicesToMaybeActivate p)).
  { rewrite Hq.
    assert (Hs : StronglySorted (fun a b => less a b = true) (sort_Slice less candidates)).
    { apply sort_Slice_sorted.
      - intros a b c Hab Hbc. apply maybe_activate_less_key.
        apply maybe_activate_less_key in Hab, Hbc. eapply key_before_trans; eassumption.
      - intros a b Hne. destruct (key_before_total vals a b Hne) as [Hk|Hk];
          [left|right]; apply maybe_activate_less_key; exact Hk.
      - apply select_indices_NoDup. }
    clear - Hs. induction Hs as [|x l Hl IH Hx]; constructor; [exact IH|].
    rewrite Forall_forall in *. intros y Hy.
    apply (maybe_activate_less_key (PreviousEpoch epc) (CurrentEpoch epc)). apply Hx. exact Hy. }
  split; [apply ordered_by_key_sorted; exact Hsorted|]. split.
  - rewrite Forall_forall. intros a Ha.
    apply (Permutation_in _ Hperm) in Ha. apply select_indices_In in Ha.
    destruct Ha as (v & Hv & _ & _). rewrite Z.sub_0_r in Hv. eauto.
  - intros queue HP Hord. apply ordered_by_key_sorted in Hord.
    eapply sorted_perm_unique; try eassumption.
    + apply key_before_irrefl.
    + apply key_before_trans.
Qed.

(** The order at three candidates of which the last became eligible first
    and the first two at the same epoch: the queue is [[2; 0; 1]]. *)
Lemma maybe_activate_queue_order_witness :
  exists p,
    PrepareEpochProcess never_cancelled mainnet (epoch_ten [])
      (quiet_state
         [validator 32000000000 false 3 FAR_FUTURE_EPOCH FAR_FUTURE_EPOCH FAR_FUTURE_EPOCH;
          validator 32000000000 false 3 FAR_FUTURE_EPOCH FAR_FUTURE_EPOCH FAR_FUTURE_EPOCH;
          validator 32000000000 false 2 FAR_FUTURE_EPOCH FAR_FUTURE_EPOCH FAR_FUTURE_EPOCH]
         0) = (Some p, None)
    /\ IndicesToMaybeActivate p = [2; 0; 1]
    /\ (ordered_by_key
          [validator 32000000000 false 3 FAR_FUTURE_EPOCH FAR_FUTURE_EPOCH FAR_FUTURE_EPOCH;
           validator 32000000000 false 3 FAR_FUTURE_EPOCH FAR_FUTURE_EPOCH FAR_FUTURE_EPOCH;
           validator 32000000000 false 2 FAR_FUTURE_EPOCH FAR_FUTURE_EPOCH FAR_FUTURE_EPOCH]
          (IndicesToMaybeActivate p)
        /\ Forall (fun a =>
                     exists v,
                       registry_get
                         [validator 32000000000 false 3 FAR_FUTURE_EPOCH FAR_FUTURE_EPOCH
                            FAR_FUTURE_EPOCH;
                          validator 32000000000 false 3 FAR_FUTURE_EPOCH FAR_FUTURE_EPOCH
                            FAR_FUTURE_EPOCH;
                          validator 32000000000 false 2 FAR_FUTURE_EPOCH FAR_FUTURE_EPOCH
                            FAR_FUTURE_EPOCH] a = Ok v)
             (IndicesToMaybeActivate p)
        /\ (forall queue,
              Permutation queue (IndicesToMaybeActivate p) ->
              ordered_by_key
                [validator 32000000000 false 3 FAR_FUTURE_EPOCH FAR_FUTURE_EPOCH
                   FAR_FUTURE_EPOCH;
                 validator 32000000000 false 3 FAR_FUTURE_EPOCH FAR_FUTURE_EPOCH
                   FAR_FUTURE_EPOCH;
                 validator 32000000000 false 2 FAR_FUTURE_EPOCH FAR_FUTURE_EPOCH
                   FAR_FUTURE_EPOCH] queue ->
              queue = IndicesToMaybeActivate p)).
Proof.
  eexists. split; [vm_compute; reflexivity|]. split; [reflexivity|].
  apply (maybe_activate_queue_order never_cancelled mainnet (epoch_ten [])
           (quiet_state
              [validator 32000000000 false 3 FAR_FUTURE_EPOCH FAR_FUTURE_EPOCH
                 FAR_FUTURE_EPOCH;
               validator 32000000000 false 3 FAR_FUTURE_EPOCH FAR_FUTURE_EPOCH
                 FAR_FUTURE_EPOCH;
               validator 32000000000 false 2 FAR_FUTURE_EPOCH FAR_FUTURE_EPOCH
                 FAR_FUTURE_EPOCH] 0)).
  vm_compute. reflexivity.
Defined.

(** * The activation pass *)

Lemma process_activations_cons process finalizedEpoch activationEpoch index rest vals :
  process_activations process finalizedEpoch activationEpoch (index :: rest) vals
  = match index_at (Statuses process) index with
    | Err e => (vals, Err e)
    | Ok status =>
        if finalizedEpoch <? ActivationEligibilityEpoch (Validator status)
        then (vals, Ok tt)
        else
          match registry_get vals index with
          | Err e => (vals, Err e)
          | Ok v =>
              match registry_set vals index (SetActivationEpoch activationEpoch) with
              | Err e => (vals, Err e)
              | Ok vals1 =>
                  process_activations process finalizedEpoch activationEpoch rest vals1
              end
          end
    end.
Proof.
  cbn [process_activations].
  destruct (index_at (Statuses process) index) as [status|e]; [|reflexivity].
  destruct (finalizedEpoch <? _); [reflexivity|].
  unfold and_then at 1. unfold get_validator at 1.
  destruct (registry_get vals index) as [v|e]; [|reflexivity].
  unfold and_then at 1. unfold set_validator at 1.
  destruct (registry_set vals index _) as [vals1|e]; reflexivity.
Qed.

Lemma accepted_candidates_prefix vals0 finalizedEpoch (dequeued : list ValidatorIndex) :
  exists rest, dequeued = accepted_candidates vals0 finalizedEpoch dequeued ++ rest.
Proof.
  induction dequeued as [|index rest IH]; simpl; [exists []; reflexivity|].
  destruct (finalizedEpoch <? _); [eexists; reflexivity|].
  destruct IH as [r Hr]. exists r. simpl. f_equal. exact Hr.
Qed.

(** Where the walk stops: every accepted candidate is eligible at the
    finalized epoch, and the candidate after the accepted ones, if there is
    one, is not. *)
Lemma accepted_candidates_stop vals0 finalizedEpoch (dequeued : list ValidatorIndex) :
  Forall (fun index => eligibility_epoch_of vals0 index <= finalizedEpoch)
    (accepted_candidates vals0 finalizedEpoch dequeued)
  /\ (forall index rest,
        dequeued = accepted_candidates vals0 finalizedEpoch dequeued ++ index :: rest ->
        finalizedEpoch < eligibility_epoch_of vals0 index).
Proof.
  induction dequeued as [|a l [IH1 IH2]]; simpl.
  - split; [constructor|]. intros index rest H. discriminate.
  - destruct (Z.ltb_spec finalizedEpoch (eligibility_epoch_of vals0 a)) as [Hlt|Hge].
    + split; [constructor|]. intros index rest H. simpl in H. inversion H; subst. exact Hlt.
    + split; [constructor; assumption|]. intros index rest H. simpl in H.
      inversion H as [Hl]. eapply IH2. exact Hl.
Qed.

(** The activation loop over distinct candidates whose snapshots are the
    statuses of [process]. *)
Lemma process_activations_spec process vals0 finalizedEpoch activationEpoch
    (dequeued : list ValidatorIndex) :
  map Validator (Statuses process) = vals0 ->
  NoDup dequeued ->
  Forall (fun index => exists v, registry_get vals0 index = Ok v) dequeued ->
  forall vals vals' r,
    process_activations process finalizedEpoch activationEpoch dequeued vals = (vals', r) ->
    (forall i, ~ In i (accepted_candidates vals0 finalizedEpoch dequeued) ->
               registry_get vals' i = registry_get vals i)
    /\ (r = Ok tt ->
        Forall (fun index =>
                  exists v,
                    registry_get vals index = Ok v
                    /\ registry_get vals' index = Ok (SetActivationEpoch activationEpoch v))
          (accepted_candidates vals0 finalizedEpoch dequeued))
    /\ (len vals = len vals0 -> r = Ok tt).
Proof.
  intros Hsnap. induction dequeued as [|index rest IH]; intros Hnd Hrange vals vals' r H.
  - simpl in H. inversion H; subst. simpl. repeat split; auto.
  - inversion Hnd as [|x l Hnotin Hnd']; subst x l.
    inversion Hrange as [|x l (v0 & Hv0) Hrange']; subst x l.
    rewrite process_activations_cons in H.
    destruct (registry_get_index_at _ _ _ _ Hsnap Hv0) as (status & Hst & Hval).
    rewrite Hst in H. cbn [accepted_candidates].
    assert (Hel : eligibility_epoch_of vals0 index
                  = ActivationEligibilityEpoch (Validator status)).
    { unfold eligibility_epoch_of. rewrite Hv0, Hval. reflexivity. }
    rewrite Hel.
    destruct (finalizedEpoch <? ActivationEligibilityEpoch (Validator status)).
    { inversion H; subst. repeat split; auto. }
    destruct (registry_get vals index) as [v|e] eqn:Hv.
    2:{ inversion H; subst. split; [auto|]. split; [discriminate|].
        intros Hlen. exfalso.
        apply registry_get_Ok_range in Hv0. rewrite <- Hlen in Hv0.
        destruct (registry_get_in_range _ _ Hv0) as (w & Hw). congruence. }
    destruct (registry_set_in_range _ _ (SetActivationEpoch activationEpoch) _ Hv)
      as (pre & rest0 & Hvals & Hl & Hs).
    rewrite Hs in H. subst vals.
    destruct (IH Hnd' Hrange' _ _ _ H) as (Hframe & Hok & Htotal).
    split; [|split].
    + intros i Hi.
      assert (Hne : i <> len pre) by (rewrite Hl; intros ->; apply Hi; left; reflexivity).
      rewrite Hframe by (intros Hin; apply Hi; right; exact Hin).
      apply registry_get_app_other. exact Hne.
    + intros Hr. constructor.
      * exists v. split; [exact Hv|].
        rewrite Hframe.
        -- rewrite <- Hl. apply registry_get_app.
        -- intros Hin. apply Hnotin.
           destruct (accepted_candidates_prefix vals0 finalizedEpoch rest) as [r' Hr'].
           rewrite Hr'. apply in_or_app. left. exact Hin.
      * specialize (Hok Hr). rewrite Forall_forall in *. intros i Hi.
        destruct (Hok i Hi) as (w & Hw & Hw').
        assert (Hne : i <> len pre).
        { rewrite Hl. intros ->. apply Hnotin.
          destruct (accepted_candidates_prefix vals0 finalizedEpoch rest) as [r' Hr'].
          rewrite Hr'. apply in_or_app. left. exact Hi. }
        rewrite (registry_get_app_other pre v _ rest0 i Hne) in Hw.
        exists w. auto.
    + intros Hlen. apply Htotal. rewrite <- Hlen. apply len_set.
Qed.

Lemma churn_prefix_firstn (process : EpochProcess) :
  churn_prefix process
  = firstn (Z.to_nat (Z.min (len (IndicesToMaybeActivate process)) (ChurnLimit process)))
      (IndicesToMaybeActivate process).
Proof.
  unfold churn_prefix, len.
  destruct (Z.ltb_spec (ChurnLimit process)
              (Z.of_nat (length (IndicesToMaybeActivate process)))) as [H|H].
  - rewrite Z.min_r by lia. reflexivity.
  - rewrite Z.min_l by lia. rewrite Nat2Z.id, firstn_all. reflexivity.
Qed.

(** C6: the activation pass of [ProcessEpochRegistryUpdates] walks the
    first [min(len(IndicesToMaybeActivate), ChurnLimit)] entries of the
    queue in order and stops at the first whose eligibility epoch, as the
    collector recorded it, is after the finalized epoch.  Run to its end,
    it has set the activation epoch of every candidate before that point to
    [ComputeActivationExitEpoch(current_epoch)] and nothing else of it; it
    does run to its end on a registry as long as the collector's.  No other
    validator is written: none outside the accepted candidates, so none of
    the queue after the stopping point or beyond the churn-limit prefix. *)
Theorem activation_pass :
  forall ctx spec epc state p epc' state' vals vals' r,
    PrepareEpochProcess ctx spec epc state = (Some p, None) ->
    process_activations p (cp_Epoch (FinalizedCheckpoint state'))
      (ComputeActivationExitEpoch spec (CurrentEpoch epc')) (churn_prefix p) vals
    = (vals', r) ->
    let queue := IndicesToMaybeActivate p in
    let dequeued := firstn (Z.to_nat (Z.min (len queue) (ChurnLimit p))) queue in
    let finalizedEpoch := cp_Epoch (FinalizedCheckpoint state') in
    let accepted := accepted_candidates (Validators state) finalizedEpoch dequeued in
    churn_prefix p = dequeued
    /\ (exists stopped, dequeued = accepted ++ stopped)
    /\ Forall (fun index => eligibility_epoch_of (Validators state) index <= finalizedEpoch)
         accepted
    /\ (forall index rest,
          dequeued = accepted ++ index :: rest ->
          finalizedEpoch < eligibility_epoch_of (Validators state) index)
    /\ (r = Ok tt ->
        Forall (fun index =>
                  exists v,
                    registry_get vals index = Ok v
                    /\ registry_get vals' index
                       = Ok (SetActivationEpoch
                               (ComputeActivationExitEpoch spec (CurrentEpoch epc')) v))
          accepted)
    /\ (len vals = len (Validators state) -> r = Ok tt)
    /\ (forall i, ~ In i accepted -> registry_get vals' i = registry_get vals i)
    /\ (forall rest,
          queue = accepted ++ rest ->
          forall index, In index rest -> registry_get vals' index = registry_get vals index).
Proof.
  intros ctx spec epc state p epc' state' vals vals' r H Hrun queue dequeued
    finalizedEpoch accepted.
  apply returned_Some in H.
  pose proof (prepare_Validators _ _ _ _ _ H) as Hsnap.
  destruct (prepare_epoch_process_Ok _ _ _ _ _ H)
    as (limit & s2 & s3 & out3 & _ & _ & _ & _ & _ & _ & _ & Hq & _).
  assert (Hperm : Permutation queue
            (select_indices (queued_to_maybe_activate (CurrentEpoch epc)) 0
               (Validators state))).
  { unfold queue. rewrite Hq. apply sort_Slice_perm. }
  assert (Hnd : NoDup queue).
  { eapply Permutation_NoDup; [apply Permutation_sym; exact Hperm|].
    apply select_indices_NoDup. }
  assert (Hrange : Forall (fun index => exists v, registry_get (Validators state) index = Ok v)
                     queue).
  { rewrite Forall_forall. intros a Ha. apply (Permutation_in _ Hperm) in Ha.
    apply select_indices_In in Ha. destruct Ha as (v & Hv & _ & _).
    rewrite Z.sub_0_r in Hv. eauto. }
  assert (Hpre : churn_prefix p = dequeued) by apply churn_prefix_firstn.
  assert (Hdq : exists beyond, queue = dequeued ++ beyond).
  { exists (skipn (Z.to_nat (Z.min (len queue) (ChurnLimit p))) queue).
    unfold dequeued. symmetry. apply firstn_skipn. }
  destruct Hdq as [beyond Hbeyond].
  assert (Hnd' : NoDup dequeued).
  { rewrite Hbeyond in Hnd. apply NoDup_app_remove_r in Hnd. exact Hnd. }
  assert (Hrange' : Forall (fun index => exists v, registry_get (Validators state) index = Ok v)
                      dequeued).
  { rewrite Hbeyond in Hrange. apply Forall_app in Hrange. tauto. }
  rewrite Hpre in Hrun.
  destruct (process_activations_spec p (Validators state) finalizedEpoch
              (ComputeActivationExitEpoch spec (CurrentEpoch epc')) dequeued
              Hsnap Hnd' Hrange' vals vals' r Hrun) as (Hframe & Hok & Htotal).
  destruct (accepted_candidates_stop (Validators state) finalizedEpoch dequeued)
    as [Hacc Hstop].
  split; [exact Hpre|]. split; [apply accepted_candidates_prefix|].
  split; [exact Hacc|]. split; [exact Hstop|]. split; [exact Hok|].
  split; [exact Htotal|]. split; [exact Hframe|].
  intros rest Hrest index Hin. apply Hframe. intros Hacc'.
  fold accepted in Hacc'. rewrite Hrest in Hnd.
  revert Hacc' Hin. clear - Hnd. revert Hnd. generalize accepted. intros l.
  induction l as [|a l IH]; intros Hnd Hl Hr; [contradiction|].
  simpl in Hnd. inversion Hnd as [|x l' Hx Hnd']; subst.
  destruct Hl as [->|Hl].
  - apply Hx. apply in_or_app. right. exact Hr.
  - exact (IH Hnd' Hl Hr).
Qed.

(** The pass at six candidates, a churn limit of four and the finalized
    epoch 1: the queue is [[0; 4; 5; 1; 2; 3]], its prefix [[0; 4; 5; 1]],
    and the walk accepts [[0; 4; 5]] and stops at validator 1. *)
Lemma activation_pass_witness :
  exists p vals',
    PrepareEpochProcess never_cancelled mainnet (epoch_ten [])
      (quiet_state activation_candidates 1) = (Some p, None)
    /\ process_activations p (cp_Epoch (FinalizedCheckpoint (quiet_state activation_candidates 1)))
         (ComputeActivationExitEpoch mainnet (CurrentEpoch (epoch_ten [])))
         (churn_prefix p) activation_candidates = (vals', Ok tt)
    /\ IndicesToMaybeActivate p = [0; 4; 5; 1; 2; 3]
    /\ accepted_candidates activation_candidates 1 (churn_prefix p) = [0; 4; 5]
    /\ map ActivationEpoch vals'
       = [15; FAR_FUTURE_EPOCH; FAR_FUTURE_EPOCH; FAR_FUTURE_EPOCH; 15; 15]
    /\ (let queue := IndicesToMaybeActivate p in
        let dequeued := firstn (Z.to_nat (Z.min (len queue) (ChurnLimit p))) queue in
        let finalizedEpoch :=
          cp_Epoch (FinalizedCheckpoint (quiet_state activation_candidates 1)) in
        let accepted := accepted_candidates activation_candidates finalizedEpoch dequeued in
        churn_prefix p = dequeued
        /\ (exists stopped, dequeued = accepted ++ stopped)
        /\ Forall (fun index => eligibility_epoch_of activation_candidates index
                                <= finalizedEpoch) accepted
        /\ (forall index rest,
              dequeued = accepted ++ index :: rest ->
              finalizedEpoch < eligibility_epoch_of activation_candidates index)
        /\ (Ok tt = Ok tt ->
            Forall (fun index =>
                      exists v,
                        registry_get activation_candidates index = Ok v
                        /\ registry_get vals' index
                           = Ok (SetActivationEpoch
                                   (ComputeActivationExitEpoch mainnet
                                      (CurrentEpoch (epoch_ten []))) v))
              accepted)
        /\ (len activation_candidates = len activation_candidates -> Ok tt = Ok tt)
        /\ (forall i, ~ In i accepted ->
                      registry_get vals' i = registry_get activation_candidates i)
        /\ (forall rest,
              queue = accepted ++ rest ->
              forall index, In index rest ->
                            registry_get vals' index
                            = registry_get activation_candidates index)).
Proof.
  eexists. eexists.
  split; [vm_compute; reflexivity|].
  split; [vm_compute; reflexivity|].
  split; [reflexivity|]. split; [reflexivity|]. split; [reflexivity|].
  eapply (activation_pass never_cancelled mainnet (epoch_ten [])
            (quiet_state activation_candidates 1) _ (epoch_ten [])
            (quiet_state activation_candidates 1) activation_candidates).
  - vm_compute. reflexivity.
  - vm_compute. reflexivity.
Defined.

(** * The head flag implies the target flag *)

Lemma head_implies_target_bits (status : AttesterStatus) :
  head_implies_target status <->
  (Z.testbit (Flags status) 2 = true -> Z.testbit (Flags status) 1 = true)
  /\ (Z.testbit (Flags status) 5 = true -> Z.testbit (Flags status) 4 = true).
Proof.
  unfold head_implies_target.
  change PrevHeadAttester with (2 ^ 2). change PrevTargetAttester with (2 ^ 1).
  change CurrHeadAttester with (2 ^ 5). change CurrTargetAttester with (2 ^ 4).
  rewrite !HasMarkers_bit by lia. reflexivity.
Qed.

Lemma head_implies_target_collect prevEpoch currentEpoch v :
  head_implies_target (collect_status prevEpoch currentEpoch v zero_status).
Proof.
  apply head_implies_target_bits. unfold collect_status.
  destruct (Slashed v); destruct (_ || _); simpl; split; discriminate.
Qed.

Lemma head_implies_target_note att status :
  head_implies_target status -> head_implies_target (note_inclusion att status).
Proof.
  unfold head_implies_target. rewrite note_inclusion_Flags. auto.
Qed.

Lemma head_implies_target_mark_prev att r1 r2 status :
  head_implies_target status ->
  head_implies_target
    (mark_flags PrevSourceAttester PrevTargetAttester PrevHeadAttester att r1 r2 status).
Proof.
  rewrite !head_implies_target_bits, !mark_flags_testbit.
  change (Z.testbit PrevSourceAttester 1) with false.
  change (Z.testbit PrevSourceAttester 2) with false.
  change (Z.testbit PrevSourceAttester 4) with false.
  change (Z.testbit PrevSourceAttester 5) with false.
  change (Z.testbit PrevTargetAttester 1) with true.
  change (Z.testbit PrevTargetAttester 2) with false.
  change (Z.testbit PrevTargetAttester 4) with false.
  change (Z.testbit PrevTargetAttester 5) with false.
  change (Z.testbit PrevHeadAttester 1) with false.
  change (Z.testbit PrevHeadAttester 2) with true.
  change (Z.testbit PrevHeadAttester 4) with false.
  change (Z.testbit PrevHeadAttester 5) with false.
  intros [H1 H2].
  destruct (cp_Root (Target (Data att)) =? r1); destruct (BeaconBlockRoot (Data att) =? r2);
    destruct (Z.testbit (Flags status) 1); destruct (Z.testbit (Flags status) 2);
    destruct (Z.testbit (Flags status) 4); destruct (Z.testbit (Flags status) 5);
    simpl in *; split; auto.
Qed.

Lemma head_implies_target_mark_curr att r1 r2 status :
  head_implies_target status ->
  head_implies_target
    (mark_flags CurrSourceAttester CurrTargetAttester CurrHeadAttester att r1 r2 status).
Proof.
  rewrite !head_implies_target_bits, !mark_flags_testbit.
  change (Z.testbit CurrSourceAttester 1) with false.
  change (Z.testbit CurrSourceAttester 2) with false.
  change (Z.testbit CurrSourceAttester 4) with false.
  change (Z.testbit CurrSourceAttester 5) with false.
  change (Z.testbit CurrTargetAttester 1) with false.
  change (Z.testbit CurrTargetAttester 2) with false.
  change (Z.testbit CurrTargetAttester 4) with true.
  change (Z.testbit CurrTargetAttester 5) with false.
  change (Z.testbit CurrHeadAttester 1) with false.
  change (Z.testbit CurrHeadAttester 2) with false.
  change (Z.testbit CurrHeadAttester 4) with false.
  change (Z.testbit CurrHeadAttester 5) with true.
  intros [H1 H2].
  destruct (cp_Root (Target (Data att)) =? r1); destruct (BeaconBlockRoot (Data att) =? r2);
    destruct (Z.testbit (Flags status) 1); destruct (Z.testbit (Flags status) 2);
    destruct (Z.testbit (Flags status) 4); destruct (Z.testbit (Flags status) 5);
    simpl in *; split; auto.
Qed.

(** C7: in every process that [PrepareEpochProcess] returns, each status
    has [PrevHeadAttester] set only if [PrevTargetAttester] is set, and
    [CurrHeadAttester] set only if [CurrTargetAttester] is set. *)
Theorem head_flag_implies_target_flag :
  forall ctx spec epc state p status,
    PrepareEpochProcess ctx spec epc state = (Some p, None) ->
    In status (Statuses p) ->
    (HasMarkers (Flags status) PrevHeadAttester = true ->
     HasMarkers (Flags status) PrevTargetAttester = true)
    /\ (HasMarkers (Flags status) CurrHeadAttester = true ->
        HasMarkers (Flags status) CurrTargetAttester = true).
Proof.
  intros ctx spec epc state p status H Hin. apply returned_Some in H.
  assert (Hall : Forall head_implies_target (Statuses p)).
  { eapply prepare_statuses_Forall; [| | | |exact H].
    - apply head_implies_target_note.
    - apply head_implies_target_mark_prev.
    - apply head_implies_target_mark_curr.
    - apply head_implies_target_collect. }
  rewrite Forall_forall in Hall. exact (Hall status Hin).
Qed.

(** The implication at a status whose previous-epoch head flag is set. *)
Lemma head_flag_implies_target_flag_witness :
  exists p status,
    PrepareEpochProcess never_cancelled mainnet (epoch_ten [0])
      (attested_state [active_validator] 0) = (Some p, None)
    /\ In status (Statuses p)
    /\ HasMarkers (Flags status) PrevHeadAttester = true
    /\ ((HasMarkers (Flags status) PrevHeadAttester = true ->
         HasMarkers (Flags status) PrevTargetAttester = true)
        /\ (HasMarkers (Flags status) CurrHeadAttester = true ->
            HasMarkers (Flags status) CurrTargetAttester = true)).
Proof.
  eexists. eexists. split; [vm_compute; reflexivity|].
  split; [left; reflexivity|]. split; [reflexivity|].
  eapply (head_flag_implies_target_flag never_cancelled mainnet (epoch_ten [0])
           (attested_state [active_validator] 0)).
  - vm_compute. reflexivity.
  - left. reflexivity.
Defined.

(** * Cancellation *)

Lemma low_bits_clear (i bits : Z) :
  0 <= bits -> (Z.land i (Z.shiftl 1 bits - 1) =? 0) = (i mod 2 ^ bits =? 0).
Proof.
  intros Hb. replace (Z.shiftl 1 bits - 1) with (Z.ones bits).
  - rewrite Z.land_ones by assumption. reflexivity.
  - rewrite Z.ones_equiv, Z.shiftl_1_l. lia.
Qed.

Section PolledLoop.
Context {A S : Type}.
Variables (bits : Z) (site : Z -> PollSite) (body : Z -> A -> S -> result S).
Hypothesis bits_nonneg : 0 <= bits.

Lemma polled_loop_agree (ctx ctx' : Context) (items : list A) :
  forall i s,
    (forall j, i <= j <= i + len items -> j mod 2 ^ bits = 0 ->
               ctx (site j) = ctx' (site j)) ->
    polled_loop ctx bits site body i items s = polled_loop ctx' bits site body i items s.
Proof.
  induction items as [|item rest IH]; intros i s Hagree; cbn [polled_loop];
    rewrite low_bits_clear by assumption.
  - destruct (Z.eqb_spec (i mod 2 ^ bits) 0) as [Hc|Hc]; [|reflexivity].
    unfold poll. rewrite (Hagree i); [reflexivity| |exact Hc].
    pose proof (len_nonneg (@nil A)). lia.
  - assert (Hl : len (item :: rest) = 1 + len rest) by (unfold len; simpl length; lia).
    pose proof (len_nonneg rest) as Hr.
    assert (Hpoll : (if i mod 2 ^ bits =? 0 then poll ctx (site i) else Ok tt)
                    = (if i mod 2 ^ bits =? 0 then poll ctx' (site i) else Ok tt)).
    { destruct (Z.eqb_spec (i mod 2 ^ bits) 0) as [Hc|Hc]; [|reflexivity].
      unfold poll. rewrite (Hagree i); [reflexivity|lia|exact Hc]. }
    rewrite Hpoll. destruct (if i mod 2 ^ bits =? 0 then poll ctx' (site i) else Ok tt);
      [|reflexivity].
    simpl. destruct (body i item s) as [s'|e]; [|reflexivity]. simpl.
    apply IH. intros j Hj. apply Hagree. lia.
Qed.

Lemma polled_loop_cancel_or_same (ctx : Context) (items : list A) :
  forall i s,
    polled_loop ctx bits site body i items s
    = polled_loop never_cancelled bits site body i items s
    \/ polled_loop ctx bits site body i items s = Err TransitionCancelErr.
Proof.
  induction items as [|item rest IH]; intros i s; cbn [polled_loop].
  - destruct (Z.land i (Z.shiftl 1 bits - 1) =? 0); [|left; reflexivity].
    unfold poll, never_cancelled. destruct (ctx (site i)); [right|left]; reflexivity.
  - destruct (Z.land i (Z.shiftl 1 bits - 1) =? 0).
    + unfold poll, never_cancelled. destruct (ctx (site i)); [right; reflexivity|].
      simpl. destruct (body i item s) as [s'|e]; [|left; reflexivity]. simpl. apply IH.
    + simpl. destruct (body i item s) as [s'|e]; [|left; reflexivity]. simpl. apply IH.
Qed.

Lemma polled_loop_cancel (ctx : Context) (items : list A) :
  forall i s r,
    polled_loop never_cancelled bits site body i items s = Ok r ->
    (exists j, i <= j <= i + len items /\ j mod 2 ^ bits = 0 /\ ctx (site j) = true) ->
    polled_loop ctx bits site body i items s = Err TransitionCancelErr.
Proof.
  induction items as [|item rest IH]; intros i s r Hrun (j & Hj & Hc & Hset);
    cbn [polled_loop] in *; rewrite low_bits_clear in * by assumption.
  - assert (j = i) by (unfold len in Hj; simpl in Hj; lia). subst j.
    rewrite Hc. simpl. unfold poll. rewrite Hset. reflexivity.
  - assert (Hl : len (item :: rest) = 1 + len rest) by (unfold len; simpl length; lia).
    destruct (Z.eq_dec j i) as [->|Hne].
    { rewrite Hc. simpl. unfold poll. rewrite Hset. reflexivity. }
    assert (Hpoll : (if i mod 2 ^ bits =? 0 then poll never_cancelled (site i) else Ok tt)
                    = Ok tt).
    { destruct (i mod 2 ^ bits =? 0); reflexivity. }
    rewrite Hpoll in Hrun. simpl in Hrun.
    destruct (body i item s) as [s'|e] eqn:Hb; [|discriminate]. simpl in Hrun.
    specialize (IH (i + 1) s' r Hrun).
    destruct (if i mod 2 ^ bits =? 0 then poll ctx (site i) else Ok tt) as [u|e] eqn:Hp.
    + simpl. apply IH. exists j. repeat split; try assumption; lia.
    + destruct (i mod 2 ^ bits =? 0); [|discriminate]. unfold poll in Hp.
      destruct (ctx (site i)); inversion Hp. reflexivity.
Qed.

End PolledLoop.

(** The two loops of the collector are polled loops. *)
Lemma collect_validators_polled ctx spec prevEpoch currentEpoch slashingsEpoch
    (vals : list FlatValidator) :
  forall i acc,
    collect_validators ctx spec prevEpoch currentEpoch slashingsEpoch i vals acc
    = polled_loop ctx 10 PollValidator
        (fun i flat acc =>
           do statuses <- modify_at (Statuses (fst acc)) i
                            (collect_status prevEpoch currentEpoch flat) ;;
           Ok (collect_queues spec currentEpoch slashingsEpoch i flat
                 (set_Statuses statuses (fst acc), snd acc)))
        i vals acc.
Proof.
  induction vals as [|flat rest IH]; intros i acc.
  - reflexivity.
  - rewrite collect_validators_cons. cbn [polled_loop].
    destruct (if Z.land i (Z.shiftl 1 10 - 1) =? 0 then poll ctx (PollValidator i) else Ok tt);
      [|reflexivity].
    simpl. destruct (modify_at (Statuses (fst acc)) i _); [|reflexivity].
    simpl. apply IH.
Qed.

Lemma process_attestations_polled ctx epc state prevEpoch pass epoch sf tf hf root
    (atts : list PendingAttestation) :
  forall i statuses,
    process_attestations ctx epc state prevEpoch pass epoch sf tf hf root i atts statuses
    = polled_loop ctx 5 (PollAttestation pass)
        (fun _ att statuses =>
           process_attestation epc state prevEpoch epoch sf tf hf root att statuses)
        i atts statuses.
Proof.
  induction atts as [|att rest IH]; intros i statuses.
  - reflexivity.
  - cbn [process_attestations polled_loop].
    destruct (if Z.land i (Z.shiftl 1 5 - 1) =? 0
              then poll ctx (PollAttestation pass i) else Ok tt); [|reflexivity].
    simpl. destruct (process_attestation _ _ _ _ _ _ _ _ _ _); [|reflexivity].
    simpl. apply IH.
Qed.

Section Polls.
Variables (spec : Spec) (epc : EpochsContext) (state : BeaconStateView).

Lemma collect_validators_agree ctx ctx' prevEpoch currentEpoch slashingsEpoch acc :
  (forall j, polled state (PollValidator j) ->
             ctx (PollValidator j) = ctx' (PollValidator j)) ->
  collect_validators ctx spec prevEpoch currentEpoch slashingsEpoch 0 (Validators state) acc
  = collect_validators ctx' spec prevEpoch currentEpoch slashingsEpoch 0 (Validators state)
      acc.
Proof.
  intros H. rewrite !collect_validators_polled. apply polled_loop_agree; [lia|].
  intros j Hj Hc. apply H. simpl. split; [lia|exact Hc].
Qed.

Lemma collect_validators_cancel_or_same ctx prevEpoch currentEpoch slashingsEpoch i vals acc :
  collect_validators ctx spec prevEpoch currentEpoch slashingsEpoch i vals acc
  = collect_validators never_cancelled spec prevEpoch currentEpoch slashingsEpoch i vals acc
  \/ collect_validators ctx spec prevEpoch currentEpoch slashingsEpoch i vals acc
     = Err TransitionCancelErr.
Proof.
  rewrite !collect_validators_polled. apply polled_loop_cancel_or_same.
Qed.

Lemma collect_validators_cancel ctx prevEpoch currentEpoch slashingsEpoch acc r j :
  collect_validators never_cancelled spec prevEpoch currentEpoch slashingsEpoch 0
    (Validators state) acc = Ok r ->
  polled state (PollValidator j) -> ctx (PollValidator j) = true ->
  collect_validators ctx spec prevEpoch currentEpoch slashingsEpoch 0 (Validators state) acc
  = Err TransitionCancelErr.
Proof.
  rewrite !collect_validators_polled. intros Hrun [Hj Hc] Hset.
  eapply polled_loop_cancel; [lia|exact Hrun|]. exists j. repeat split; try assumption; lia.
Qed.

(** Pass 1 does not fail on its own: every status it writes to is there. *)
Lemma collect_validators_total prevEpoch currentEpoch slashingsEpoch
    (vals : list FlatValidator) :
  forall i out activeCount pre,
    Statuses out = pre ++ repeat zero_status (length vals) ->
    len pre = i ->
    exists r,
      collect_validators never_cancelled spec prevEpoch currentEpoch slashingsEpoch i vals
        (out, activeCount) = Ok r.
Proof.
  induction vals as [|flat rest IH]; intros i out activeCount pre Hs Hi.
  - simpl. destruct (_ =? 0); simpl; eauto.
  - rewrite collect_validators_cons.
    assert (Hpoll : (if Z.land i (Z.shiftl 1 10 - 1) =? 0
                     then poll never_cancelled (PollValidator i) else Ok tt) = Ok tt).
    { destruct (_ =? 0); reflexivity. }
    rewrite Hpoll. cbn [bind fst snd]. rewrite Hs. cbn [length repeat].
    rewrite (modify_at_app _ _ _ _ _ Hi). cbn [bind].
    remember (collect_queues spec currentEpoch slashingsEpoch i flat
                (set_Statuses
                   (pre ++ collect_status prevEpoch currentEpoch flat zero_status
                        :: repeat zero_status (length rest)) out, activeCount))
      as q eqn:Hq.
    assert (Hst : Statuses (fst q)
                  = (pre ++ [collect_status prevEpoch currentEpoch flat zero_status])
                    ++ repeat zero_status (length rest)).
    { rewrite Hq, collect_queues_Statuses. simpl. rewrite <- app_assoc. reflexivity. }
    clear Hq. destruct q as [out1 ac1].
    apply (IH (i + 1) out1 ac1
             (pre ++ [collect_status prevEpoch currentEpoch flat zero_status])).
    + exact Hst.
    + rewrite len_app. unfold len at 2. simpl. lia.
Qed.

Lemma processEpoch_agree ctx ctx' prevEpoch pass atts epoch sf tf hf statuses :
  (forall j, 0 <= j <= len atts -> j mod 32 = 0 ->
             ctx (PollAttestation pass j) = ctx' (PollAttestation pass j)) ->
  processEpoch ctx spec epc state prevEpoch pass atts epoch sf tf hf statuses
  = processEpoch ctx' spec epc state prevEpoch pass atts epoch sf tf hf statuses.
Proof.
  intros H. unfold processEpoch.
  destruct (EpochStartSlot spec epoch) as [startSlot|e]; [|reflexivity]. simpl.
  destruct (GetBlockRootAtSlot state startSlot) as [root|e]; [|reflexivity]. simpl.
  rewrite !process_attestations_polled. apply polled_loop_agree; [lia|].
  intros j Hj Hc. apply H; [lia|exact Hc].
Qed.

Lemma processEpoch_cancel_or_same ctx prevEpoch pass atts epoch sf tf hf statuses :
  processEpoch ctx spec epc state prevEpoch pass atts epoch sf tf hf statuses
  = processEpoch never_cancelled spec epc state prevEpoch pass atts epoch sf tf hf statuses
  \/ processEpoch ctx spec epc state prevEpoch pass atts epoch sf tf hf statuses
     = Err TransitionCancelErr.
Proof.
  unfold processEpoch.
  destruct (EpochStartSlot spec epoch) as [startSlot|e]; [|left; reflexivity]. simpl.
  destruct (GetBlockRootAtSlot state startSlot) as [root|e]; [|left; reflexivity]. simpl.
  rewrite !process_attestations_polled. apply polled_loop_cancel_or_same.
Qed.

Lemma processEpoch_cancel ctx prevEpoch pass atts epoch sf tf hf statuses r j :
  processEpoch never_cancelled spec epc state prevEpoch pass atts epoch sf tf hf statuses
  = Ok r ->
  0 <= j <= len atts -> j mod 32 = 0 -> ctx (PollAttestation pass j) = true ->
  processEpoch ctx spec epc state prevEpoch pass atts epoch sf tf hf statuses
  = Err TransitionCancelErr.
Proof.
  unfold processEpoch.
  destruct (EpochStartSlot spec epoch) as [startSlot|e]; [|discriminate]. simpl.
  destruct (GetBlockRootAtSlot state startSlot) as [root|e]; [|discriminate]. simpl.
  rewrite !process_attestations_polled. intros Hrun Hj Hc Hset.
  eapply polled_loop_cancel; [lia|exact Hrun|]. exists j. repeat split; try assumption; lia.
Qed.

End Polls.

Ltac pass2_cancel_or_same ctx :=
  match goal with
  | |- context [processEpoch ctx ?spec ?epc ?state ?prev ?pass ?atts ?epoch ?sf ?tf ?hf ?s] =>
      destruct (processEpoch_cancel_or_same spec epc state ctx prev pass atts epoch
                  sf tf hf s) as [-> | ->]
  end.

Ltac pass2_agree ctx ctx' H :=
  match goal with
  | |- context [processEpoch ctx ?spec ?epc ?state ?prev ?pass ?atts ?epoch ?sf ?tf ?hf ?s] =>
      rewrite (processEpoch_agree spec epc state ctx ctx' prev pass atts epoch sf tf hf s)
        by (intros j Hj Hc; apply H; simpl; split; assumption)
  end.

Lemma prepare_cancel_or_same ctx spec epc state :
  prepare_epoch_process ctx spec epc state
  = prepare_epoch_process never_cancelled spec epc state
  \/ prepare_epoch_process ctx spec epc state = Err TransitionCancelErr.
Proof.
  unfold prepare_epoch_process.
  match goal with
  | |- context [collect_validators ctx ?spec ?p ?c ?s ?i ?vals ?acc] =>
      destruct (collect_validators_cancel_or_same spec ctx p c s i vals acc) as [-> | ->]
  end; [|right; reflexivity].
  destruct (collect_validators never_cancelled _ _ _ _ _ _ _) as [[out1 ac]|e];
    [|left; reflexivity].
  cbn [bind]. destruct (GetChurnLimit spec ac) as [limit|e]; [|left; reflexivity].
  cbn [bind]. destruct (_ >=? limit).
  - pass2_cancel_or_same ctx; [|right; reflexivity].
    destruct (processEpoch never_cancelled _ _ _ _ PreviousPass _ _ _ _ _ _) as [s2|e];
      [|left; reflexivity].
    cbn [bind]. pass2_cancel_or_same ctx; [left; reflexivity|right; reflexivity].
  - pass2_cancel_or_same ctx; [|right; reflexivity].
    destruct (processEpoch never_cancelled _ _ _ _ PreviousPass _ _ _ _ _ _) as [s2|e];
      [|left; reflexivity].
    cbn [bind]. pass2_cancel_or_same ctx; [left; reflexivity|right; reflexivity].
Qed.

Lemma prepare_agree ctx ctx' spec epc state :
  (forall site, polled state site -> ctx site = ctx' site) ->
  prepare_epoch_process ctx spec epc state = prepare_epoch_process ctx' spec epc state.
Proof.
  intros H. unfold prepare_epoch_process.
  rewrite (collect_validators_agree spec state ctx ctx') by (intros j Hj; apply H; exact Hj).
  destruct (collect_validators ctx' _ _ _ _ _ _ _) as [[out1 ac]|e]; [|reflexivity].
  cbn [bind]. destruct (GetChurnLimit spec ac) as [limit|e]; [|reflexivity].
  cbn [bind]. destruct (_ >=? limit).
  - pass2_agree ctx ctx' H.
    destruct (processEpoch ctx' _ _ _ _ PreviousPass _ _ _ _ _ _) as [s2|e]; [|reflexivity].
    cbn [bind]. pass2_agree ctx ctx' H. reflexivity.
  - pass2_agree ctx ctx' H.
    destruct (processEpoch ctx' _ _ _ _ PreviousPass _ _ _ _ _ _) as [s2|e]; [|reflexivity].
    cbn [bind]. pass2_agree ctx ctx' H. reflexivity.
Qed.

Lemma prepare_cancel_pass1 ctx spec epc state j :
  polled state (PollValidator j) -> ctx (PollValidator j) = true ->
  prepare_epoch_process ctx spec epc state = Err TransitionCancelErr.
Proof.
  intros Hp Hset. unfold prepare_epoch_process.
  match goal with
  | |- context [collect_validators ctx ?spec ?p ?c ?s ?i ?vals (?out, ?ac)] =>
      destruct (collect_validators_total spec p c s vals i out ac []) as [r Hr];
      [reflexivity|reflexivity|];
      rewrite (collect_validators_cancel spec state ctx p c s (out, ac) r j Hr Hp Hset)
  end.
  reflexivity.
Qed.

Ltac pass2_cancel ctx j :=
  match goal with
  | H : processEpoch never_cancelled ?spec ?epc ?state ?prev ?pass ?atts ?epoch
          ?sf ?tf ?hf ?s = Ok ?r
    |- context [processEpoch ctx ?spec ?epc ?state ?prev ?pass ?atts ?epoch ?sf ?tf ?hf ?s] =>
      rewrite (processEpoch_cancel spec epc state ctx prev pass atts epoch sf tf hf s r j H)
        by tauto
  end.

Lemma prepare_cancel ctx spec epc state site p :
  polled state site -> ctx site = true ->
  prepare_epoch_process never_cancelled spec epc state = Ok p ->
  prepare_epoch_process ctx spec epc state = Err TransitionCancelErr.
Proof.
  intros Hp Hset Hrun.
  destruct site as [j|pass j|]; [eapply prepare_cancel_pass1; eassumption| |contradiction].
  revert Hrun. unfold prepare_epoch_process.
  match goal with
  | |- context [collect_validators ctx ?spec ?p ?c ?s ?i ?vals ?acc] =>
      destruct (collect_validators_cancel_or_same spec ctx p c s i vals acc) as [-> | ->]
  end; [|reflexivity].
  destruct (collect_validators never_cancelled _ _ _ _ _ _ _) as [[out1 ac]|e];
    [|discriminate].
  cbn [bind]. destruct (GetChurnLimit spec ac) as [limit|e]; [|discriminate].
  cbn [bind]. destruct (_ >=? limit).
  - destruct (processEpoch never_cancelled _ _ _ _ PreviousPass _ _ _ _ _ _) as [s2|e] eqn:E2;
      [|discriminate].
    cbn [bind]. cbn [Statuses set_Statuses].
    destruct (processEpoch never_cancelled _ _ _ _ CurrentPass _ _ _ _ _ _) as [s3|e] eqn:E3;
      [|discriminate].
    intros _. destruct pass; simpl in Hp.
    + pass2_cancel ctx j. reflexivity.
    + pass2_cancel_or_same ctx; [|reflexivity]. rewrite E2. cbn [bind Statuses set_Statuses].
      pass2_cancel ctx j. reflexivity.
  - destruct (processEpoch never_cancelled _ _ _ _ PreviousPass _ _ _ _ _ _) as [s2|e] eqn:E2;
      [|discriminate].
    cbn [bind]. cbn [Statuses set_Statuses].
    destruct (processEpoch never_cancelled _ _ _ _ CurrentPass _ _ _ _ _ _) as [s3|e] eqn:E3;
      [|discriminate].
    intros _. destruct pass; simpl in Hp.
    + pass2_cancel ctx j. reflexivity.
    + pass2_cancel_or_same ctx; [|reflexivity]. rewrite E2. cbn [bind Statuses set_Statuses].
      pass2_cancel ctx j. reflexivity.
Qed.

(** C8: [PrepareEpochProcess] asks the context on the fixed cadence and
    nowhere else -- its result depends on the context only at the validator
    counts divisible by 1024 and, in either run of pass 2, at the
    attestation counts divisible by 32.  A context that is cancelled at
    such a poll in pass 1 makes it return [TransitionCancelErr] and no
    process; so does one cancelled at any such poll, pass 2 included,
    whenever the run would otherwise have returned a process.  Whatever the
    context, the function returns what it returns without cancellation, or
    else [TransitionCancelErr] and no process. *)
Theorem cancellation_polls :
  forall spec epc state,
    (forall ctx ctx',
        (forall site, polled state site -> ctx site = ctx' site) ->
        PrepareEpochProcess ctx spec epc state = PrepareEpochProcess ctx' spec epc state)
    /\ (forall ctx i,
          polled state (PollValidator i) -> ctx (PollValidator i) = true ->
          PrepareEpochProcess ctx spec epc state = (None, Some TransitionCancelErr))
    /\ (forall ctx site p,
          polled state site -> ctx site = true ->
          PrepareEpochProcess never_cancelled spec epc state = (Some p, None) ->
          PrepareEpochProcess ctx spec epc state = (None, Some TransitionCancelErr))
    /\ (forall ctx,
          PrepareEpochProcess ctx spec epc state
          = PrepareEpochProcess never_cancelled spec epc state
          \/ PrepareEpochProcess ctx spec epc state = (None, Some TransitionCancelErr)).
Proof.
  intros spec epc state. unfold PrepareEpochProcess. repeat split.
  - intros ctx ctx' H. rewrite (prepare_agree ctx ctx' spec epc state H). reflexivity.
  - intros ctx i Hp Hset. rewrite (prepare_cancel_pass1 ctx spec epc state i Hp Hset).
    reflexivity.
  - intros ctx site p Hp Hset Hrun. apply returned_Some in Hrun.
    rewrite (prepare_cancel ctx spec epc state site p Hp Hset Hrun). reflexivity.
  - intros ctx. destruct (prepare_cancel_or_same ctx spec epc state) as [-> | ->];
      [left|right]; reflexivity.
Qed.

(** A context cancelled while the current-epoch attestations are walked:
    the process built so far is dropped. *)
Example cancelled_in_the_current_pass :
  PrepareEpochProcess
    (fun site => match site with PollAttestation CurrentPass 0 => true | _ => false end)
    mainnet (epoch_ten [0]) (attested_state [active_validator] 0)
  = (None, Some TransitionCancelErr).
Proof. vm_compute. reflexivity. Qed.

(** * Validators that already exit are not ejected again *)

Lemma InitiateValidatorExit_already_set spec epc (index : ValidatorIndex)
    (vals : ValidatorsRegistryView) (w : FlatValidator) :
  registry_get vals index = Ok w ->
  ExitEpoch w <> FAR_FUTURE_EPOCH ->
  InitiateValidatorExit spec epc index vals = (vals, Ok tt).
Proof.
  intros Hw Hset. unfold InitiateValidatorExit, and_then, get_validator.
  rewrite Hw. destruct (Z.eqb_spec (ExitEpoch w) FAR_FUTURE_EPOCH); [contradiction|].
  reflexivity.
Qed.

(** The registry that the three passes of [ProcessEpochRegistryUpdates]
    leave, seen from a validator outside the to-eject queue. *)
Lemma registry_updates_keep_exit ctx spec epc process state (i : ValidatorIndex)
    (w : FlatValidator) :
  ~ In i (IndicesToEject process) ->
  registry_get (Validators state) i = Ok w ->
  exists w',
    registry_get (fst (ProcessEpochRegistryUpdates ctx spec epc process state)) i = Ok w'
    /\ ExitEpoch w' = ExitEpoch w /\ WithdrawableEpoch w' = WithdrawableEpoch w.
Proof.
  intros Hi Hw. unfold ProcessEpochRegistryUpdates.
  destruct (poll ctx PollRegistryUpdates) as [u|e].
  2:{ exists w. simpl. auto. }
  unfold and_then at 1.
  pose proof (process_ejections_frame spec (ChurnLimit process) (IndicesToEject process)
                (ExitQueueEnd process) (ExitQueueEndChurn process) (Validators state) i Hi)
    as Hframe.
  destruct (process_ejections spec (ChurnLimit process) (IndicesToEject process)
              (ExitQueueEnd process) (ExitQueueEndChurn process) (Validators state))
    as [vals1 [ejected|e]]; simpl in Hframe.
  2:{ exists w. simpl. rewrite Hframe. auto. }
  rewrite <- Hframe in Hw.
  assert (Hkeep : map exit_fields
            (fst ((do eligible <~ process_eligibility (wrap64 (CurrentEpoch epc + 1))
                                    (IndicesToSetActivationEligibility process) ;;
                   process_activations process (cp_Epoch (FinalizedCheckpoint state))
                     (ComputeActivationExitEpoch spec (CurrentEpoch epc))
                     (churn_prefix process)) vals1))
          = map exit_fields vals1).
  { apply keeps_and_then.
    - apply keeps_process_eligibility. reflexivity.
    - intros u'. apply keeps_process_activations. reflexivity. }
  destruct (registry_get_keeps exit_fields _ _ _ _ Hkeep Hw) as (w' & Hw' & Hf).
  exists w'. split; [exact Hw'|]. unfold exit_fields in Hf. inversion Hf. auto.
Qed.

(** C9: a validator whose exit epoch is already set when the collector
    runs is never placed in the to-eject queue, so the ejection pass leaves
    it untouched and the whole of [ProcessEpochRegistryUpdates] leaves its
    exit and withdrawable epochs as they were; and [InitiateValidatorExit]
    returns without a write when the validator's exit epoch is set. *)
Theorem exited_validator_is_not_ejected_again :
  forall ctx spec epc state p i v,
    PrepareEpochProcess ctx spec epc state = (Some p, None) ->
    registry_get (Validators state) i = Ok v ->
    ExitEpoch v <> FAR_FUTURE_EPOCH ->
    ~ In i (IndicesToEject p)
    /\ (forall vals,
          registry_get
            (fst (process_ejections spec (ChurnLimit p) (IndicesToEject p)
                    (ExitQueueEnd p) (ExitQueueEndChurn p) vals)) i
          = registry_get vals i)
    /\ (forall ctx' epc' state' w,
          registry_get (Validators state') i = Ok w ->
          exists w',
            registry_get (fst (ProcessEpochRegistryUpdates ctx' spec epc' p state')) i
            = Ok w'
            /\ ExitEpoch w' = ExitEpoch w
            /\ WithdrawableEpoch w' = WithdrawableEpoch w)
    /\ (forall epc' vals w,
          registry_get vals i = Ok w ->
          ExitEpoch w <> FAR_FUTURE_EPOCH ->
          InitiateValidatorExit spec epc' i vals = (vals, Ok tt)).
Proof.
  intros ctx spec epc state p i v H Hv Hset. apply returned_Some in H.
  destruct (prepare_epoch_process_Ok _ _ _ _ _ H)
    as (limit & s2 & s3 & out3 & _ & _ & _ & _ & _ & _ & _ & _ & Hq & _).
  assert (Hnot : ~ In i (IndicesToEject p)).
  { rewrite Hq, select_indices_In, Z.sub_0_r. intros (w & Hw & _ & Hc).
    rewrite Hv in Hw. inversion Hw; subst w. unfold queued_to_eject in Hc.
    apply andb_prop in Hc. destruct Hc as [_ Hc]. apply Z.eqb_eq in Hc. contradiction. }
  split; [exact Hnot|]. split; [|split].
  - intros vals. apply process_ejections_frame. exact Hnot.
  - intros ctx' epc' state' w Hw. apply registry_updates_keep_exit; assumption.
  - intros epc' vals w Hw Hw'. eapply InitiateValidatorExit_already_set; eassumption.
Qed.

(** The statement at a registry whose second validator, at the ejection
    balance, already exits at epoch 20: only the first is ejected. *)
Lemma exited_validator_is_not_ejected_again_witness :
  exists p,
    PrepareEpochProcess never_cancelled mainnet (epoch_ten [])
      (quiet_state
         [ejectable_validator; validator 16000000000 false 0 0 20 276] 0)
    = (Some p, None)
    /\ registry_get
         (Validators
            (quiet_state
               [ejectable_validator; validator 16000000000 false 0 0 20 276] 0)) 1
       = Ok (validator 16000000000 false 0 0 20 276)
    /\ ExitEpoch (validator 16000000000 false 0 0 20 276) <> FAR_FUTURE_EPOCH
    /\ IndicesToEject p = [0]
    /\ (~ In 1 (IndicesToEject p)
        /\ (forall vals,
              registry_get
                (fst (process_ejections mainnet (ChurnLimit p) (IndicesToEject p)
                        (ExitQueueEnd p) (ExitQueueEndChurn p) vals)) 1
              = registry_get vals 1)
        /\ (forall ctx' epc' state' w,
              registry_get (Validators state') 1 = Ok w ->
              exists w',
                registry_get
                  (fst (ProcessEpochRegistryUpdates ctx' mainnet epc' p state')) 1
                = Ok w'
                /\ ExitEpoch w' = ExitEpoch w
                /\ WithdrawableEpoch w' = WithdrawableEpoch w)
        /\ (forall epc' vals w,
              registry_get vals 1 = Ok w ->
              ExitEpoch w <> FAR_FUTURE_EPOCH ->
              InitiateValidatorExit mainnet epc' 1 vals = (vals, Ok tt))).
Proof.
  eexists. split; [vm_compute; reflexivity|].
  split; [reflexivity|]. split; [vm_compute; discriminate|]. split; [reflexivity|].
  apply (exited_validator_is_not_ejected_again never_cancelled mainnet (epoch_ten [])
           (quiet_state
              [ejectable_validator; validator 16000000000 false 0 0 20 276] 0)
           _ 1 (validator 16000000000 false 0 0 20 276)).
  - vm_compute. reflexivity.
  - reflexivity.
  - vm_compute. discriminate.
Defined.

(** * The exit-queue cursor *)

Lemma later_exits_same_counts (exitQueueEnd cur : Epoch) (vals vals' : list FlatValidator) :
  Forall2 (fun v v' => v = v'
                       \/ (exitQueueEnd < ExitEpoch v /\ exitQueueEnd < ExitEpoch v'
                           /\ IsActive v cur = IsActive v' cur)) vals vals' ->
  len (filter (fun v => ExitEpoch v =? exitQueueEnd) vals)
  = len (filter (fun v => ExitEpoch v =? exitQueueEnd) vals')
  /\ len (filter (fun v => IsActive v cur) vals)
     = len (filter (fun v => IsActive v cur) vals').
Proof.
  unfold len. induction 1 as [|v v' vals vals' HR _ [IH1 IH2]]; simpl; [auto|].
  destruct HR as [<-|(H1 & H2 & H3)].
  - destruct (ExitEpoch v =? exitQueueEnd); destruct (IsActive v cur);
      simpl length; split; lia.
  - rewrite H3.
    destruct (Z.eqb_spec (ExitEpoch v) exitQueueEnd); [lia|].
    destruct (Z.eqb_spec (ExitEpoch v') exitQueueEnd); [lia|].
    destruct (IsActive v' cur); simpl length; split; lia.
Qed.

(** C10: the cursor that [PrepareEpochProcess] returns is computed from
    [ComputeActivationExitEpoch(current_epoch)] alone.  With [n] the number
    of registry validators whose exit epoch is that epoch and the churn
    limit taken at the number of active validators: below the limit the
    cursor is that epoch with count [n]; from the limit on it is the next
    epoch with count zero.  Validators whose exit epoch is strictly later
    have no effect: replacing them by validators of the same activity whose
    exit epochs are strictly later too leaves the cursor as it is. *)
Theorem exit_queue_cursor :
  forall ctx spec epc state p,
    PrepareEpochProcess ctx spec epc state = (Some p, None) ->
    let exitQueueEnd := ComputeActivationExitEpoch spec (CurrentEpoch epc) in
    let n := len (filter (fun v => ExitEpoch v =? exitQueueEnd) (Validators state)) in
    GetChurnLimit spec
      (len (filter (fun v => IsActive v (CurrentEpoch epc)) (Validators state)))
    = Ok (ChurnLimit p)
    /\ (n < ChurnLimit p ->
        ExitQueueEnd p = exitQueueEnd /\ ExitQueueEndChurn p = n)
    /\ (ChurnLimit p <= n ->
        ExitQueueEnd p = wrap64 (exitQueueEnd + 1) /\ ExitQueueEndChurn p = 0)
    /\ (forall ctx' state' p',
          PrepareEpochProcess ctx' spec epc state' = (Some p', None) ->
          Forall2 (fun v v' =>
                     v = v'
                     \/ (exitQueueEnd < ExitEpoch v /\ exitQueueEnd < ExitEpoch v'
                         /\ IsActive v (CurrentEpoch epc)
                            = IsActive v' (CurrentEpoch epc)))
            (Validators state) (Validators state') ->
          ExitQueueEnd p' = ExitQueueEnd p
          /\ ExitQueueEndChurn p' = ExitQueueEndChurn p
          /\ ChurnLimit p' = ChurnLimit p).
Proof.
  assert (Hcursor : forall ctx spec epc state p,
    prepare_epoch_process ctx spec epc state = Ok p ->
    exists limit,
      GetChurnLimit spec
        (len (filter (fun v => IsActive v (CurrentEpoch epc)) (Validators state)))
      = Ok limit
      /\ ChurnLimit p = limit
      /\ ExitQueueEnd p
         = (if len (filter (fun v => ExitEpoch v
                                     =? ComputeActivationExitEpoch spec (CurrentEpoch epc))
                      (Validators state)) >=? limit
            then wrap64 (ComputeActivationExitEpoch spec (CurrentEpoch epc) + 1)
            else ComputeActivationExitEpoch spec (CurrentEpoch epc))
      /\ ExitQueueEndChurn p
         = (if len (filter (fun v => ExitEpoch v
                                     =? ComputeActivationExitEpoch spec (CurrentEpoch epc))
                      (Validators state)) >=? limit
            then 0
            else len (filter (fun v => ExitEpoch v
                                       =? ComputeActivationExitEpoch spec (CurrentEpoch epc))
                        (Validators state)))).
  { intros ctx spec epc state p H.
    destruct (prepare_epoch_process_Ok _ _ _ _ _ H)
      as (limit & s2 & s3 & out3 & HL & _ & _ & _ & _ & _ & _ & _ & _ & Hl & He & Hc).
    rewrite count_exit_queue_end_filter in He, Hc. simpl in He, Hc.
    exists limit. auto. }
  intros ctx spec epc state p H exitQueueEnd n. apply returned_Some in H.
  destruct (Hcursor _ _ _ _ _ H) as (limit & HL & Hl & He & Hc).
  fold exitQueueEnd in He, Hc. fold n in He, Hc.
  split; [rewrite Hl; exact HL|].
  split; [|split].
  - rewrite Hl. intros Hn. destruct (Z.geb_spec n limit); [lia|auto].
  - rewrite Hl. intros Hn. destruct (Z.geb_spec n limit); [auto|lia].
  - intros ctx' state' p' H' HR. apply returned_Some in H'.
    destruct (Hcursor _ _ _ _ _ H') as (limit' & HL' & Hl' & He' & Hc').
    fold exitQueueEnd in He', Hc'.
    destruct (later_exits_same_counts _ _ _ _ HR) as [E1 E2].
    rewrite <- E2, HL in HL'.
    assert (Hll : limit' = limit) by congruence. rewrite Hll in Hl', He', Hc'.
    rewrite <- E1 in He', Hc'. fold n in He', Hc'.
    rewrite He, Hc, He', Hc', Hl, Hl'. auto.
Qed.

(** The cursor at a registry of three active validators of which one exits
    at epoch 15, the activation-exit epoch of epoch 10, and one at epoch
    18: the count is one, the later exit is not seen, whereas the scan of
    [InitiateValidatorExit] moves to epoch 18. *)
Lemma exit_queue_cursor_witness :
  exists p,
    PrepareEpochProcess never_cancelled mainnet (epoch_ten [])
      (quiet_state
         [active_validator;
          validator 32000000000 false 0 0 15 271;
          validator 32000000000 false 0 0 18 274] 0) = (Some p, None)
    /\ ExitQueueEnd p = 15 /\ ExitQueueEndChurn p = 1
    /\ scan_exit_queue
         [active_validator;
          validator 32000000000 false 0 0 15 271;
          validator 32000000000 false 0 0 18 274] 15 0 = (18, 1)
    /\ (GetChurnLimit mainnet 3 = Ok (ChurnLimit p)
        /\ (1 < ChurnLimit p -> ExitQueueEnd p = 15 /\ ExitQueueEndChurn p = 1)
        /\ (ChurnLimit p <= 1 ->
            ExitQueueEnd p = wrap64 (15 + 1) /\ ExitQueueEndChurn p = 0)
        /\ (forall ctx' state' p',
              PrepareEpochProcess ctx' mainnet (epoch_ten []) state' = (Some p', None) ->
              Forall2 (fun v v' =>
                         v = v'
                         \/ (15 < ExitEpoch v /\ 15 < ExitEpoch v'
                             /\ IsActive v 10 = IsActive v' 10))
                [active_validator;
                 validator 32000000000 false 0 0 15 271;
                 validator 32000000000 false 0 0 18 274] (Validators state') ->
              ExitQueueEnd p' = ExitQueueEnd p
              /\ ExitQueueEndChurn p' = ExitQueueEndChurn p
              /\ ChurnLimit p' = ChurnLimit p)).
Proof.
  eexists. split; [vm_compute; reflexivity|].
  split; [reflexivity|]. split; [reflexivity|]. split; [reflexivity|].
  apply (exit_queue_cursor never_cancelled mainnet (epoch_ten [])
           (quiet_state
              [active_validator;
               validator 32000000000 false 0 0 15 271;
               validator 32000000000 false 0 0 18 274] 0)).
  vm_compute. reflexivity.
Defined.

(** * Exits later than the cursor *)

(** An instance: the cursor of [PrepareEpochProcess] does not see validators
    that exit after [ComputeActivationExitEpoch(current_epoch)].  On a
    registry whose epochs 15 and 16 each hold four exits already, under a
    churn limit of four, the epoch transition ejects the ninth validator at
    epoch 16, which then holds five exits; [InitiateValidatorExit] on the
    same registry gives the same validator epoch 17. *)
Lemma ejection_into_a_full_epoch :
  exists p vals' vals'',
    PrepareEpochProcess never_cancelled mainnet (epoch_ten [0; 1; 2; 3; 4; 5; 6; 7; 8])
      (quiet_state full_exit_queue 0) = (Some p, None)
    /\ ChurnLimit p = 4
    /\ ExitQueueEnd p = 16 /\ ExitQueueEndChurn p = 0
    /\ ProcessEpochRegistryUpdates never_cancelled mainnet
         (epoch_ten [0; 1; 2; 3; 4; 5; 6; 7; 8]) p (quiet_state full_exit_queue 0)
       = (vals', Ok tt)
    /\ exit_epoch_of vals' 8 = 16
    /\ len (filter (fun v => ExitEpoch v =? 16) vals') = 5
    /\ InitiateValidatorExit mainnet (epoch_ten [0; 1; 2; 3; 4; 5; 6; 7; 8]) 8
         full_exit_queue = (vals'', Ok tt)
    /\ exit_epoch_of vals'' 8 = 17.
Proof.
  eexists. eexists. eexists.
  split; [vm_compute; reflexivity|].
  split; [reflexivity|]. split; [reflexivity|]. split; [reflexivity|].
  split; [vm_compute; reflexivity|].
  split; [reflexivity|]. split; [reflexivity|].
  split; [vm_compute; reflexivity|].
  reflexivity.
Qed.

(** * The collector: what the flags of a status say *)

Lemma index_at_app_other {A : Type} (pre : list A) (a b : A) (rest : list A) (j : Z) :
  j <> len pre -> index_at (pre ++ b :: rest) j = index_at (pre ++ a :: rest) j.
Proof.
  intros Hne. unfold index_at, len in *.
  destruct (Z.ltb_spec j 0); [reflexivity|].
  destruct (Nat.lt_ge_cases (Z.to_nat j) (length pre)) as [Hlt|Hge].
  - rewrite !nth_error_app1 by assumption. reflexivity.
  - rewrite !nth_error_app2 by assumption.
    destruct (Z.to_nat j - length pre)%nat eqn:E; [lia|]. reflexivity.
Qed.

(** One write into a slice, read back at any index. *)
Lemma modify_at_read {A : Type} (f : A -> A) (s t : list A) (p j : Z) (a : A) :
  modify_at s p f = Ok t ->
  index_at s j = Ok a ->
  index_at t j = Ok (if j =? p then f a else a).
Proof.
  intros Hm Ha.
  destruct (modify_at_split _ _ _ _ Hm) as (pre & x & rest & -> & -> & Hl).
  destruct (Z.eqb_spec j p) as [E|Hne].
  - rewrite E in Ha. rewrite (index_at_app pre x rest p Hl) in Ha.
    inversion Ha as [Hx]. rewrite <- Hx, E. apply index_at_app. exact Hl.
  - rewrite (index_at_app_other pre x (f x) rest j) by congruence. exact Ha.
Qed.

Lemma modify_at_len {A : Type} (f : A -> A) (s t : list A) (p : Z) :
  modify_at s p f = Ok t -> len t = len s /\ 0 <= p < len s.
Proof.
  intros Hm. destruct (modify_at_split _ _ _ _ Hm) as (pre & x & rest & -> & -> & Hl).
  rewrite !len_app. unfold len in *. simpl length. lia.
Qed.

(** A boolean view [g] of a status under a write [f] that can only raise
    it, by the constant [c]. *)
Lemma for_participants_view (g : AttesterStatus -> bool) (f : AttesterStatus -> AttesterStatus)
    (c : bool) :
  (forall a, g (f a) = g a || c) ->
  forall participants s t j a,
    for_participants f participants s = Ok t ->
    index_at s j = Ok a ->
    exists b, index_at t j = Ok b
              /\ (g b = true <-> g a = true \/ (c = true /\ In j participants)).
Proof.
  intros Hf. induction participants as [|p rest IH]; intros s t j a H Ha; simpl in H.
  - inversion H; subst. exists a. split; [exact Ha|]. simpl. tauto.
  - bind_inv H as u Hu.
    pose proof (modify_at_read _ _ _ _ _ _ Hu Ha) as Hr.
    destruct (IH _ _ _ _ H Hr) as (b & Hb & Hg). exists b. split; [exact Hb|].
    rewrite Hg. simpl. destruct (Z.eqb_spec j p) as [->|Hne].
    + rewrite Hf. rewrite orb_true_iff. tauto.
    + intuition congruence.
Qed.



Section FlagViews.
Variables (ctx : Context) (epc : EpochsContext) (state : BeaconStateView).
Variables (prevEpoch : Epoch) (pass : AttestationPass) (epoch : Epoch).
Variables (sf tf hf : AttesterFlag) (root : Root) (n : Z).

(** What one attestation does to bit [n] of the flags of validator [j]. *)
Lemma process_attestation_view (att : PendingAttestation) s t j a :
  process_attestation epc state prevEpoch epoch sf tf hf root att s = Ok t ->
  index_at s j = Ok a ->
  exists b r committee,
    index_at t j = Ok b
    /\ GetBlockRootAtSlot state (att_Slot (Data att)) = Ok r
    /\ GetBeaconCommittee epc (att_Slot (Data att)) (att_Index (Data att)) = Ok committee
    /\ (Z.testbit (Flags b) n = true <->
          Z.testbit (Flags a) n = true
          \/ (flag_raised sf tf hf att root r n = true
              /\ In j (FilterParticipants (AggregationBits att) committee))).
Proof.
  intros H Ha. unfold process_attestation in H.
  bind_inv H as r Hr. bind_inv H as committee Hc. bind_inv H as s' Hs'.
  assert (Hmid : exists a', index_at s' j = Ok a' /\ Flags a' = Flags a).
  { destruct (epoch =? prevEpoch).
    - destruct (for_participants_view (fun x => Z.testbit (Flags x) n)
                  (note_inclusion att) false
                  (fun x => eq_trans (f_equal (fun f => Z.testbit f n)
                                        (note_inclusion_Flags att x))
                                     (eq_sym (orb_false_r _)))
                  _ _ _ j a Hs' Ha) as (b & Hb & _).
      exists b. split; [exact Hb|].
      clear - Hs' Ha Hb. revert s s' a Hs' Ha Hb.
      induction (FilterParticipants (AggregationBits att) committee) as [|p l IH];
        intros s s' a Hs' Ha Hb; simpl in Hs'.
      + inversion Hs'; subst. congruence.
      + bind_inv Hs' as u Hu. pose proof (modify_at_read _ _ _ _ _ _ Hu Ha) as Hr.
        rewrite (IH _ _ _ Hs' Hr Hb). destruct (j =? p); [apply note_inclusion_Flags|reflexivity].
    - inversion Hs'; subst. exists a. auto. }
  destruct Hmid as (a' & Ha' & Hfl).
  destruct (for_participants_view (fun x => Z.testbit (Flags x) n)
              (mark_flags sf tf hf att root r) (flag_raised sf tf hf att root r n)
              (fun x => eq_trans (mark_flags_testbit sf tf hf att root r x n)
                                 (eq_sym (orb_assoc _ _ _)))
              _ _ _ j a' H Ha') as (b & Hb & Hg).
  exists b, r, committee. repeat split; try assumption.
  - intros Hbit. apply Hg in Hbit. rewrite Hfl in Hbit. exact Hbit.
  - intros Hbit. apply Hg. rewrite Hfl. exact Hbit.
Qed.

(** What a run of the attestation loop does to bit [n] of the flags of
    validator [j]: the bit is set afterwards exactly when it was set before
    or one of the attestations raised it for [j]. *)
Lemma process_attestations_view (atts : list PendingAttestation) :
  forall i s t j a,
    process_attestations ctx epc state prevEpoch pass epoch sf tf hf root i atts s = Ok t ->
    index_at s j = Ok a ->
    exists b,
      index_at t j = Ok b
      /\ (Z.testbit (Flags b) n = true <->
            Z.testbit (Flags a) n = true
            \/ exists att r committee,
                 In att atts
                 /\ GetBlockRootAtSlot state (att_Slot (Data att)) = Ok r
                 /\ GetBeaconCommittee epc (att_Slot (Data att)) (att_Index (Data att))
                    = Ok committee
                 /\ flag_raised sf tf hf att root r n = true
                 /\ In j (FilterParticipants (AggregationBits att) committee)).
Proof.
  induction atts as [|att rest IH]; intros i s t j a H Ha; simpl in H.
  - bind_inv H as u Hu. inversion H; subst. exists a. split; [exact Ha|].
    split; [auto|]. intros [Hbit|(att & r & c & [] & _)]. exact Hbit.
  - bind_inv H as u Hu. bind_inv H as s' Hs'.
    destruct (process_attestation_view _ _ _ _ _ Hs' Ha)
      as (a' & r & committee & Ha' & Hr & Hc & Hg).
    destruct (IH _ _ _ _ _ H Ha') as (b & Hb & Hg').
    exists b. split; [exact Hb|]. rewrite Hg', Hg. split.
    + intros [[Hbit|[Hraise Hin]]|(att' & r' & c' & Hatt & Hrest)].
      * left. exact Hbit.
      * right. exists att, r, committee. repeat split; auto. left. reflexivity.
      * right. exists att', r', c'. split; [right; exact Hatt|exact Hrest].
    + intros [Hbit|(att' & r' & c' & [<-|Hatt] & Hr' & Hc' & Hraise & Hin)].
      * left. left. exact Hbit.
      * left. right. rewrite Hr in Hr'. rewrite Hc in Hc'.
        inversion Hr'; inversion Hc'; subst. auto.
      * right. exists att', r', c'. repeat split; auto.
Qed.

End FlagViews.

Lemma process_attestations_lookups ctx epc state prevEpoch pass epoch sf tf hf root
    (atts : list PendingAttestation) :
  forall i s t,
    process_attestations ctx epc state prevEpoch pass epoch sf tf hf root i atts s = Ok t ->
    Forall (fun att => exists r, GetBlockRootAtSlot state (att_Slot (Data att)) = Ok r) atts.
Proof.
  induction atts as [|att rest IH]; intros i s t H; simpl in H; [constructor|].
  bind_inv H as u Hu. bind_inv H as s' Hs'. constructor; [|eapply IH; exact H].
  unfold process_attestation in Hs'. bind_inv Hs' as r Hr. eauto.
Qed.

(** A run of [processEpoch], seen at bit [n] of the flags of validator [j]. *)
Lemma processEpoch_flags ctx spec epc state prevEpoch pass atts epoch sf tf hf s t j a n :
  processEpoch ctx spec epc state prevEpoch pass atts epoch sf tf hf s = Ok t ->
  index_at s j = Ok a ->
  exists b,
    index_at t j = Ok b
    /\ (Z.testbit (Flags b) n = true <->
          Z.testbit (Flags a) n = true
          \/ exists att,
               In att atts /\ participates epc att j
               /\ (Z.testbit sf n = true
                   \/ (votes_target spec state epoch att
                       /\ (Z.testbit tf n = true
                           \/ (votes_head state att /\ Z.testbit hf n = true))))).
Proof.
  intros H Ha. unfold processEpoch in H.
  bind_inv H as startSlot Hss. bind_inv H as root Hroot.
  pose proof (process_attestations_lookups _ _ _ _ _ _ _ _ _ _ _ _ _ _ H) as Hlook.
  destruct (process_attestations_view ctx epc state prevEpoch pass epoch sf tf hf root n
              atts 0 s t j a H Ha) as (b & Hb & Hg).
  exists b. split; [exact Hb|]. rewrite Hg. clear Hg.
  assert (Htarget : forall att,
            (cp_Root (Target (Data att)) =? root) = true
            <-> votes_target spec state epoch att).
  { intros att. unfold votes_target. rewrite Z.eqb_eq. split.
    - intros E. exists startSlot. rewrite E. auto.
    - intros (ss & Hs1 & Hs2). rewrite Hss in Hs1. inversion Hs1; subst ss.
      rewrite Hroot in Hs2. inversion Hs2. reflexivity. }
  split.
  - intros [Hbit|(att & r & committee & Hin & Hr & Hc & Hraise & Hj)]; [left; exact Hbit|].
    right. exists att. split; [exact Hin|]. split; [exists committee; auto|].
    unfold flag_raised in Hraise.
    apply orb_true_iff in Hraise. destruct Hraise as [Hsf|Hraise]; [left; exact Hsf|].
    apply andb_true_iff in Hraise. destruct Hraise as [Ht Hraise].
    right. split; [apply Htarget; exact Ht|].
    apply orb_true_iff in Hraise. destruct Hraise as [Htf|Hraise]; [left; exact Htf|].
    apply andb_true_iff in Hraise. destruct Hraise as [Hh Hhf].
    right. split; [|exact Hhf]. unfold votes_head. apply Z.eqb_eq in Hh. congruence.
  - intros [Hbit|(att & Hin & (committee & Hc & Hj) & Hraise)]; [left; exact Hbit|].
    right. rewrite Forall_forall in Hlook. destruct (Hlook att Hin) as [r Hr].
    exists att, r, committee. repeat split; try assumption.
    unfold flag_raised. apply orb_true_iff.
    destruct Hraise as [Hsf|[Ht Hraise]]; [left; exact Hsf|right].
    apply andb_true_iff. split; [apply Htarget; exact Ht|].
    apply orb_true_iff. destruct Hraise as [Htf|[Hh Hhf]]; [left; exact Htf|right].
    apply andb_true_iff. split; [|exact Hhf].
    unfold votes_head in Hh. rewrite Hr in Hh. inversion Hh. apply Z.eqb_refl.
Qed.

Lemma index_at_map_inv {A B : Type} (g : A -> B) (s : list A) (i : Z) (b : B) :
  index_at (map g s) i = Ok b -> exists a, index_at s i = Ok a /\ g a = b.
Proof.
  unfold index_at. destruct (i <? 0); [discriminate|].
  rewrite nth_error_map. destruct (nth_error s (Z.to_nat i)) as [a|]; [|discriminate].
  simpl. intros H; inversion H. eauto.
Qed.

Lemma index_at_same_length {A B : Type} (s : list A) (t : list B) (i : Z) (a : A) :
  length t = length s -> index_at s i = Ok a -> exists b, index_at t i = Ok b.
Proof.
  unfold index_at. intros Hl. destruct (i <? 0); [discriminate|].
  destruct (nth_error s (Z.to_nat i)) eqn:E; [|discriminate]. intros _.
  assert (Hn : (Z.to_nat i < length s)%nat) by (apply nth_error_Some; congruence).
  destruct (nth_error t (Z.to_nat i)) eqn:E'; [eauto|].
  apply nth_error_None in E'. lia.
Qed.

Lemma collect_status_low_bits prevEpoch currentEpoch v (n : Z) :
  0 <= n < 6 ->
  Z.testbit (Flags (collect_status prevEpoch currentEpoch v zero_status)) n = false.
Proof.
  intros Hn. unfold collect_status.
  assert (Hcases : n = 0 \/ n = 1 \/ n = 2 \/ n = 3 \/ n = 4 \/ n = 5) by lia.
  destruct (Slashed v); destruct (_ || _);
    destruct Hcases as [->|[->|[->|[->|[->| ->]]]]]; reflexivity.
Qed.

(** X2: what the six attestation flags of a returned status say.  For a
    process that [PrepareEpochProcess] returns and the status of validator
    [i] in it: the previous-epoch source flag is set exactly when a pending
    attestation of the previous epoch has [i] among its participants; the
    target flag when such an attestation also names the block root at the
    first slot of the previous epoch as its target; the head flag when it
    moreover names the block root at its own slot as its head.  The three
    current-epoch flags say the same of the current-epoch attestations and
    the current epoch. *)
Theorem attestation_flags_meaning ctx spec epc state p i status :
  PrepareEpochProcess ctx spec epc state = (Some p, None) ->
  index_at (Statuses p) i = Ok status ->
  let prev := PreviousEpochAttestations state in
  let curr := CurrentEpochAttestations state in
  (HasMarkers (Flags status) PrevSourceAttester = true <->
     exists att, In att prev /\ participates epc att i)
  /\ (HasMarkers (Flags status) PrevTargetAttester = true <->
        exists att, In att prev /\ participates epc att i
                    /\ votes_target spec state (PreviousEpoch epc) att)
  /\ (HasMarkers (Flags status) PrevHeadAttester = true <->
        exists att, In att prev /\ participates epc att i
                    /\ votes_target spec state (PreviousEpoch epc) att
                    /\ votes_head state att)
  /\ (HasMarkers (Flags status) CurrSourceAttester = true <->
        exists att, In att curr /\ participates epc att i)
  /\ (HasMarkers (Flags status) CurrTargetAttester = true <->
        exists att, In att curr /\ participates epc att i
                    /\ votes_target spec state (CurrentEpoch epc) att)
  /\ (HasMarkers (Flags status) CurrHeadAttester = true <->
        exists att, In att curr /\ participates epc att i
                    /\ votes_target spec state (CurrentEpoch epc) att
                    /\ votes_head state att).
Proof.
  intros H Hi prev curr. apply returned_Some in H.
  destruct (prepare_epoch_process_Ok _ _ _ _ _ H)
    as (limit & s2 & s3 & out3 & _ & E2 & E3 & _ & HS & _).
  rewrite HS in Hi. clear HS.
  pose proof (processEpoch_Validators _ _ _ _ _ _ _ _ _ _ _ _ _ E3) as L3.
  pose proof (processEpoch_Validators _ _ _ _ _ _ _ _ _ _ _ _ _ E2) as L2.
  apply (f_equal (@length _)) in L3. apply (f_equal (@length _)) in L2.
  rewrite !length_map in L3, L2.
  destruct (index_at_same_length s3 s2 i status (eq_sym L3) Hi) as [b2 Hb2].
  destruct (index_at_same_length s2 _ i b2 (eq_sym L2) Hb2) as [a Ha].
  destruct (index_at_map_inv _ _ _ _ Ha) as (v & _ & Hv).
  assert (Hlow : forall n, 0 <= n < 6 -> Z.testbit (Flags a) n = false)
    by (intros n Hn; rewrite <- Hv; apply collect_status_low_bits; exact Hn).
  assert (Hbit : forall n, 0 <= n < 6 ->
    (Z.testbit (Flags status) n = true <->
       (exists att, In att prev /\ participates epc att i
          /\ (Z.testbit PrevSourceAttester n = true
              \/ (votes_target spec state (PreviousEpoch epc) att
                  /\ (Z.testbit PrevTargetAttester n = true
                      \/ (votes_head state att
                          /\ Z.testbit PrevHeadAttester n = true)))))
       \/ (exists att, In att curr /\ participates epc att i
          /\ (Z.testbit CurrSourceAttester n = true
              \/ (votes_target spec state (CurrentEpoch epc) att
                  /\ (Z.testbit CurrTargetAttester n = true
                      \/ (votes_head state att
                          /\ Z.testbit CurrHeadAttester n = true))))))).
  { intros n Hn.
    destruct (processEpoch_flags _ _ _ _ _ _ _ _ _ _ _ _ _ i a n E2 Ha)
      as (b2' & Hb2' & G2).
    rewrite Hb2 in Hb2'. inversion Hb2'; subst b2'. clear Hb2'.
    destruct (processEpoch_flags _ _ _ _ _ _ _ _ _ _ _ _ _ i b2 n E3 Hb2)
      as (b3 & Hb3 & G3).
    rewrite Hi in Hb3. inversion Hb3; subst b3. clear Hb3.
    rewrite G3, G2, (Hlow n Hn). fold prev curr. intuition congruence. }
  change PrevSourceAttester with (2 ^ 0). change PrevTargetAttester with (2 ^ 1).
  change PrevHeadAttester with (2 ^ 2). change CurrSourceAttester with (2 ^ 3).
  change CurrTargetAttester with (2 ^ 4). change CurrHeadAttester with (2 ^ 5).
  rewrite !HasMarkers_bit by lia.
  pose proof (Hbit 0 ltac:(lia)) as B0. pose proof (Hbit 1 ltac:(lia)) as B1.
  pose proof (Hbit 2 ltac:(lia)) as B2. pose proof (Hbit 3 ltac:(lia)) as B3.
  pose proof (Hbit 4 ltac:(lia)) as B4. pose proof (Hbit 5 ltac:(lia)) as B5.
  clear Hbit.
  unfold PrevSourceAttester, PrevTargetAttester, PrevHeadAttester,
    CurrSourceAttester, CurrTargetAttester, CurrHeadAttester in *.
  cbn [Z.testbit Pos.testbit Z.eqb Pos.pred_N Pos.pred_double] in B0, B1, B2, B3, B4, B5.
  repeat split.
  - intros Hs. apply B0 in Hs. destruct Hs as [(att & ? & ? & ?)|(att & ? & ? & Hx)];
      [eauto|]. destruct Hx as [?|(? & [?|(? & ?)])]; discriminate.
  - intros (att & ? & ?). apply B0. left. eauto.
  - intros Hs. apply B1 in Hs. destruct Hs as [(att & ? & ? & Hx)|(att & ? & ? & Hx)].
    + destruct Hx as [?|(? & [?|(? & ?)])]; try discriminate. eauto.
    + destruct Hx as [?|(? & [?|(? & ?)])]; discriminate.
  - intros (att & ? & ? & ?). apply B1. left. exists att. intuition.
  - intros Hs. apply B2 in Hs. destruct Hs as [(att & ? & ? & Hx)|(att & ? & ? & Hx)].
    + destruct Hx as [?|(? & [?|(? & ?)])]; try discriminate. eauto.
    + destruct Hx as [?|(? & [?|(? & ?)])]; discriminate.
  - intros (att & ? & ? & ? & ?). apply B2. left. exists att. intuition.
  - intros Hs. apply B3 in Hs. destruct Hs as [(att & ? & ? & Hx)|(att & ? & ? & Hx)].
    + destruct Hx as [?|(? & [?|(? & ?)])]; discriminate.
    + eauto.
  - intros (att & ? & ?). apply B3. right. eauto.
  - intros Hs. apply B4 in Hs. destruct Hs as [(att & ? & ? & Hx)|(att & ? & ? & Hx)].
    + destruct Hx as [?|(? & [?|(? & ?)])]; discriminate.
    + destruct Hx as [?|(? & [?|(? & ?)])]; try discriminate. eauto.
  - intros (att & ? & ? & ?). apply B4. right. exists att. intuition.
  - intros Hs. apply B5 in Hs. destruct Hs as [(att & ? & ? & Hx)|(att & ? & ? & Hx)].
    + destruct Hx as [?|(? & [?|(? & ?)])]; discriminate.
    + destruct Hx as [?|(? & [?|(? & ?)])]; try discriminate. eauto.
  - intros (att & ? & ? & ? & ?). apply B5. right. exists att. intuition.
Qed.

Lemma attestation_flags_meaning_witness :
  exists p status,
    PrepareEpochProcess never_cancelled mainnet (epoch_ten [0])
      (attested_state [active_validator] 0) = (Some p, None)
    /\ index_at (Statuses p) 0 = Ok status
    /\ HasMarkers (Flags status) PrevHeadAttester = true
    /\ HasMarkers (Flags status) CurrSourceAttester = false
    /\ (HasMarkers (Flags status) PrevHeadAttester = true <->
          exists att,
            In att (PreviousEpochAttestations (attested_state [active_validator] 0))
            /\ participates (epoch_ten [0]) att 0
            /\ votes_target mainnet (attested_state [active_validator] 0) 9 att
            /\ votes_head (attested_state [active_validator] 0) att).
Proof.
  eexists. eexists. split; [vm_compute; reflexivity|].
  split; [vm_compute; reflexivity|]. split; [reflexivity|]. split; [reflexivity|].
  eapply (attestation_flags_meaning never_cancelled mainnet (epoch_ten [0])
            (attested_state [active_validator] 0) _ 0).
  - vm_compute. reflexivity.
  - vm_compute. reflexivity.
Defined.

(** * The collector: earliest inclusion *)

Lemma for_participants_at (f : AttesterStatus -> AttesterStatus) :
  (forall x, f (f x) = f x) ->
  forall participants s t j a,
    for_participants f participants s = Ok t ->
    index_at s j = Ok a ->
    index_at t j = Ok (if in_dec Z.eq_dec j participants then f a else a).
Proof.
  intros Hidem. induction participants as [|p rest IH]; intros s t j a H Ha; simpl in H.
  - inversion H; subst. exact Ha.
  - bind_inv H as u Hu.
    pose proof (modify_at_read _ _ _ _ _ _ Hu Ha) as Hr.
    rewrite (IH _ _ _ _ H Hr).
    destruct (Z.eqb_spec j p) as [E|Hne].
    + destruct (in_dec Z.eq_dec j (p :: rest)) as [_|Hn]; [|exfalso; apply Hn; left; auto].
      destruct (in_dec Z.eq_dec j rest); [rewrite Hidem|]; reflexivity.
    + destruct (in_dec Z.eq_dec j rest) as [Hin|Hn];
        destruct (in_dec Z.eq_dec j (p :: rest)) as [Hin'|Hn']; try reflexivity.
      * exfalso. apply Hn'. right. exact Hin.
      * exfalso. destruct Hin' as [E|Hin']; [congruence|contradiction].
Qed.

Lemma for_participants_proj {X : Type} (g : AttesterStatus -> X)
    (f : AttesterStatus -> AttesterStatus) :
  (forall x, g (f x) = g x) ->
  forall participants s t j a,
    for_participants f participants s = Ok t ->
    index_at s j = Ok a ->
    exists b, index_at t j = Ok b /\ g b = g a.
Proof.
  intros Hf. induction participants as [|p rest IH]; intros s t j a H Ha; simpl in H.
  - inversion H; subst. eauto.
  - bind_inv H as u Hu.
    pose proof (modify_at_read _ _ _ _ _ _ Hu Ha) as Hr.
    destruct (IH _ _ _ _ H Hr) as (b & Hb & Hg). exists b. split; [exact Hb|].
    rewrite Hg. destruct (j =? p); [apply Hf|reflexivity].
Qed.

Lemma note_inclusion_idem att x :
  note_inclusion att (note_inclusion att x) = note_inclusion att x.
Proof.
  unfold note_inclusion.
  destruct ((AttestedProposer x =? ValidatorIndexMarker)
            || (att_InclusionDelay att <? InclusionDelay x)) eqn:E.
  - cbn [AttestedProposer InclusionDelay set_AttestedProposer set_InclusionDelay].
    rewrite Z.ltb_irrefl, orb_false_r.
    destruct (ProposerIndex att =? ValidatorIndexMarker); reflexivity.
  - rewrite E. reflexivity.
Qed.

Lemma mark_flags_inclusion sf tf hf att r1 r2 x :
  (AttestedProposer (mark_flags sf tf hf att r1 r2 x),
   InclusionDelay (mark_flags sf tf hf att r1 r2 x))
  = (AttestedProposer x, InclusionDelay x).
Proof.
  unfold mark_flags. destruct (_ =? r1); [destruct (_ =? r2)|]; reflexivity.
Qed.

Lemma is_earlier_test att x :
  (AttestedProposer x =? ValidatorIndexMarker)
  || (att_InclusionDelay att <? InclusionDelay x) = true
  <-> is_earlier att x.
Proof.
  unfold is_earlier. rewrite orb_true_iff, Z.eqb_eq, Z.ltb_lt. tauto.
Qed.

Section Inclusion.
Variables (ctx : Context) (epc : EpochsContext) (state : BeaconStateView).
Variables (prevEpoch : Epoch) (pass : AttestationPass) (epoch : Epoch).
Variables (sf tf hf : AttesterFlag) (root : Root).

(** One attestation, seen at the inclusion fields of validator [j]. *)
Lemma process_attestation_inclusion (att : PendingAttestation) s t j a :
  process_attestation epc state prevEpoch epoch sf tf hf root att s = Ok t ->
  index_at s j = Ok a ->
  exists b,
    index_at t j = Ok b
    /\ ((epoch = prevEpoch /\ participates epc att j /\ is_earlier att a
         /\ AttestedProposer b = ProposerIndex att
         /\ InclusionDelay b = att_InclusionDelay att)
        \/ ((epoch <> prevEpoch \/ ~ participates epc att j \/ ~ is_earlier att a)
            /\ AttestedProposer b = AttestedProposer a
            /\ InclusionDelay b = InclusionDelay a)).
Proof.
  intros H Ha. unfold process_attestation in H.
  bind_inv H as r Hr. bind_inv H as committee Hc. bind_inv H as s' Hs'.
  assert (Hpart : In j (FilterParticipants (AggregationBits att) committee)
                  <-> participates epc att j).
  { unfold participates. split.
    - intros Hin. exists committee. auto.
    - intros (c & Hc' & Hin). rewrite Hc in Hc'. inversion Hc'. subst c. exact Hin. }
  assert (Hmid : exists a',
            index_at s' j = Ok a'
            /\ a' = if epoch =? prevEpoch
                    then if in_dec Z.eq_dec j (FilterParticipants (AggregationBits att) committee)
                         then note_inclusion att a else a
                    else a).
  { destruct (epoch =? prevEpoch).
    - eexists. split; [|reflexivity].
      apply (for_participants_at _ (note_inclusion_idem att) _ _ _ _ _ Hs' Ha).
    - inversion Hs'; subst. eauto. }
  destruct Hmid as (a' & Ha' & Ea').
  destruct (for_participants_proj (fun x => (AttestedProposer x, InclusionDelay x))
              _ (mark_flags_inclusion sf tf hf att root r) _ _ _ _ _ H Ha')
    as (b & Hb & Hg).
  exists b. split; [exact Hb|]. inversion Hg as [[Hp Hd]]. rewrite Hp, Hd, Ea'.
  destruct (Z.eqb_spec epoch prevEpoch) as [E|Hne]; [|right; auto].
  destruct (in_dec Z.eq_dec j _) as [Hin|Hn]; [|right; rewrite <- Hpart; auto].
  unfold note_inclusion.
  destruct ((AttestedProposer a =? ValidatorIndexMarker)
            || (att_InclusionDelay att <? InclusionDelay a)) eqn:Et.
  - left. apply is_earlier_test in Et. rewrite <- Hpart. auto.
  - right. split; [|auto]. right. right. rewrite <- is_earlier_test, Et. discriminate.
Qed.

(** A run of the attestation loop of the previous epoch, seen at the
    inclusion fields of validator [j]. *)
Lemma process_attestations_inclusion (atts : list PendingAttestation) :
  epoch = prevEpoch ->
  Forall (fun att => ProposerIndex att <> ValidatorIndexMarker) atts ->
  forall i s t j a,
    process_attestations ctx epc state prevEpoch pass epoch sf tf hf root i atts s = Ok t ->
    index_at s j = Ok a ->
    exists b, index_at t j = Ok b /\ inclusion_after epc j a atts b.
Proof.
  intros Hep Hprop. induction atts as [|att rest IH]; intros i s t j a H Ha; simpl in H.
  - bind_inv H as u Hu. inversion H; subst t. exists a. split; [exact Ha|].
    left. split; [reflexivity|]. split; [reflexivity|]. intros att [].
  - bind_inv H as u Hu. bind_inv H as s' Hs'.
    inversion Hprop as [|x l Hp0 Hprest]; subst x l.
    destruct (process_attestation_inclusion att s s' j a Hs' Ha) as (a1 & Ha1 & Hstep).
    destruct (IH Hprest _ _ _ _ _ H Ha1) as (b & Hb & Hrest).
    exists b. split; [exact Hb|].
    unfold inclusion_after, earliest_inclusion_of, is_earlier in *.
    destruct Hstep as [(_ & Hpart & Hbet & Hp1 & Hd1)|(Hnot & Hp1 & Hd1)].
    + (* the head attestation replaced what [a] held *)
      destruct Hrest as [(Hpb & Hdb & Hall)|(att2 & (pre & post & -> & Hpart2 & Hpre & Hpost)
                                              & Hbet2 & Hpb & Hdb)].
      * right. exists att. split; [|repeat split; try congruence].
        exists [], rest. split; [reflexivity|]. split; [exact Hpart|].
        split; [intros ? []|]. intros att' Hin Hp'. specialize (Hall att' Hin Hp'). lia.
      * right. exists att2. split; [|repeat split; try assumption].
        -- exists (att :: pre), post. split; [reflexivity|]. split; [exact Hpart2|].
           split; [|exact Hpost]. intros att' [<-|Hin] Hp'; [lia|]. apply Hpre; assumption.
        -- lia.
    + destruct Hrest as [(Hpb & Hdb & Hall)|(att2 & (pre & post & -> & Hpart2 & Hpre & Hpost)
                                              & Hbet2 & Hpb & Hdb)].
      * left. split; [congruence|]. split; [congruence|].
        intros att' [<-|Hin] Hp'.
        -- destruct Hnot as [Hne|[Hnp|Hnb]]; [congruence|contradiction|exact Hnb].
        -- rewrite <- Hp1, <- Hd1. apply Hall; assumption.
      * right. exists att2. split; [|repeat split; try assumption; try lia].
        exists (att :: pre), post. split; [reflexivity|]. split; [exact Hpart2|].
        split; [|exact Hpost]. intros att' [<-|Hin] Hp'; [|apply Hpre; assumption].
        destruct Hnot as [Hne|[Hnp|Hnb]]; [congruence|contradiction|]. lia.
Qed.

(** A run of the attestation loop of another epoch keeps the inclusion
    fields. *)
Lemma process_attestations_keep_inclusion (atts : list PendingAttestation) :
  epoch <> prevEpoch ->
  forall i s t j a,
    process_attestations ctx epc state prevEpoch pass epoch sf tf hf root i atts s = Ok t ->
    index_at s j = Ok a ->
    exists b, index_at t j = Ok b
              /\ AttestedProposer b = AttestedProposer a
              /\ InclusionDelay b = InclusionDelay a.
Proof.
  intros Hep. induction atts as [|att rest IH]; intros i s t j a H Ha; simpl in H.
  - bind_inv H as u Hu. inversion H; subst t. eauto.
  - bind_inv H as u Hu. bind_inv H as s' Hs'.
    destruct (process_attestation_inclusion att s s' j a Hs' Ha) as (a1 & Ha1 & Hstep).
    destruct (IH _ _ _ _ _ H Ha1) as (b & Hb & Hp & Hd).
    exists b. split; [exact Hb|].
    destruct Hstep as [(E & _)|(_ & Hp1 & Hd1)]; [contradiction|]. split; congruence.
Qed.

End Inclusion.

Lemma inclusion_after_app epc j a xs b1 ys b :
  Forall (fun att => ProposerIndex att <> ValidatorIndexMarker) xs ->
  inclusion_after epc j a xs b1 ->
  inclusion_after epc j b1 ys b ->
  inclusion_after epc j a (xs ++ ys) b.
Proof.
  intros Hprop H1 H2. rewrite Forall_forall in Hprop.
  unfold inclusion_after, earliest_inclusion_of, is_earlier in *.
  destruct H1 as [(Hp1 & Hd1 & Hall1)
                 |(att1 & (pre1 & post1 & -> & Hpart1 & Hpre1 & Hpost1) & Hbet1 & Hp1 & Hd1)];
  destruct H2 as [(Hp2 & Hd2 & Hall2)
                 |(att2 & (pre2 & post2 & -> & Hpart2 & Hpre2 & Hpost2) & Hbet2 & Hp2 & Hd2)].
  - left. split; [congruence|]. split; [congruence|].
    intros att Hin Hp. apply in_app_or in Hin. destruct Hin as [Hin|Hin].
    + apply Hall1; assumption.
    + rewrite <- Hp1, <- Hd1. apply Hall2; assumption.
  - right. exists att2. split; [|rewrite <- Hp1, <- Hd1; auto].
    exists (xs ++ pre2), post2. rewrite app_assoc. split; [reflexivity|].
    split; [exact Hpart2|]. split; [|exact Hpost2].
    intros att' Hin Hp. apply in_app_or in Hin. destruct Hin as [Hin|Hin].
    + specialize (Hall1 att' Hin Hp). lia.
    + apply Hpre2; assumption.
  - right. exists att1. split; [|repeat split; try assumption; congruence].
    exists pre1, (post1 ++ ys). rewrite <- app_assoc. split; [reflexivity|].
    split; [exact Hpart1|]. split; [exact Hpre1|].
    intros att' Hin Hp. apply in_app_or in Hin. destruct Hin as [Hin|Hin].
    + apply Hpost1; assumption.
    + specialize (Hall2 att' Hin Hp). lia.
  - assert (Hm1 : ProposerIndex att1 <> ValidatorIndexMarker)
      by (apply Hprop, in_or_app; right; left; reflexivity).
    assert (Hlt : att_InclusionDelay att2 < att_InclusionDelay att1)
      by (destruct Hbet2 as [E|Hlt]; [congruence|lia]).
    right. exists att2. split; [|repeat split; try assumption; lia].
    exists ((pre1 ++ att1 :: post1) ++ pre2), post2. rewrite app_assoc.
    split; [reflexivity|]. split; [exact Hpart2|]. split; [|exact Hpost2].
    intros att' Hin Hp. apply in_app_or in Hin. destruct Hin as [Hin|Hin].
    + apply in_app_or in Hin. destruct Hin as [Hin|[<-|Hin]].
      * specialize (Hpre1 att' Hin Hp). lia.
      * exact Hlt.
      * specialize (Hpost1 att' Hin Hp). lia.
    + apply Hpre2; assumption.
Qed.

Lemma collect_status_inclusion prevEpoch currentEpoch v :
  AttestedProposer (collect_status prevEpoch currentEpoch v zero_status)
  = ValidatorIndexMarker
  /\ InclusionDelay (collect_status prevEpoch currentEpoch v zero_status) = 0.
Proof.
  unfold collect_status. destruct (Slashed v); destruct (_ || _); split; reflexivity.
Qed.

(** X3: the inclusion fields of a returned status.  The attestations read
    are those of the previous epoch, and those of the current epoch as well
    when the two epochs are the same (as at genesis).  When none of their
    proposer indices is the marker value: a validator that takes part in
    none of them keeps the marker as attested proposer and delay 0;
    otherwise its status holds the inclusion delay and the proposer of the
    first attestation, in list order, with the least inclusion delay among
    those it takes part in. *)
Theorem earliest_inclusion ctx spec epc state p i status :
  PrepareEpochProcess ctx spec epc state = (Some p, None) ->
  (forall att, In att (inclusion_attestations epc state) ->
     ProposerIndex att <> ValidatorIndexMarker) ->
  index_at (Statuses p) i = Ok status ->
  (AttestedProposer status = ValidatorIndexMarker
   /\ InclusionDelay status = 0
   /\ forall att, In att (inclusion_attestations epc state) -> ~ participates epc att i)
  \/ exists att,
       earliest_inclusion_of epc i (inclusion_attestations epc state) att
       /\ AttestedProposer status = ProposerIndex att
       /\ InclusionDelay status = att_InclusionDelay att.
Proof.
  intros H Hprop Hi. apply returned_Some in H.
  destruct (prepare_epoch_process_Ok _ _ _ _ _ H)
    as (limit & s2 & s3 & out3 & _ & E2 & E3 & _ & HS & _).
  rewrite HS in Hi. clear HS.
  pose proof (processEpoch_Validators _ _ _ _ _ _ _ _ _ _ _ _ _ E3) as L3.
  pose proof (processEpoch_Validators _ _ _ _ _ _ _ _ _ _ _ _ _ E2) as L2.
  apply (f_equal (@length _)) in L3. apply (f_equal (@length _)) in L2.
  rewrite !length_map in L3, L2.
  destruct (index_at_same_length s3 s2 i status (eq_sym L3) Hi) as [b2 Hb2].
  destruct (index_at_same_length s2 _ i b2 (eq_sym L2) Hb2) as [a Ha].
  destruct (index_at_map_inv _ _ _ _ Ha) as (v & _ & Hv).
  destruct (collect_status_inclusion (PreviousEpoch epc) (CurrentEpoch epc) v) as [Pa Da].
  rewrite Hv in Pa, Da.
  assert (Hprev : Forall (fun att => ProposerIndex att <> ValidatorIndexMarker)
                    (PreviousEpochAttestations state)).
  { apply Forall_forall. intros att Hin. apply Hprop. unfold inclusion_attestations.
    apply in_or_app. left. exact Hin. }
  unfold processEpoch in E2, E3.
  bind_inv E2 as ss2 Hss2. bind_inv E2 as r2 Hr2.
  bind_inv E3 as ss3 Hss3. bind_inv E3 as r3 Hr3.
  destruct (process_attestations_inclusion _ _ _ _ _ _ _ _ _ _ _ eq_refl Hprev
              _ _ _ _ _ E2 Ha) as (b2' & Hb2' & G2).
  rewrite Hb2 in Hb2'. inversion Hb2'; subst b2'. clear Hb2'.
  assert (G : inclusion_after epc i a (inclusion_attestations epc state) status).
  { unfold inclusion_attestations.
    destruct (Z.eqb_spec (CurrentEpoch epc) (PreviousEpoch epc)) as [E|Hne].
    - assert (Hcurr : Forall (fun att => ProposerIndex att <> ValidatorIndexMarker)
                        (CurrentEpochAttestations state)).
      { apply Forall_forall. intros att Hin. apply Hprop. unfold inclusion_attestations.
        apply in_or_app. right. rewrite E, Z.eqb_refl. exact Hin. }
      destruct (process_attestations_inclusion _ _ _ _ _ _ _ _ _ _ _ E Hcurr
                  _ _ _ _ _ E3 Hb2) as (b3 & Hb3 & G3).
      rewrite Hi in Hb3. inversion Hb3; subst b3.
      eapply inclusion_after_app; eassumption.
    - destruct (process_attestations_keep_inclusion _ _ _ _ _ _ _ _ _ _ _ Hne
                  _ _ _ _ _ E3 Hb2) as (b3 & Hb3 & Hp3 & Hd3).
      rewrite Hi in Hb3. inversion Hb3; subst b3. rewrite app_nil_r.
      unfold inclusion_after in *. rewrite Hp3, Hd3. exact G2. }
  destruct G as [(Hp & Hd & Hall)|(att & Hearl & _ & Hp & Hd)].
  - left. split; [congruence|]. split; [congruence|].
    intros att Hin Hpart. apply (Hall att Hin Hpart). left. exact Pa.
  - right. exists att. auto.
Qed.

Lemma earliest_inclusion_witness :
  exists p status,
    PrepareEpochProcess never_cancelled mainnet (epoch_ten [0])
      (attested_state [active_validator] 0) = (Some p, None)
    /\ index_at (Statuses p) 0 = Ok status
    /\ InclusionDelay status = 1
    /\ ((AttestedProposer status = ValidatorIndexMarker
         /\ InclusionDelay status = 0
         /\ forall att,
              In att (inclusion_attestations (epoch_ten [0])
                        (attested_state [active_validator] 0)) ->
              ~ participates (epoch_ten [0]) att 0)
        \/ exists att,
             earliest_inclusion_of (epoch_ten [0]) 0
               (inclusion_attestations (epoch_ten [0])
                  (attested_state [active_validator] 0)) att
             /\ AttestedProposer status = ProposerIndex att
             /\ InclusionDelay status = att_InclusionDelay att).
Proof.
  eexists. eexists. split; [vm_compute; reflexivity|].
  split; [vm_compute; reflexivity|]. split; [reflexivity|].
  eapply (earliest_inclusion never_cancelled mainnet (epoch_ten [0])
            (attested_state [active_validator] 0) _ 0).
  - vm_compute. reflexivity.
  - intros att Hin. vm_compute in Hin. destruct Hin as [<-|[]]. vm_compute. discriminate.
  - vm_compute. reflexivity.
Defined.

(** * The collector: the snapshot of the registry and the totals *)

Section Pass1Totals.
Variables (ctx : Context) (spec : Spec).
Variables (prevEpoch currentEpoch slashingsEpoch : Epoch).

Lemma collect_queues_totals i flat out activeCount :
  let out' := fst (collect_queues spec currentEpoch slashingsEpoch i flat (out, activeCount)) in
  PrevEpoch out' = PrevEpoch out /\ CurrEpoch out' = CurrEpoch out
  /\ ActiveValidators out' = ActiveValidators out
  /\ PrevEpochUnslashedStake out' = PrevEpochUnslashedStake out
  /\ CurrEpochUnslashedTargetStake out' = CurrEpochUnslashedTargetStake out
  /\ TotalActiveStake out'
     = (if IsActive flat currentEpoch
        then wrap64 (TotalActiveStake out + EffectiveBalance flat)
        else TotalActiveStake out).
Proof.
  unfold collect_queues.
  destruct (Slashed flat); destruct (slashingsEpoch =? WithdrawableEpoch flat);
  destruct (IsActive flat currentEpoch);
  destruct (ActivationEligibilityEpoch flat =? FAR_FUTURE_EPOCH);
  destruct (EffectiveBalance flat =? MAX_EFFECTIVE_BALANCE spec);
  destruct (ActivationEpoch flat =? FAR_FUTURE_EPOCH);
  destruct (ActivationEligibilityEpoch flat <=? currentEpoch);
  destruct (EffectiveBalance flat <=? EJECTION_BALANCE spec);
  destruct (ExitEpoch flat =? FAR_FUTURE_EPOCH);
  simpl; repeat split.
Qed.

Lemma collect_validators_totals (vals : list FlatValidator) :
  forall i out activeCount out' activeCount',
    collect_validators ctx spec prevEpoch currentEpoch slashingsEpoch i vals
      (out, activeCount) = Ok (out', activeCount') ->
    PrevEpoch out' = PrevEpoch out /\ CurrEpoch out' = CurrEpoch out
    /\ ActiveValidators out' = ActiveValidators out
    /\ PrevEpochUnslashedStake out' = PrevEpochUnslashedStake out
    /\ CurrEpochUnslashedTargetStake out' = CurrEpochUnslashedTargetStake out
    /\ TotalActiveStake out'
       = fold_left (fun acc v => if IsActive v currentEpoch
                                 then wrap64 (acc + EffectiveBalance v) else acc)
           vals (TotalActiveStake out).
Proof.
  induction vals as [|flat rest IH]; intros i out activeCount out' activeCount' H.
  - simpl in H. bind_inv H as u Hu. inversion H; subst. simpl. repeat split.
  - rewrite collect_validators_cons in H. bind_inv H as u Hu. clear Hu.
    bind_inv H as statuses Hm. cbn [fst snd] in H.
    pose proof (collect_queues_totals i flat (set_Statuses statuses out) activeCount) as Hq.
    destruct (collect_queues spec currentEpoch slashingsEpoch i flat
                (set_Statuses statuses out, activeCount)) as [out1 ac1].
    cbn [fst] in Hq. destruct Hq as (Q1 & Q2 & Q3 & Q4 & Q5 & Q6).
    destruct (IH _ _ _ _ _ H) as (R1 & R2 & R3 & R4 & R5 & R6).
    cbn [fold_left]. rewrite R1, R2, R3, R4, R5, R6, Q1, Q2, Q3, Q4, Q5, Q6.
    repeat split.
Qed.

End Pass1Totals.

Lemma add_stake_fixed out status :
  PrevEpoch (add_stake out status) = PrevEpoch out
  /\ CurrEpoch (add_stake out status) = CurrEpoch out
  /\ ActiveValidators (add_stake out status) = ActiveValidators out
  /\ TotalActiveStake (add_stake out status) = TotalActiveStake out.
Proof.
  unfold add_stake.
  destruct (HasMarkers (Flags status) (Z.lor CurrTargetAttester UnslashedAttester));
    simpl; repeat split.
Qed.

Lemma fold_add_stake_fixed statuses :
  forall out,
    PrevEpoch (fold_left add_stake statuses out) = PrevEpoch out
    /\ CurrEpoch (fold_left add_stake statuses out) = CurrEpoch out
    /\ ActiveValidators (fold_left add_stake statuses out) = ActiveValidators out
    /\ TotalActiveStake (fold_left add_stake statuses out) = TotalActiveStake out.
Proof.
  induction statuses as [|s rest IH]; intros out; simpl; [repeat split|].
  destruct (IH (add_stake out s)) as (A & B & C & D).
  destruct (add_stake_fixed out s) as (A' & B' & C' & D').
  repeat split; congruence.
Qed.

Lemma clamp_stakes_fields spec out :
  PrevEpoch (clamp_stakes spec out) = PrevEpoch out
  /\ CurrEpoch (clamp_stakes spec out) = CurrEpoch out
  /\ ActiveValidators (clamp_stakes spec out) = ActiveValidators out
  /\ TotalActiveStake (clamp_stakes spec out)
     = at_least (EFFECTIVE_BALANCE_INCREMENT spec) (TotalActiveStake out)
  /\ SourceStake (PrevEpochUnslashedStake (clamp_stakes spec out))
     = at_least (EFFECTIVE_BALANCE_INCREMENT spec) (SourceStake (PrevEpochUnslashedStake out))
  /\ TargetStake (PrevEpochUnslashedStake (clamp_stakes spec out))
     = at_least (EFFECTIVE_BALANCE_INCREMENT spec) (TargetStake (PrevEpochUnslashedStake out))
  /\ HeadStake (PrevEpochUnslashedStake (clamp_stakes spec out))
     = at_least (EFFECTIVE_BALANCE_INCREMENT spec) (HeadStake (PrevEpochUnslashedStake out))
  /\ CurrEpochUnslashedTargetStake (clamp_stakes spec out)
     = at_least (EFFECTIVE_BALANCE_INCREMENT spec) (CurrEpochUnslashedTargetStake out).
Proof.
  unfold clamp_stakes, at_least.
  repeat match goal with
         | |- context [if ?b then _ else _] => destruct b eqn:?
         end; simpl in *; repeat split; congruence.
Qed.

(** The shape of a returned process, for its totals. *)
Lemma prepare_epoch_process_totals ctx spec epc state p :
  prepare_epoch_process ctx spec epc state = Ok p ->
  exists out3,
    p = clamp_stakes spec (fold_left add_stake (Statuses p) out3)
    /\ PrevEpoch out3 = PreviousEpoch epc /\ CurrEpoch out3 = CurrentEpoch epc
    /\ ActiveValidators out3 = 0
    /\ PrevEpochUnslashedStake out3 = {| SourceStake := 0; TargetStake := 0; HeadStake := 0 |}
    /\ CurrEpochUnslashedTargetStake out3 = 0
    /\ TotalActiveStake out3
       = fold_left (fun acc v => if IsActive v (CurrentEpoch epc)
                                 then wrap64 (acc + EffectiveBalance v) else acc)
           (Validators state) 0.
Proof.
  intros H.
  unfold prepare_epoch_process in H.
  bind_inv H as acc H1. destruct acc as [out1 activeCount].
  apply collect_validators_totals in H1. cbn in H1.
  destruct H1 as (T1 & T2 & T3 & T4 & T5 & T6).
  bind_inv H as lim HL.
  assert (Hfin : forall statuses3 o,
            clamp_stakes spec (fold_left add_stake statuses3 o) = p ->
            Statuses o = statuses3 -> statuses3 = Statuses p).
  { intros statuses3 o Hp Ho. rewrite <- Hp.
    destruct (same_but_stakes_trans _ _ _ (clamp_stakes_same spec _)
                (fold_add_stake_same statuses3 o)) as (_ & _ & F & _).
    rewrite F. symmetry. exact Ho. }
  destruct (_ >=? lim).
  - bind_inv H as statuses2 H2. bind_inv H as statuses3 H3.
    cbn [Statuses set_Statuses] in H. inversion H as [Hp].
    rewrite Hp. rewrite <- (Hfin _ _ Hp eq_refl).
    eexists. split; [symmetry; exact Hp|]. cbn. repeat split; assumption.
  - bind_inv H as statuses2 H2. bind_inv H as statuses3 H3.
    cbn [Statuses set_Statuses] in H. inversion H as [Hp].
    rewrite Hp. rewrite <- (Hfin _ _ Hp eq_refl).
    eexists. split; [symmetry; exact Hp|]. cbn. repeat split; assumption.
Qed.

Lemma collect_status_fields prevEpoch currentEpoch v :
  let status := collect_status prevEpoch currentEpoch v zero_status in
  Validator status = v
  /\ Active status = IsActive v currentEpoch
  /\ Z.testbit (Flags status) 6 = negb (Slashed v)
  /\ Z.testbit (Flags status) 7
     = IsActive v prevEpoch || (Slashed v && (wrap64 (prevEpoch + 1) <? WithdrawableEpoch v)).
Proof.
  unfold collect_status.
  destruct (Slashed v);
    destruct (IsActive v prevEpoch || _); repeat split.
Qed.

(** X4: the snapshot that a returned process holds.  The process carries
    the two epochs of the context and one status per registry validator,
    in registry order; the status of validator [i] holds the validator as
    the registry has it, says it is active exactly when it is active in the
    current epoch, and has the eligible-attester flag exactly when the
    validator is active in the previous epoch, or is slashed and not yet
    withdrawable one epoch after it.  The field [ActiveValidators] is left
    at zero, whatever the number of active validators. *)
Theorem status_snapshot ctx spec epc state p :
  PrepareEpochProcess ctx spec epc state = (Some p, None) ->
  PrevEpoch p = PreviousEpoch epc /\ CurrEpoch p = CurrentEpoch epc
  /\ ActiveValidators p = 0
  /\ len (Statuses p) = len (Validators state)
  /\ forall i v,
       index_at (Validators state) i = Ok v ->
       exists status,
         index_at (Statuses p) i = Ok status
         /\ Validator status = v
         /\ Active status = IsActive v (CurrentEpoch epc)
         /\ HasMarkers (Flags status) EligibleAttester
            = IsActive v (PreviousEpoch epc)
              || (Slashed v && (wrap64 (PreviousEpoch epc + 1) <? WithdrawableEpoch v)).
Proof.
  intros H. apply returned_Some in H.
  destruct (prepare_epoch_process_totals _ _ _ _ _ H)
    as (out3 & Hp & T1 & T2 & T3 & _).
  destruct (clamp_stakes_fields spec (fold_left add_stake (Statuses p) out3))
    as (C1 & C2 & C3 & _).
  destruct (fold_add_stake_fixed (Statuses p) out3) as (F1 & F2 & F3 & _).
  rewrite <- Hp in C1, C2, C3.
  split; [congruence|]. split; [congruence|]. split; [congruence|].
  pose proof (prepare_Validators _ _ _ _ _ H) as HV.
  split.
  { unfold len. rewrite <- HV, length_map. reflexivity. }
  intros i v Hv.
  destruct (prepare_epoch_process_Ok _ _ _ _ _ H)
    as (limit & s2 & s3 & out3' & _ & E2 & E3 & _ & HS & _).
  rewrite HS.
  set (a := collect_status (PreviousEpoch epc) (CurrentEpoch epc) v zero_status).
  assert (Ha : index_at (map (fun v => collect_status (PreviousEpoch epc) (CurrentEpoch epc)
                                         v zero_status) (Validators state)) i = Ok a).
  { unfold index_at in *. destruct (i <? 0); [discriminate|].
    rewrite nth_error_map. destruct (nth_error (Validators state) (Z.to_nat i));
      [|discriminate]. inversion Hv. reflexivity. }
  destruct (processEpoch_flags _ _ _ _ _ _ _ _ _ _ _ _ _ i a 7 E2 Ha) as (b2 & Hb2 & G2).
  destruct (processEpoch_flags _ _ _ _ _ _ _ _ _ _ _ _ _ i b2 7 E3 Hb2) as (b3 & Hb3 & G3).
  exists b3. split; [exact Hb3|].
  destruct (collect_status_fields (PreviousEpoch epc) (CurrentEpoch epc) v)
    as (V & A & _ & F). fold a in V, A, F.
  pose proof (processEpoch_keeps ctx spec epc state (PreviousEpoch epc) PreviousPass
                (PreviousEpoch epc) PrevSourceAttester PrevTargetAttester PrevHeadAttester
                (fun u => forall x, index_at u i = Ok x ->
                                    Validator x = v /\ Active x = IsActive v (CurrentEpoch epc)))
    as K2.
  pose proof (processEpoch_keeps ctx spec epc state (PreviousEpoch epc) CurrentPass
                (CurrentEpoch epc) CurrSourceAttester CurrTargetAttester CurrHeadAttester
                (fun u => forall x, index_at u i = Ok x ->
                                    Validator x = v /\ Active x = IsActive v (CurrentEpoch epc)))
    as K3.
  assert (Hstep : forall (f : AttesterStatus -> AttesterStatus),
            (forall x, Validator (f x) = Validator x /\ Active (f x) = Active x) ->
            forall (u : list AttesterStatus) (q : Z) (w : list AttesterStatus),
              (forall x, index_at u i = Ok x ->
                         Validator x = v /\ Active x = IsActive v (CurrentEpoch epc)) ->
              modify_at u q f = Ok w ->
              forall x, index_at w i = Ok x ->
                        Validator x = v /\ Active x = IsActive v (CurrentEpoch epc)).
  { intros f Hf u q w Hu Hm x Hx.
    destruct (modify_at_len _ _ _ _ Hm) as [Hl _].
    assert (exists y, index_at u i = Ok y) as [y Hy].
    { apply (index_at_same_length w u i x); [|exact Hx]. unfold len in Hl. lia. }
    pose proof (modify_at_read _ _ _ _ _ _ Hm Hy) as Hr. rewrite Hx in Hr.
    inversion Hr as [Ex]. destruct (Hu y Hy) as [Vy Ay].
    destruct (i =? q); [destruct (Hf y) as [-> ->]|]; auto. }
  assert (Hnote : forall att x, Validator (note_inclusion att x) = Validator x
                                /\ Active (note_inclusion att x) = Active x).
  { intros att x. unfold note_inclusion.
    match goal with |- context [if ?c then _ else _] => destruct c end;
      split; reflexivity. }
  assert (Hmark : forall sf tf hf att r1 r2 x,
            Validator (mark_flags sf tf hf att r1 r2 x) = Validator x
            /\ Active (mark_flags sf tf hf att r1 r2 x) = Active x).
  { intros. unfold mark_flags. destruct (_ =? r1); [destruct (_ =? r2)|]; split; reflexivity. }
  assert (H2 : forall x, index_at s2 i = Ok x ->
                         Validator x = v /\ Active x = IsActive v (CurrentEpoch epc)).
  { eapply K2; [| | |exact E2].
    - intros att u q w Hu Hm. eapply Hstep; [apply Hnote|exact Hu|exact Hm].
    - intros att r1 r2 u q w Hu Hm. eapply Hstep; [apply Hmark|exact Hu|exact Hm].
    - intros x Hx. rewrite Ha in Hx. inversion Hx; subst x. auto. }
  assert (H3 : forall x, index_at s3 i = Ok x ->
                         Validator x = v /\ Active x = IsActive v (CurrentEpoch epc)).
  { eapply K3; [| | |exact E3].
    - intros att u q w Hu Hm. eapply Hstep; [apply Hnote|exact Hu|exact Hm].
    - intros att r1 r2 u q w Hu Hm. eapply Hstep; [apply Hmark|exact Hu|exact Hm].
    - exact H2. }
  destruct (H3 b3 Hb3) as [V3 A3]. split; [exact V3|]. split; [exact A3|].
  change EligibleAttester with (2 ^ 7). rewrite HasMarkers_bit by lia.
  rewrite <- F.
  cbn [Z.testbit Pos.testbit Z.eqb Pos.pred_N Pos.pred_double PrevSourceAttester
         PrevTargetAttester PrevHeadAttester CurrSourceAttester CurrTargetAttester
         CurrHeadAttester] in G2, G3.
  apply Bool.eq_iff_eq_true. rewrite G3, G2. split.
  - intros [[X|X]|X]; [exact X| |].
    + destruct X as (att & _ & _ & [X|(_ & [X|(_ & X)])]); discriminate.
    + destruct X as (att & _ & _ & [X|(_ & [X|(_ & X)])]); discriminate.
  - intros X. left. left. exact X.
Qed.

Lemma status_snapshot_witness :
  exists p,
    PrepareEpochProcess never_cancelled mainnet (epoch_ten [0])
      (attested_state [active_validator] 0) = (Some p, None)
    /\ PrevEpoch p = 9 /\ CurrEpoch p = 10
    /\ ActiveValidators p = 0
    /\ len (Statuses p) = len (Validators (attested_state [active_validator] 0))
    /\ forall i v,
         index_at (Validators (attested_state [active_validator] 0)) i = Ok v ->
         exists status,
           index_at (Statuses p) i = Ok status
           /\ Validator status = v
           /\ Active status = IsActive v 10
           /\ HasMarkers (Flags status) EligibleAttester
              = IsActive v 9 || (Slashed v && (wrap64 (9 + 1) <? WithdrawableEpoch v)).
Proof.
  eexists. split; [vm_compute; reflexivity|].
  eapply (status_snapshot never_cancelled mainnet (epoch_ten [0])
            (attested_state [active_validator] 0)).
  vm_compute. reflexivity.
Defined.

(** * The collector: the queues *)

Lemma select_indices_sorted (c : FlatValidator -> bool) (vals : list FlatValidator) :
  forall i, StronglySorted Z.lt (select_indices c i vals).
Proof.
  induction vals as [|v vals IH]; intros i; simpl; [constructor|].
  destruct (c v); [|apply IH].
  constructor; [apply IH|].
  apply Forall_forall. intros x Hx. apply select_indices_bounds in Hx. lia.
Qed.

Lemma select_indices_In0 (c : FlatValidator -> bool) (vals : list FlatValidator) (x : Z) :
  In x (select_indices c 0 vals) <-> exists v, registry_get vals x = Ok v /\ c v = true.
Proof.
  rewrite select_indices_In. rewrite Z.sub_0_r. split.
  - intros (v & Hv & _ & Hc). eauto.
  - intros (v & Hv & Hc). exists v. repeat split; try assumption.
    apply registry_get_Ok_range in Hv. lia.
Qed.

(** X5: who is in the queues of a returned process, and in which order.
    A validator index is queued for activation eligibility exactly when its
    validator has no eligibility epoch yet and holds the maximum effective
    balance; for activation exactly when it has no activation epoch yet and
    became eligible no later than the current epoch; for ejection exactly
    when it is active in the current epoch, holds no more than the ejection
    balance and has no exit epoch yet.  The to-slash, eligibility and
    ejection queues list their indices in strictly ascending order; the
    activation queue, which is sorted by another key, lists no index
    twice. *)
Theorem queue_membership ctx spec epc state p :
  PrepareEpochProcess ctx spec epc state = (Some p, None) ->
  (forall i,
      In i (IndicesToSetActivationEligibility p) <->
      exists v, registry_get (Validators state) i = Ok v
                /\ ActivationEligibilityEpoch v = FAR_FUTURE_EPOCH
                /\ EffectiveBalance v = MAX_EFFECTIVE_BALANCE spec)
  /\ (forall i,
        In i (IndicesToMaybeActivate p) <->
        exists v, registry_get (Validators state) i = Ok v
                  /\ ActivationEpoch v = FAR_FUTURE_EPOCH
                  /\ ActivationEligibilityEpoch v <= CurrentEpoch epc)
  /\ (forall i,
        In i (IndicesToEject p) <->
        exists v, registry_get (Validators state) i = Ok v
                  /\ IsActive v (CurrentEpoch epc) = true
                  /\ EffectiveBalance v <= EJECTION_BALANCE spec
                  /\ ExitEpoch v = FAR_FUTURE_EPOCH)
  /\ StronglySorted Z.lt (IndicesToSlash p)
  /\ StronglySorted Z.lt (IndicesToSetActivationEligibility p)
  /\ StronglySorted Z.lt (IndicesToEject p)
  /\ NoDup (IndicesToMaybeActivate p).
Proof.
  intros H. apply returned_Some in H.
  destruct (prepare_epoch_process_Ok _ _ _ _ _ H)
    as (limit & s2 & s3 & out3 & _ & _ & _ & _ & _ & Q1 & Q2 & Q3 & Q4 & _).
  rewrite Q1, Q2, Q3, Q4.
  split; [|split; [|split; [|split; [|split; [|split]]]]].
  - intros i. rewrite select_indices_In0. unfold queued_to_set_eligibility.
    split; intros (v & Hv & Hc); exists v; (split; [exact Hv|]).
    + apply andb_true_iff in Hc. destruct Hc as [A B].
      apply Z.eqb_eq in A, B. auto.
    + destruct Hc as [A B]. apply andb_true_iff. split; apply Z.eqb_eq; assumption.
  - intros i.
    assert (Hperm : In i (sort_Slice
                            (maybe_activate_less
                               (map (fun v => collect_status (PreviousEpoch epc)
                                                (CurrentEpoch epc) v zero_status)
                                  (Validators state)))
                            (select_indices (queued_to_maybe_activate (CurrentEpoch epc)) 0
                               (Validators state)))
                    <-> In i (select_indices (queued_to_maybe_activate (CurrentEpoch epc)) 0
                                (Validators state))).
    { split; apply Permutation_in; [|symmetry]; apply sort_Slice_perm. }
    rewrite Hperm, select_indices_In0. unfold queued_to_maybe_activate.
    split; intros (v & Hv & Hc); exists v; (split; [exact Hv|]).
    + apply andb_true_iff in Hc. destruct Hc as [A B].
      apply Z.eqb_eq in A. apply Z.leb_le in B. auto.
    + destruct Hc as [A B]. apply andb_true_iff.
      split; [apply Z.eqb_eq|apply Z.leb_le]; assumption.
  - intros i. rewrite select_indices_In0. unfold queued_to_eject.
    split; intros (v & Hv & Hc); exists v; (split; [exact Hv|]).
    + apply andb_true_iff in Hc. destruct Hc as [Hc C].
      apply andb_true_iff in Hc. destruct Hc as [A B].
      apply Z.eqb_eq in C. apply Z.leb_le in B. auto.
    + destruct Hc as (A & B & C). rewrite A. apply andb_true_iff.
      split; [apply Z.leb_le|apply Z.eqb_eq]; assumption.
  - apply select_indices_sorted.
  - apply select_indices_sorted.
  - apply select_indices_sorted.
  - eapply Permutation_NoDup; [symmetry; apply sort_Slice_perm|].
    apply select_indices_NoDup.
Qed.

Lemma queue_membership_witness :
  exists p,
    PrepareEpochProcess never_cancelled mainnet (epoch_ten [0])
      (quiet_state [active_validator; ejectable_validator] 0) = (Some p, None)
    /\ IndicesToEject p = [1]
    /\ forall i,
         In i (IndicesToEject p) <->
         exists v,
           registry_get (Validators (quiet_state [active_validator; ejectable_validator] 0)) i
           = Ok v
           /\ IsActive v 10 = true
           /\ EffectiveBalance v <= EJECTION_BALANCE mainnet
           /\ ExitEpoch v = FAR_FUTURE_EPOCH.
Proof.
  eexists. split; [vm_compute; reflexivity|]. split; [reflexivity|].
  eapply (queue_membership never_cancelled mainnet (epoch_ten [0])
            (quiet_state [active_validator; ejectable_validator] 0)).
  vm_compute. reflexivity.
Defined.

(** * The collector: what the totals add up *)

Lemma wrap64_idem (a : Z) : wrap64 (wrap64 a) = wrap64 a.
Proof. unfold wrap64. apply Z.mod_mod. unfold uint64_modulus. lia. Qed.

Lemma active_stake_fold (cur : Epoch) (vals : list FlatValidator) :
  forall s0,
    fold_left (fun acc v => if IsActive v cur then wrap64 (acc + EffectiveBalance v) else acc)
      vals (wrap64 s0)
    = wrap64 (s0 + balance_sum (filter (fun v => IsActive v cur) vals)).
Proof.
  induction vals as [|v rest IH]; intros s0; simpl.
  - rewrite Z.add_0_r. reflexivity.
  - destruct (IsActive v cur); simpl.
    + rewrite wrap64_add_l, IH. apply (f_equal wrap64). lia.
    + apply IH.
Qed.

Lemma add_stake_sums (statuses : list AttesterStatus) :
  forall out s t h c,
    SourceStake (PrevEpochUnslashedStake out) = wrap64 s ->
    TargetStake (PrevEpochUnslashedStake out) = wrap64 t ->
    HeadStake (PrevEpochUnslashedStake out) = wrap64 h ->
    CurrEpochUnslashedTargetStake out = wrap64 c ->
    let out' := fold_left add_stake statuses out in
    SourceStake (PrevEpochUnslashedStake out')
    = wrap64 (s + balance_sum (validators_with counts_as_source statuses))
    /\ TargetStake (PrevEpochUnslashedStake out')
       = wrap64 (t + balance_sum (validators_with counts_as_target statuses))
    /\ HeadStake (PrevEpochUnslashedStake out')
       = wrap64 (h + balance_sum (validators_with counts_as_head statuses))
    /\ CurrEpochUnslashedTargetStake out'
       = wrap64 (c + balance_sum (validators_with counts_as_current_target statuses)).
Proof.
  induction statuses as [|status rest IH]; intros out s t h c Hs Ht Hh Hc; cbn zeta.
  - unfold validators_with. simpl. rewrite !Z.add_0_r. auto.
  - cbn [fold_left].
    unfold validators_with, counts_as_head, counts_as_target, counts_as_source,
      counts_as_current_target in *. cbn [filter].
    set (b := EffectiveBalance (Validator status)).
    specialize (IH (add_stake out status)
                 (if HasMarkers (Flags status) (Z.lor PrevSourceAttester UnslashedAttester)
                  then s + b else s)
                 (if HasMarkers (Flags status) (Z.lor PrevSourceAttester UnslashedAttester)
                     && HasMarkers (Flags status) PrevTargetAttester
                  then t + b else t)
                 (if HasMarkers (Flags status) (Z.lor PrevSourceAttester UnslashedAttester)
                     && HasMarkers (Flags status) PrevTargetAttester
                     && HasMarkers (Flags status) PrevHeadAttester
                  then h + b else h)
                 (if HasMarkers (Flags status) (Z.lor CurrTargetAttester UnslashedAttester)
                  then c + b else c)).
    cbn zeta in IH.
    destruct (HasMarkers (Flags status) (Z.lor PrevSourceAttester UnslashedAttester)) eqn:F1;
    destruct (HasMarkers (Flags status) PrevTargetAttester) eqn:F2;
    destruct (HasMarkers (Flags status) PrevHeadAttester) eqn:F3;
    destruct (HasMarkers (Flags status) (Z.lor CurrTargetAttester UnslashedAttester)) eqn:F4;
    cbn [andb map balance_sum fold_right] in *; fold b;
    (destruct IH as (I1 & I2 & I3 & I4);
     [ unfold add_stake; rewrite ?F1, ?F2, ?F3, ?F4; cbn; rewrite ?Hs, ?wrap64_add_l; reflexivity
     | unfold add_stake; rewrite ?F1, ?F2, ?F3, ?F4; cbn; rewrite ?Ht, ?wrap64_add_l; reflexivity
     | unfold add_stake; rewrite ?F1, ?F2, ?F3, ?F4; cbn; rewrite ?Hh, ?wrap64_add_l; reflexivity
     | unfold add_stake; rewrite ?F1, ?F2, ?F3, ?F4; cbn; rewrite ?Hc, ?wrap64_add_l; reflexivity
     | rewrite I1, I2, I3, I4; unfold balance_sum; repeat split; apply (f_equal wrap64); lia ]).
Qed.

(** The attester stakes of a returned process, as sums. *)
Lemma prepare_attester_stakes ctx spec epc state p :
  PrepareEpochProcess ctx spec epc state = (Some p, None) ->
  let floor := EFFECTIVE_BALANCE_INCREMENT spec in
  SourceStake (PrevEpochUnslashedStake p)
  = at_least floor
      (wrap64 (balance_sum (validators_with counts_as_source (Statuses p))))
  /\ TargetStake (PrevEpochUnslashedStake p)
     = at_least floor
         (wrap64 (balance_sum (validators_with counts_as_target (Statuses p))))
  /\ HeadStake (PrevEpochUnslashedStake p)
     = at_least floor
         (wrap64 (balance_sum (validators_with counts_as_head (Statuses p))))
  /\ CurrEpochUnslashedTargetStake p
     = at_least floor
         (wrap64 (balance_sum (validators_with counts_as_current_target (Statuses p)))).
Proof.
  intros H floor. apply returned_Some in H.
  destruct (prepare_epoch_process_totals _ _ _ _ _ H)
    as (out3 & Hp & _ & _ & _ & T4 & T5 & _).
  destruct (clamp_stakes_fields spec (fold_left add_stake (Statuses p) out3))
    as (_ & _ & _ & _ & C2 & C3 & C4 & C5).
  rewrite <- Hp in C2, C3, C4, C5.
  destruct (add_stake_sums (Statuses p) out3 0 0 0 0) as (S1 & S2 & S3 & S4);
    try (rewrite T4; reflexivity); try (rewrite T5; reflexivity).
  rewrite !Z.add_0_l in S1, S2, S3, S4.
  rewrite C2, C3, C4, C5, S1, S2, S3, S4. repeat split.
Qed.

(** The total active stake of a returned process, as a sum. *)
Lemma prepare_active_stake ctx spec epc state p :
  PrepareEpochProcess ctx spec epc state = (Some p, None) ->
  TotalActiveStake p
  = at_least (EFFECTIVE_BALANCE_INCREMENT spec)
      (wrap64 (balance_sum (filter (fun v => IsActive v (CurrentEpoch epc))
                              (Validators state)))).
Proof.
  intros H. apply returned_Some in H.
  destruct (prepare_epoch_process_totals _ _ _ _ _ H)
    as (out3 & Hp & _ & _ & _ & _ & _ & T6).
  destruct (clamp_stakes_fields spec (fold_left add_stake (Statuses p) out3))
    as (_ & _ & _ & C1 & _).
  rewrite <- Hp in C1.
  destruct (fold_add_stake_fixed (Statuses p) out3) as (_ & _ & _ & F).
  rewrite C1, F, T6.
  change 0 with (wrap64 0) at 1. rewrite active_stake_fold, Z.add_0_l. reflexivity.
Qed.

(** X6: what the five totals of a returned process add up.  Each total is
    a sum of effective balances, reduced modulo [2^64] as the [uint64]
    additions reduce it, and raised to [EFFECTIVE_BALANCE_INCREMENT] when it
    is below: the total active stake sums the validators active in the
    current epoch; the source, target and head stakes of the previous epoch
    sum the statuses with the unslashed and previous-source flags, with the
    previous-target flag in addition, and with the previous-head flag in
    addition; the current target stake sums the statuses with the unslashed
    and current-target flags. *)
Theorem stake_totals ctx spec epc state p :
  PrepareEpochProcess ctx spec epc state = (Some p, None) ->
  let floor := EFFECTIVE_BALANCE_INCREMENT spec in
  TotalActiveStake p
  = at_least floor
      (wrap64 (balance_sum (filter (fun v => IsActive v (CurrentEpoch epc))
                              (Validators state))))
  /\ SourceStake (PrevEpochUnslashedStake p)
     = at_least floor
         (wrap64 (balance_sum (validators_with counts_as_source (Statuses p))))
  /\ TargetStake (PrevEpochUnslashedStake p)
     = at_least floor
         (wrap64 (balance_sum (validators_with counts_as_target (Statuses p))))
  /\ HeadStake (PrevEpochUnslashedStake p)
     = at_least floor
         (wrap64 (balance_sum (validators_with counts_as_head (Statuses p))))
  /\ CurrEpochUnslashedTargetStake p
     = at_least floor
         (wrap64 (balance_sum (validators_with counts_as_current_target (Statuses p)))).
Proof.
  intros H floor. apply returned_Some in H.
  destruct (prepare_epoch_process_totals _ _ _ _ _ H)
    as (out3 & Hp & _ & _ & _ & T4 & T5 & T6).
  destruct (clamp_stakes_fields spec (fold_left add_stake (Statuses p) out3))
    as (_ & _ & _ & C1 & C2 & C3 & C4 & C5).
  rewrite <- Hp in C1, C2, C3, C4, C5.
  destruct (fold_add_stake_fixed (Statuses p) out3) as (_ & _ & _ & F).
  destruct (add_stake_sums (Statuses p) out3 0 0 0 0) as (S1 & S2 & S3 & S4);
    try (rewrite T4; reflexivity); try (rewrite T5; reflexivity).
  rewrite !Z.add_0_l in S1, S2, S3, S4.
  rewrite C1, C2, C3, C4, C5, F, T6, S1, S2, S3, S4.
  change 0 with (wrap64 0) at 1. rewrite active_stake_fold, Z.add_0_l.
  repeat split.
Qed.

Lemma stake_totals_witness :
  exists p,
    PrepareEpochProcess never_cancelled mainnet (epoch_ten [0])
      (attested_state [active_validator] 0) = (Some p, None)
    /\ TotalActiveStake p = 32000000000
    /\ TotalActiveStake p
       = at_least (EFFECTIVE_BALANCE_INCREMENT mainnet)
           (wrap64 (balance_sum (filter (fun v => IsActive v 10)
                                   (Validators (attested_state [active_validator] 0))))).
Proof.
  eexists. split; [vm_compute; reflexivity|]. split; [reflexivity|].
  eapply (stake_totals never_cancelled mainnet (epoch_ten [0])
            (attested_state [active_validator] 0)).
  vm_compute. reflexivity.
Defined.

Lemma balance_sum_app (xs ys : list FlatValidator) :
  balance_sum (xs ++ ys) = balance_sum xs + balance_sum ys.
Proof. induction xs as [|x xs IH]; simpl; [reflexivity|]. rewrite IH. lia. Qed.

Lemma balance_sum_subset (c1 c2 : AttesterStatus -> bool) (statuses : list AttesterStatus) :
  Forall (fun status => 0 <= EffectiveBalance (Validator status)) statuses ->
  (forall status, c1 status = true -> c2 status = true) ->
  0 <= balance_sum (validators_with c1 statuses)
    <= balance_sum (validators_with c2 statuses).
Proof.
  intros Hpos Hsub. unfold validators_with.
  induction Hpos as [|status rest Hs _ IH]; simpl; [lia|].
  destruct (c1 status) eqn:E1.
  - rewrite (Hsub _ E1). simpl. lia.
  - destruct (c2 status); simpl; lia.
Qed.

Lemma validators_with_all (statuses : list AttesterStatus) :
  validators_with (fun _ => true) statuses = map Validator statuses.
Proof.
  unfold validators_with. f_equal. induction statuses as [|s rest IH]; simpl; congruence.
Qed.

Lemma at_least_mono (floor x y : Z) : x <= y -> at_least floor x <= at_least floor y.
Proof.
  unfold at_least. intros H.
  destruct (Z.ltb_spec x floor); destruct (Z.ltb_spec y floor); lia.
Qed.

(** X7: the previous-epoch stakes are nested.  When no effective balance is
    negative and the balances of the registry add up to less than [2^64],
    so that no total wraps around, the head stake of a returned process is
    at most its target stake and the target stake at most its source
    stake. *)
Theorem stakes_nested ctx spec epc state p :
  PrepareEpochProcess ctx spec epc state = (Some p, None) ->
  Forall (fun v => 0 <= EffectiveBalance v) (Validators state) ->
  balance_sum (Validators state) < uint64_modulus ->
  HeadStake (PrevEpochUnslashedStake p) <= TargetStake (PrevEpochUnslashedStake p)
  /\ TargetStake (PrevEpochUnslashedStake p) <= SourceStake (PrevEpochUnslashedStake p).
Proof.
  intros H Hpos Hsum.
  destruct (prepare_attester_stakes ctx spec epc state p H) as (S1 & S2 & S3 & _).
  pose proof H as H'. apply returned_Some in H'.
  pose proof (prepare_Validators _ _ _ _ _ H') as HV.
  assert (Hpos' : Forall (fun status => 0 <= EffectiveBalance (Validator status)) (Statuses p)).
  { rewrite <- HV in Hpos. rewrite Forall_map in Hpos. exact Hpos. }
  assert (Hall : forall c, 0 <= balance_sum (validators_with c (Statuses p)) < uint64_modulus).
  { intros c.
    pose proof (balance_sum_subset c (fun _ => true) (Statuses p) Hpos' (fun _ _ => eq_refl))
      as Hc.
    rewrite validators_with_all, HV in Hc. lia. }
  rewrite S1, S2, S3. rewrite !wrap64_small by apply Hall.
  split; apply at_least_mono; apply balance_sum_subset; try exact Hpos';
    unfold counts_as_head, counts_as_target; intros status Hs;
    apply andb_true_iff in Hs; tauto.
Qed.

Lemma stakes_nested_witness :
  exists p,
    PrepareEpochProcess never_cancelled mainnet (epoch_ten [0])
      (attested_state [active_validator] 0) = (Some p, None)
    /\ HeadStake (PrevEpochUnslashedStake p) <= TargetStake (PrevEpochUnslashedStake p)
    /\ TargetStake (PrevEpochUnslashedStake p) <= SourceStake (PrevEpochUnslashedStake p).
Proof.
  eexists. split; [vm_compute; reflexivity|].
  eapply (stakes_nested never_cancelled mainnet (epoch_ten [0])
            (attested_state [active_validator] 0)).
  - vm_compute. reflexivity.
  - repeat constructor. vm_compute. discriminate.
  - vm_compute. reflexivity.
Defined.

(** * The collector: when it returns a process *)


Section Pass2Total.
Variables (epc : EpochsContext) (state : BeaconStateView).
Variables (prevEpoch : Epoch) (pass : AttestationPass) (epoch : Epoch).
Variables (sf tf hf : AttesterFlag) (root : Root).





End Pass2Total.





(** * The registry updates of the epoch transition as a whole *)

Lemma process_eligibility_cons eligibilityEpoch index rest vals :
  process_eligibility eligibilityEpoch (index :: rest) vals
  = match registry_get vals index with
    | Err e => (vals, Err e)
    | Ok v =>
        match registry_set vals index (SetActivationEligibilityEpoch eligibilityEpoch) with
        | Err e => (vals, Err e)
        | Ok vals1 => process_eligibility eligibilityEpoch rest vals1
        end
    end.
Proof.
  cbn [process_eligibility].
  unfold and_then at 1. unfold get_validator at 1.
  destruct (registry_get vals index) as [v|e]; [|reflexivity].
  unfold and_then at 1. unfold set_validator at 1.
  destruct (registry_set vals index _) as [vals1|e]; reflexivity.
Qed.

Lemma process_eligibility_frame eligibilityEpoch (indices : list ValidatorIndex) :
  forall vals i,
    ~ In i indices ->
    registry_get (fst (process_eligibility eligibilityEpoch indices vals)) i
    = registry_get vals i.
Proof.
  induction indices as [|index rest IH]; intros vals i Hi.
  - reflexivity.
  - rewrite process_eligibility_cons.
    destruct (registry_get vals index) as [v|e] eqn:Hv; [|reflexivity].
    destruct (registry_set_in_range vals index
                (SetActivationEligibilityEpoch eligibilityEpoch) v Hv)
      as (pre & rest0 & -> & Hl & ->).
    rewrite IH by (intros H; apply Hi; right; exact H).
    apply registry_get_app_other. rewrite Hl. intros ->. apply Hi. left. reflexivity.
Qed.

Lemma process_activations_frame process finalizedEpoch activationEpoch
    (dequeued : list ValidatorIndex) :
  forall vals i,
    ~ In i dequeued ->
    registry_get (fst (process_activations process finalizedEpoch activationEpoch
                         dequeued vals)) i
    = registry_get vals i.
Proof.
  induction dequeued as [|index rest IH]; intros vals i Hi.
  - reflexivity.
  - rewrite process_activations_cons.
    destruct (index_at (Statuses process) index) as [status|e]; [|reflexivity].
    destruct (finalizedEpoch <? _); [reflexivity|].
    destruct (registry_get vals index) as [v|e] eqn:Hv; [|reflexivity].
    destruct (registry_set_in_range vals index (SetActivationEpoch activationEpoch) v Hv)
      as (pre & rest0 & -> & Hl & ->).
    rewrite IH by (intros H; apply Hi; right; exact H).
    apply registry_get_app_other. rewrite Hl. intros ->. apply Hi. left. reflexivity.
Qed.

Lemma churn_prefix_incl (process : EpochProcess) (i : ValidatorIndex) :
  In i (churn_prefix process) -> In i (IndicesToMaybeActivate process).
Proof.
  unfold churn_prefix. destruct (_ <? _); [|auto].
  intros H. rewrite <- (firstn_skipn (Z.to_nat (ChurnLimit process))).
  apply in_or_app. left. exact H.
Qed.

Section KeepsEjections.
Context {B : Type} (g : FlatValidator -> B).
Hypothesis g_exit : forall e v, g (SetExitEpoch e v) = g v.
Hypothesis g_withdrawable : forall e v, g (SetWithdrawableEpoch e v) = g v.

Lemma keeps_process_ejections spec churnLimit (indices : list ValidatorIndex) :
  forall exitEnd endChurn,
    keeps g (process_ejections spec churnLimit indices exitEnd endChurn).
Proof.
  induction indices as [|index rest IH]; intros exitEnd endChurn; cbn [process_ejections].
  - apply keeps_done.
  - apply keeps_and_then; [apply keeps_get_validator|]. intros v.
    apply keeps_and_then; [apply keeps_set_validator; apply g_exit|]. intros u.
    apply keeps_and_then; [apply keeps_set_validator; apply g_withdrawable|]. intros w.
    destruct (_ >=? _); apply IH.
Qed.
End KeepsEjections.

(** What the three passes keep of every validator, whatever they are
    handed and whether they fail or not. *)
Lemma registry_updates_keep {B : Type} (g : FlatValidator -> B) ctx spec epc process state :
  (forall e v, g (SetExitEpoch e v) = g v) ->
  (forall e v, g (SetWithdrawableEpoch e v) = g v) ->
  (forall e v, g (SetActivationEligibilityEpoch e v) = g v) ->
  (forall e v, g (SetActivationEpoch e v) = g v) ->
  map g (fst (ProcessEpochRegistryUpdates ctx spec epc process state))
  = map g (Validators state).
Proof.
  intros G1 G2 G3 G4. unfold ProcessEpochRegistryUpdates.
  destruct (poll ctx PollRegistryUpdates); [|reflexivity].
  apply (keeps_and_then g); [apply keeps_process_ejections; assumption|]. intros u.
  apply (keeps_and_then g); [apply keeps_process_eligibility; assumption|]. intros w.
  apply keeps_process_activations. assumption.
Qed.

(** X9: the registry updates touch only what they are about.  Whatever
    process and state [ProcessEpochRegistryUpdates] is handed, and whether
    it returns an error or not, the registry it leaves has the validators
    it had, each with its effective balance and its slashed mark; a
    validator whose index is in none of the ejection, eligibility and
    activation queues of the process is left as it was. *)
Theorem registry_updates_frame ctx spec epc process state :
  let vals' := fst (ProcessEpochRegistryUpdates ctx spec epc process state) in
  map (fun v => (EffectiveBalance v, Slashed v)) vals'
  = map (fun v => (EffectiveBalance v, Slashed v)) (Validators state)
  /\ len vals' = len (Validators state)
  /\ forall i,
       ~ In i (IndicesToEject process) ->
       ~ In i (IndicesToSetActivationEligibility process) ->
       ~ In i (IndicesToMaybeActivate process) ->
       registry_get vals' i = registry_get (Validators state) i.
Proof.
  cbn zeta.
  assert (Hkeep : map (fun v => (EffectiveBalance v, Slashed v))
                    (fst (ProcessEpochRegistryUpdates ctx spec epc process state))
                  = map (fun v => (EffectiveBalance v, Slashed v)) (Validators state))
    by (apply registry_updates_keep; reflexivity).
  split; [exact Hkeep|]. split.
  { apply (f_equal (@length _)) in Hkeep. rewrite !length_map in Hkeep.
    unfold len. congruence. }
  intros i H1 H2 H3. unfold ProcessEpochRegistryUpdates.
  destruct (poll ctx PollRegistryUpdates); [|reflexivity].
  unfold and_then at 1.
  pose proof (process_ejections_frame spec (ChurnLimit process) (IndicesToEject process)
                (ExitQueueEnd process) (ExitQueueEndChurn process) (Validators state) i H1)
    as F1.
  destruct (process_ejections _ _ _ _ _ _) as [vals1 [u1|e1]]; [|exact F1].
  cbn [fst] in F1. rewrite <- F1. unfold and_then at 1.
  pose proof (process_eligibility_frame (wrap64 (CurrentEpoch epc + 1))
                (IndicesToSetActivationEligibility process) vals1 i H2) as F2.
  destruct (process_eligibility _ _ _) as [vals2 [u2|e2]]; [|exact F2].
  cbn [fst] in F2. rewrite <- F2.
  apply process_activations_frame. intros H. apply H3, churn_prefix_incl, H.
Qed.

Lemma registry_write (vals : ValidatorsRegistryView) (index : ValidatorIndex)
    (f : FlatValidator -> FlatValidator) :
  0 <= index < len vals ->
  exists v vals1,
    registry_get vals index = Ok v
    /\ registry_set vals index f = Ok vals1
    /\ len vals1 = len vals
    /\ registry_get vals1 index = Ok (f v).
Proof.
  intros Hi. destruct (registry_get_in_range vals index Hi) as [v Hv].
  destruct (registry_set_in_range vals index f v Hv) as (pre & rest & E & Hl & Hs).
  exists v, (pre ++ f v :: rest). split; [exact Hv|]. split; [exact Hs|].
  split; [rewrite E; apply len_set|]. rewrite <- Hl. apply registry_get_app.
Qed.

Lemma process_ejections_total spec churnLimit (indices : list ValidatorIndex) :
  forall exitEnd endChurn vals,
    (forall i, In i indices -> 0 <= i < len vals) ->
    exists vals',
      process_ejections spec churnLimit indices exitEnd endChurn vals = (vals', Ok tt)
      /\ len vals' = len vals.
Proof.
  induction indices as [|index rest IH]; intros exitEnd endChurn vals Hr.
  - exists vals. split; reflexivity.
  - rewrite process_ejections_cons.
    destruct (registry_write vals index (SetExitEpoch exitEnd))
      as (v & vals1 & Hv & Hs1 & Hl1 & _); [apply Hr; left; reflexivity|].
    rewrite Hv, Hs1.
    destruct (registry_write vals1 index
                (SetWithdrawableEpoch
                   (wrap64 (exitEnd + MIN_VALIDATOR_WITHDRAWABILITY_DELAY spec))))
      as (v1 & vals2 & _ & Hs2 & Hl2 & _); [rewrite Hl1; apply Hr; left; reflexivity|].
    rewrite Hs2.
    assert (Hr2 : forall i, In i rest -> 0 <= i < len vals2)
      by (intros i Hi; rewrite Hl2, Hl1; apply Hr; right; exact Hi).
    destruct (_ >=? _);
      [destruct (IH (wrap64 (exitEnd + 1)) 0 vals2 Hr2) as (vals' & H' & Hl')
      |destruct (IH exitEnd (wrap64 (endChurn + 1)) vals2 Hr2) as (vals' & H' & Hl')];
      exists vals'; (split; [exact H'|congruence]).
Qed.

Lemma process_eligibility_total eligibilityEpoch (indices : list ValidatorIndex) :
  forall vals,
    (forall i, In i indices -> 0 <= i < len vals) ->
    exists vals',
      process_eligibility eligibilityEpoch indices vals = (vals', Ok tt)
      /\ len vals' = len vals
      /\ forall i, In i indices ->
           exists v', registry_get vals' i = Ok v'
                      /\ ActivationEligibilityEpoch v' = eligibilityEpoch.
Proof.
  induction indices as [|index rest IH]; intros vals Hr.
  - exists vals. repeat split. intros i [].
  - rewrite process_eligibility_cons.
    destruct (registry_write vals index (SetActivationEligibilityEpoch eligibilityEpoch))
      as (v & vals1 & Hv & Hs1 & Hl1 & Hg1); [apply Hr; left; reflexivity|].
    rewrite Hv, Hs1.
    destruct (IH vals1) as (vals' & H' & Hl' & Hall).
    { intros i Hi. rewrite Hl1. apply Hr. right. exact Hi. }
    exists vals'. split; [exact H'|]. split; [congruence|].
    intros i [<-|Hi]; [|apply Hall; exact Hi].
    destruct (in_dec Z.eq_dec index rest) as [Hin|Hn]; [apply Hall; exact Hin|].
    pose proof (process_eligibility_frame eligibilityEpoch rest vals1 index Hn) as F.
    rewrite H' in F. cbn [fst] in F. rewrite F, Hg1. eexists. split; reflexivity.
Qed.

Lemma process_activations_total process finalizedEpoch activationEpoch
    (dequeued : list ValidatorIndex) :
  forall vals,
    (forall i, In i dequeued -> 0 <= i < len vals /\ 0 <= i < len (Statuses process)) ->
    exists vals',
      process_activations process finalizedEpoch activationEpoch dequeued vals
      = (vals', Ok tt)
      /\ len vals' = len vals.
Proof.
  induction dequeued as [|index rest IH]; intros vals Hr.
  - exists vals. split; reflexivity.
  - rewrite process_activations_cons.
    destruct (Hr index (or_introl eq_refl)) as [Hv Hs].
    assert (exists status, index_at (Statuses process) index = Ok status) as [status ->].
    { unfold index_at. destruct (Z.ltb_spec index 0); [lia|].
      destruct (nth_error (Statuses process) (Z.to_nat index)) eqn:E; [eauto|].
      apply nth_error_None in E. unfold len in Hs. lia. }
    destruct (finalizedEpoch <? _); [exists vals; split; reflexivity|].
    destruct (registry_write vals index (SetActivationEpoch activationEpoch))
      as (v & vals1 & Hg & Hs1 & Hl1 & _); [exact Hv|].
    rewrite Hg, Hs1.
    destruct (IH vals1) as (vals' & H' & Hl').
    { intros i Hi. rewrite Hl1. apply Hr. right. exact Hi. }
    exists vals'. split; [exact H'|congruence].
Qed.

(** The queues of a returned process hold indices of the registry. *)
Lemma prepare_queues_in_range ctx spec epc state p :
  prepare_epoch_process ctx spec epc state = Ok p ->
  len (Statuses p) = len (Validators state)
  /\ (forall i, In i (IndicesToEject p) -> 0 <= i < len (Validators state))
  /\ (forall i, In i (IndicesToSetActivationEligibility p) ->
                0 <= i < len (Validators state))
  /\ (forall i, In i (IndicesToMaybeActivate p) -> 0 <= i < len (Validators state)).
Proof.
  intros H.
  pose proof (prepare_Validators _ _ _ _ _ H) as HV.
  destruct (prepare_epoch_process_Ok _ _ _ _ _ H)
    as (limit & s2 & s3 & out3 & _ & _ & _ & _ & _ & _ & Q2 & Q3 & Q4 & _).
  split; [unfold len; rewrite <- HV, length_map; reflexivity|].
  rewrite Q2, Q3, Q4.
  split; [|split]; intros i Hi.
  - apply select_indices_bounds in Hi. lia.
  - apply select_indices_bounds in Hi. lia.
  - eapply Permutation_in in Hi; [|apply sort_Slice_perm].
    apply select_indices_bounds in Hi. lia.
Qed.

(** The run of the three passes on the state a process was prepared
    from. *)
Lemma registry_updates_run ctx spec epc epc' state p :
  prepare_epoch_process ctx spec epc state = Ok p ->
  exists vals1 vals2 vals3,
    process_ejections spec (ChurnLimit p) (IndicesToEject p)
      (ExitQueueEnd p) (ExitQueueEndChurn p) (Validators state) = (vals1, Ok tt)
    /\ process_eligibility (wrap64 (CurrentEpoch epc' + 1))
         (IndicesToSetActivationEligibility p) vals1 = (vals2, Ok tt)
    /\ process_activations p (cp_Epoch (FinalizedCheckpoint state))
         (ComputeActivationExitEpoch spec (CurrentEpoch epc')) (churn_prefix p) vals2
       = (vals3, Ok tt)
    /\ len vals1 = len (Validators state) /\ len vals2 = len (Validators state)
    /\ len vals3 = len (Validators state)
    /\ (forall i, In i (IndicesToSetActivationEligibility p) ->
          exists v', registry_get vals2 i = Ok v'
                     /\ ActivationEligibilityEpoch v' = wrap64 (CurrentEpoch epc' + 1))
    /\ forall ctx',
         ctx' PollRegistryUpdates = false ->
         ProcessEpochRegistryUpdates ctx' spec epc' p state = (vals3, Ok tt).
Proof.
  intros H. destruct (prepare_queues_in_range _ _ _ _ _ H) as (LS & R1 & R2 & R3).
  destruct (process_ejections_total spec (ChurnLimit p) (IndicesToEject p)
              (ExitQueueEnd p) (ExitQueueEndChurn p) (Validators state) R1)
    as (vals1 & H1 & L1).
  destruct (process_eligibility_total (wrap64 (CurrentEpoch epc' + 1))
              (IndicesToSetActivationEligibility p) vals1) as (vals2 & H2 & L2 & Hall).
  { intros i Hi. rewrite L1. apply R2. exact Hi. }
  destruct (process_activations_total p (cp_Epoch (FinalizedCheckpoint state))
              (ComputeActivationExitEpoch spec (CurrentEpoch epc')) (churn_prefix p) vals2)
    as (vals3 & H3 & L3).
  { intros i Hi. apply churn_prefix_incl in Hi. rewrite L2, L1, LS. split; apply R3; exact Hi. }
  exists vals1, vals2, vals3.
  split; [exact H1|]. split; [exact H2|]. split; [exact H3|].
  split; [exact L1|]. split; [congruence|]. split; [congruence|]. split; [exact Hall|].
  intros ctx' Hc. unfold ProcessEpochRegistryUpdates, poll. rewrite Hc.
  unfold and_then. rewrite H1, H2. exact H3.
Qed.

(** X10: the registry updates do not fail on a prepared process.  On the
    state that [PrepareEpochProcess] returned the process for, and with any
    epochs context, [ProcessEpochRegistryUpdates] returns no error unless
    the context is cancelled when it is entered: every index of the three
    queues is an index of the registry and of the statuses.  Cancelled at
    entry, it returns [TransitionCancelErr] and leaves the registry as it
    was. *)
Theorem registry_updates_complete ctx spec epc state p :
  PrepareEpochProcess ctx spec epc state = (Some p, None) ->
  forall ctx' epc',
    (ctx' PollRegistryUpdates = false ->
     exists vals',
       ProcessEpochRegistryUpdates ctx' spec epc' p state = (vals', Ok tt)
       /\ len vals' = len (Validators state))
    /\ (ctx' PollRegistryUpdates = true ->
        ProcessEpochRegistryUpdates ctx' spec epc' p state
        = (Validators state, Err TransitionCancelErr)).
Proof.
  intros H ctx' epc'. apply returned_Some in H. split.
  - intros Hc.
    destruct (registry_updates_run ctx spec epc epc' state p H)
      as (vals1 & vals2 & vals3 & _ & _ & _ & _ & _ & L3 & _ & Hrun).
    exists vals3. split; [apply Hrun; exact Hc|exact L3].
  - intros Hc. unfold ProcessEpochRegistryUpdates, poll. rewrite Hc. reflexivity.
Qed.

Lemma registry_updates_complete_witness :
  exists p vals',
    PrepareEpochProcess never_cancelled mainnet (epoch_ten [0])
      (quiet_state [active_validator; ejectable_validator] 0) = (Some p, None)
    /\ ProcessEpochRegistryUpdates never_cancelled mainnet (epoch_ten [0]) p
         (quiet_state [active_validator; ejectable_validator] 0) = (vals', Ok tt)
    /\ len vals' = len (Validators (quiet_state [active_validator; ejectable_validator] 0)).
Proof.
  eexists.
  destruct (registry_updates_complete never_cancelled mainnet (epoch_ten [0])
              (quiet_state [active_validator; ejectable_validator] 0) _
              ltac:(vm_compute; reflexivity) never_cancelled (epoch_ten [0]))
    as [Hrun _].
  destruct (Hrun eq_refl) as (vals' & Hv & Hl).
  exists vals'. split; [vm_compute; reflexivity|]. split; [exact Hv|exact Hl].
Defined.

(** X11: the eligibility pass, seen from the whole update.  When
    [ProcessEpochRegistryUpdates] runs, not cancelled, on the state and the
    epochs context the process was prepared from, and the current epoch is
    not the far-future epoch: a validator that had no eligibility epoch and
    held the maximum effective balance leaves with the eligibility epoch
    [current_epoch + 1] and with the activation epoch it had -- it is not
    activated by the same run; every other validator keeps its eligibility
    epoch. *)
Theorem eligibility_pass ctx spec epc state p ctx' i v :
  PrepareEpochProcess ctx spec epc state = (Some p, None) ->
  ctx' PollRegistryUpdates = false ->
  CurrentEpoch epc < FAR_FUTURE_EPOCH ->
  registry_get (Validators state) i = Ok v ->
  exists v',
    registry_get (fst (ProcessEpochRegistryUpdates ctx' spec epc p state)) i = Ok v'
    /\ (ActivationEligibilityEpoch v = FAR_FUTURE_EPOCH
        /\ EffectiveBalance v = MAX_EFFECTIVE_BALANCE spec ->
        ActivationEligibilityEpoch v' = wrap64 (CurrentEpoch epc + 1)
        /\ ActivationEpoch v' = ActivationEpoch v)
    /\ (~ (ActivationEligibilityEpoch v = FAR_FUTURE_EPOCH
           /\ EffectiveBalance v = MAX_EFFECTIVE_BALANCE spec) ->
        ActivationEligibilityEpoch v' = ActivationEligibilityEpoch v).
Proof.
  intros H Hc Hcur Hv. apply returned_Some in H.
  destruct (registry_updates_run ctx spec epc epc state p H)
    as (vals1 & vals2 & vals3 & H1 & H2 & H3 & L1 & L2 & L3 & Hall & Hrun).
  rewrite (Hrun ctx' Hc). cbn [fst].
  destruct (prepare_epoch_process_Ok _ _ _ _ _ H)
    as (limit & s2 & s3 & out3 & _ & _ & _ & _ & _ & _ & Q2 & Q3 & _).
  assert (Hq2 : In i (IndicesToSetActivationEligibility p)
                <-> ActivationEligibilityEpoch v = FAR_FUTURE_EPOCH
                    /\ EffectiveBalance v = MAX_EFFECTIVE_BALANCE spec).
  { rewrite Q2, select_indices_In0. unfold queued_to_set_eligibility. split.
    - intros (w & Hw & Hcw). rewrite Hv in Hw. inversion Hw; subst w.
      apply andb_true_iff in Hcw. destruct Hcw as [A B]. apply Z.eqb_eq in A, B. auto.
    - intros [A B]. exists v. split; [exact Hv|].
      apply andb_true_iff. split; apply Z.eqb_eq; assumption. }
  (* what the passes keep *)
  pose proof (keeps_process_ejections
                (fun w => (ActivationEligibilityEpoch w, ActivationEpoch w))
                (fun _ _ => eq_refl) (fun _ _ => eq_refl)
                spec (ChurnLimit p) (IndicesToEject p) (ExitQueueEnd p)
                (ExitQueueEndChurn p) (Validators state)) as K1.
  rewrite H1 in K1. cbn [fst] in K1.
  destruct (registry_get_keeps _ _ _ i v K1 Hv) as (w1 & Hw1 & G1).
  injection G1 as G1e G1a.
  pose proof (keeps_process_eligibility ActivationEpoch (wrap64 (CurrentEpoch epc + 1))
                (IndicesToSetActivationEligibility p) (fun _ _ => eq_refl) vals1) as K2.
  rewrite H2 in K2. cbn [fst] in K2.
  destruct (registry_get_keeps _ _ _ i w1 K2 Hw1) as (w2 & Hw2 & G2).
  pose proof (keeps_process_activations ActivationEligibilityEpoch p
                (cp_Epoch (FinalizedCheckpoint state))
                (ComputeActivationExitEpoch spec (CurrentEpoch epc)) (churn_prefix p)
                (fun _ _ => eq_refl) vals2) as K3.
  rewrite H3 in K3. cbn [fst] in K3.
  destruct (registry_get_keeps _ _ _ i w2 K3 Hw2) as (w3 & Hw3 & G3).
  exists w3. split; [exact Hw3|]. split.
  - intros Hq. pose proof Hq as [Hfar _]. apply (proj2 Hq2) in Hq.
    destruct (Hall i Hq) as (w2' & Hw2' & He2). rewrite Hw2 in Hw2'.
    inversion Hw2'; subst w2'. split; [congruence|].
    assert (Hn : ~ In i (churn_prefix p)).
    { intros Hin. apply churn_prefix_incl in Hin. rewrite Q3 in Hin.
      eapply Permutation_in in Hin; [|apply sort_Slice_perm].
      apply select_indices_In0 in Hin. destruct Hin as (w & Hw & Hcw).
      rewrite Hv in Hw. inversion Hw; subst w. unfold queued_to_maybe_activate in Hcw.
      apply andb_true_iff in Hcw. destruct Hcw as [_ B]. apply Z.leb_le in B. lia. }
    pose proof (process_activations_frame p (cp_Epoch (FinalizedCheckpoint state))
                  (ComputeActivationExitEpoch spec (CurrentEpoch epc)) (churn_prefix p)
                  vals2 i Hn) as F3.
    rewrite H3 in F3. cbn [fst] in F3. rewrite Hw3, Hw2 in F3. inversion F3. congruence.
  - intros Hq. assert (Hq' : ~ In i (IndicesToSetActivationEligibility p))
      by (intros Hin; apply Hq, Hq2, Hin). clear Hq. rename Hq' into Hq.
    pose proof (process_eligibility_frame (wrap64 (CurrentEpoch epc + 1))
                  (IndicesToSetActivationEligibility p) vals1 i Hq) as F2.
    rewrite H2 in F2. cbn [fst] in F2. rewrite Hw2, Hw1 in F2. inversion F2. congruence.
Qed.

Lemma eligibility_pass_witness :
  exists v',
    registry_get
      (fst (ProcessEpochRegistryUpdates never_cancelled mainnet (epoch_ten [0])
              (match fst (PrepareEpochProcess never_cancelled mainnet (epoch_ten [0])
                            (quiet_state [validator 32000000000 false FAR_FUTURE_EPOCH
                                            FAR_FUTURE_EPOCH FAR_FUTURE_EPOCH
                                            FAR_FUTURE_EPOCH] 0)) with
               | Some p => p
               | None => new_EpochProcess 0 0 0
               end)
              (quiet_state [validator 32000000000 false FAR_FUTURE_EPOCH FAR_FUTURE_EPOCH
                              FAR_FUTURE_EPOCH FAR_FUTURE_EPOCH] 0))) 0 = Ok v'
    /\ ActivationEligibilityEpoch v' = 11
    /\ ActivationEpoch v' = FAR_FUTURE_EPOCH.
Proof.
  destruct (eligibility_pass never_cancelled mainnet (epoch_ten [0])
              (quiet_state [validator 32000000000 false FAR_FUTURE_EPOCH FAR_FUTURE_EPOCH
                              FAR_FUTURE_EPOCH FAR_FUTURE_EPOCH] 0)
              (match fst (PrepareEpochProcess never_cancelled mainnet (epoch_ten [0])
                            (quiet_state [validator 32000000000 false FAR_FUTURE_EPOCH
                                            FAR_FUTURE_EPOCH FAR_FUTURE_EPOCH
                                            FAR_FUTURE_EPOCH] 0)) with
               | Some p => p
               | None => new_EpochProcess 0 0 0
               end)
              never_cancelled 0
              (validator 32000000000 false FAR_FUTURE_EPOCH FAR_FUTURE_EPOCH
                 FAR_FUTURE_EPOCH FAR_FUTURE_EPOCH))
    as (v' & Hv' & Hq & _).
  - vm_compute. reflexivity.
  - reflexivity.
  - vm_compute. reflexivity.
  - vm_compute. reflexivity.
  - exists v'. split; [exact Hv'|].
    destruct Hq as [A B]; [split; reflexivity|]. split; [exact A|exact B].
Defined.

(** * Initiating an exit *)

(** The scan for the end of the exit queue, from any cursor. *)
Lemma scan_exit_queue_spec (vals : list FlatValidator) :
  forall q0 c0 q c,
    scan_exit_queue vals q0 c0 = (q, c) ->
    q0 <= q
    /\ (forall w, In w vals -> ExitEpoch w <> FAR_FUTURE_EPOCH -> ExitEpoch w <= q)
    /\ (q = q0 \/ (q0 < q /\ exists w, In w vals /\ ExitEpoch w = q /\ q <> FAR_FUTURE_EPOCH))
    /\ c = (if q =? q0 then c0 else 0)
           + len (filter (fun w => (ExitEpoch w =? q)
                                   && negb (ExitEpoch w =? FAR_FUTURE_EPOCH)) vals).
Proof.
  induction vals as [|val rest IH]; intros q0 c0 q c H; cbn [scan_exit_queue] in H.
  - inversion H; subst. rewrite Z.eqb_refl. unfold len. simpl.
    split; [lia|]. split; [intros w []|]. split; [left; reflexivity|lia].
  - cbn [filter].
    destruct (Z.eqb_spec (ExitEpoch val) FAR_FUTURE_EPOCH) as [Efar|Hfar].
    { destruct (IH _ _ _ _ H) as (A & B & C & D).
      rewrite andb_false_r. split; [exact A|]. split.
      - intros w [<-|Hw] Hn; [contradiction|]. apply B; assumption.
      - split; [|exact D]. destruct C as [C|(C1 & w & Hw & C2)]; [left; exact C|].
        right. split; [exact C1|]. exists w. split; [right; exact Hw|exact C2]. }
    destruct (Z.eqb_spec (ExitEpoch val) q0) as [Eq|Hq].
    { destruct (IH _ _ _ _ H) as (A & B & C & D).
      split; [exact A|]. split.
      - intros w [<-|Hw] Hn; [lia|]. apply B; assumption.
      - split.
        + destruct C as [C|(C1 & w & Hw & C2)]; [left; exact C|].
          right. split; [exact C1|]. exists w. split; [right; exact Hw|exact C2].
        + rewrite D. cbn [negb andb].
          destruct (Z.eqb_spec q q0) as [->|Hne].
          * rewrite Eq, Z.eqb_refl. cbn [andb]. unfold len. simpl length. lia.
          * destruct (Z.eqb_spec (ExitEpoch val) q); [congruence|]. reflexivity. }
    destruct (Z.ltb_spec q0 (ExitEpoch val)) as [Hlt|Hge].
    { destruct (IH _ _ _ _ H) as (A & B & C & D).
      split; [lia|]. split.
      - intros w [<-|Hw] Hn; [lia|]. apply B; assumption.
      - split.
        + right. split; [lia|].
          destruct C as [C|(C1 & w & Hw & C2)].
          * exists val. split; [left; reflexivity|]. split; congruence.
          * exists w. split; [right; exact Hw|exact C2].
        + rewrite D. cbn [negb andb].
          destruct (Z.eqb_spec q q0); [lia|].
          destruct (Z.eqb_spec q (ExitEpoch val)) as [->|Hne].
          * rewrite Z.eqb_refl. cbn [andb]. unfold len. simpl length. lia.
          * destruct (Z.eqb_spec (ExitEpoch val) q); [congruence|]. reflexivity. }
    destruct (IH _ _ _ _ H) as (A & B & C & D).
    split; [exact A|]. split.
    + intros w [<-|Hw] Hn; [lia|]. apply B; assumption.
    + split.
      * destruct C as [C|(C1 & w & Hw & C2)]; [left; exact C|].
        right. split; [exact C1|]. exists w. split; [right; exact Hw|exact C2].
      * rewrite D. destruct (Z.eqb_spec (ExitEpoch val) q); [lia|]. reflexivity.
Qed.

Lemma scheduled_exits_at_set (q : Epoch) (vals : list FlatValidator) :
  q <> FAR_FUTURE_EPOCH -> scheduled_exits_at q vals = exits_at q vals.
Proof.
  intros Hq. unfold exits_at, scheduled_exits_at. f_equal. apply filter_ext. intros w.
  destruct (Z.eqb_spec (ExitEpoch w) q) as [E|_]; [|reflexivity].
  destruct (Z.eqb_spec (ExitEpoch w) FAR_FUTURE_EPOCH); [congruence|reflexivity].
Qed.

(** The run of [InitiateValidatorExit] on a validator without an exit
    epoch. *)
Lemma InitiateValidatorExit_unset spec epc (index : ValidatorIndex)
    (vals : ValidatorsRegistryView) (v : FlatValidator) :
  registry_get vals index = Ok v ->
  ExitEpoch v = FAR_FUTURE_EPOCH ->
  CHURN_LIMIT_QUOTIENT spec <> 0 ->
  exists pre rest q c limit,
    vals = pre ++ v :: rest /\ len pre = index
    /\ scan_exit_queue vals (ComputeActivationExitEpoch spec (CurrentEpoch epc)) 0 = (q, c)
    /\ GetChurnLimit spec (len (CurrentActiveIndices epc)) = Ok limit
    /\ InitiateValidatorExit spec epc index vals
       = (pre ++ SetWithdrawableEpoch
                   (wrap64 ((if c >=? limit then wrap64 (q + 1) else q)
                            + MIN_VALIDATOR_WITHDRAWABILITY_DELAY spec))
                   (SetExitEpoch (if c >=? limit then wrap64 (q + 1) else q) v) :: rest,
          Ok tt).
Proof.
  intros Hv Hfar Hq.
  destruct (scan_exit_queue vals (ComputeActivationExitEpoch spec (CurrentEpoch epc)) 0)
    as [q c] eqn:Hscan.
  assert (HL : GetChurnLimit spec (len (CurrentActiveIndices epc))
               = Ok (MaxU64 (MIN_PER_EPOCH_CHURN_LIMIT spec)
                       (len (CurrentActiveIndices epc) / CHURN_LIMIT_QUOTIENT spec))).
  { unfold GetChurnLimit. destruct (Z.eqb_spec (CHURN_LIMIT_QUOTIENT spec) 0);
      [contradiction|reflexivity]. }
  set (limit := MaxU64 (MIN_PER_EPOCH_CHURN_LIMIT spec)
                  (len (CurrentActiveIndices epc) / CHURN_LIMIT_QUOTIENT spec)) in *.
  assert (Hrun : forall e : Epoch,
            exists pre rest,
              vals = pre ++ v :: rest /\ len pre = index
              /\ and_then (set_validator index (SetExitEpoch e))
                   (fun _ => set_validator index
                               (SetWithdrawableEpoch
                                  (wrap64 (e + MIN_VALIDATOR_WITHDRAWABILITY_DELAY spec))))
                   vals
                 = (pre ++ SetWithdrawableEpoch
                             (wrap64 (e + MIN_VALIDATOR_WITHDRAWABILITY_DELAY spec))
                             (SetExitEpoch e v) :: rest, Ok tt)).
  { intros e. destruct (eject_writes spec e vals index v Hv)
      as (pre & rest & E & Hl & W1 & W2).
    exists pre, rest. split; [exact E|]. split; [exact Hl|].
    unfold and_then, set_validator. rewrite W1, W2. reflexivity. }
  destruct (Hrun (if c >=? limit then wrap64 (q + 1) else q)) as (pre & rest & E & Hl & Hr).
  exists pre, rest, q, c, limit.
  split; [exact E|]. split; [exact Hl|]. split; [reflexivity|]. split; [exact HL|].
  unfold InitiateValidatorExit, and_then at 1, get_validator. rewrite Hv, Hfar.
  rewrite Z.eqb_refl. cbn [negb]. rewrite Hscan, HL. cbv beta iota zeta.
  exact Hr.
Qed.

(** X12: what [InitiateValidatorExit] writes.  For a validator of the
    registry without an exit epoch, and a churn limit quotient that is not
    zero, the call returns no error.  With [q] the end of the exit queue --
    the latest exit epoch scheduled in the registry, or
    [ComputeActivationExitEpoch(current_epoch)] when that is later -- the
    validator gets the exit epoch [q], or [q + 1] when the validators
    already scheduled at [q] are as many as the churn limit or more, and
    the withdrawable epoch [MIN_VALIDATOR_WITHDRAWABILITY_DELAY] later; the
    churn limit is computed from the number of active indices of the
    context.  Nothing else of the registry changes. *)
Theorem initiate_exit_schedules spec epc (index : ValidatorIndex)
    (vals : ValidatorsRegistryView) (v : FlatValidator) :
  registry_get vals index = Ok v ->
  ExitEpoch v = FAR_FUTURE_EPOCH ->
  CHURN_LIMIT_QUOTIENT spec <> 0 ->
  exists vals' q limit,
    InitiateValidatorExit spec epc index vals = (vals', Ok tt)
    /\ GetChurnLimit spec (len (CurrentActiveIndices epc)) = Ok limit
    /\ exit_queue_end (ComputeActivationExitEpoch spec (CurrentEpoch epc)) vals q
    /\ (let e := if scheduled_exits_at q vals >=? limit then wrap64 (q + 1) else q in
        registry_get vals' index
        = Ok (SetWithdrawableEpoch
                (wrap64 (e + MIN_VALIDATOR_WITHDRAWABILITY_DELAY spec))
                (SetExitEpoch e v)))
    /\ len vals' = len vals
    /\ forall i, i <> index -> registry_get vals' i = registry_get vals i.
Proof.
  intros Hv Hfar Hq.
  destruct (InitiateValidatorExit_unset spec epc index vals v Hv Hfar Hq)
    as (pre & rest & q & c & limit & E & Hl & Hscan & HL & Hrun).
  destruct (scan_exit_queue_spec _ _ _ _ _ Hscan) as (A & B & C & D).
  assert (Hc : c = scheduled_exits_at q vals).
  { rewrite D. unfold scheduled_exits_at. destruct (q =? _); lia. }
  eexists. exists q, limit. split; [exact Hrun|]. split; [exact HL|]. split.
  { split; [exact A|]. split; [exact B|].
    destruct C as [C|(_ & C)]; [left; exact C|right; exact C]. }
  rewrite <- Hc. cbv zeta. split.
  { rewrite <- Hl. apply registry_get_app. }
  split.
  { rewrite E. apply len_set. }
  intros i Hi. rewrite E. apply registry_get_app_other. congruence.
Qed.

Lemma initiate_exit_schedules_witness :
  exists vals' q limit,
    InitiateValidatorExit mainnet (epoch_ten [0; 1; 2; 3; 4; 5; 6; 7; 8]) 8 full_exit_queue
    = (vals', Ok tt)
    /\ GetChurnLimit mainnet (len (CurrentActiveIndices (epoch_ten [0; 1; 2; 3; 4; 5; 6; 7; 8])))
       = Ok limit
    /\ exit_queue_end (ComputeActivationExitEpoch mainnet 10) full_exit_queue q
    /\ (let e := if scheduled_exits_at q full_exit_queue >=? limit
                 then wrap64 (q + 1) else q in
        registry_get vals' 8
        = Ok (SetWithdrawableEpoch
                (wrap64 (e + MIN_VALIDATOR_WITHDRAWABILITY_DELAY mainnet))
                (SetExitEpoch e ejectable_validator)))
    /\ len vals' = len full_exit_queue
    /\ forall i, i <> 8 -> registry_get vals' i = registry_get full_exit_queue i.
Proof.
  apply (initiate_exit_schedules mainnet (epoch_ten [0; 1; 2; 3; 4; 5; 6; 7; 8]) 8
           full_exit_queue ejectable_validator).
  - vm_compute. reflexivity.
  - reflexivity.
  - vm_compute. discriminate.
Defined.

Lemma exits_at_app (e : Epoch) (xs ys : list FlatValidator) :
  exits_at e (xs ++ ys) = exits_at e xs + exits_at e ys.
Proof. unfold exits_at. rewrite filter_app. apply len_app. Qed.

Lemma exits_at_cons (e : Epoch) (x : FlatValidator) (xs : list FlatValidator) :
  exits_at e (x :: xs) = (if ExitEpoch x =? e then 1 else 0) + exits_at e xs.
Proof.
  unfold exits_at. cbn [filter]. destruct (ExitEpoch x =? e); unfold len; simpl length; lia.
Qed.

Lemma exits_at_none (e : Epoch) (xs : list FlatValidator) :
  (forall w, In w xs -> ExitEpoch w <> e) -> exits_at e xs = 0.
Proof.
  induction xs as [|x xs IH]; intros H; [reflexivity|].
  rewrite exits_at_cons, IH by (intros w Hw; apply H; right; exact Hw).
  destruct (Z.eqb_spec (ExitEpoch x) e) as [E|_]; [|reflexivity].
  exfalso. apply (H x); [left; reflexivity|exact E].
Qed.

Lemma exits_at_nonneg (e : Epoch) (xs : list FlatValidator) : 0 <= exits_at e xs.
Proof. apply len_nonneg. Qed.

(** X13: [InitiateValidatorExit] respects the churn limit at the epoch it
    hands out.  When the churn limit is at least one and every exit epoch
    that is set, like [ComputeActivationExitEpoch(current_epoch)], is a
    [uint64] at least two below the far-future epoch, then after the call
    on a validator without an exit epoch the validators of the registry
    that exit at this validator's new exit epoch are no more than the
    churn limit. *)
Theorem initiate_exit_churn_bound spec epc (index : ValidatorIndex)
    (vals : ValidatorsRegistryView) (v : FlatValidator) (limit : Z) :
  registry_get vals index = Ok v ->
  ExitEpoch v = FAR_FUTURE_EPOCH ->
  GetChurnLimit spec (len (CurrentActiveIndices epc)) = Ok limit ->
  1 <= limit ->
  0 <= ComputeActivationExitEpoch spec (CurrentEpoch epc) < FAR_FUTURE_EPOCH - 1 ->
  (forall w, In w vals -> ExitEpoch w <> FAR_FUTURE_EPOCH ->
             0 <= ExitEpoch w < FAR_FUTURE_EPOCH - 1) ->
  let vals' := fst (InitiateValidatorExit spec epc index vals) in
  exit_epoch_of vals' index <> FAR_FUTURE_EPOCH
  /\ exits_at (exit_epoch_of vals' index) vals' <= limit.
Proof.
  intros Hv Hfar HL Hlim HE Hexits.
  assert (Hq : CHURN_LIMIT_QUOTIENT spec <> 0).
  { unfold GetChurnLimit in HL.
    destruct (Z.eqb_spec (CHURN_LIMIT_QUOTIENT spec) 0); [discriminate|assumption]. }
  destruct (InitiateValidatorExit_unset spec epc index vals v Hv Hfar Hq)
    as (pre & rest & q & c & limit' & E & Hl & Hscan & HL' & Hrun).
  rewrite HL in HL'. inversion HL'; subst limit'. clear HL'.
  destruct (scan_exit_queue_spec _ _ _ _ _ Hscan) as (A & B & C & D).
  assert (Hqr : 0 <= q < FAR_FUTURE_EPOCH - 1).
  { destruct C as [->|(_ & w & Hw & Ew & Hn)]; [exact HE|].
    rewrite <- Ew. apply Hexits; [exact Hw|congruence]. }
  assert (Hc : c = exits_at q vals).
  { rewrite D, <- scheduled_exits_at_set by (unfold FAR_FUTURE_EPOCH in *; lia).
    unfold scheduled_exits_at. destruct (q =? _); lia. }
  cbv zeta. rewrite Hrun. cbn [fst].
  unfold exit_epoch_of. rewrite <- Hl, registry_get_app. cbn [ExitEpoch SetWithdrawableEpoch
    SetExitEpoch].
  assert (Hsplit : forall e, exits_at e vals = exits_at e pre + exits_at e rest
                             + (if FAR_FUTURE_EPOCH =? e then 1 else 0)).
  { intros e. rewrite E, exits_at_app, exits_at_cons, Hfar. lia. }
  assert (Hafter : forall e w, ExitEpoch w = e ->
                     exits_at e (pre ++ w :: rest) = exits_at e pre + exits_at e rest + 1).
  { intros e w Hw. rewrite exits_at_app, exits_at_cons, Hw, Z.eqb_refl. lia. }
  destruct (Z.geb_spec c limit) as [Hge|Hlt].
  - assert (Hw : wrap64 (q + 1) = q + 1).
    { apply wrap64_small. unfold FAR_FUTURE_EPOCH, uint64_modulus in *. lia. }
    rewrite Hw. split; [lia|].
    rewrite Hafter by reflexivity.
    assert (Hzero : exits_at (q + 1) vals = 0).
    { apply exits_at_none. intros w Hin Ew.
      destruct (Z.eq_dec (ExitEpoch w) FAR_FUTURE_EPOCH) as [Ef|Hn]; [lia|].
      specialize (B w Hin Hn). lia. }
    pose proof (Hsplit (q + 1)) as Hs. rewrite Hzero in Hs.
    pose proof (exits_at_nonneg (q + 1) pre). pose proof (exits_at_nonneg (q + 1) rest).
    destruct (FAR_FUTURE_EPOCH =? q + 1); lia.
  - split; [lia|]. rewrite Hafter by reflexivity.
    pose proof (Hsplit q) as Hs.
    destruct (Z.eqb_spec FAR_FUTURE_EPOCH q); lia.
Qed.

Lemma initiate_exit_churn_bound_witness :
  exit_epoch_of
    (fst (InitiateValidatorExit mainnet (epoch_ten [0; 1; 2; 3; 4; 5; 6; 7; 8]) 8
            full_exit_queue)) 8 = 17
  /\ exit_epoch_of
       (fst (InitiateValidatorExit mainnet (epoch_ten [0; 1; 2; 3; 4; 5; 6; 7; 8]) 8
               full_exit_queue)) 8 <> FAR_FUTURE_EPOCH
  /\ exits_at
       (exit_epoch_of
          (fst (InitiateValidatorExit mainnet (epoch_ten [0; 1; 2; 3; 4; 5; 6; 7; 8]) 8
                  full_exit_queue)) 8)
       (fst (InitiateValidatorExit mainnet (epoch_ten [0; 1; 2; 3; 4; 5; 6; 7; 8]) 8
               full_exit_queue)) <= 4.
Proof.
  split; [vm_compute; reflexivity|].
  apply (initiate_exit_churn_bound mainnet (epoch_ten [0; 1; 2; 3; 4; 5; 6; 7; 8]) 8
           full_exit_queue ejectable_validator 4).
  - vm_compute. reflexivity.
  - reflexivity.
  - vm_compute. reflexivity.
  - lia.
  - vm_compute. split; [discriminate|reflexivity].
  - apply (proj1 (Forall_forall
               (fun w => ExitEpoch w <> FAR_FUTURE_EPOCH ->
                         0 <= ExitEpoch w < FAR_FUTURE_EPOCH - 1) full_exit_queue)).
    unfold full_exit_queue. cbn [repeat app].
    repeat (constructor;
            [intros Hset;
             first [exfalso; apply Hset; reflexivity
                   |vm_compute; split; [discriminate|reflexivity]]|]).
    constructor.
Defined.

(** X14: [InitiateValidatorExit] fails without writing.  It returns no
    error exactly when the index is one of the registry and either the
    validator has an exit epoch already or the churn limit quotient is not
    zero; when it returns an error the registry is as it was. *)
Theorem initiate_exit_fails_cleanly spec epc (index : ValidatorIndex)
    (vals : ValidatorsRegistryView) :
  ((exists vals', InitiateValidatorExit spec epc index vals = (vals', Ok tt))
   <-> exists v, registry_get vals index = Ok v
                 /\ (ExitEpoch v <> FAR_FUTURE_EPOCH \/ CHURN_LIMIT_QUOTIENT spec <> 0))
  /\ forall vals' e,
       InitiateValidatorExit spec epc index vals = (vals', Err e) -> vals' = vals.
Proof.
  destruct (registry_get vals index) as [v|e0] eqn:Hv.
  - destruct (Z.eq_dec (ExitEpoch v) FAR_FUTURE_EPOCH) as [Hfar|Hset].
    + destruct (Z.eq_dec (CHURN_LIMIT_QUOTIENT spec) 0) as [Hz|Hq].
      * assert (Hrun : InitiateValidatorExit spec epc index vals
                       = (vals, Err PanicDivideByZero)).
        { unfold InitiateValidatorExit, and_then, get_validator. rewrite Hv, Hfar.
          rewrite Z.eqb_refl. cbn [negb].
          destruct (scan_exit_queue vals _ 0) as [q c].
          unfold GetChurnLimit. rewrite Hz. reflexivity. }
        rewrite Hrun. split.
        -- split; [intros [vals' H]; discriminate|].
           intros (w & Hw & [Hn|Hn]); inversion Hw; subst w; contradiction.
        -- intros vals' e H. inversion H. reflexivity.
      * destruct (InitiateValidatorExit_unset spec epc index vals v Hv Hfar Hq)
          as (pre & rest & q & c & limit & _ & _ & _ & _ & Hrun).
        rewrite Hrun. split.
        -- split; [intros _; exists v; auto|intros _; eauto].
        -- intros vals' e H. discriminate.
    + rewrite (InitiateValidatorExit_already_set spec epc index vals v Hv Hset). split.
      * split; [intros _; exists v; auto|intros _; eauto].
      * intros vals' e H. discriminate.
  - assert (Hrun : InitiateValidatorExit spec epc index vals = (vals, Err e0)).
    { unfold InitiateValidatorExit, and_then, get_validator. rewrite Hv. reflexivity. }
    rewrite Hrun. split.
    + split; [intros [vals' H]; discriminate|intros (w & Hw & _); discriminate].
    + intros vals' e H. inversion H. reflexivity.
Qed.

(** The two shapes of a run of [InitiateValidatorExit]: nothing is
    written, or the exit of one validator without an exit epoch is. *)
Lemma InitiateValidatorExit_cases spec epc (index : ValidatorIndex)
    (vals : ValidatorsRegistryView) :
  (exists r, InitiateValidatorExit spec epc index vals = (vals, r)
             /\ (r = Ok tt ->
                 exists v, registry_get vals index = Ok v
                           /\ ExitEpoch v <> FAR_FUTURE_EPOCH))
  \/ exists pre v rest e,
       vals = pre ++ v :: rest /\ len pre = index
       /\ ExitEpoch v = FAR_FUTURE_EPOCH
       /\ InitiateValidatorExit spec epc index vals
          = (pre ++ SetWithdrawableEpoch
                      (wrap64 (e + MIN_VALIDATOR_WITHDRAWABILITY_DELAY spec))
                      (SetExitEpoch e v) :: rest, Ok tt).
Proof.
  destruct (registry_get vals index) as [v|e0] eqn:Hv.
  - destruct (Z.eq_dec (ExitEpoch v) FAR_FUTURE_EPOCH) as [Hfar|Hset].
    + destruct (Z.eq_dec (CHURN_LIMIT_QUOTIENT spec) 0) as [Hz|Hq].
      * left. exists (Err PanicDivideByZero). split; [|discriminate].
        unfold InitiateValidatorExit, and_then, get_validator. rewrite Hv, Hfar.
        rewrite Z.eqb_refl. cbn [negb].
        destruct (scan_exit_queue vals _ 0) as [q c].
        unfold GetChurnLimit. rewrite Hz. reflexivity.
      * right.
        destruct (InitiateValidatorExit_unset spec epc index vals v Hv Hfar Hq)
          as (pre & rest & q & c & limit & E & Hl & _ & _ & Hrun).
        exists pre, v, rest. eexists. split; [exact E|]. split; [exact Hl|].
        split; [exact Hfar|exact Hrun].
    + left. exists (Ok tt). split; [|intros _; eauto].
      apply (InitiateValidatorExit_already_set spec epc index vals v Hv Hset).
  - left. exists (Err e0). split; [|discriminate].
    unfold InitiateValidatorExit, and_then, get_validator. rewrite Hv. reflexivity.
Qed.

Lemma InitiateValidatorExit_frame spec epc (index : ValidatorIndex)
    (vals : ValidatorsRegistryView) (i : ValidatorIndex) :
  i <> index ->
  registry_get (fst (InitiateValidatorExit spec epc index vals)) i = registry_get vals i.
Proof.
  intros Hi.
  destruct (InitiateValidatorExit_cases spec epc index vals)
    as [(r & -> & _)|(pre & v & rest & e & E & Hl & _ & ->)]; [reflexivity|].
  cbn [fst]. rewrite E. apply registry_get_app_other. congruence.
Qed.

Lemma InitiateValidatorExit_keeps {B : Type} (g : FlatValidator -> B) spec epc
    (index : ValidatorIndex) :
  (forall e v, g (SetExitEpoch e v) = g v) ->
  (forall e v, g (SetWithdrawableEpoch e v) = g v) ->
  keeps g (InitiateValidatorExit spec epc index).
Proof.
  intros G1 G2 vals.
  destruct (InitiateValidatorExit_cases spec epc index vals)
    as [(r & -> & _)|(pre & v & rest & e & E & Hl & _ & ->)]; [reflexivity|].
  cbn [fst]. rewrite E, !map_app. cbn [map]. rewrite G2, G1. reflexivity.
Qed.

(** The exit epoch that [InitiateValidatorExit] hands out is not the
    far-future epoch, short of the end of the [uint64] range. *)
Lemma InitiateValidatorExit_sets spec epc (index : ValidatorIndex)
    (vals : ValidatorsRegistryView) (v : FlatValidator) :
  registry_get vals index = Ok v ->
  ExitEpoch v = FAR_FUTURE_EPOCH ->
  CHURN_LIMIT_QUOTIENT spec <> 0 ->
  0 <= ComputeActivationExitEpoch spec (CurrentEpoch epc) < FAR_FUTURE_EPOCH - 1 ->
  (forall w, In w vals -> ExitEpoch w <> FAR_FUTURE_EPOCH ->
             0 <= ExitEpoch w < FAR_FUTURE_EPOCH - 1) ->
  exists vals' v',
    InitiateValidatorExit spec epc index vals = (vals', Ok tt)
    /\ registry_get vals' index = Ok v'
    /\ ExitEpoch v' <> FAR_FUTURE_EPOCH
    /\ ComputeActivationExitEpoch spec (CurrentEpoch epc) <= ExitEpoch v'.
Proof.
  intros Hv Hfar Hq HE Hexits.
  destruct (InitiateValidatorExit_unset spec epc index vals v Hv Hfar Hq)
    as (pre & rest & q & c & limit & E & Hl & Hscan & HL & Hrun).
  destruct (scan_exit_queue_spec _ _ _ _ _ Hscan) as (A & B & C & D).
  assert (Hqr : 0 <= q < FAR_FUTURE_EPOCH - 1).
  { destruct C as [->|(_ & w & Hw & Ew & Hn)]; [exact HE|].
    rewrite <- Ew. apply Hexits; [exact Hw|congruence]. }
  eexists. eexists. split; [exact Hrun|]. split; [rewrite <- Hl; apply registry_get_app|].
  cbn [ExitEpoch SetWithdrawableEpoch SetExitEpoch].
  assert (Hw : wrap64 (q + 1) = q + 1).
  { apply wrap64_small. unfold FAR_FUTURE_EPOCH, uint64_modulus in *. lia. }
  destruct (c >=? limit); [rewrite Hw|]; lia.
Qed.

(** * Voluntary exits *)

Lemma set_Validators_same (state : BeaconStateView) :
  set_Validators (Validators state) state = state.
Proof. destruct state. reflexivity. Qed.

Lemma IsValidIndex_registry_get (state : BeaconStateView) (index : ValidatorIndex) :
  IsValidIndex state index = true <-> exists v, registry_get (Validators state) index = Ok v.
Proof.
  unfold IsValidIndex. rewrite andb_true_iff, Z.leb_le, Z.ltb_lt. split.
  - intros H. apply registry_get_in_range. exact H.
  - intros [v Hv]. apply registry_get_Ok_range in Hv. exact Hv.
Qed.

(** The conditions under which [ValidateVoluntaryExit] returns no error. *)
Lemma ValidateVoluntaryExit_None spec env epc state signedExit :
  ValidateVoluntaryExit spec env epc state signedExit = None
  <-> exists v pubkey domain,
        registry_get (Validators state) (ve_ValidatorIndex (sve_Message signedExit)) = Ok v
        /\ IsActive v (CurrentEpoch epc) = true
        /\ ExitEpoch v = FAR_FUTURE_EPOCH
        /\ ve_Epoch (sve_Message signedExit) <= CurrentEpoch epc
        /\ wrap64 (ActivationEpoch v + SHARD_COMMITTEE_PERIOD env) <= CurrentEpoch epc
        /\ Pubkey env (ve_ValidatorIndex (sve_Message signedExit)) = Some pubkey
        /\ GetDomain env (DOMAIN_VOLUNTARY_EXIT env) (ve_Epoch (sve_Message signedExit))
           = Ok domain
        /\ Verify env pubkey (ExitSigningRoot env (sve_Message signedExit) domain)
             (sve_Signature signedExit) = true.
Proof.
  unfold ValidateVoluntaryExit. cbv zeta.
  set (index := ve_ValidatorIndex (sve_Message signedExit)).
  split.
  - destruct (IsValidIndex state index); cbn [negb]; [|discriminate].
    destruct (registry_get (Validators state) index) as [v|e]; [|discriminate].
    destruct (IsActive v (CurrentEpoch epc)) eqn:Ha; cbn [negb]; [|discriminate].
    destruct (Z.eqb_spec (ExitEpoch v) FAR_FUTURE_EPOCH) as [Hfar|]; cbn [negb];
      [|discriminate].
    destruct (Z.ltb_spec (CurrentEpoch epc) (ve_Epoch (sve_Message signedExit)));
      [discriminate|].
    destruct (Z.ltb_spec (CurrentEpoch epc)
                (wrap64 (ActivationEpoch v + SHARD_COMMITTEE_PERIOD env))); [discriminate|].
    destruct (Pubkey env index) as [pubkey|]; [|discriminate].
    destruct (GetDomain env _ _) as [domain|e]; [|discriminate].
    destruct (Verify env pubkey _ _) eqn:Hs; cbn [negb]; [|discriminate].
    intros _. exists v, pubkey, domain. repeat split; auto.
  - intros (v & pubkey & domain & Hv & Ha & Hfar & He & Hp & Hk & Hd & Hs).
    assert (Hvalid : IsValidIndex state index = true)
      by (apply IsValidIndex_registry_get; eauto).
    rewrite Hvalid, Hv, Ha, Hfar, Z.eqb_refl. cbn [negb].
    destruct (Z.ltb_spec (CurrentEpoch epc) (ve_Epoch (sve_Message signedExit))); [lia|].
    destruct (Z.ltb_spec (CurrentEpoch epc)
                (wrap64 (ActivationEpoch v + SHARD_COMMITTEE_PERIOD env))); [lia|].
    rewrite Hk, Hd, Hs. reflexivity.
Qed.

(** An exit is rejected for a validator that has an exit epoch, as
    inactive or as exited already. *)
Lemma ValidateVoluntaryExit_exited spec env epc state signedExit v :
  registry_get (Validators state) (ve_ValidatorIndex (sve_Message signedExit)) = Ok v ->
  ExitEpoch v <> FAR_FUTURE_EPOCH ->
  ValidateVoluntaryExit spec env epc state signedExit = Some ErrValidatorNotActive
  \/ ValidateVoluntaryExit spec env epc state signedExit = Some ErrValidatorAlreadyExited.
Proof.
  intros Hv Hset. unfold ValidateVoluntaryExit. cbv zeta.
  assert (Hvalid : IsValidIndex state (ve_ValidatorIndex (sve_Message signedExit)) = true)
    by (apply IsValidIndex_registry_get; eauto).
  rewrite Hvalid, Hv. cbn [negb].
  destruct (IsActive v (CurrentEpoch epc)); cbn [negb]; [|left; reflexivity].
  destruct (Z.eqb_spec (ExitEpoch v) FAR_FUTURE_EPOCH); [contradiction|].
  right. reflexivity.
Qed.

(** The shapes of a run of [ProcessVoluntaryExit]. *)
Lemma ProcessVoluntaryExit_cases spec env epc state signedExit :
  let index := ve_ValidatorIndex (sve_Message signedExit) in
  (exists err, ProcessVoluntaryExit spec env epc state signedExit = (state, Some err))
  \/ (ValidateVoluntaryExit spec env epc state signedExit = None
      /\ exists vals',
           InitiateValidatorExit spec epc index (Validators state) = (vals', Ok tt)
           /\ ProcessVoluntaryExit spec env epc state signedExit
              = (set_Validators vals' state, None)).
Proof.
  cbv zeta. unfold ProcessVoluntaryExit.
  destruct (ValidateVoluntaryExit spec env epc state signedExit) as [err|] eqn:Hval;
    [left; eauto|].
  destruct (InitiateValidatorExit_cases spec epc
              (ve_ValidatorIndex (sve_Message signedExit)) (Validators state))
    as [(r & Hr & _)|(pre & v & rest & e & E & Hl & _ & Hr)]; rewrite Hr.
  - destruct r as [[]|e].
    + right. split; [reflexivity|]. eauto.
    + left. rewrite set_Validators_same. eauto.
  - right. split; [reflexivity|]. eauto.
Qed.

(** X15: the effect of one voluntary exit.  [ProcessVoluntaryExit] returns
    no error exactly when the exit names a validator of the registry that
    is active in the current epoch and has no exit epoch; the exit's epoch
    and the validator's activation epoch plus [SHARD_COMMITTEE_PERIOD]
    (reduced modulo [2^64]) are not past the current epoch; the validator's
    public key is cached, the domain resolves and the signature verifies;
    and the churn limit quotient is not zero.  Then the registry is the one
    [InitiateValidatorExit] leaves and the rest of the state stands;
    otherwise the state is left as it was. *)
Theorem voluntary_exit_processed spec env epc state signedExit :
  let index := ve_ValidatorIndex (sve_Message signedExit) in
  let run := ProcessVoluntaryExit spec env epc state signedExit in
  (snd run = None
   <-> CHURN_LIMIT_QUOTIENT spec <> 0
       /\ exists v pubkey domain,
            registry_get (Validators state) index = Ok v
            /\ IsActive v (CurrentEpoch epc) = true
            /\ ExitEpoch v = FAR_FUTURE_EPOCH
            /\ ve_Epoch (sve_Message signedExit) <= CurrentEpoch epc
            /\ wrap64 (ActivationEpoch v + SHARD_COMMITTEE_PERIOD env) <= CurrentEpoch epc
            /\ Pubkey env index = Some pubkey
            /\ GetDomain env (DOMAIN_VOLUNTARY_EXIT env) (ve_Epoch (sve_Message signedExit))
               = Ok domain
            /\ Verify env pubkey (ExitSigningRoot env (sve_Message signedExit) domain)
                 (sve_Signature signedExit) = true)
  /\ (snd run <> None -> fst run = state)
  /\ (snd run = None ->
      fst run
      = set_Validators (fst (InitiateValidatorExit spec epc index (Validators state))) state).
Proof.
  cbv zeta.
  destruct (ProcessVoluntaryExit_cases spec env epc state signedExit)
    as [[err Hrun]|(Hval & vals' & Hinit & Hrun)]; rewrite Hrun; cbn [fst snd].
  - split; [|split; [reflexivity|discriminate]].
    split; [discriminate|]. intros (Hq & Hacc). exfalso.
    pose proof Hacc as (v & pubkey & domain & Hv & _ & Hfar & _).
    apply (proj2 (ValidateVoluntaryExit_None spec env epc state signedExit)) in Hacc.
    destruct (InitiateValidatorExit_unset spec epc _ _ v Hv Hfar Hq)
      as (pre & rest & q & c & limit & _ & _ & _ & _ & Hinit).
    unfold ProcessVoluntaryExit in Hrun. rewrite Hacc, Hinit in Hrun.
    discriminate.
  - rewrite Hinit. cbn [fst]. split; [|split; [congruence|auto]].
    split; [|reflexivity]. intros _. split.
    + intros Hz.
      apply (proj1 (ValidateVoluntaryExit_None spec env epc state signedExit)) in Hval.
      destruct Hval as (v & pubkey & domain & Hv & _ & Hfar & _).
      unfold InitiateValidatorExit, and_then, get_validator in Hinit.
      rewrite Hv, Hfar, Z.eqb_refl in Hinit. cbn [negb] in Hinit.
      destruct (scan_exit_queue (Validators state) _ 0) as [q c].
      unfold GetChurnLimit in Hinit. rewrite Hz in Hinit. cbn in Hinit. discriminate.
    + apply (proj1 (ValidateVoluntaryExit_None spec env epc state signedExit)). exact Hval.
Qed.

(** X16: no validator exits twice.  After [ProcessVoluntaryExit] has
    returned no error for a validator -- all exit epochs that are set, like
    [ComputeActivationExitEpoch(current_epoch)], being [uint64] values at
    least two below the far-future epoch -- every further exit that names
    the same validator is rejected on the state it left, as not active or
    as exited already, and leaves that state as it is. *)
Theorem no_second_voluntary_exit spec env epc state signedExit state' again :
  ProcessVoluntaryExit spec env epc state signedExit = (state', None) ->
  0 <= ComputeActivationExitEpoch spec (CurrentEpoch epc) < FAR_FUTURE_EPOCH - 1 ->
  (forall w, In w (Validators state) -> ExitEpoch w <> FAR_FUTURE_EPOCH ->
             0 <= ExitEpoch w < FAR_FUTURE_EPOCH - 1) ->
  ve_ValidatorIndex (sve_Message again) = ve_ValidatorIndex (sve_Message signedExit) ->
  ProcessVoluntaryExit spec env epc state' again = (state', Some ErrValidatorNotActive)
  \/ ProcessVoluntaryExit spec env epc state' again
     = (state', Some ErrValidatorAlreadyExited).
Proof.
  intros Hrun HE Hexits Hsame.
  destruct (ProcessVoluntaryExit_cases spec env epc state signedExit)
    as [[err Hrun']|(Hval & vals' & Hinit & Hrun')]; rewrite Hrun' in Hrun;
    [discriminate|].
  inversion Hrun; subst state'. clear Hrun.
  apply (proj1 (ValidateVoluntaryExit_None spec env epc state signedExit)) in Hval.
  destruct Hval as (v & pubkey & domain & Hv & _ & Hfar & _).
  assert (Hq : CHURN_LIMIT_QUOTIENT spec <> 0).
  { intros Hz. unfold InitiateValidatorExit, and_then, get_validator in Hinit.
    rewrite Hv, Hfar, Z.eqb_refl in Hinit. cbn [negb] in Hinit.
    destruct (scan_exit_queue (Validators state) _ 0) as [q c].
    unfold GetChurnLimit in Hinit. rewrite Hz in Hinit. cbn in Hinit. discriminate. }
  destruct (InitiateValidatorExit_sets spec epc _ _ v Hv Hfar Hq HE Hexits)
    as (vals2 & v' & Hinit' & Hv' & Hset & _).
  rewrite Hinit in Hinit'. inversion Hinit'; subst vals2. clear Hinit'.
  assert (Hv2 : registry_get (Validators (set_Validators vals' state))
                  (ve_ValidatorIndex (sve_Message again)) = Ok v')
    by (rewrite Hsame; exact Hv').
  unfold ProcessVoluntaryExit.
  destruct (ValidateVoluntaryExit_exited spec env epc (set_Validators vals' state)
              again v' Hv2 Hset) as [-> | ->]; [left|right]; reflexivity.
Qed.

Lemma no_second_voluntary_exit_witness :
  exists state',
    ProcessVoluntaryExit mainnet trusting_env epoch_300
      (quiet_state [active_validator; active_validator] 0) (exit_of 1) = (state', None)
    /\ (ProcessVoluntaryExit mainnet trusting_env epoch_300 state' (exit_of 1)
        = (state', Some ErrValidatorNotActive)
        \/ ProcessVoluntaryExit mainnet trusting_env epoch_300 state' (exit_of 1)
           = (state', Some ErrValidatorAlreadyExited)).
Proof.
  eexists. split; [vm_compute; reflexivity|].
  eapply (no_second_voluntary_exit mainnet trusting_env epoch_300
            (quiet_state [active_validator; active_validator] 0) (exit_of 1)).
  - vm_compute. reflexivity.
  - vm_compute. split; [discriminate|reflexivity].
  - intros w Hin Hset. exfalso. simpl in Hin.
    destruct Hin as [<-|[<-|[]]]; apply Hset; reflexivity.
  - reflexivity.
Defined.

(** What one exit keeps of the state. *)
Lemma ProcessVoluntaryExit_frame spec env epc state signedExit :
  let state' := fst (ProcessVoluntaryExit spec env epc state signedExit) in
  set_Validators (Validators state) state' = state
  /\ map (fun v => (EffectiveBalance v, Slashed v, ActivationEligibilityEpoch v,
                    ActivationEpoch v)) (Validators state')
     = map (fun v => (EffectiveBalance v, Slashed v, ActivationEligibilityEpoch v,
                      ActivationEpoch v)) (Validators state)
  /\ (forall i, i <> ve_ValidatorIndex (sve_Message signedExit) ->
                registry_get (Validators state') i = registry_get (Validators state) i)
  /\ (forall i w, registry_get (Validators state) i = Ok w ->
                  ExitEpoch w <> FAR_FUTURE_EPOCH ->
                  registry_get (Validators state') i = Ok w).
Proof.
  cbv zeta.
  destruct (ProcessVoluntaryExit_cases spec env epc state signedExit)
    as [[err Hrun]|(Hval & vals' & Hinit & Hrun)]; rewrite Hrun; cbn [fst].
  - split; [apply set_Validators_same|]. split; [reflexivity|]. split; auto.
  - split; [destruct state; reflexivity|]. cbn [Validators set_Validators].
    pose proof (InitiateValidatorExit_keeps
                  (fun v => (EffectiveBalance v, Slashed v, ActivationEligibilityEpoch v,
                             ActivationEpoch v))
                  spec epc (ve_ValidatorIndex (sve_Message signedExit))
                  (fun _ _ => eq_refl) (fun _ _ => eq_refl) (Validators state)) as K.
    rewrite Hinit in K. cbn [fst] in K. split; [exact K|].
    assert (F : forall i, i <> ve_ValidatorIndex (sve_Message signedExit) ->
                          registry_get vals' i = registry_get (Validators state) i).
    { intros i Hi.
      pose proof (InitiateValidatorExit_frame spec epc _ (Validators state) i Hi) as F.
      rewrite Hinit in F. exact F. }
    split; [exact F|]. intros i w Hw Hset.
    destruct (Z.eq_dec i (ve_ValidatorIndex (sve_Message signedExit))) as [->|Hne];
      [|rewrite F by exact Hne; exact Hw].
    apply (proj1 (ValidateVoluntaryExit_None spec env epc state signedExit)) in Hval.
    destruct Hval as (v & _ & _ & Hv & _ & Hfar & _).
    rewrite Hw in Hv. inversion Hv; subst v. contradiction.
Qed.

(** X17: what a list of voluntary exits leaves alone.  Whatever
    [ProcessVoluntaryExits] returns, the state it leaves differs from the
    one it was given in the registry only; the registry has the validators
    it had, each with its effective balance, slashed mark, eligibility and
    activation epochs; a validator that no operation names is as it was,
    and so is every validator that had an exit epoch.  An empty list
    returns no error even under a cancelled context: the context is asked
    before each operation only. *)
Theorem voluntary_exits_frame ctx spec env epc state ops :
  let state' := fst (ProcessVoluntaryExits ctx spec env epc state ops) in
  set_Validators (Validators state) state' = state
  /\ map (fun v => (EffectiveBalance v, Slashed v, ActivationEligibilityEpoch v,
                    ActivationEpoch v)) (Validators state')
     = map (fun v => (EffectiveBalance v, Slashed v, ActivationEligibilityEpoch v,
                      ActivationEpoch v)) (Validators state)
  /\ (forall i, ~ In i (exiting_indices ops) ->
                registry_get (Validators state') i = registry_get (Validators state) i)
  /\ (forall i w, registry_get (Validators state) i = Ok w ->
                  ExitEpoch w <> FAR_FUTURE_EPOCH ->
                  registry_get (Validators state') i = Ok w)
  /\ (ops = [] -> ProcessVoluntaryExits ctx spec env epc state ops = (state, None)).
Proof.
  cbv zeta. unfold ProcessVoluntaryExits. generalize 0 as n.
  revert state. induction ops as [|op rest IH]; intros state n; cbn [process_voluntary_exits].
  - cbn [fst]. split; [apply set_Validators_same|]. repeat split; auto.
  - assert (Hstop : forall r,
              set_Validators (Validators state) (fst (state, r : option exit_error)) = state
              /\ map (fun v => (EffectiveBalance v, Slashed v, ActivationEligibilityEpoch v,
                                ActivationEpoch v)) (Validators (fst (state, r)))
                 = map (fun v => (EffectiveBalance v, Slashed v,
                                  ActivationEligibilityEpoch v, ActivationEpoch v))
                     (Validators state)
              /\ (forall i, ~ In i (exiting_indices (op :: rest)) ->
                            registry_get (Validators (fst (state, r))) i
                            = registry_get (Validators state) i)
              /\ (forall i w, registry_get (Validators state) i = Ok w ->
                              ExitEpoch w <> FAR_FUTURE_EPOCH ->
                              registry_get (Validators (fst (state, r))) i = Ok w)
              /\ (op :: rest = [] -> (state, r) = (state, None))).
    { intros r. cbn [fst]. split; [apply set_Validators_same|].
      repeat split; auto. discriminate. }
    destruct (ctx n); [apply Hstop|].
    destruct (ProcessVoluntaryExit_frame spec env epc state op) as (F1 & F2 & F3 & F4).
    destruct (ProcessVoluntaryExit spec env epc state op) as [state1 [err|]] eqn:Hrun;
      cbn [fst] in F1, F2, F3, F4.
    + cbn [fst]. split; [exact F1|]. split; [exact F2|]. split.
      * intros i Hi. apply F3. intros ->. apply Hi. left. reflexivity.
      * split; [exact F4|discriminate].
    + destruct (IH state1 (n + 1)) as (G1 & G2 & G3 & G4 & _).
      split.
      { rewrite <- F1 at 2. rewrite <- G1 at 2. destruct state1.
        destruct (fst (process_voluntary_exits ctx spec env epc (n + 1) rest _)).
        reflexivity. }
      split; [rewrite G2; exact F2|]. split.
      * intros i Hi. rewrite G3 by (intros H; apply Hi; right; exact H).
        apply F3. intros ->. apply Hi. left. reflexivity.
      * split; [|discriminate]. intros i w Hw Hset. apply G4; [|exact Hset].
        apply F4; assumption.
Qed.

(** * Indexed attestations: the indices that pass, and the signature *)

(** Sorted without equal neighbours is strictly ascending. *)
Lemma strictly_sorted (l : list Z) :
  Sorted Z.le l -> ~ adjacent_equal l -> StronglySorted Z.lt l.
Proof.
  induction l as [|a l IH]; intros Hs Hd; [constructor|].
  inversion Hs as [|x y Hs' Hhd]; subst.
  assert (Hd' : ~ adjacent_equal l).
  { intros (l1 & x & l2 & E). apply Hd. exists (a :: l1), x, l2. rewrite E. reflexivity. }
  specialize (IH Hs' Hd'). constructor; [exact IH|].
  destruct l as [|b l]; [constructor|].
  inversion Hhd as [|x y Hab]; subst.
  assert (Hlt : a < b).
  { destruct (Z.eq_dec a b) as [->|Hne]; [|lia].
    exfalso. apply Hd. exists [], b, l. reflexivity. }
  inversion IH as [|x y Hss Hall]; subst.
  constructor; [exact Hlt|].
  eapply Forall_impl; [|exact Hall]. intros c Hc. simpl in Hc. lia.
Qed.

Lemma strictly_sorted_last (l : list Z) (d : Z) :
  StronglySorted Z.lt l -> Forall (fun i => i <= last l d) l.
Proof.
  induction l as [|a l IH]; intros Hs; [constructor|].
  inversion Hs as [|x y Hs' Hall]; subst.
  destruct l as [|b l]; [repeat constructor; simpl; lia|].
  change (last (a :: b :: l) d) with (last (b :: l) d).
  specialize (IH Hs'). constructor; [|exact IH].
  inversion Hall as [|x y Hab _]; subst. inversion IH as [|x y Hb _]; subst. lia.
Qed.

(** What the indices of an attestation that passes the structural
    validation are. *)
Lemma NoSignature_None spec state ia :
  ValidateIndexedAttestationNoSignature spec state ia = None ->
  1 <= len (AttestingIndices ia) <= MAX_VALIDATORS_PER_COMMITTEE spec
  /\ StronglySorted Z.lt (AttestingIndices ia)
  /\ Forall (fun i => i < len (Validators state)) (AttestingIndices ia)
  /\ 0 <= last (AttestingIndices ia) 0.
Proof.
  unfold ValidateIndexedAttestationNoSignature, ValidateIndexedAttestationIndicesSet.
  set (l := AttestingIndices ia).
  destruct (Z.ltb_spec (MAX_VALIDATORS_PER_COMMITTEE spec) (len l)); [discriminate|].
  destruct (len l <=? 0) eqn:Hempty; [discriminate|].
  assert (Hne : l <> []).
  { intros E. apply len_nil_iff in E. congruence. }
  destruct (IsSorted l) eqn:Hsorted; [|discriminate].
  pose proof (find_duplicate_spec l 1) as Hdup.
  destruct (find_duplicate 1 l); [discriminate|].
  simpl. rewrite (index_at_last l 0 Hne). simpl.
  destruct (IsValidIndex state (last l 0)) eqn:Hvalid; [|discriminate].
  intros _. apply Z.leb_gt in Hempty.
  apply IsSorted_Sorted in Hsorted.
  pose proof (strictly_sorted _ Hsorted Hdup) as Hstrict.
  unfold IsValidIndex in Hvalid. apply andb_true_iff in Hvalid.
  destruct Hvalid as [H0 Hlt]. apply Z.leb_le in H0. apply Z.ltb_lt in Hlt.
  split; [lia|]. split; [exact Hstrict|]. split; [|exact H0].
  eapply Forall_impl; [|apply (strictly_sorted_last _ 0 Hstrict)].
  intros i Hi. cbv beta in Hi. eapply Z.le_lt_trans; [exact Hi|exact Hlt].
Qed.

(** The gathering of the keys: all the keys in the order of the indices,
    or the first index without one. *)
Lemma gather_pubkeys_spec env (indices : list ValidatorIndex) :
  forall pubkeys,
    match gather_pubkeys env indices pubkeys with
    | inr all =>
        exists keys, all = pubkeys ++ keys
                     /\ map (CachePubkey env) indices = map Some keys
    | inl err =>
        exists pre i post,
          indices = pre ++ i :: post /\ err = ErrPubkeyNotFound i
          /\ CachePubkey env i = None
          /\ Forall (fun j => CachePubkey env j <> None) pre
    end.
Proof.
  induction indices as [|i rest IH]; intros pubkeys; cbn [gather_pubkeys].
  - exists []. rewrite app_nil_r. split; reflexivity.
  - destruct (CachePubkey env i) as [pub|] eqn:Hi.
    + specialize (IH (pubkeys ++ [pub])).
      destruct (gather_pubkeys env rest (pubkeys ++ [pub])) as [err|all].
      * destruct IH as (pre & j & post & E & He & Hj & Hpre).
        exists (i :: pre), j, post. rewrite E. repeat split; auto.
        constructor; [congruence|exact Hpre].
      * destruct IH as (keys & E & Hk). exists (pub :: keys).
        rewrite <- app_assoc in E. split; [exact E|]. cbn [map]. rewrite Hi, Hk. reflexivity.
    + exists [], i, rest. repeat split; auto.
Qed.

Lemma first_without_key env (pre pre' : list ValidatorIndex) i i' post post' :
  pre ++ i :: post = pre' ++ i' :: post' ->
  CachePubkey env i = None -> Forall (fun j => CachePubkey env j <> None) pre ->
  CachePubkey env i' = None -> Forall (fun j => CachePubkey env j <> None) pre' ->
  i = i'.
Proof.
  revert pre'. induction pre as [|a pre IH]; intros [|a' pre'] E Hi Hpre Hi' Hpre';
    simpl in E; inversion E; subst.
  - reflexivity.
  - inversion Hpre'; subst. contradiction.
  - inversion Hpre; subst. contradiction.
  - inversion Hpre; inversion Hpre'; subst. eapply IH; eassumption.
Qed.

(** X18: the signature check of an indexed attestation.
    [ValidateIndexedAttestationSignature] returns no error exactly when
    there is at least one attesting index, every index has a cached public
    key, and the aggregate verification accepts the keys -- in the order of
    the indices -- with the signing root of the data and the signature.
    When an index has no key, the error names the first such index,
    whatever the signature; without any index the error is that of the
    empty attestation, and the verification is not consulted. *)
Theorem attestation_signature_check env dom ia :
  (ValidateIndexedAttestationSignature env dom ia = None
   <-> AttestingIndices ia <> []
       /\ exists keys,
            map (CachePubkey env) (AttestingIndices ia) = map Some keys
            /\ FastAggregateVerify env keys
                 (AttestationSigningRoot env (ia_Data ia) dom) (ia_Signature ia) = true)
  /\ (forall pre i post,
        AttestingIndices ia = pre ++ i :: post ->
        CachePubkey env i = None ->
        Forall (fun j => CachePubkey env j <> None) pre ->
        ValidateIndexedAttestationSignature env dom ia = Some (ErrPubkeyNotFound i))
  /\ (AttestingIndices ia = [] ->
      ValidateIndexedAttestationSignature env dom ia = Some ErrEmptyAttestationSignature).
Proof.
  unfold ValidateIndexedAttestationSignature.
  pose proof (gather_pubkeys_spec env (AttestingIndices ia) []) as G.
  destruct (gather_pubkeys env (AttestingIndices ia) []) as [err|all].
  - destruct G as (pre & i & post & E & -> & Hi & Hpre). split; [|split].
    + split; [discriminate|]. intros (_ & keys & Hk & _). exfalso.
      rewrite E, !map_app in Hk. cbn [map] in Hk. rewrite Hi in Hk.
      assert (Hin : In None (map Some keys)).
      { rewrite <- Hk. apply in_or_app. right. left. reflexivity. }
      apply in_map_iff in Hin. destruct Hin as (k & Hk' & _). discriminate.
    + intros pre' i' post' E' Hi' Hpre'. rewrite E in E'.
      rewrite (first_without_key env pre pre' i i' post post' E' Hi Hpre Hi' Hpre').
      reflexivity.
    + intros Hnil. rewrite Hnil in E. destruct pre; discriminate.
  - destruct G as (keys & -> & Hk). cbn [app].
    assert (Hlen : length keys = length (AttestingIndices ia)).
    { apply (f_equal (@length _)) in Hk. rewrite !length_map in Hk. congruence. }
    split; [|split].
    + destruct (len keys <=? 0) eqn:Hempty.
      * split; [discriminate|]. intros (Hne & _). exfalso. apply Hne.
        apply len_nil_iff in Hempty. subst keys. 
        destruct (AttestingIndices ia); [reflexivity|discriminate].
      * destruct (FastAggregateVerify env keys _ _) eqn:Hv; cbn [negb].
        -- split; [|reflexivity]. intros _. split.
           ++ intros Hnil. rewrite Hnil in Hlen. destruct keys; [|discriminate].
              discriminate.
           ++ exists keys. split; [exact Hk|exact Hv].
        -- split; [discriminate|]. intros (_ & keys' & Hk' & Hv').
           rewrite Hk in Hk'.
           assert (keys' = keys).
           { clear - Hk'. revert keys' Hk'.
             induction keys as [|k keys IH]; intros [|k' keys'] H; simpl in H;
               inversion H; [reflexivity|]. f_equal. apply IH. assumption. }
           subst keys'. congruence.
    + intros pre i post E Hi _. exfalso.
      rewrite E, !map_app in Hk. cbn [map] in Hk. rewrite Hi in Hk.
      assert (Hin : In None (map Some keys)).
      { rewrite <- Hk. apply in_or_app. right. left. reflexivity. }
      apply in_map_iff in Hin. destruct Hin as (k & Hk' & _). discriminate.
    + intros Hnil. rewrite Hnil in Hlen. destruct keys; [reflexivity|discriminate].
Qed.

(** X19: the indices of a validated attestation.  When
    [ValidateIndexedAttestation] returns no error for attesting indices
    that are not negative, the indices are between one and
    [MAX_VALIDATORS_PER_COMMITTEE] in number and strictly ascending, every
    one of them -- not the last alone, which is the one the code looks at
    -- is a valid index of the registry, and every one has a cached public
    key. *)
Theorem validated_attestation_indices spec env state ia :
  ValidateIndexedAttestation spec env state ia = None ->
  Forall (fun i => 0 <= i) (AttestingIndices ia) ->
  1 <= len (AttestingIndices ia) <= MAX_VALIDATORS_PER_COMMITTEE spec
  /\ StronglySorted Z.lt (AttestingIndices ia)
  /\ Forall (fun i => IsValidIndex state i = true /\ CachePubkey env i <> None)
       (AttestingIndices ia).
Proof.
  intros H Hpos. unfold ValidateIndexedAttestation in H.
  destruct (ValidateIndexedAttestationNoSignature spec state ia) eqn:Hstruct;
    [discriminate|].
  destruct (AttestationDomain env _ _) as [dom|e]; [|discriminate].
  destruct (NoSignature_None spec state ia Hstruct) as (Hcount & Hsorted & Hrange & _).
  split; [exact Hcount|]. split; [exact Hsorted|].
  unfold ValidateIndexedAttestationSignature in H.
  pose proof (gather_pubkeys_spec env (AttestingIndices ia) []) as G.
  destruct (gather_pubkeys env (AttestingIndices ia) []) as [err|all]; [discriminate|].
  destruct G as (keys & _ & Hk).
  rewrite Forall_forall in *. intros i Hi. split.
  - unfold IsValidIndex. apply andb_true_iff. split.
    + apply Z.leb_le. apply Hpos. exact Hi.
    + apply Z.ltb_lt. apply Hrange. exact Hi.
  - intros Hnone.
    assert (Hin : In None (map Some keys)).
    { rewrite <- Hk, <- Hnone. apply in_map. exact Hi. }
    apply in_map_iff in Hin. destruct Hin as (k & Hk' & _). discriminate.
Qed.

Lemma validated_attestation_indices_witness :
  ValidateIndexedAttestation mainnet summing_env
    (quiet_state [active_validator; active_validator; active_validator] 0)
    (vote_of [0; 2] 202) = None
  /\ 1 <= len (AttestingIndices (vote_of [0; 2] 202)) <= MAX_VALIDATORS_PER_COMMITTEE mainnet
  /\ StronglySorted Z.lt (AttestingIndices (vote_of [0; 2] 202))
  /\ Forall (fun i =>
               IsValidIndex
                 (quiet_state [active_validator; active_validator; active_validator] 0) i
               = true
               /\ CachePubkey summing_env i <> None)
       (AttestingIndices (vote_of [0; 2] 202)).
Proof.
  split; [vm_compute; reflexivity|].
  apply (validated_attestation_indices mainnet summing_env
           (quiet_state [active_validator; active_validator; active_validator] 0)
           (vote_of [0; 2] 202)).
  - vm_compute. reflexivity.
  - repeat constructor; vm_compute; discriminate.
Defined.

Lemma find_duplicate_first (pre : list ValidatorIndex) :
  forall (a : ValidatorIndex) (post : list ValidatorIndex) (i : Z),
    ~ adjacent_equal (pre ++ [a]) ->
    find_duplicate i (pre ++ a :: a :: post)
    = Some (ErrIndicesDuplicate (i + len pre - 1) (i + len pre) a).
Proof.
  induction pre as [|x pre IH]; intros a post i Hno.
  - cbn [app find_duplicate]. rewrite Z.eqb_refl. unfold len. simpl.
    rewrite Z.add_0_r. reflexivity.
  - assert (Hno' : ~ adjacent_equal (pre ++ [a])).
    { intros (l1 & y & l2 & E). apply Hno. exists (x :: l1), y, l2.
      cbn [app]. rewrite E. reflexivity. }
    assert (Hl : len (x :: pre) = len pre + 1) by (unfold len; simpl length; lia).
    destruct pre as [|y pre].
    + cbn [app] in *.
      change (find_duplicate i (x :: a :: a :: post))
        with (if x =? a then Some (ErrIndicesDuplicate (i - 1) i a)
              else find_duplicate (i + 1) (a :: a :: post)).
      destruct (Z.eqb_spec x a) as [->|Hne].
      * exfalso. apply Hno. exists [], a, []. reflexivity.
      * specialize (IH a post (i + 1) Hno'). cbn [app] in IH.
        rewrite IH, Hl. unfold len. simpl length. f_equal. f_equal; lia.
    + cbn [app] in *.
      change (find_duplicate i (x :: y :: pre ++ a :: a :: post))
        with (if x =? y then Some (ErrIndicesDuplicate (i - 1) i y)
              else find_duplicate (i + 1) (y :: pre ++ a :: a :: post)).
      destruct (Z.eqb_spec x y) as [->|Hne].
      * exfalso. apply Hno. exists [], y, (pre ++ [a]). reflexivity.
      * specialize (IH a post (i + 1) Hno'). cbn [app] in IH.
        rewrite IH, Hl. f_equal. f_equal; lia.
Qed.

Lemma strongly_sorted_loose (l : list Z) :
  StronglySorted Z.lt l -> Sorted Z.le l /\ ~ adjacent_equal l.
Proof.
  intros Hs. split.
  - apply StronglySorted_Sorted in Hs. induction Hs as [|a l Hs IH Hhd]; constructor.
    + exact IH.
    + destruct Hhd; constructor. lia.
  - intros (l1 & a & l2 & ->).
    induction l1 as [|x l1 IH]; cbn [app] in Hs; inversion Hs as [|y l Hs' Hall]; subst.
    + inversion Hall; subst. lia.
    + apply IH. exact Hs'.
Qed.

(** X23: which result [ValidateIndexedAttestationIndicesSet] gives.  More
    than [MAX_VALIDATORS_PER_COMMITTEE] indices give the count error with
    the count, whatever else is wrong; otherwise no index gives the
    empty-attestation error; otherwise indices that are not in ascending
    order give the not-sorted error; otherwise two equal neighbours give the
    duplicate error with the positions and the value of the first such
    pair; and strictly ascending indices, at least one and within the
    count, are returned as they are. *)
Theorem indices_set_result spec ia :
  let l := AttestingIndices ia in
  let result := ValidateIndexedAttestationIndicesSet spec ia in
  (MAX_VALIDATORS_PER_COMMITTEE spec < len l -> result = Err (ErrIndicesCount (len l)))
  /\ (len l <= MAX_VALIDATORS_PER_COMMITTEE spec -> l = [] ->
      result = Err ErrEmptyAttestation)
  /\ (len l <= MAX_VALIDATORS_PER_COMMITTEE spec -> l <> [] -> ~ Sorted Z.le l ->
      result = Err ErrIndicesNotSorted)
  /\ (len l <= MAX_VALIDATORS_PER_COMMITTEE spec -> Sorted Z.le l ->
      forall pre a post,
        l = pre ++ a :: a :: post -> ~ adjacent_equal (pre ++ [a]) ->
        result = Err (ErrIndicesDuplicate (len pre) (len pre + 1) a))
  /\ (len l <= MAX_VALIDATORS_PER_COMMITTEE spec -> l <> [] -> StronglySorted Z.lt l ->
      result = Ok l).
Proof.
  cbv zeta. unfold ValidateIndexedAttestationIndicesSet.
  set (l := AttestingIndices ia).
  split; [|split; [|split; [|split]]].
  - intros Hc. destruct (Z.ltb_spec (MAX_VALIDATORS_PER_COMMITTEE spec) (len l)); [|lia].
    reflexivity.
  - intros Hc Hnil. destruct (Z.ltb_spec (MAX_VALIDATORS_PER_COMMITTEE spec) (len l)); [lia|].
    apply len_nil_iff in Hnil. rewrite Hnil. reflexivity.
  - intros Hc Hne Hns.
    destruct (Z.ltb_spec (MAX_VALIDATORS_PER_COMMITTEE spec) (len l)); [lia|].
    destruct (len l <=? 0) eqn:He; [apply len_nil_iff in He; contradiction|].
    destruct (IsSorted l) eqn:Hs; [apply IsSorted_Sorted in Hs; contradiction|].
    reflexivity.
  - intros Hc Hs pre a post E Hno.
    destruct (Z.ltb_spec (MAX_VALIDATORS_PER_COMMITTEE spec) (len l)); [lia|].
    destruct (len l <=? 0) eqn:He.
    { apply len_nil_iff in He. rewrite He in E. destruct pre; discriminate. }
    apply IsSorted_Sorted in Hs. rewrite Hs. cbn [negb].
    rewrite E, (find_duplicate_first pre a post 1 Hno).
    f_equal. f_equal; lia.
  - intros Hc Hne Hs.
    destruct (Z.ltb_spec (MAX_VALIDATORS_PER_COMMITTEE spec) (len l)); [lia|].
    destruct (len l <=? 0) eqn:He; [apply len_nil_iff in He; contradiction|].
    destruct (strongly_sorted_loose l Hs) as [Hle Hno].
    apply IsSorted_Sorted in Hle. rewrite Hle. cbn [negb].
    pose proof (find_duplicate_spec l 1) as Hd.
    destruct (find_duplicate 1 l); [contradiction|reflexivity].
Qed.

(** * The churn limit *)

(** X20: the churn limit of a returned process.  It is the churn limit of
    the number of registry validators that are active in the current epoch:
    the quotient of that number by [CHURN_LIMIT_QUOTIENT], rounded down,
    and at least [MIN_PER_EPOCH_CHURN_LIMIT].  For a positive quotient it
    grows with the number of active validators and, beyond the minimum,
    allows no more than one validator per [CHURN_LIMIT_QUOTIENT] active
    ones. *)
Theorem churn_limit_of_process ctx spec epc state p :
  PrepareEpochProcess ctx spec epc state = (Some p, None) ->
  let active := len (filter (fun v => IsActive v (CurrentEpoch epc)) (Validators state)) in
  GetChurnLimit spec active = Ok (ChurnLimit p)
  /\ CHURN_LIMIT_QUOTIENT spec <> 0
  /\ ChurnLimit p
     = Z.max (MIN_PER_EPOCH_CHURN_LIMIT spec) (active / CHURN_LIMIT_QUOTIENT spec)
  /\ MIN_PER_EPOCH_CHURN_LIMIT spec <= ChurnLimit p
  /\ (0 < CHURN_LIMIT_QUOTIENT spec ->
      (MIN_PER_EPOCH_CHURN_LIMIT spec < ChurnLimit p ->
       ChurnLimit p * CHURN_LIMIT_QUOTIENT spec <= active)
      /\ forall n limit,
           active <= n -> GetChurnLimit spec n = Ok limit -> ChurnLimit p <= limit).
Proof.
  intros H active. apply returned_Some in H.
  destruct (prepare_epoch_process_Ok _ _ _ _ _ H)
    as (limit & s2 & s3 & out3 & HL & _ & _ & _ & _ & _ & _ & _ & _ & HC & _).
  fold active in HL. rewrite HC. split; [exact HL|].
  unfold GetChurnLimit in *.
  destruct (Z.eqb_spec (CHURN_LIMIT_QUOTIENT spec) 0) as [|Hq]; [discriminate|].
  inversion HL as [Hlimit]. unfold MaxU64 in *.
  split; [exact Hq|]. split; [reflexivity|]. split; [lia|].
  intros Hpos. split.
  - intros Hmin.
    assert (El : Z.max (MIN_PER_EPOCH_CHURN_LIMIT spec) (active / CHURN_LIMIT_QUOTIENT spec)
                 = active / CHURN_LIMIT_QUOTIENT spec) by lia.
    rewrite El. rewrite Z.mul_comm. apply Z.mul_div_le. exact Hpos.
  - intros n limit' Hn Hl'. inversion Hl' as [E].
    pose proof (Z.div_le_mono active n (CHURN_LIMIT_QUOTIENT spec) Hpos Hn). lia.
Qed.

Lemma churn_limit_of_process_witness :
  exists p,
    PrepareEpochProcess never_cancelled mainnet (epoch_ten [0])
      (quiet_state [active_validator; ejectable_validator] 0) = (Some p, None)
    /\ ChurnLimit p = 4
    /\ GetChurnLimit mainnet
         (len (filter (fun v => IsActive v 10)
                 (Validators (quiet_state [active_validator; ejectable_validator] 0))))
       = Ok (ChurnLimit p).
Proof.
  eexists. split; [vm_compute; reflexivity|]. split; [reflexivity|].
  eapply (churn_limit_of_process never_cancelled mainnet (epoch_ten [0])
            (quiet_state [active_validator; ejectable_validator] 0)).
  vm_compute. reflexivity.
Defined.

(** * The two exit queues *)

(** X21: where the two ways to exit agree.  The epoch transition starts
    its exit queue at [ComputeActivationExitEpoch(current_epoch)], while
    [InitiateValidatorExit] scans the registry for the latest exit epoch.
    When no validator is scheduled to exit later than that epoch, the
    epoch is not the far-future epoch and the context lists as many active
    indices as the registry has active validators, the exit epoch that
    [InitiateValidatorExit] gives to a validator without one is the
    [ExitQueueEnd] of the process prepared from the same state: the epoch
    the first ejected validator gets. *)
Theorem exit_queues_agree ctx spec epc state p (index : ValidatorIndex) (v : FlatValidator) :
  PrepareEpochProcess ctx spec epc state = (Some p, None) ->
  (forall w, In w (Validators state) -> ExitEpoch w <> FAR_FUTURE_EPOCH ->
             ExitEpoch w <= ComputeActivationExitEpoch spec (CurrentEpoch epc)) ->
  ComputeActivationExitEpoch spec (CurrentEpoch epc) <> FAR_FUTURE_EPOCH ->
  len (CurrentActiveIndices epc)
  = len (filter (fun w => IsActive w (CurrentEpoch epc)) (Validators state)) ->
  registry_get (Validators state) index = Ok v ->
  ExitEpoch v = FAR_FUTURE_EPOCH ->
  exit_epoch_of (fst (InitiateValidatorExit spec epc index (Validators state))) index
  = ExitQueueEnd p.
Proof.
  intros H Hlater HE Hactive Hv Hfar. apply returned_Some in H.
  destruct (prepare_epoch_process_Ok _ _ _ _ _ H)
    as (limit & s2 & s3 & out3 & HL & _ & _ & _ & _ & _ & _ & _ & _ & HC & HQ & _).
  rewrite count_exit_queue_end_filter, Z.add_0_l in HQ.
  assert (Hq : CHURN_LIMIT_QUOTIENT spec <> 0).
  { unfold GetChurnLimit in HL.
    destruct (Z.eqb_spec (CHURN_LIMIT_QUOTIENT spec) 0); [discriminate|assumption]. }
  destruct (InitiateValidatorExit_unset spec epc index _ v Hv Hfar Hq)
    as (pre & rest & q & c & limit' & E & Hl & Hscan & HL' & Hrun).
  rewrite Hactive, HL in HL'. inversion HL'; subst limit'. clear HL'.
  destruct (scan_exit_queue_spec _ _ _ _ _ Hscan) as (A & B & C & D).
  assert (Eq : q = ComputeActivationExitEpoch spec (CurrentEpoch epc)).
  { destruct C as [C|(Hlt & w & Hw & Ew & Hn)]; [exact C|].
    assert (ExitEpoch w <= ComputeActivationExitEpoch spec (CurrentEpoch epc))
      by (apply Hlater; [exact Hw|congruence]).
    lia. }
  assert (Ec : c = len (filter (fun w => ExitEpoch w =? q) (Validators state))).
  { rewrite D. rewrite Eq at 1. rewrite Z.eqb_refl, Z.add_0_l.
    change (len (filter (fun w => (ExitEpoch w =? q)
                                  && negb (ExitEpoch w =? FAR_FUTURE_EPOCH))
                   (Validators state)))
      with (scheduled_exits_at q (Validators state)).
    rewrite scheduled_exits_at_set by congruence. reflexivity. }
  rewrite Hrun. cbn [fst]. unfold exit_epoch_of.
  rewrite <- Hl, registry_get_app. cbn [ExitEpoch SetWithdrawableEpoch SetExitEpoch].
  rewrite HQ, Ec, Eq. reflexivity.
Qed.

Lemma exit_queues_agree_witness :
  exists p,
    PrepareEpochProcess never_cancelled mainnet (epoch_ten [0; 1])
      (quiet_state [active_validator; ejectable_validator] 0) = (Some p, None)
    /\ ExitQueueEnd p = 15
    /\ exit_epoch_of
         (fst (InitiateValidatorExit mainnet (epoch_ten [0; 1]) 1
                 (Validators (quiet_state [active_validator; ejectable_validator] 0)))) 1
       = ExitQueueEnd p.
Proof.
  eexists. split; [vm_compute; reflexivity|]. split; [reflexivity|].
  eapply (exit_queues_agree never_cancelled mainnet (epoch_ten [0; 1])
            (quiet_state [active_validator; ejectable_validator] 0) _ 1
            ejectable_validator).
  - vm_compute. reflexivity.
  - intros w Hin Hset. exfalso. simpl in Hin.
    destruct Hin as [<-|[<-|[]]]; apply Hset; reflexivity.
  - vm_compute. discriminate.
  - vm_compute. reflexivity.
  - vm_compute. reflexivity.
  - reflexivity.
Defined.

(** * The collector: the order of the pending attestations *)

Lemma map_eq_index_at {A B : Type} (g : A -> B) (l l' : list A) :
  length l = length l' ->
  (forall i a b, index_at l i = Ok a -> index_at l' i = Ok b -> g a = g b) ->
  map g l = map g l'.
Proof.
  revert l'. induction l as [|x l IH]; intros [|y l'] Hlen H; simpl in Hlen;
    try discriminate; [reflexivity|].
  cbn [map]. f_equal.
  - apply (H 0); reflexivity.
  - apply IH; [lia|]. intros i a b Ha Hb.
    assert (Hi : 0 <= i).
    { unfold index_at in Ha. destruct (Z.ltb_spec i 0); [discriminate|assumption]. }
    apply (H (i + 1)).
    + unfold index_at in *. destruct (Z.ltb_spec (i + 1) 0); [lia|].
      destruct (Z.ltb_spec i 0); [lia|].
      replace (Z.to_nat (i + 1)) with (S (Z.to_nat i)) by lia. exact Ha.
    + unfold index_at in *. destruct (Z.ltb_spec (i + 1) 0); [lia|].
      destruct (Z.ltb_spec i 0); [lia|].
      replace (Z.to_nat (i + 1)) with (S (Z.to_nat i)) by lia. exact Hb.
Qed.

Lemma map_pair_eq {A B C : Type} (f : A -> B) (g : A -> C) (l l' : list A) :
  map f l = map f l' -> map g l = map g l' ->
  map (fun x => (f x, g x)) l = map (fun x => (f x, g x)) l'.
Proof.
  revert l'. induction l as [|x l IH]; intros [|y l'] Hf Hg; simpl in *;
    try discriminate; [reflexivity|].
  inversion Hf. inversion Hg. rewrite (IH l') by assumption. congruence.
Qed.

Lemma processEpoch_Active ctx spec epc state prevEpoch pass atts epoch sf tf hf s t :
  processEpoch ctx spec epc state prevEpoch pass atts epoch sf tf hf s = Ok t ->
  map Active t = map Active s.
Proof.
  intros H.
  apply (processEpoch_keeps ctx spec epc state prevEpoch pass epoch sf tf hf
           (fun u => map Active u = map Active s)) with (s := s) (atts := atts);
    [| |reflexivity|exact H].
  - intros att u p v Hu Hm. rewrite <- Hu. eapply modify_at_map; [|exact Hm].
    intros a. unfold note_inclusion.
    match goal with |- context [if ?c then _ else _] => destruct c end; reflexivity.
  - intros att r1 r2 u p v Hu Hm. rewrite <- Hu. eapply modify_at_map; [|exact Hm].
    intros a. unfold mark_flags. destruct (_ =? r1); [destruct (_ =? r2)|]; reflexivity.
Qed.

Lemma prepare_Active ctx spec epc state p :
  prepare_epoch_process ctx spec epc state = Ok p ->
  map Active (Statuses p)
  = map (fun v => IsActive v (CurrentEpoch epc)) (Validators state).
Proof.
  intros H.
  destruct (prepare_epoch_process_Ok _ _ _ _ _ H)
    as (limit & s2 & s3 & out3 & _ & E2 & E3 & _ & -> & _).
  rewrite (processEpoch_Active _ _ _ _ _ _ _ _ _ _ _ _ _ E3).
  rewrite (processEpoch_Active _ _ _ _ _ _ _ _ _ _ _ _ _ E2).
  rewrite map_map. apply map_ext. intros v.
  destruct (collect_status_fields (PreviousEpoch epc) (CurrentEpoch epc) v) as (_ & A & _).
  exact A.
Qed.

(** Bit [n] of the flags of a returned status: what pass 1 set, and what
    the attestations of either epoch raise. *)
Lemma prepare_flag_bit ctx spec epc state p i v status (n : Z) :
  prepare_epoch_process ctx spec epc state = Ok p ->
  index_at (Validators state) i = Ok v ->
  index_at (Statuses p) i = Ok status ->
  (Z.testbit (Flags status) n = true <->
     Z.testbit (Flags (collect_status (PreviousEpoch epc) (CurrentEpoch epc) v zero_status)) n
     = true
     \/ (exists att, In att (PreviousEpochAttestations state) /\ participates epc att i
                     /\ raises spec state (PreviousEpoch epc) PrevSourceAttester
                          PrevTargetAttester PrevHeadAttester n att)
     \/ (exists att, In att (CurrentEpochAttestations state) /\ participates epc att i
                     /\ raises spec state (CurrentEpoch epc) CurrSourceAttester
                          CurrTargetAttester CurrHeadAttester n att)).
Proof.
  intros H Hv Hi.
  destruct (prepare_epoch_process_Ok _ _ _ _ _ H)
    as (limit & s2 & s3 & out3 & _ & E2 & E3 & _ & HS & _).
  rewrite HS in Hi.
  set (a := collect_status (PreviousEpoch epc) (CurrentEpoch epc) v zero_status).
  assert (Ha : index_at (map (fun v => collect_status (PreviousEpoch epc) (CurrentEpoch epc)
                                         v zero_status) (Validators state)) i = Ok a).
  { unfold index_at in *. destruct (i <? 0); [discriminate|].
    rewrite nth_error_map. destruct (nth_error (Validators state) (Z.to_nat i));
      [|discriminate]. inversion Hv. reflexivity. }
  destruct (processEpoch_flags _ _ _ _ _ _ _ _ _ _ _ _ _ i a n E2 Ha) as (b2 & Hb2 & G2).
  destruct (processEpoch_flags _ _ _ _ _ _ _ _ _ _ _ _ _ i b2 n E3 Hb2) as (b3 & Hb3 & G3).
  rewrite Hi in Hb3. inversion Hb3; subst b3.
  rewrite G3, G2. unfold raises. tauto.
Qed.

Lemma raises_same_roots spec state state' epoch sf tf hf n att :
  (forall slot, GetBlockRootAtSlot state' slot = GetBlockRootAtSlot state slot) ->
  raises spec state' epoch sf tf hf n att <-> raises spec state epoch sf tf hf n att.
Proof.
  intros Hroots. unfold raises, votes_target, votes_head.
  rewrite Hroots.
  assert (Ht : (exists startSlot, EpochStartSlot spec epoch = Ok startSlot
                  /\ GetBlockRootAtSlot state' startSlot = Ok (cp_Root (Target (Data att))))
               <-> (exists startSlot, EpochStartSlot spec epoch = Ok startSlot
                      /\ GetBlockRootAtSlot state startSlot
                         = Ok (cp_Root (Target (Data att))))).
  { split; intros (s & Hs & Hr); exists s; (split; [exact Hs|]);
      [rewrite <- Hroots|rewrite Hroots]; exact Hr. }
  rewrite Ht. reflexivity.
Qed.

Lemma validators_with_same (c : AttesterStatus -> bool) (l l' : list AttesterStatus) :
  (forall s s', Flags s = Flags s' -> c s = c s') ->
  map (fun s => (Validator s, (Flags s, Active s))) l
  = map (fun s => (Validator s, (Flags s, Active s))) l' ->
  validators_with c l = validators_with c l'.
Proof.
  intros Hc. unfold validators_with.
  revert l'. induction l as [|x l IH]; intros [|y l'] H; simpl in H;
    try discriminate; [reflexivity|].
  inversion H as [[Hv Hf Ha Hrest]]. cbn [filter].
  rewrite (Hc x y Hf). destruct (c y); cbn [map]; rewrite (IH l' Hrest); congruence.
Qed.

(** X22: the order of the pending attestations does not matter for the
    flags and the totals.  Two states with the same registry and block
    roots whose pending attestations are the same up to their order, in
    either epoch, give -- when [PrepareEpochProcess] returns a process for
    both -- statuses with the same validators, flags and activity, the same
    five stake totals, the same four queues, and the same exit-queue cursor
    and churn limit.  (The inclusion delay and proposer of a status may
    differ: among attestations of equal delay the first one counts.) *)
Theorem attestation_order_irrelevant ctx ctx' spec epc state state' p p' :
  PrepareEpochProcess ctx spec epc state = (Some p, None) ->
  PrepareEpochProcess ctx' spec epc state' = (Some p', None) ->
  Validators state' = Validators state ->
  (forall slot, GetBlockRootAtSlot state' slot = GetBlockRootAtSlot state slot) ->
  Permutation (PreviousEpochAttestations state) (PreviousEpochAttestations state') ->
  Permutation (CurrentEpochAttestations state) (CurrentEpochAttestations state') ->
  map (fun s => (Validator s, (Flags s, Active s))) (Statuses p')
  = map (fun s => (Validator s, (Flags s, Active s))) (Statuses p)
  /\ TotalActiveStake p' = TotalActiveStake p
  /\ PrevEpochUnslashedStake p' = PrevEpochUnslashedStake p
  /\ CurrEpochUnslashedTargetStake p' = CurrEpochUnslashedTargetStake p
  /\ IndicesToSlash p' = IndicesToSlash p
  /\ IndicesToSetActivationEligibility p' = IndicesToSetActivationEligibility p
  /\ IndicesToMaybeActivate p' = IndicesToMaybeActivate p
  /\ IndicesToEject p' = IndicesToEject p
  /\ ExitQueueEnd p' = ExitQueueEnd p
  /\ ExitQueueEndChurn p' = ExitQueueEndChurn p
  /\ ChurnLimit p' = ChurnLimit p.
Proof.
  intros H H' HV Hroots Hprev Hcurr.
  pose proof H as R. pose proof H' as R'.
  apply returned_Some in R. apply returned_Some in R'.
  assert (Hstatuses : map (fun s => (Validator s, (Flags s, Active s))) (Statuses p')
                      = map (fun s => (Validator s, (Flags s, Active s))) (Statuses p)).
  { pose proof (prepare_Validators _ _ _ _ _ R) as V.
    pose proof (prepare_Validators _ _ _ _ _ R') as V'.
    apply map_pair_eq; [rewrite V, V'; exact HV|].
    apply map_pair_eq;
      [|rewrite (prepare_Active _ _ _ _ _ R), (prepare_Active _ _ _ _ _ R'), HV;
        reflexivity].
    apply map_eq_index_at.
    { apply (f_equal (@length _)) in V. apply (f_equal (@length _)) in V'.
      rewrite length_map in V, V'. congruence. }
    intros i a b Ha Hb.
    assert (exists v, index_at (Validators state) i = Ok v) as [v Hv].
    { apply (index_at_same_length (Statuses p) (Validators state) i b); [|exact Hb].
      rewrite <- V, length_map. reflexivity. }
    apply Z.bits_inj'. intros n _. apply Bool.eq_iff_eq_true.
    rewrite (prepare_flag_bit _ _ _ _ _ i v a n R' (eq_ind_r (fun l => index_at l i = Ok v)
                                                     Hv HV) Ha).
    rewrite (prepare_flag_bit _ _ _ _ _ i v b n R Hv Hb).
    assert (Hex : forall epoch sf tf hf (l l' : list PendingAttestation),
              Permutation l l' ->
              ((exists att, In att l' /\ participates epc att i
                            /\ raises spec state' epoch sf tf hf n att)
               <-> (exists att, In att l /\ participates epc att i
                                /\ raises spec state epoch sf tf hf n att))).
    { intros epoch sf tf hf l l' Hp. split; intros (att & Hin & Hpart & Hr); exists att.
      - split; [eapply Permutation_in; [symmetry; exact Hp|exact Hin]|].
        split; [exact Hpart|]. apply (raises_same_roots _ _ _ _ _ _ _ _ _ Hroots). exact Hr.
      - split; [eapply Permutation_in; [exact Hp|exact Hin]|].
        split; [exact Hpart|]. apply (raises_same_roots _ _ _ _ _ _ _ _ _ Hroots). exact Hr. }
    rewrite (Hex _ _ _ _ _ _ Hprev), (Hex _ _ _ _ _ _ Hcurr). reflexivity. }
  split; [exact Hstatuses|].
  split.
  { rewrite (prepare_active_stake _ _ _ _ _ H), (prepare_active_stake _ _ _ _ _ H'), HV.
    reflexivity. }
  destruct (prepare_attester_stakes _ _ _ _ _ H) as (S1 & S2 & S3 & S4).
  destruct (prepare_attester_stakes _ _ _ _ _ H') as (S1' & S2' & S3' & S4').
  assert (Hsame : forall c, (forall s s', Flags s = Flags s' -> c s = c s') ->
                            validators_with c (Statuses p') = validators_with c (Statuses p))
    by (intros c Hc; apply validators_with_same; assumption).
  split.
  { destruct (PrevEpochUnslashedStake p') as [a1 a2 a3].
    destruct (PrevEpochUnslashedStake p) as [b1 b2 b3]. cbn in *.
    rewrite S1, S2, S3, S1', S2', S3'.
    rewrite !Hsame; [reflexivity| | |];
      unfold counts_as_head, counts_as_target, counts_as_source; intros s s' ->; reflexivity. }
  split.
  { rewrite S4, S4', Hsame; [reflexivity|].
    unfold counts_as_current_target. intros s s' ->. reflexivity. }
  destruct (prepare_epoch_process_Ok _ _ _ _ _ R)
    as (limit & s2 & s3 & out3 & HL & _ & _ & _ & _ & Q1 & Q2 & Q3 & Q4 & Q5 & Q6 & Q7).
  destruct (prepare_epoch_process_Ok _ _ _ _ _ R')
    as (limit' & s2' & s3' & out3' & HL' & _ & _ & _ & _
        & Q1' & Q2' & Q3' & Q4' & Q5' & Q6' & Q7').
  rewrite HV in *. rewrite HL in HL'. injection HL' as El.
  rewrite Q1, Q2, Q3, Q4, Q5, Q6, Q7, Q1', Q2', Q3', Q4', Q5', Q6', Q7', <- El.
  repeat split.
Qed.

Lemma attestation_order_irrelevant_witness :
  exists p p',
    PrepareEpochProcess never_cancelled mainnet (epoch_ten [0])
      (twice_attested [head_vote; late_vote]) = (Some p, None)
    /\ PrepareEpochProcess never_cancelled mainnet (epoch_ten [0])
         (twice_attested [late_vote; head_vote]) = (Some p', None)
    /\ map (fun s => (Validator s, (Flags s, Active s))) (Statuses p')
       = map (fun s => (Validator s, (Flags s, Active s))) (Statuses p)
    /\ PrevEpochUnslashedStake p' = PrevEpochUnslashedStake p.
Proof.
  eexists. eexists. split; [vm_compute; reflexivity|]. split; [vm_compute; reflexivity|].
  assert (Hall := attestation_order_irrelevant never_cancelled never_cancelled mainnet
                    (epoch_ten [0]) (twice_attested [head_vote; late_vote])
                    (twice_attested [late_vote; head_vote]) _ _
                    ltac:(vm_compute; reflexivity) ltac:(vm_compute; reflexivity)
                    eq_refl (fun _ => eq_refl)
                    (perm_swap late_vote head_vote []) (Permutation_refl _)).
  destruct Hall as (A & _ & B & _). split; [exact A|exact B].
Defined.

(** * Ejections into an epoch that holds exits already *)

Lemma registry_get_nth (vals : ValidatorsRegistryView) (i : ValidatorIndex)
    (v : FlatValidator) :
  registry_get vals i = Ok v <-> 0 <= i /\ nth_error vals (Z.to_nat i) = Some v.
Proof.
  unfold registry_get. destruct (Z.ltb_spec i 0).
  - split; [discriminate|lia].
  - destruct (nth_error vals (Z.to_nat i)) as [w|]; split.
    + intros E. inversion E. auto.
    + intros [_ E]. inversion E. reflexivity.
    + discriminate.
    + intros [_ E]. discriminate.
Qed.

Lemma exits_at_monotone (e : Epoch) (vals : list FlatValidator) :
  forall vals1,
    length vals = length vals1 ->
    (forall k v, nth_error vals k = Some v -> ExitEpoch v = e ->
                 exists v', nth_error vals1 k = Some v' /\ ExitEpoch v' = e) ->
    exits_at e vals <= exits_at e vals1.
Proof.
  induction vals as [|x xs IH]; intros [|y ys] Hlen Hmono; simpl in Hlen;
    try (exfalso; discriminate Hlen); [apply Z.le_refl|].
  rewrite !exits_at_cons.
  assert (Htail : exits_at e xs <= exits_at e ys).
  { apply IH; [lia|]. intros k v Hk Hv. apply (Hmono (S k) v Hk Hv). }
  destruct (Z.eqb_spec (ExitEpoch x) e) as [Hx|_].
  - destruct (Hmono 0%nat x eq_refl Hx) as (v' & Hv' & He). inversion Hv'; subst v'.
    rewrite He, Z.eqb_refl. lia.
  - destruct (ExitEpoch y =? e); lia.
Qed.

Lemma exits_at_grows (e : Epoch) (vals : list FlatValidator) :
  forall vals1 k0 v0 v1,
    length vals = length vals1 ->
    (forall k v, nth_error vals k = Some v -> ExitEpoch v = e ->
                 exists v', nth_error vals1 k = Some v' /\ ExitEpoch v' = e) ->
    nth_error vals k0 = Some v0 -> ExitEpoch v0 <> e ->
    nth_error vals1 k0 = Some v1 -> ExitEpoch v1 = e ->
    exits_at e vals + 1 <= exits_at e vals1.
Proof.
  induction vals as [|x xs IH]; intros [|y ys] k0 v0 v1 Hlen Hmono H0 Hne H1 He;
    simpl in Hlen; try (exfalso; discriminate Hlen).
  - destruct k0; discriminate.
  - rewrite !exits_at_cons.
    assert (Hmono' : forall k v, nth_error xs k = Some v -> ExitEpoch v = e ->
                                 exists v', nth_error ys k = Some v' /\ ExitEpoch v' = e)
      by (intros k v Hk Hv; apply (Hmono (S k) v Hk Hv)).
    destruct k0 as [|k0]; simpl in H0, H1.
    + inversion H0; subst x. inversion H1; subst y.
      destruct (Z.eqb_spec (ExitEpoch v0) e); [contradiction|].
      rewrite He, Z.eqb_refl.
      pose proof (exits_at_monotone e xs ys ltac:(lia) Hmono'). lia.
    + pose proof (IH ys k0 v0 v1 ltac:(lia) Hmono' H0 Hne H1 He) as Hrec.
      destruct (Z.eqb_spec (ExitEpoch x) e) as [Hx|_].
      * destruct (Hmono 0%nat x eq_refl Hx) as (v' & Hv' & He'). inversion Hv'; subst v'.
        rewrite He', Z.eqb_refl. lia.
      * destruct (ExitEpoch y =? e); lia.
Qed.

Lemma exits_at_map (e : Epoch) (a b : list FlatValidator) :
  map ExitEpoch a = map ExitEpoch b -> exits_at e a = exits_at e b.
Proof.
  revert b. induction a as [|x a IH]; intros [|y b] H; simpl in H; try discriminate.
  - reflexivity.
  - inversion H as [[Hx Hrest]]. rewrite !exits_at_cons, Hx, (IH b Hrest). reflexivity.
Qed.

(** X1: the epoch transition can overfill an exit epoch.  When the
    validators that exit at [ComputeActivationExitEpoch(current_epoch)] are
    as many as the churn limit or more, the cursor of the prepared process
    moves to the next epoch with a count of zero, whatever the number of
    validators that exit at that next epoch already.  So the first index of
    the ejection queue is given the next epoch by a run of
    [ProcessEpochRegistryUpdates], and that epoch ends up with at least one
    exit more than it had -- more than the churn limit, if it held as many
    before. *)
Theorem ejection_overfills_next_epoch ctx spec epc state p ctx' i0 rest :
  PrepareEpochProcess ctx spec epc state = (Some p, None) ->
  ctx' PollRegistryUpdates = false ->
  ChurnLimit p
  <= exits_at (ComputeActivationExitEpoch spec (CurrentEpoch epc)) (Validators state) ->
  wrap64 (ComputeActivationExitEpoch spec (CurrentEpoch epc) + 1) <> FAR_FUTURE_EPOCH ->
  IndicesToEject p = i0 :: rest ->
  let next := wrap64 (ComputeActivationExitEpoch spec (CurrentEpoch epc) + 1) in
  let vals' := fst (ProcessEpochRegistryUpdates ctx' spec epc p state) in
  ExitQueueEnd p = next /\ ExitQueueEndChurn p = 0
  /\ exit_epoch_of vals' i0 = next
  /\ exits_at next (Validators state) + 1 <= exits_at next vals'.
Proof.
  intros H Hc Hfull Hnext Hq next vals'. apply returned_Some in H.
  destruct (prepare_epoch_process_Ok _ _ _ _ _ H)
    as (limit & s2 & s3 & out3 & _ & _ & _ & _ & _ & _ & _ & _ & Q4 & HC & HE & HEC).
  rewrite count_exit_queue_end_filter, Z.add_0_l in HE, HEC.
  change (len (filter (fun v => ExitEpoch v =? ComputeActivationExitEpoch spec (CurrentEpoch epc))
                  (Validators state)))
    with (exits_at (ComputeActivationExitEpoch spec (CurrentEpoch epc)) (Validators state))
    in HE, HEC.
  rewrite HC in Hfull.
  assert (Hge : (exits_at (ComputeActivationExitEpoch spec (CurrentEpoch epc))
                   (Validators state) >=? limit) = true).
  { apply Z.geb_le. exact Hfull. }
  rewrite Hge in HE, HEC. fold next in HE.
  split; [exact HE|]. split; [exact HEC|].
  destruct (registry_updates_run ctx spec epc epc state p H)
    as (vals1 & vals2 & vals3 & H1 & H2 & H3 & L1 & L2 & L3 & _ & Hrun).
  subst vals'. rewrite (Hrun ctx' Hc). cbn [fst].
  (* the ejection pass *)
  assert (Hnodup : NoDup (IndicesToEject p))
    by (rewrite Q4; apply select_indices_NoDup).
  destruct (process_ejections_Ok spec _ _ _ _ _ _ H1 Hnodup) as [Hsched Hall].
  rewrite Hq in Hsched. cbn [map length exit_schedule] in Hsched.
  injection Hsched as Hi0 _. rewrite HE in Hi0.
  assert (Hin0 : In i0 (IndicesToEject p)) by (rewrite Hq; left; reflexivity).
  assert (Hqueued : forall i v, In i (IndicesToEject p) ->
                                registry_get (Validators state) i = Ok v ->
                                ExitEpoch v = FAR_FUTURE_EPOCH).
  { intros i v Hin Hv. rewrite Q4 in Hin. apply select_indices_In0 in Hin.
    destruct Hin as (w & Hw & Hcw). rewrite Hv in Hw. inversion Hw; subst w.
    unfold queued_to_eject in Hcw. apply andb_true_iff in Hcw.
    destruct Hcw as [_ Hcw]. apply Z.eqb_eq in Hcw. exact Hcw. }
  (* the later passes keep the exit epochs *)
  pose proof (keeps_process_eligibility ExitEpoch (wrap64 (CurrentEpoch epc + 1))
                (IndicesToSetActivationEligibility p) (fun _ _ => eq_refl) vals1) as K2.
  rewrite H2 in K2. cbn [fst] in K2.
  pose proof (keeps_process_activations ExitEpoch p (cp_Epoch (FinalizedCheckpoint state))
                (ComputeActivationExitEpoch spec (CurrentEpoch epc)) (churn_prefix p)
                (fun _ _ => eq_refl) vals2) as K3.
  rewrite H3 in K3. cbn [fst] in K3.
  assert (K : map ExitEpoch vals3 = map ExitEpoch vals1) by congruence.
  rewrite Forall_forall in Hall.
  destruct (Hall i0 Hin0) as (v0 & v1 & Hv0 & Hv1 & _).
  assert (He1 : ExitEpoch v1 = next).
  { unfold exit_epoch_of in Hi0. rewrite Hv1 in Hi0. exact Hi0. }
  split.
  - destruct (registry_get_keeps ExitEpoch vals1 vals3 i0 v1 K Hv1) as (v3 & Hv3 & He3).
    unfold exit_epoch_of. rewrite Hv3. congruence.
  - rewrite (exits_at_map next vals3 vals1 K).
    apply (proj1 (registry_get_nth _ _ _)) in Hv0. destruct Hv0 as [Hpos Hn0].
    apply (proj1 (registry_get_nth _ _ _)) in Hv1. destruct Hv1 as [_ Hn1].
    apply (exits_at_grows next (Validators state) vals1 (Z.to_nat i0) v0 v1).
    + unfold len in L1. lia.
    + intros k v Hk Hv.
      assert (Hget : registry_get (Validators state) (Z.of_nat k) = Ok v).
      { apply registry_get_nth. rewrite Nat2Z.id. split; [lia|exact Hk]. }
      destruct (in_dec Z.eq_dec (Z.of_nat k) (IndicesToEject p)) as [Hin|Hout].
      * exfalso. apply Hnext. rewrite <- (Hqueued _ _ Hin Hget). fold next. congruence.
      * pose proof (process_ejections_frame spec (ChurnLimit p) (IndicesToEject p)
                      (ExitQueueEnd p) (ExitQueueEndChurn p) (Validators state)
                      (Z.of_nat k) Hout) as F.
        rewrite H1 in F. cbn [fst] in F. rewrite Hget in F.
        apply (proj1 (registry_get_nth _ _ _)) in F. destruct F as [_ F].
        rewrite Nat2Z.id in F. exists v. split; [exact F|exact Hv].
    + exact Hn0.
    + assert (Hfar : ExitEpoch v0 = FAR_FUTURE_EPOCH).
      { apply (Hqueued i0 v0 Hin0). apply registry_get_nth. split; assumption. }
      rewrite Hfar. intros E. apply Hnext. fold next. congruence.
    + exact Hn1.
    + exact He1.
Qed.

Lemma ejection_overfills_next_epoch_witness :
  exists p,
    PrepareEpochProcess never_cancelled mainnet (epoch_ten [0; 1; 2; 3; 4; 5; 6; 7; 8])
      (quiet_state full_exit_queue 0) = (Some p, None)
    /\ ChurnLimit p = 4
    /\ exits_at 16 (Validators (quiet_state full_exit_queue 0)) = 4
    /\ ExitQueueEnd p = 16 /\ ExitQueueEndChurn p = 0
    /\ exit_epoch_of
         (fst (ProcessEpochRegistryUpdates never_cancelled mainnet
                 (epoch_ten [0; 1; 2; 3; 4; 5; 6; 7; 8]) p (quiet_state full_exit_queue 0)))
         8 = 16
    /\ exits_at 16 (Validators (quiet_state full_exit_queue 0)) + 1
       <= exits_at 16
            (fst (ProcessEpochRegistryUpdates never_cancelled mainnet
                    (epoch_ten [0; 1; 2; 3; 4; 5; 6; 7; 8]) p
                    (quiet_state full_exit_queue 0))).
Proof.
  eexists. split; [vm_compute; reflexivity|]. split; [reflexivity|].
  split; [reflexivity|].
  eapply (ejection_overfills_next_epoch never_cancelled mainnet
            (epoch_ten [0; 1; 2; 3; 4; 5; 6; 7; 8]) (quiet_state full_exit_queue 0) _
            never_cancelled 8 []).
  - vm_compute. reflexivity.
  - reflexivity.
  - vm_compute. discriminate.
  - vm_compute. discriminate.
  - reflexivity.
Defined.
